(** * WoL-Caster: network discovery and device identity resolution

    A shallow embedding of the discovery engine of [wol_caster.py]
    (status prober, MAC resolver, vendor lookup, identity resolver, scan
    scheduler and known-device merge) together with the properties the
    specification states about it.

    Python strings are Rocq strings (the text the engine handles is ASCII:
    addresses, hex digits, separators, tool output); a Python [dict] with
    string keys is a [gmap string value]; Python lists are lists.  Code that
    can raise returns an [option] or a dedicated outcome type, and every
    [try]/[except] of the source appears as the match that swallows the
    failure. *)

From Stdlib Require Import ZArith Ascii String List Lia.
From stdpp Require Import base option list gmap strings relations.

Local Open Scope Z_scope.
Local Open Scope nat_scope.

(* ===================================================================== *)
(** * Part I. Definitions *)
(* ===================================================================== *)

(** ** Python string primitives *)

Module PyStr.

(** [s.replace(c, '')] for a one-character [c]. *)
Fixpoint remove_char (c : ascii) (s : string) : string :=
  match s with
  | EmptyString => EmptyString
  | String a s' =>
      if Ascii.eqb a c then remove_char c s' else String a (remove_char c s')
  end.

(** [s.replace(c, d)] for one-character [c] and [d]. *)
Fixpoint replace_char (c d : ascii) (s : string) : string :=
  match s with
  | EmptyString => EmptyString
  | String a s' =>
      String (if Ascii.eqb a c then d else a) (replace_char c d s')
  end.

(** [s[i:j]] for [0 <= i]; like Python, the slice is clipped to the string. *)
Definition slice (i j : nat) (s : string) : string := substring i (j - i) s.

(** [c * n] for a one-character [c]. *)
Fixpoint repeat_char (c : ascii) (n : nat) : string :=
  match n with
  | O => EmptyString
  | S n' => String c (repeat_char c n')
  end.

(** [sep.join(parts)]. *)
Definition join (sep : string) (parts : list string) : string :=
  String.concat sep parts.

Fixpoint range_from (count start step : nat) : list nat :=
  match count with
  | O => []
  | S count' => start :: range_from count' (start + step) step
  end.

(** [range(start, stop, step)] for a positive [step]. *)
Definition range (start stop step : nat) : list nat :=
  range_from ((stop - start + (step - 1)) / step) start step.

Definition upper_char (a : ascii) : ascii :=
  let n := nat_of_ascii a in
  if (97 <=? n) && (n <=? 122) then ascii_of_nat (n - 32) else a.

(** [s.upper()] on ASCII text. *)
Fixpoint upper (s : string) : string :=
  match s with
  | EmptyString => EmptyString
  | String a s' => String (upper_char a) (upper s')
  end.

(** [s.startswith(p)]. *)
Definition startswith (p s : string) : bool := String.prefix p s.

(** [p in s] (substring test). *)
Fixpoint contains (p s : string) : bool :=
  if String.prefix p s then true
  else match s with
       | EmptyString => false
       | String _ s' => contains p s'
       end.

(** [s.split(c)] for a one-character separator: never the empty list. *)
Fixpoint split_go (c : ascii) (cur : string) (s : string) : list string :=
  match s with
  | EmptyString => [String.rev cur]
  | String a s' =>
      if Ascii.eqb a c then String.rev cur :: split_go c EmptyString s'
      else split_go c (String a cur) s'
  end.

Definition split (c : ascii) (s : string) : list string :=
  split_go c EmptyString s.

(** The characters below 256 that [str.isspace] accepts. *)
Definition is_space (a : ascii) : bool :=
  let n := nat_of_ascii a in
  ((9 <=? n) && (n <=? 13)) || ((28 <=? n) && (n <=? 32))
  || (n =? 133) || (n =? 160).

Fixpoint lstrip (s : string) : string :=
  match s with
  | EmptyString => EmptyString
  | String a s' => if is_space a then lstrip s' else s
  end.

(** [s.strip()]. *)
Definition strip (s : string) : string :=
  String.rev (lstrip (String.rev (lstrip s))).

(** [parts[-1]] (raises [IndexError] on the empty list). *)
Definition last_item (parts : list string) : option string := last parts.

(** [ip.split('.')[-1]]: the split of a string is never empty, so the
    index never fails; the default is unreachable. *)
Definition last_octet (ip : string) : string :=
  default EmptyString (last_item (split "." ip)).

(** Truthiness of a string. *)
Definition nonempty (s : string) : bool :=
  match s with EmptyString => false | _ => true end.

Definition lower_char (a : ascii) : ascii :=
  let n := nat_of_ascii a in
  if (65 <=? n) && (n <=? 90) then ascii_of_nat (n + 32) else a.

(** [s.lower()] on ASCII text. *)
Fixpoint lower (s : string) : string :=
  match s with
  | EmptyString => EmptyString
  | String a s' => String (lower_char a) (lower s')
  end.

(** [s.split(c, 1)[1]]: the text after the first [c]; the index fails when
    there is no [c]. *)
Fixpoint after_first (c : ascii) (s : string) : option string :=
  match s with
  | EmptyString => None
  | String a s' => if Ascii.eqb a c then Some s' else after_first c s'
  end.

End PyStr.

(** ** MAC resolver: the padding rule *)

(** [mac_address.replace(':', '').replace('-', '')] *)
Definition strip_separators (mac_address : string) : string :=
  PyStr.remove_char "-" (PyStr.remove_char ":" mac_address).

(** [':'.join([s[i:i+2] for i in range(0, 12, 2)])] *)
Definition format_with_colons (s : string) : string :=
  PyStr.join ":"
    (map (fun i => PyStr.slice i (i + 2) s) (PyStr.range 0 12 2)).

(** [pad_mac_address] (wol_caster.py, 551-582).  The [print] calls of the
    padding and truncation branches have no effect on the result. *)
Definition pad_mac_address (mac_address : string) : string :=
  if negb (PyStr.nonempty mac_address) then mac_address
  else
    let clean_mac := strip_separators mac_address in
    let current_length := String.length clean_mac in
    if current_length =? 12 then format_with_colons clean_mac
    else if current_length <? 12 then
      let needed_zeros := 12 - current_length in
      let padded_mac := PyStr.repeat_char "0" needed_zeros +:+ clean_mac in
      format_with_colons padded_mac
    else
      let truncated_mac := PyStr.slice 0 12 clean_mac in
      format_with_colons truncated_mac.

(** The normalisation [get_mac_address] applies to a pattern match before it
    returns it (lines 524-526 and 542-544):
    [match.group(0).upper().replace('-', ':')], then the padding rule. *)
Definition normalize_mac_match (matched : string) : string :=
  pad_mac_address (PyStr.replace_char "-" ":" (PyStr.upper matched)).

(** *** The padding rule in the specification's words

    Strip the separators; keep twelve characters as they are, pad fewer on
    the left with zeros, cut more down to the first twelve; then write the
    twelve characters as colon-separated pairs. *)
Definition spec_twelve (clean : string) : string :=
  let n := String.length clean in
  if n =? 12 then clean
  else if n <? 12 then PyStr.repeat_char "0" (12 - n) +:+ clean
  else substring 0 12 clean.

Fixpoint spec_colon_pairs (s : string) : string :=
  match s with
  | String a (String b rest) =>
      match rest with
      | EmptyString => s
      | _ => String a (String b (String ":" (spec_colon_pairs rest)))
      end
  | _ => s
  end.

(** Characters that are no separators, and strings made of such. *)
Definition plain_char (a : ascii) : bool :=
  negb (Ascii.eqb a ":") && negb (Ascii.eqb a "-").

Fixpoint all_chars (p : ascii → bool) (s : string) : bool :=
  match s with
  | EmptyString => true
  | String a s' => p a && all_chars p s'
  end.

(** ** The outside world

    Everything the engine asks of the operating system is a field of one
    record, so that the functions below are pure in it.  A field that can
    raise in Python returns [None] for the failure. *)

Record completed_process := { returncode : Z; stdout : string }.

(** The OUI text file: absent, readable, or failing with an I/O error after
    it has yielded some lines. *)
Inductive oui_file :=
| OuiMissing
| OuiLines (lines : list string)
| OuiBroken (lines : list string).

Record world := {
  (** [platform.system()] *)
  platform_system : string;
  (** [subprocess.run(cmd, capture_output=True, text=True, timeout=t)];
      [None] when it raises (tool missing, timeout expired) *)
  subprocess_run : list string → Z → option completed_process;
  (** a TCP probe: [settimeout] (in milliseconds), then
      [connect_ex((ip, port))]; [None] when a socket call raises *)
  connect_ex : Z → string → Z → option Z;
  (** [socket.gethostbyaddr(ip)[0]]; [None] when it raises *)
  gethostbyaddr : string → option string;
  (** [assets/oui_database.txt] *)
  oui_database : oui_file;
  (** [time.time()] as read while the given host is probed *)
  time_time : string → Z;
  (** [time.time()] as read while the store is rewritten *)
  time_store : Z;
  (** host addresses of [ipaddress.IPv4Network(subnet, strict=False)], as
      strings; [None] when the constructor raises *)
  network_hosts : string → option (list string);
  (** whether the worker pool of the chunk with the given index can be
      created and accepts every task of the chunk *)
  pool_starts : nat → bool;
  (** whether [future.result(timeout=3)] gives up on the task of a host *)
  result_times_out : string → bool;
  (** [check_for_interrupt()] before the chunk with the given index *)
  interrupt_pressed : nat → bool;
}.

(** ** Status prober *)

(** [ping_host] (417-429). *)
Definition ping_host (w : world) (ip : string) : bool :=
  let system := PyStr.lower (platform_system w) in
  let cmd :=
    if String.eqb system "windows"
    then ["ping"; "-n"; "1"; "-w"; "1000"; ip]
    else ["ping"; "-c"; "1"; "-W"; "1"; ip] in
  match subprocess_run w cmd 3 with
  | Some result => (returncode result =? 0)%Z
  | None => false
  end.

(** A loop over ports that returns at the first connect that succeeds and
    steps over a probe that raises. *)
Fixpoint first_open_port {A} (w : world) (timeout_ms : Z) (ip : string)
    (ports : list (Z * A)) : option A :=
  match ports with
  | [] => None
  | (port, label) :: rest =>
      match connect_ex w timeout_ms ip port with
      | Some 0%Z => Some label
      | _ => first_open_port w timeout_ms ip rest
      end
  end.

Definition standby_ports : list Z := [80; 443; 22; 23; 3389; 5900]%Z.

(** [check_device_status] (431-456). *)
Definition check_device_status (w : world) (ip : string) : string :=
  let is_pingable := ping_host w ip in
  if is_pingable then "online"
  else
    match first_open_port w 1000 ip (map (fun p => (p, tt)) standby_ports) with
    | Some _ => "standby"
    | None => "offline"
    end.

(** ** MAC resolver *)

Definition is_hex (a : ascii) : bool :=
  let n := nat_of_ascii a in
  ((48 <=? n) && (n <=? 57)) || ((65 <=? n) && (n <=? 70))
  || ((97 <=? n) && (n <=? 102)).

Definition is_mac_sep (a : ascii) : bool :=
  Ascii.eqb a ":" || Ascii.eqb a "-".

(** One [[0-9a-fA-F]{1,2}[:-]] at the head of [s]: the text consumed and
    what follows.  Two digits are tried first; after two digits that no
    separator follows, one digit cannot work either (the next character is
    a digit), so the greedy choice never needs undoing. *)
Definition match_hex_sep (s : string) : option (string * string) :=
  match s with
  | String a (String b rest) =>
      if is_hex a && is_hex b then
        match rest with
        | String c rest' =>
            if is_mac_sep c
            then Some (String a (String b (String c EmptyString)), rest')
            else None
        | EmptyString => None
        end
      else if is_hex a && is_mac_sep b
      then Some (String a (String b EmptyString), rest)
      else None
  | _ => None
  end.

(** The closing [[0-9a-fA-F]{1,2}]. *)
Definition match_hex_last (s : string) : option string :=
  match s with
  | String a rest =>
      if is_hex a then
        match rest with
        | String b _ =>
            if is_hex b then Some (String a (String b EmptyString))
            else Some (String a EmptyString)
        | EmptyString => Some (String a EmptyString)
        end
      else None
  | EmptyString => None
  end.

Fixpoint match_hex_seps (n : nat) (s : string) : option (string * string) :=
  match n with
  | O => Some (EmptyString, s)
  | S n' =>
      match match_hex_sep s with
      | Some (g, rest) =>
          match match_hex_seps n' rest with
          | Some (gs, rest') => Some (g +:+ gs, rest')
          | None => None
          end
      | None => None
      end
  end.

(** [([0-9a-fA-F]{1,2}[:-]){5}[0-9a-fA-F]{1,2}] anchored at the head. *)
Definition match_mac_at (s : string) : option string :=
  match match_hex_seps 5 s with
  | Some (gs, rest) =>
      match match_hex_last rest with
      | Some g => Some (gs +:+ g)
      | None => None
      end
  | None => None
  end.

(** [re.search(mac_pattern, s).group(0)]: the leftmost match. *)
Fixpoint search_mac (s : string) : option string :=
  match match_mac_at s with
  | Some m => Some m
  | None =>
      match s with
      | EmptyString => None
      | String _ s' => search_mac s'
      end
  end.

(** The fallback loop of [get_mac_address] over the lines of [arp -a]. *)
Fixpoint mac_in_lines (ip : string) (lines : list string) : option string :=
  match lines with
  | [] => None
  | line :: rest =>
      if PyStr.contains ip line then
        match search_mac line with
        | Some m => Some (normalize_mac_match m)
        | None => mac_in_lines ip rest
        end
      else mac_in_lines ip rest
  end.

(** [get_mac_address] (506-549). *)
Definition get_mac_address (w : world) (ip : string) : option string :=
  let system := PyStr.lower (platform_system w) in
  let cmd :=
    if String.eqb system "windows" then ["arp"; "-a"; ip]
    else ["arp"; "-n"; ip] in
  let direct :=
    match subprocess_run w cmd 2 with
    | Some result =>
        if (returncode result =? 0)%Z
           && PyStr.nonempty (PyStr.strip (stdout result))
        then option_map normalize_mac_match (search_mac (stdout result))
        else None
    | None => None
    end in
  match direct with
  | Some mac => Some mac
  | None =>
      match subprocess_run w ["arp"; "-a"] 2 with
      | Some result =>
          if (returncode result =? 0)%Z then
            let output := stdout result in
            if PyStr.contains ip output
            then mac_in_lines ip (PyStr.split "010" output)
            else None
          else None
      | None => None
      end
  end.

(** ** Vendor lookup *)

(** The body of the loop over the database: the vendor a line yields for a
    prefix, if it yields one. *)
Definition line_vendor (db_prefix : string) (raw_line : string) : option string :=
  let line := PyStr.strip raw_line in
  if PyStr.nonempty line && PyStr.contains db_prefix line then
    let parts := PyStr.split "009" line in
    if 2 <=? length parts then
      let vendor := PyStr.strip (nth 1 parts EmptyString) in
      if PyStr.nonempty vendor then Some vendor else None
    else None
  else None.

Fixpoint search_oui (db_prefix : string) (lines : list string) : option string :=
  match lines with
  | [] => None
  | line :: rest =>
      match line_vendor db_prefix line with
      | Some vendor => Some vendor
      | None => search_oui db_prefix rest
      end
  end.

Definition common_vendors : list (string * string) :=
  [ ("00:50:56", "VMware");
    ("00:0C:29", "VMware");
    ("00:1A:11", "Google");
    ("00:16:3E", "Xen");
    ("52:54:00", "QEMU");
    ("08:00:27", "VirtualBox");
    ("0E:C6:63", "ASIX ELECTRONICS CORP.") ].

(** [d[k]] / [k in d] on a dict literal written as its item list. *)
Fixpoint dict_lookup (k : string) (items : list (string * string)) : option string :=
  match items with
  | [] => None
  | (k', v) :: rest => if String.eqb k' k then Some v else dict_lookup k rest
  end.

Definition mac_prefix_of (mac_address : string) : string :=
  PyStr.join ":" (take 3 (PyStr.split ":" mac_address)).

(** [get_mac_vendor] (584-644); [silent] only selects a [print]. *)
Definition get_mac_vendor (w : world) (mac_address : string) : option string :=
  if negb (PyStr.nonempty mac_address)
     || (length (PyStr.split ":" mac_address) <? 3)
  then None
  else
    let mac_prefix := PyStr.upper (mac_prefix_of mac_address) in
    let db_prefix := PyStr.upper (PyStr.remove_char ":" mac_prefix) in
    let from_file :=
      match oui_database w with
      | OuiMissing => None
      | OuiLines lines => search_oui db_prefix lines
      | OuiBroken lines => search_oui db_prefix lines
      end in
    match from_file with
    | Some vendor => Some vendor
    | None => dict_lookup mac_prefix common_vendors
    end.

(** ** Identity resolver *)

(** The loop of [get_netbios_name_smbutil] over the lines of the tool's
    output. *)
Fixpoint netbios_in_lines (ip : string) (lines : list string) : option string :=
  match lines with
  | [] => None
  | line :: rest =>
      if PyStr.startswith "Server:" line then
        match PyStr.after_first ":" line with
        | Some field =>
            let computer_name := PyStr.strip field in
            if PyStr.nonempty computer_name && negb (String.eqb computer_name ip)
            then Some computer_name
            else netbios_in_lines ip rest
        | None => None
        end
      else netbios_in_lines ip rest
  end.

(** [get_netbios_name_smbutil] (4655-4686). *)
Definition get_netbios_name_smbutil (w : world) (ip : string) : option string :=
  match subprocess_run w ["smbutil"; "status"; ip] 10 with
  | Some result =>
      if (returncode result =? 0)%Z
      then netbios_in_lines ip (PyStr.split "010" (stdout result))
      else None
  | None => None
  end.

(** The loop of [get_apple_device_name] over the lines of [dns-sd]. *)
Fixpoint device_info_in_lines (lines : list string) : option string :=
  match lines with
  | [] => None
  | line :: rest =>
      if PyStr.contains "device-info" line && PyStr.contains "=" line then
        let parts := PyStr.split "=" line in
        if 2 <=? length parts then
          let device_name := PyStr.strip (nth 1 parts EmptyString) in
          if PyStr.nonempty device_name && (2 <? String.length device_name)
          then Some device_name
          else device_info_in_lines rest
        else device_info_in_lines rest
      else device_info_in_lines rest
  end.

Definition apple_suffixes : list string := [".local"; ".home"; ".lan"; ".home.arpa"].

(** The reverse-DNS attempt the second method repeats once per suffix. *)
Fixpoint apple_dns_name (w : world) (ip : string) (rounds : list string)
    : option string :=
  match rounds with
  | [] => None
  | _ :: rest =>
      match gethostbyaddr w ip with
      | Some hostname =>
          if PyStr.nonempty hostname && negb (String.eqb hostname ip)
             && (2 <? String.length hostname)
             && existsb (fun suffix => PyStr.contains suffix hostname) apple_suffixes
          then Some hostname
          else apple_dns_name w ip rest
      | None => apple_dns_name w ip rest
      end
  end.

Definition apple_prefixes : list string :=
  [
    "00:05:02"; "00:0A:27"; "00:0A:95"; "00:1B:63"; "00:1C:B3"; "00:1D:4F";
    "00:1E:52"; "00:1E:C2"; "00:21:E9"; "00:23:12"; "00:23:32"; "00:23:76";
    "00:23:DF"; "00:24:E8"; "00:25:00"; "00:26:08"; "00:26:B0"; "00:26:BB";
    "00:30:65"; "00:50:C2"; "00:88:65"; "00:A0:40"; "00:B3:62"; "00:C6:10";
    "00:D0:41"; "00:E0:81"; "00:F4:6D"; "08:00:07"; "08:66:98"; "08:70:45";
    "0C:30:21"; "0C:4D:E9"; "0C:74:C2"; "10:40:F3"; "10:9A:DD"; "10:DD:B1";
    "18:20:32"; "18:34:51"; "18:9E:FC"; "1C:1A:C0"; "1C:AB:A7"; "1C:E6:2B";
    "20:3A:EF"; "20:7D:74"; "20:A6:CD"; "20:C9:D0"; "24:AB:81"; "24:E4:3F";
    "28:37:37"; "28:6A:B8"; "28:CF:DA"; "28:FF:3C"; "2C:44:FD"; "2C:BE:08";
    "30:10:E4"; "34:15:9E"; "34:51:C9"; "34:C0:59"; "38:48:4C"; "3C:07:54";
    "3C:AB:8E"; "3C:E0:72"; "40:B0:76"; "40:D3:2A"; "44:D8:84"; "48:DB:50";
    "4C:00:10"; "4C:32:75"; "4C:57:CA"; "4C:8D:79"; "4C:B1:99"; "50:32:37";
    "50:7A:55"; "50:EA:D6"; "54:26:96"; "54:4E:90"; "54:72:4F"; "58:1F:AA";
    "58:BD:A3"; "58:E6:BA"; "5C:09:79"; "5C:8F:E0"; "60:33:4B"; "60:69:44";
    "60:FB:42"; "64:B9:E8"; "68:96:7B"; "68:9C:5E"; "68:AB:1E"; "68:FF:7B";
    "6C:3E:6D"; "6C:40:08"; "6C:72:20"; "6C:8D:C1"; "6C:94:F8"; "70:11:24";
    "70:56:81"; "70:73:CB"; "70:CD:60"; "70:DE:E2"; "74:E1:B6"; "78:31:C1";
    "78:4B:87"; "78:6C:1C"; "78:A1:06"; "78:CA:39"; "7C:04:D0"; "7C:6D:62";
    "7C:C3:A1"; "7C:F0:5F"; "80:00:6E"; "80:BE:05"; "80:D5:89"; "80:EA:96";
    "84:29:99"; "84:85:06"; "84:B1:53"; "88:53:95"; "88:63:DF"; "88:87:17";
    "88:C2:55"; "8C:7B:9D"; "8C:FA:22"; "90:84:0D"; "90:B9:31"; "90:C1:6E";
    "94:94:26"; "98:01:A7"; "98:5A:EB"; "98:CA:33"; "98:D6:BB"; "98:FE:94";
    "9C:04:EB"; "9C:35:EB"; "9C:84:CD"; "9C:B6:D0"; "A0:ED:CD"; "A4:B1:97";
    "A4:C6:4F"; "A8:20:66"; "A8:66:7F"; "A8:BB:CF"; "AC:29:3A"; "AC:3A:7A";
    "AC:5D:10"; "AC:7F:3E"; "AC:87:A3"; "AC:DE:48"; "B0:34:95"; "B0:65:BD";
    "B0:9F:BA"; "B4:18:82"; "B4:2E:99"; "B8:09:8A"; "B8:44:4F"; "B8:53:AC";
    "B8:78:2E"; "B8:C7:5D"; "B8:F6:B1"; "BC:3B:AF"; "BC:52:B7"; "BC:67:78";
    "BC:9F:35"; "C0:63:94"; "C0:84:7A"; "C0:CE:CD"; "C4:2C:03"; "C4:85:08";
    "C8:1E:E7"; "C8:2A:14"; "C8:33:4B"; "C8:69:CD"; "C8:85:50"; "C8:BC:C8";
    "CC:08:E0"; "CC:20:E8"; "CC:29:F5"; "CC:78:5F"; "CC:C3:EA"; "D0:23:DB";
    "D0:50:99"; "D0:66:7B"; "D0:81:7A"; "D0:A6:37"; "D0:BB:80"; "D0:C5:F3";
    "D0:E4:82"; "D4:61:9D"; "D4:9A:20"; "D4:F4:6F"; "D8:30:62"; "D8:96:95";
    "D8:A0:11"; "D8:BB:2C"; "D8:CF:9C"; "DC:2B:2A"; "DC:37:14"; "DC:86:D8";
    "DC:A4:CA"; "DC:E1:AD"; "E0:66:78"; "E0:8E:3C"; "E0:B9:BA"; "E0:C7:67";
    "E0:F5:C6"; "E0:F8:47"; "E4:25:E7"; "E4:98:6F"; "E4:CE:8F"; "E8:04:0B";
    "E8:06:88"; "E8:80:25"; "E8:8D:28"; "E8:B2:AC"; "E8:CC:18"; "EC:35:86";
    "EC:85:2F"; "EC:FA:BC"; "F0:24:75"; "F0:71:C9"; "F0:76:1C"; "F0:9F:C2";
    "F0:B4:79"; "F0:C1:F1"; "F0:D1:A9"; "F4:1B:A1"; "F4:31:C3"; "F4:37:B7";
    "F4:5C:89"; "F4:F1:5A"; "F4:F5:D8"; "F4:F5:E8"; "F8:1E:DF"; "F8:27:93";
    "F8:95:EA"; "F8:FF:C2"; "FC:00:12"; "FC:25:3F"; "FC:42:03"; "FC:64:BA";
    "FC:A8:9A"; "FC:C1:11"; "FC:D8:48"; "00:1B:63"; "00:1C:B3"; "00:1D:4F";
    "00:1E:52"; "00:1E:C2"; "00:21:E9"; "00:23:12"; "00:23:32"; "00:23:76";
    "00:23:DF"; "00:24:E8"; "00:25:00"; "00:26:08"; "00:26:B0"; "00:26:BB";
    "00:30:65"; "00:50:C2"; "00:88:65"; "00:A0:40"; "00:B3:62"; "00:C6:10";
    "00:D0:41"; "00:E0:81"; "00:F4:6D"; "08:00:07"; "08:66:98"; "08:70:45";
    "0C:30:21"; "0C:4D:E9"; "0C:74:C2"; "10:40:F3"; "10:9A:DD"; "10:DD:B1";
    "18:20:32"; "18:34:51"; "18:9E:FC"; "1C:1A:C0"; "1C:AB:A7"; "1C:E6:2B";
    "20:3A:EF"; "20:7D:74"; "20:A6:CD"; "20:C9:D0"; "24:AB:81"; "24:E4:3F";
    "28:37:37"; "28:6A:B8"; "28:CF:DA"; "28:FF:3C"; "2C:44:FD"; "2C:BE:08";
    "30:10:E4"; "34:15:9E"; "34:51:C9"; "34:C0:59"; "38:48:4C"; "3C:07:54";
    "3C:AB:8E"; "3C:E0:72"; "40:B0:76"; "40:D3:2A"; "44:D8:84"; "48:DB:50";
    "4C:00:10"; "4C:32:75"; "4C:57:CA"; "4C:8D:79"; "4C:B1:99"; "50:32:37";
    "50:7A:55"; "50:EA:D6"; "54:26:96"; "54:4E:90"; "54:72:4F"; "58:1F:AA";
    "58:BD:A3"; "58:E6:BA"; "5C:09:79"; "5C:8F:E0"; "60:33:4B"; "60:69:44";
    "60:FB:42"; "64:B9:E8"; "68:96:7B"; "68:9C:5E"; "68:AB:1E"; "68:FF:7B";
    "6C:3E:6D"; "6C:40:08"; "6C:72:20"; "6C:8D:C1"; "6C:94:F8"; "70:11:24";
    "70:56:81"; "70:73:CB"; "70:CD:60"; "70:DE:E2"; "74:E1:B6"; "78:31:C1";
    "78:4B:87"; "78:6C:1C"; "78:A1:06"; "78:CA:39"; "7C:04:D0"; "7C:6D:62";
    "7C:C3:A1"; "7C:F0:5F"; "80:00:6E"; "80:BE:05"; "80:D5:89"; "80:EA:96";
    "84:29:99"; "84:85:06"; "84:B1:53"; "88:53:95"; "88:63:DF"; "88:87:17";
    "88:C2:55"; "8C:7B:9D"; "8C:FA:22"; "90:84:0D"; "90:B9:31"; "90:C1:6E";
    "94:94:26"; "98:01:A7"; "98:5A:EB"; "98:CA:33"; "98:D6:BB"; "98:FE:94";
    "9C:04:EB"; "9C:35:EB"; "9C:84:CD"; "9C:B6:D0"; "A0:ED:CD"; "A4:B1:97";
    "A4:C6:4F"; "A8:20:66"; "A8:66:7F"; "A8:BB:CF"; "AC:29:3A"; "AC:3A:7A";
    "AC:5D:10"; "AC:7F:3E"; "AC:87:A3"; "AC:DE:48"; "B0:34:95"; "B0:65:BD";
    "B0:9F:BA"; "B4:18:82"; "B4:2E:99"; "B8:09:8A"; "B8:44:4F"; "B8:53:AC";
    "B8:78:2E"; "B8:C7:5D"; "B8:F6:B1"; "BC:3B:AF"; "BC:52:B7"; "BC:67:78";
    "BC:9F:35"; "C0:63:94"; "C0:84:7A"; "C0:CE:CD"; "C4:2C:03"; "C4:85:08";
    "C8:1E:E7"; "C8:2A:14"; "C8:33:4B"; "C8:69:CD"; "C8:85:50"; "C8:BC:C8";
    "CC:08:E0"; "CC:20:E8"; "CC:29:F5"; "CC:78:5F"; "CC:C3:EA"; "D0:23:DB";
    "D0:50:99"; "D0:66:7B"; "D0:81:7A"; "D0:A6:37"; "D0:BB:80"; "D0:C5:F3";
    "D0:E4:82"; "D4:61:9D"; "D4:9A:20"; "D4:F4:6F"; "D8:30:62"; "D8:96:95";
    "D8:A0:11"; "D8:BB:2C"; "D8:CF:9C"; "DC:2B:2A"; "DC:37:14"; "DC:86:D8";
    "DC:A4:CA"; "DC:E1:AD"; "E0:66:78"; "E0:8E:3C"; "E0:B9:BA"; "E0:C7:67";
    "E0:F5:C6"; "E0:F8:47"; "E4:25:E7"; "E4:98:6F"; "E4:CE:8F"; "E8:04:0B";
    "E8:06:88"; "E8:80:25"; "E8:8D:28"; "E8:B2:AC"; "E8:CC:18"; "EC:35:86";
    "EC:85:2F"; "EC:FA:BC"; "F0:24:75"; "F0:71:C9"; "F0:76:1C"; "F0:9F:C2";
    "F0:B4:79"; "F0:C1:F1"; "F0:D1:A9"; "F4:1B:A1"; "F4:31:C3"; "F4:37:B7";
    "F4:5C:89"; "F4:F1:5A"; "F4:F5:D8"; "F4:F5:E8"; "F8:1E:DF"; "F8:27:93";
    "F8:95:EA"; "F8:FF:C2"; "FC:00:12"; "FC:25:3F"; "FC:42:03"; "FC:64:BA";
    "FC:A8:9A"; "FC:C1:11"; "FC:D8:48"
  ].

(** [get_apple_device_name] (4688-4853). *)
Definition get_apple_device_name (w : world) (ip : string) : option string :=
  let by_dns_sd :=
    match subprocess_run w ["dns-sd"; "-G"; "v4"; ip; "_device-info._tcp"; "local."] 5 with
    | Some result =>
        if (returncode result =? 0)%Z && PyStr.nonempty (stdout result)
        then device_info_in_lines (PyStr.split "010" (stdout result))
        else None
    | None => None
    end in
  match by_dns_sd with
  | Some name => Some name
  | None =>
      match apple_dns_name w ip apple_suffixes with
      | Some name => Some name
      | None =>
          match get_mac_address w ip with
          | Some mac =>
              if PyStr.nonempty mac
                 && existsb (String.eqb (mac_prefix_of mac)) apple_prefixes
              then Some ("Apple-" +:+ PyStr.last_octet ip)
              else None
          | None => None
          end
      end
  end.

(** The port table of the fourth method, in the order the dict literal
    lists it (the order in which a Python dict is iterated). *)
Definition service_ports : list (Z * string) :=
  [ (22, "SSH"); (23, "Telnet"); (80, "HTTP"); (443, "HTTPS");
    (3389, "RDP"); (5900, "VNC"); (8080, "HTTP-Alt"); (8443, "HTTPS-Alt") ]%Z.

(** A result counts when it is truthy. *)
Definition truthy_name (r : option string) : option string :=
  match r with
  | Some name => if PyStr.nonempty name then Some name else None
  | None => None
  end.

(** [get_device_identifier] (646-718). *)
Definition get_device_identifier (w : world) (ip : string) : string :=
  let method1 :=
    match gethostbyaddr w ip with
    | Some hostname =>
        if PyStr.nonempty hostname && negb (String.eqb hostname ip)
           && (2 <? String.length hostname)
        then Some hostname else None
    | None => None
    end in
  match method1 with
  | Some hostname => hostname
  | None =>
  let method2 :=
    if String.eqb (platform_system w) "Darwin"
    then truthy_name (get_netbios_name_smbutil w ip) else None in
  match method2 with
  | Some netbios_name => netbios_name
  | None =>
  let method3 :=
    if String.eqb (platform_system w) "Darwin"
    then truthy_name (get_apple_device_name w ip) else None in
  match method3 with
  | Some apple_device_name => apple_device_name
  | None =>
  match first_open_port w 500 ip service_ports with
  | Some service => service +:+ "-" +:+ PyStr.last_octet ip
  | None =>
  let method5 :=
    match truthy_name (get_mac_address w ip) with
    | Some mac =>
        match truthy_name (get_mac_vendor w mac) with
        | Some vendor => Some (vendor +:+ "-" +:+ PyStr.last_octet ip)
        | None => None
        end
    | None => None
    end in
  match method5 with
  | Some label => label
  | None => "." +:+ PyStr.last_octet ip
  end end end end end.

(** ** Device records *)

(** The values a device dict holds: [None], booleans, numbers (time stamps
    are kept as integers: the engine only copies them and tests them for
    zero), strings, and any other object (a list or dict read from the JSON
    store), of which only the truthiness matters. *)
Inductive value :=
| VNone
| VBool (b : bool)
| VNum (n : Z)
| VStr (s : string)
| VOther (is_nonempty : bool).

Global Instance value_eq_dec : EqDecision value.
Proof. solve_decision. Defined.

(** Python truthiness. *)
Definition truthy (v : value) : bool :=
  match v with
  | VNone => false
  | VBool b => b
  | VNum n => negb (n =? 0)%Z
  | VStr s => PyStr.nonempty s
  | VOther b => b
  end.

(** [v == s] for a string [s]. *)
Definition eq_str (v : value) (s : string) : bool :=
  match v with
  | VStr t => String.eqb t s
  | _ => false
  end.

(** A device is a dict with string keys. *)
Abbreviation device := (gmap string value).

(** An element of a device list; lists read from the JSON store may hold
    anything, so an element need not be a dict. *)
Inductive entry :=
| Dict (d : device)
| NotDict.

(** [e[k]]: fails with [KeyError] on a missing key and with [TypeError] on
    something that is not a dict. *)
Definition subscript (e : entry) (k : string) : option value :=
  match e with
  | Dict d => d !! k
  | NotDict => None
  end.

(** [d.get(k)] and [d.get(k, dflt)]. *)
Definition dict_get (d : device) (k : string) : value := default VNone (d !! k).
Definition dict_get_or (d : device) (k : string) (dflt : value) : value :=
  default dflt (d !! k).

(** [existing.update(new)]: the keys of [new] win. *)
Definition dict_update (existing new : device) : device := new ∪ existing.

Record interface_info := { interface : string; subnet : string }.

(** ** Scan scheduler *)

Definition is_responsive (status : string) : bool :=
  String.eqb status "online" || String.eqb status "standby".

(** [for known in known_devices: if known['ip'] == ip: ...; break].
    The outer [None] is the exception of a subscript that fails before a
    match is reached. *)
Fixpoint find_known (known_devices : list entry) (ip : string)
    : option (option device) :=
  match known_devices with
  | [] => Some None
  | known :: rest =>
      match known, subscript known "ip" with
      | Dict d, Some v => if eq_str v ip then Some (Some d) else find_known rest ip
      | _, _ => None
      end
  end.

(** The nested [scan_ip] of [scan_network_for_devices_live] (737-790) and of
    [scan_network_for_devices] (856-914); the two differ only in the progress
    they report.  [None]: the task raised. *)
Definition scan_ip (w : world) (known_devices : list entry) (ip : string)
    : option device :=
  let status := check_device_status w ip in
  let hostname :=
    if is_responsive status then Some (get_device_identifier w ip) else None in
  let mac_address :=
    if is_responsive status then get_mac_address w ip else None in
  known_device ←
    (match known_devices with
     | [] => Some None
     | _ => find_known known_devices ip
     end);
  '(status, display_hostname) ←
    (if is_responsive status then
       match truthy_name hostname, known_device with
       | Some h, _ => Some (status, VStr h)
       | None, Some kd => v ← kd !! "hostname"; Some (status, v)
       | None, None => Some (status, VStr ("." +:+ PyStr.last_octet ip))
       end
     else
       match known_devices, known_device with
       | [], _ => Some ("hidden", VNone)
       | _, Some kd => v ← kd !! "hostname"; Some (status, v)
       | _, None => Some ("hidden", VNone)
       end);
  mac ←
    (match truthy_name mac_address, known_device with
     | Some m, _ => Some (VStr m)
     | None, Some kd => kd !! "mac"
     | None, None => Some VNone
     end);
  let last_seen :=
    if is_responsive status then VNum (time_time w ip)
    else match known_device with
         | Some kd => dict_get_or kd "last_seen" (VNum 0)
         | None => VNum 0
         end in
  Some (<["ip" := VStr ip]>
        (<["hostname" := display_hostname]>
        (<["mac" := mac]>
        (<["status" := VStr status]>
        (<["pingable" := VBool (String.eqb status "online")]>
        (<["last_seen" := last_seen]> ∅)))))).

(** [for existing in devices: if existing['ip'] == device['ip']: ...; break]:
    the position of the first record with that address ([device['ip']] is
    the address the task was given).  The outer [None] is the exception of a
    subscript that fails before a match is reached. *)
Fixpoint find_existing (devices : list entry) (ip : string) : option (option nat) :=
  match devices with
  | [] => Some None
  | existing :: rest =>
      match subscript existing "ip" with
      | Some v =>
          if eq_str v ip then Some (Some O)
          else option_map (option_map S) (find_existing rest ip)
      | None => None
      end
  end.

(** What a scan has built so far: the working list [devices], and the
    devices handed to the live callback, oldest first. *)
Record scan_state := {
  devices : list entry;
  delivered : list device;
}.

(** The body of the loop over the futures of a chunk (802-828, 925-949).
    A task that raised or did not finish in time, and a failure while the
    working list is searched, leave the state as it is.  [live] tells whether
    a live callback is installed. *)
Definition collect (live : bool) (w : world) (known_devices : list entry)
    (st : scan_state) (ip : string) : scan_state :=
  let result := if result_times_out w ip then None else scan_ip w known_devices ip in
  match result with
  | None => st
  | Some dev =>
      match dev !! "status" with
      | Some status =>
          if eq_str status "hidden" then st
          else
            match find_existing (devices st) ip with
            | None => st
            | Some found =>
                let devices' :=
                  match found with
                  | Some i =>
                      match devices st !! i with
                      | Some (Dict existing_device) =>
                          <[i := Dict (dict_update existing_device dev)]> (devices st)
                      | _ => devices st
                      end
                  | None => devices st ++ [Dict dev]
                  end in
                {| devices := devices';
                   delivered := if live then delivered st ++ [dev]
                                else delivered st |}
            end
      | None => st
      end
  end.

Definition chunk_size : nat := 255.

(** [l[i:j]] on a list. *)
Definition list_slice {A} (i j : nat) (l : list A) : list A :=
  take (j - i) (drop i l).

(** The chunks the loop [for chunk_start in range(0, total_ips, chunk_size)]
    visits, in order. *)
Definition chunks_of (host_ips : list string) : list (list string) :=
  let total_ips := length host_ips in
  map (fun chunk_start =>
         let chunk_end := Nat.min (chunk_start + chunk_size) total_ips in
         list_slice chunk_start chunk_end host_ips)
      (PyStr.range 0 total_ips chunk_size).

(** The loop over the chunks, from the chunk with index [idx] on.  The
    boolean is [false] when an exception left the loop. *)
Fixpoint scan_chunks (live : bool) (w : world) (known_devices : list entry)
    (idx : nat) (chunks : list (list string)) (st : scan_state)
    : scan_state * bool :=
  match chunks with
  | [] => (st, true)
  | chunk_ips :: rest =>
      if pool_starts w idx then
        scan_chunks live w known_devices (S idx) rest
          (foldl (collect live w known_devices) st chunk_ips)
      else (st, false)
  end.

(** The body of both scanners up to their [return]: the final state and
    whether the [try] block ran to its end.  [devices.extend(known_devices)]
    puts the store's own record objects at the head of the working list, so
    the first [length known_devices] entries of [devices] are, at any time,
    the current content of the store's records. *)
Definition scan_run (live : bool) (w : world) (info : interface_info)
    (known_devices : list entry) : scan_state * bool :=
  match network_hosts w (subnet info) with
  | None => ({| devices := []; delivered := [] |}, false)
  | Some host_ips =>
      scan_chunks live w known_devices 0 (chunks_of host_ips)
        {| devices := known_devices; delivered := [] |}
  end.

Definition scan_result (run : scan_state * bool) : list entry :=
  if run.2 then devices run.1 else [].

(** [scan_network_for_devices_live] (720-837). *)
Definition scan_network_for_devices_live (w : world) (info : interface_info)
    (known_devices : list entry) : list entry :=
  scan_result (scan_run true w info known_devices).

(** The devices [scan_network_for_devices_live] hands to its callback. *)
Definition live_callbacks (w : world) (info : interface_info)
    (known_devices : list entry) : list device :=
  delivered (scan_run true w info known_devices).1.

(** [scan_network_for_devices] (839-957). *)
Definition scan_network_for_devices (w : world) (info : interface_info)
    (known_devices : list entry) : list entry :=
  scan_result (scan_run false w info known_devices).

(** The store's records for the interface as the scan leaves them in
    memory: the head of the working list, once the list has been seeded. *)
Definition known_after_scan (live : bool) (w : world) (info : interface_info)
    (known_devices : list entry) : list entry :=
  match network_hosts w (subnet info) with
  | None => known_devices
  | Some _ =>
      take (length known_devices) (devices (scan_run live w info known_devices).1)
  end.

(** *** The command-line scanner *)

(** [scan_single_ip] (3559-3588); [None] is the [except] branch. *)
Definition scan_single_ip (w : world) (ip : string) : option device :=
  let status := check_device_status w ip in
  let hostname :=
    if is_responsive status then Some (get_device_identifier w ip) else None in
  let mac_address :=
    if is_responsive status then get_mac_address w ip else None in
  let '(status, display_hostname) :=
    if is_responsive status then
      (status, VStr (default ("." +:+ PyStr.last_octet ip) (truthy_name hostname)))
    else ("hidden", VNone) in
  Some (<["ip" := VStr ip]>
        (<["hostname" := display_hostname]>
        (<["mac" := from_option VStr VNone mac_address]>
        (<["status" := VStr status]>
        (<["pingable" := VBool (String.eqb status "online")]>
        (<["last_seen" := VNum (if is_responsive status then time_time w ip else 0)]>
         ∅)))))).

(** The loop over the futures of a chunk (3520-3528). *)
Definition collect_single (w : world) (devices : list entry) (ip : string)
    : list entry :=
  let result := if result_times_out w ip then None else scan_single_ip w ip in
  match result with
  | Some dev =>
      if negb (bool_decide (dev = ∅)) then
        match dev !! "status" with
        | Some status =>
            if eq_str status "hidden" then devices else devices ++ [Dict dev]
        | None => devices
        end
      else devices
  | None => devices
  end.

Inductive loop_end := Completed | Interrupted | Crashed.

Fixpoint progress_chunks (w : world) (idx : nat) (chunks : list (list string))
    (devices : list entry) : list entry * loop_end :=
  match chunks with
  | [] => (devices, Completed)
  | chunk_ips :: rest =>
      if interrupt_pressed w idx then (devices, Interrupted)
      else if pool_starts w idx then
        progress_chunks w (S idx) rest (foldl (collect_single w) devices chunk_ips)
      else (devices, Crashed)
  end.

(** [scan_network_for_devices_with_progress] (3476-3545).  The closing
    [create_progress_bar(total_ips, total_ips)] divides by [total_ips]. *)
Definition scan_network_for_devices_with_progress (w : world)
    (info : interface_info) : list entry :=
  match network_hosts w (subnet info) with
  | None => []
  | Some host_ips =>
      match progress_chunks w 0 (chunks_of host_ips) [] with
      | (devices, Completed) =>
          if length host_ips =? 0 then [] else devices
      | (devices, Interrupted) => devices
      | (_, Crashed) => []
      end
  end.

(** ** The scheduler as the worker pool sees it

    What the main thread of a scanner asks of [concurrent.futures], in
    order, and a machine that runs these requests against a pool of worker
    threads.  The machine takes from the library what its documentation
    promises: a pool runs at most [max_workers] tasks at a time, and
    leaving the [with] block ([shutdown(wait=True)]) returns only when
    every submitted task has finished.  [future.result(timeout=3)] may
    return before its task is done; an interrupt or an exception ends the
    loop, and whatever is still in the pool runs to its end. *)

Inductive command :=
| OpenPool (max_workers : nat)   (* with ThreadPoolExecutor(max_workers=n) as executor: *)
| Submit (ip : string)           (* executor.submit(scan_ip, ip) *)
| AwaitResult (ip : string)      (* future.result(timeout=3) *)
| ClosePool                      (* the end of the with block *)
| Pause                          (* time.sleep(0.1) *)
| Poll.                          (* check_for_interrupt() *)

(** The loop over the chunks (793-832, 917-953, and 3494-3532 with its
    interrupt check), as the sequence of its requests. *)
Fixpoint chunk_loop (polls : bool) (chunks : list (list string)) : list command :=
  match chunks with
  | [] => []
  | chunk_ips :: rest =>
      (if polls then [Poll] else []) ++
      OpenPool 20 :: map Submit chunk_ips ++ map AwaitResult chunk_ips ++
      ClosePool :: (match rest with [] => [] | _ => [Pause] end) ++
      chunk_loop polls rest
  end.

Definition scan_commands (polls : bool) (host_ips : list string) : list command :=
  chunk_loop polls (chunks_of host_ips).

Record pool_state := {
  todo : list command;       (* what the main thread has yet to do *)
  pool : option nat;         (* the open pool's max_workers *)
  queued : list string;      (* submitted, not started *)
  running : list string;     (* in flight *)
  finished : list string;    (* done *)
}.

Definition initial (program : list command) : pool_state :=
  {| todo := program; pool := None; queued := []; running := []; finished := [] |}.

(** Every task handed to the pool so far. *)
Definition dispatched (s : pool_state) : list string :=
  queued s ++ running s ++ finished s.

Inductive pool_step : pool_state → pool_state → Prop :=
| step_open n rest q r f :
    pool_step {| todo := OpenPool n :: rest; pool := None; queued := q; running := r; finished := f |}
              {| todo := rest; pool := Some n; queued := q; running := r; finished := f |}
| step_submit ip rest n q r f :
    pool_step {| todo := Submit ip :: rest; pool := Some n; queued := q; running := r; finished := f |}
              {| todo := rest; pool := Some n; queued := q ++ [ip]; running := r; finished := f |}
| step_await ip rest p q r f :
    pool_step {| todo := AwaitResult ip :: rest; pool := p; queued := q; running := r; finished := f |}
              {| todo := rest; pool := p; queued := q; running := r; finished := f |}
| step_close rest n f :
    pool_step {| todo := ClosePool :: rest; pool := Some n; queued := []; running := []; finished := f |}
              {| todo := rest; pool := None; queued := []; running := []; finished := f |}
| step_pause rest p q r f :
    pool_step {| todo := Pause :: rest; pool := p; queued := q; running := r; finished := f |}
              {| todo := rest; pool := p; queued := q; running := r; finished := f |}
| step_poll rest p q r f :
    pool_step {| todo := Poll :: rest; pool := p; queued := q; running := r; finished := f |}
              {| todo := rest; pool := p; queued := q; running := r; finished := f |}
| step_interrupt rest p q r f :
    pool_step {| todo := Poll :: rest; pool := p; queued := q; running := r; finished := f |}
              {| todo := []; pool := p; queued := q; running := r; finished := f |}
| step_raise t p q r f :
    pool_step {| todo := t; pool := p; queued := q; running := r; finished := f |}
              {| todo := []; pool := p; queued := q; running := r; finished := f |}
| step_start ip t n q r f :
    length r < n →
    pool_step {| todo := t; pool := Some n; queued := ip :: q; running := r; finished := f |}
              {| todo := t; pool := Some n; queued := q; running := r ++ [ip]; finished := f |}
| step_finish ip t p q r1 r2 f :
    pool_step {| todo := t; pool := p; queued := q; running := r1 ++ ip :: r2; finished := f |}
              {| todo := t; pool := p; queued := q; running := r1 ++ r2; finished := f ++ [ip] |}.

(** The addresses a command sequence submits. *)
Definition submits (cs : list command) : list string :=
  omap (λ c, match c with Submit ip => Some ip | _ => None end) cs.

(** The requests the main thread has carried out lead to this state. *)
Definition pool_invariant (program : list command) (s : pool_state) : Prop :=
  ∃ past,
    (∃ dropped, program = past ++ todo s ++ dropped) ∧
    dispatched s ≡ₚ submits past ∧
    (∀ p1 p2, past = p1 ++ ClosePool :: p2 → submits p1 ⊆ finished s) ∧
    match pool s with
    | Some n => length (running s) ≤ n ∧ (∃ p1 p2, past = p1 ++ OpenPool n :: p2)
    | None => queued s = [] ∧ running s = []
    end.

(** ** Known-device store *)

(** [self.known_devices]: interface name to device list. *)
Abbreviation store := (gmap string (list entry)).

(** [get_mac_vendor] called on a value: on anything but a string the
    [split] raises inside the function's own [try], which returns [None]. *)
Definition get_mac_vendor_of (w : world) (mac : value) : option string :=
  match mac with
  | VStr m => get_mac_vendor w m
  | _ => None
  end.

(** The body of the loop of [update_known_devices] (1152-1167) for one
    device: the outer [None] is a failing subscript, the inner [None] a
    hidden device, which is left out. *)
Definition known_record (w : world) (dev : entry) : option (option device) :=
  status ← subscript dev "status";
  if eq_str status "hidden" then Some None
  else
    ip ← subscript dev "ip";
    hostname ← subscript dev "hostname";
    mac ← subscript dev "mac";
    let last_seen :=
      match dev with
      | Dict d => dict_get_or d "last_seen" (VNum (time_store w))
      | NotDict => VNum (time_store w)
      end in
    let known_device : device :=
      <["ip" := ip]>
      (<["hostname" := hostname]>
      (<["mac" := mac]>
      (<["last_seen" := last_seen]>
      (<["status" := status]> ∅)))) in
    let known_device :=
      if truthy mac then
        match truthy_name (get_mac_vendor_of w mac) with
        | Some vendor =>
            if negb (String.eqb vendor "Unknown")
            then <["vendor" := VStr vendor]> known_device
            else known_device
        | None => known_device
        end
      else known_device in
    Some (Some known_device).

(** The list the loop has appended when it ends, and whether it ended
    without an exception. *)
Fixpoint known_records (w : world) (devs : list entry) : list entry * bool :=
  match devs with
  | [] => ([], true)
  | dev :: rest =>
      match known_record w dev with
      | None => ([], false)
      | Some None => known_records w rest
      | Some (Some r) =>
          let '(records, ok) := known_records w rest in (Dict r :: records, ok)
      end
  end.

(** [update_known_devices] (1148-1170): the store it leaves, and whether it
    reached [save_persistent_data]. *)
Definition update_known_devices (w : world) (known : store)
    (interface_name : string) (devs : list entry) : store * bool :=
  let '(records, ok) := known_records w devs in
  (<[interface_name := records]> known, ok).

(** One interface in one cycle of [scan_worker] (1479-1493): scan with the
    stored records, then rewrite the store from the result. *)
Definition scan_cycle (w : world) (known : store) (info : interface_info) : store :=
  let known_devices := default [] (known !! interface info) in
  let devs := scan_network_for_devices_live w info known_devices in
  (update_known_devices w known (interface info) devs).1.

(** ** Known-device merge *)

(** The logical network of an address (1636-1645, 1700-1708). *)
Definition network_key_of (info : interface_info) (device_ip : string) : string :=
  if PyStr.startswith "192.168.0." device_ip then "192.168.0.0/24"
  else if PyStr.startswith "134.124.230." device_ip then "134.124.230.0/24"
  else if PyStr.startswith "134.124.231." device_ip then "134.124.231.0/24"
  else subnet info.

(** [for known in known_devices: if isinstance(known, dict) and
    known.get('ip') == device_ip: ...; break] (1652-1656). *)
Fixpoint find_stored (known_devices : list entry) (device_ip : string)
    : option device :=
  match known_devices with
  | [] => None
  | Dict known :: rest =>
      if eq_str (dict_get known "ip") device_ip then Some known
      else find_stored rest device_ip
  | NotDict :: rest => find_stored rest device_ip
  end.

Definition keep_stored (key : string) (stored_device merged_device : device)
    : device :=
  if negb (truthy (dict_get merged_device key))
     && truthy (dict_get stored_device key)
  then <[key := dict_get stored_device key]> merged_device
  else merged_device.

(** Lines 1658-1670: overlay the stored record on a copy of the scanned one. *)
Definition merge_stored (dev : device) (stored_device : option device) : device :=
  let merged_device := dev in
  match stored_device with
  | Some sd =>
      if bool_decide (sd = ∅) then merged_device
      else
        let merged_device := keep_stored "hostname" sd merged_device in
        let merged_device := keep_stored "mac" sd merged_device in
        let merged_device := keep_stored "vendor" sd merged_device in
        if truthy (dict_get sd "last_seen")
        then <["stored_last_seen" := dict_get sd "last_seen"]> merged_device
        else merged_device
  | None => merged_device
  end.

(** Lines 1672-1685: the status is trusted on the primary network only. *)
Definition validate_context (info : interface_info) (network_key : string)
    (merged_device : device) : device :=
  if negb (String.eqb network_key (subnet info)) then
    if negb (truthy (dict_get_or merged_device "pingable" (VBool false))) then
      <["network_context" := VStr "discovered_offline"]>
        (<["status" := VStr "offline"]> merged_device)
    else <["network_context" := VStr "discovered_online"]> merged_device
  else <["network_context" := VStr "primary"]> merged_device.

(** What one turn of a loop of [update_tree_view] does. *)
Inductive turn (A : Type) :=
| Emit (network_key : string) (record : A)
| Continue
| Raises.
Arguments Emit {A}.
Arguments Continue {A}.
Arguments Raises {A}.

(** One turn of the loop over the scanned devices (1629-1687).
    [device_ip.startswith] raises on a truthy address that is no string. *)
Definition merge_device (info : interface_info) (known_devices : list entry)
    (dev : entry) : turn device :=
  match dev with
  | NotDict => Continue
  | Dict d =>
      let device_ip := dict_get d "ip" in
      if negb (truthy device_ip) then Continue
      else
        match device_ip with
        | VStr ip =>
            let network_key := network_key_of info ip in
            let stored_device := find_stored known_devices ip in
            let merged_device := merge_stored d stored_device in
            Emit network_key (validate_context info network_key merged_device)
        | _ => Raises
        end
  end.

(** [network_groups]: network key to the records grouped under it. *)
Abbreviation groups := (gmap string (list device)).

(** [network_groups[network_key].append(record)], creating the list when
    the key is new. *)
Definition group_append (network_key : string) (record : device) (g : groups)
    : groups :=
  <[network_key := default [] (g !! network_key) ++ [record]]> g.

(** The loop over the scanned devices; [None] when a turn raises. *)
Fixpoint merge_devices (info : interface_info) (known_devices : list entry)
    (devs : list entry) (g : groups) : option groups :=
  match devs with
  | [] => Some g
  | dev :: rest =>
      match merge_device info known_devices dev with
      | Emit network_key merged_device =>
          merge_devices info known_devices rest
            (group_append network_key merged_device g)
      | Continue => merge_devices info known_devices rest g
      | Raises => None
      end
  end.

(** One turn of the loop over the stored devices (1691-1721): a stored
    device that the groups do not hold yet is added as offline. *)
Definition add_offline (info : interface_info) (g : groups) (known : entry)
    : turn device :=
  match known with
  | NotDict => Continue
  | Dict k =>
      let known_ip := dict_get k "ip" in
      if negb (truthy known_ip) then Continue
      else
        match known_ip with
        | VStr ip =>
            let network_key := network_key_of info ip in
            let already_found :=
              existsb (fun d : device => bool_decide (d !! "ip" = Some known_ip))
                      (default [] (g !! network_key)) in
            if negb already_found then
              Emit network_key
                (<["current_scan" := VBool false]>
                   (<["status" := VStr "offline"]> k))
            else Continue
        | _ => Raises
        end
  end.

Fixpoint add_offline_devices (info : interface_info) (known_devices : list entry)
    (g : groups) : option groups :=
  match known_devices with
  | [] => Some g
  | known :: rest =>
      match add_offline info g known with
      | Emit network_key offline_device =>
          add_offline_devices info rest (group_append network_key offline_device g)
      | Continue => add_offline_devices info rest g
      | Raises => None
      end
  end.

(** The groups [update_tree_view] builds for an active interface
    (1624-1721) from the scanned devices and the stored ones; [None] when
    the view update is abandoned by an exception. *)
Definition merge_known_devices (info : interface_info) (devs : list entry)
    (known_devices : list entry) : option groups :=
  g ← merge_devices info known_devices devs ∅;
  add_offline_devices info known_devices g.

(** ** Magic packet *)

(** A character of ASCII: on text of such characters [str.upper] changes
    the letters a to z and nothing else, as [PyStr.upper] does. *)
Definition is_ascii_char (a : ascii) : bool := nat_of_ascii a <? 128.

(** [c in '0123456789ABCDEF'] for a character [c]. *)
Definition is_upper_hex (a : ascii) : bool :=
  let n := nat_of_ascii a in
  ((48 <=? n) && (n <=? 57)) || ((65 <=? n) && (n <=? 70)).

(** The value of a hex digit as [bytes.fromhex] reads it. *)
Definition hex_digit (a : ascii) : option Z :=
  let n := nat_of_ascii a in
  if (48 <=? n) && (n <=? 57) then Some (Z.of_nat n - 48)%Z
  else if (65 <=? n) && (n <=? 70) then Some (Z.of_nat n - 55)%Z
  else if (97 <=? n) && (n <=? 102) then Some (Z.of_nat n - 87)%Z
  else None.

(** The ASCII white space [bytes.fromhex] skips between bytes. *)
Definition is_ascii_space (a : ascii) : bool :=
  let n := nat_of_ascii a in
  ((9 <=? n) && (n <=? 13)) || (n =? 32).

(** [bytes.fromhex(s)]: two digits make a byte; [None] is the
    [ValueError].  A byte is an integer from 0 to 255. *)
Fixpoint fromhex (s : string) : option (list Z) :=
  match s with
  | EmptyString => Some []
  | String a rest =>
      if is_ascii_space a then fromhex rest
      else
        match rest with
        | String b rest' =>
            hi ← hex_digit a;
            lo ← hex_digit b;
            bytes ← fromhex rest';
            Some ((16 * hi + lo)%Z :: bytes)
        | EmptyString => None
        end
  end.

(** [create_magic_packet] (979-999).  The argument is what a caller has
    under a device's "mac": on a truthy value that is no string
    [.replace] raises, and the [except] returns [None].  A string is ASCII
    text, on which [str.upper] is [PyStr.upper]. *)
Definition create_magic_packet (mac_address : value) : option (list Z) :=
  mac_bytes ←
    (if truthy mac_address then
       match mac_address with
       | VStr mac =>
           let mac_clean := PyStr.upper (strip_separators mac) in
           if (String.length mac_clean =? 12) && all_chars is_upper_hex mac_clean
           then fromhex mac_clean
           else None
       | _ => None
       end
     else fromhex (PyStr.join "" (replicate 6 "FF")));
  Some (replicate 6 255%Z ++ concat (replicate 16 mac_bytes)).

(** A datagram handed to [sock.sendto]. *)
Record datagram := { target : value; port : Z; payload : list Z }.

(** [send_magic_packet_to_ip] (1001-1015): the datagrams it hands to the
    socket; a send that fails is passed over. *)
Definition send_magic_packet_to_ip (target_ip : value) (magic_packet : list Z)
    : list datagram :=
  map (fun p => {| target := target_ip; port := p; payload := magic_packet |})
      [7; 9]%Z.

(** [send_magic_packet_to_device] (1017-1023); [None] is the [KeyError] of
    [device['ip']]. *)
Definition send_magic_packet_to_device (dev : device) : option (list datagram) :=
  match create_magic_packet (dict_get dev "mac") with
  | Some magic_packet =>
      if bool_decide (magic_packet = []) then Some []
      else ip ← dev !! "ip"; Some (send_magic_packet_to_ip ip magic_packet)
  | None => Some []
  end.

(** *** MAC addresses in normal form *)

(** [n] pairs of upper-case hex digits with a colon between two pairs. *)
Fixpoint colon_pairs (n : nat) (s : string) : bool :=
  match n, s with
  | S n', String a (String b rest) =>
      is_upper_hex a && is_upper_hex b &&
      match rest with
      | EmptyString => n' =? 0
      | String c rest' => Ascii.eqb c ":" && negb (n' =? 0) && colon_pairs n' rest'
      end
  | _, _ => false
  end.

Definition is_normal_mac (s : string) : bool := colon_pairs 6 s.

(** The hex digits of a pattern match, as the padding rule gets to see
    them. *)
Definition mac_digits (m : string) : string :=
  strip_separators (PyStr.replace_char "-" ":" (PyStr.upper m)).

(** What is known of the digits of a piece of a match: they are
    upper-case hex digits, between [lo] and [hi] of them. *)
Definition digits_within (lo hi : nat) (g : string) : Prop :=
  all_chars is_upper_hex (mac_digits g) = true ∧
  lo ≤ String.length (mac_digits g) ≤ hi.

(** The upper-case hex digit of a value below sixteen, and the hex text of
    a byte string. *)
Definition hex_char (v : Z) : ascii :=
  ascii_of_nat (Z.to_nat (if (v <? 10)%Z then 48 + v else 55 + v)%Z).

Fixpoint hexlify (bytes : list Z) : string :=
  match bytes with
  | [] => EmptyString
  | b :: rest => String (hex_char (b / 16)) (String (hex_char (b mod 16)) (hexlify rest))
  end.

(** ** Devices of interfaces that are no longer active *)

(** The network key of a stored device of an interface that is not active
    (1750-1763); [None] is the [continue] on an address with fewer than
    three dot-separated parts. *)
Definition historical_key (device_ip : string) : option string :=
  if PyStr.startswith "192.168.0." device_ip then Some "192.168.0.0/24"
  else if PyStr.startswith "134.124.230." device_ip then Some "134.124.230.0/24"
  else if PyStr.startswith "134.124.231." device_ip then Some "134.124.231.0/24"
  else
    let network_parts := PyStr.split "." device_ip in
    if 3 <=? length network_parts
    then Some (PyStr.join "." (take 3 network_parts) +:+ ".0/24")
    else None.

(** Lines 1769-1772: the copy of a stored record that is shown. *)
Definition historical_copy (d : device) : device :=
  <["historical" := VBool true]>
    (<["current_scan" := VBool false]>
       (<["status" := VStr "offline"]> d)).

(** One turn of the loop over the stored devices of an interface that is
    not active (1742-1774). *)
Definition historical_device (dev : entry) : turn device :=
  match dev with
  | NotDict => Continue
  | Dict d =>
      let device_ip := dict_get d "ip" in
      if negb (truthy device_ip) then Continue
      else
        match device_ip with
        | VStr ip =>
            match historical_key ip with
            | Some network_key => Emit network_key (historical_copy d)
            | None => Continue
            end
        | _ => Raises
        end
  end.

(** The loop; [None] when a turn raises. *)
Fixpoint historical_devices (known_devices : list entry) (g : groups)
    : option groups :=
  match known_devices with
  | [] => Some g
  | dev :: rest =>
      match historical_device dev with
      | Emit network_key historical =>
          historical_devices rest (group_append network_key historical g)
      | Continue => historical_devices rest g
      | Raises => None
      end
  end.

(** ** The fast scanner of the command line *)

(** [ping_host_fast] (3847-3859). *)
Definition ping_host_fast (w : world) (ip : string) : bool :=
  let system := PyStr.lower (platform_system w) in
  let cmd :=
    if String.eqb system "windows"
    then ["ping"; "-n"; "1"; "-w"; "500"; ip]
    else ["ping"; "-c"; "1"; "-W"; "500"; ip] in
  match subprocess_run w cmd 1 with
  | Some result => (returncode result =? 0)%Z
  | None => false
  end.

Definition standby_ports_fast : list Z := [80; 443; 22]%Z.

(** [check_standby_ports_fast] (3861-3876). *)
Definition check_standby_ports_fast (w : world) (ip : string) : bool :=
  match first_open_port w 200 ip (map (fun p => (p, tt)) standby_ports_fast) with
  | Some _ => true
  | None => false
  end.

(** [get_device_identifier_fast] (3878-3936): the first four methods of
    [get_device_identifier], the ports with 200 ms each; [None] when none
    of them gives a name. *)
Definition get_device_identifier_fast (w : world) (ip : string) : option string :=
  let method1 :=
    match gethostbyaddr w ip with
    | Some hostname =>
        if PyStr.nonempty hostname && negb (String.eqb hostname ip)
           && (2 <? String.length hostname)
        then Some hostname else None
    | None => None
    end in
  match method1 with
  | Some hostname => Some hostname
  | None =>
  let method2 :=
    if String.eqb (platform_system w) "Darwin"
    then truthy_name (get_netbios_name_smbutil w ip) else None in
  match method2 with
  | Some netbios_name => Some netbios_name
  | None =>
  let method3 :=
    if String.eqb (platform_system w) "Darwin"
    then truthy_name (get_apple_device_name w ip) else None in
  match method3 with
  | Some apple_device_name => Some apple_device_name
  | None =>
  match first_open_port w 200 ip service_ports with
  | Some service => Some (service +:+ "-" +:+ PyStr.last_octet ip)
  | None => None
  end end end end.

(** [[0-9a-fA-F]{2}[:-]] at the head of [s]. *)
Definition match_hex2_sep (s : string) : option (string * string) :=
  match s with
  | String a (String b (String c rest)) =>
      if is_hex a && is_hex b && is_mac_sep c
      then Some (String a (String b (String c EmptyString)), rest)
      else None
  | _ => None
  end.

(** The closing [[0-9a-fA-F]{2}]. *)
Definition match_hex2 (s : string) : option string :=
  match s with
  | String a (String b _) =>
      if is_hex a && is_hex b then Some (String a (String b EmptyString)) else None
  | _ => None
  end.

Fixpoint match_hex2_seps (n : nat) (s : string) : option (string * string) :=
  match n with
  | O => Some (EmptyString, s)
  | S n' =>
      match match_hex2_sep s with
      | Some (g, rest) =>
          match match_hex2_seps n' rest with
          | Some (gs, rest') => Some (g +:+ gs, rest')
          | None => None
          end
      | None => None
      end
  end.

(** [([0-9a-fA-F]{2}[:-]){5}[0-9a-fA-F]{2}] anchored at the head. *)
Definition match_mac_fast_at (s : string) : option string :=
  match match_hex2_seps 5 s with
  | Some (gs, rest) =>
      match match_hex2 rest with
      | Some g => Some (gs +:+ g)
      | None => None
      end
  | None => None
  end.

(** [re.search(mac_pattern, s).group(0)] for the pattern of the fast
    lookup: the leftmost match. *)
Fixpoint search_mac_fast (s : string) : option string :=
  match match_mac_fast_at s with
  | Some m => Some m
  | None =>
      match s with
      | EmptyString => None
      | String _ s' => search_mac_fast s'
      end
  end.

(** [get_mac_address_fast] (3938-3959). *)
Definition get_mac_address_fast (w : world) (ip : string) : option string :=
  let system := PyStr.lower (platform_system w) in
  let cmd :=
    if String.eqb system "windows" then ["arp"; "-a"; ip]
    else ["arp"; "-n"; ip] in
  match subprocess_run w cmd 1 with
  | Some result =>
      if (returncode result =? 0)%Z
      then option_map normalize_mac_match (search_mac_fast (stdout result))
      else None
  | None => None
  end.

(** [scan_single_ip_fast] (3803-3845); [None] is [return None]. *)
Definition scan_single_ip_fast (w : world) (ip : string) : option device :=
  let is_pingable := ping_host_fast w ip in
  if is_pingable then
    let hostname := get_device_identifier_fast w ip in
    let mac_address := get_mac_address_fast w ip in
    let vendor_info :=
      match truthy_name mac_address with
      | Some mac => get_mac_vendor w mac
      | None => None
      end in
    Some (<["ip" := VStr ip]>
          (<["hostname" :=
               VStr (default ("Device-" +:+ PyStr.last_octet ip) (truthy_name hostname))]>
          (<["mac" := from_option VStr VNone mac_address]>
          (<["vendor" := from_option VStr VNone vendor_info]>
          (<["status" := VStr "online"]>
          (<["last_seen" := VNum (time_time w ip)]> ∅))))))
  else if check_standby_ports_fast w ip then
    Some (<["ip" := VStr ip]>
          (<["hostname" := VStr ("Standby-" +:+ PyStr.last_octet ip)]>
          (<["mac" := VNone]>
          (<["vendor" := VNone]>
          (<["status" := VStr "standby"]>
          (<["last_seen" := VNum (time_time w ip)]> ∅))))))
  else None.

(** The body of the loop over the completed futures (3767-3788). *)
Definition collect_fast (w : world) (devices : list device) (ip : string)
    : list device :=
  match scan_single_ip_fast w ip with
  | Some dev =>
      if negb (bool_decide (dev = ∅)) then
        match dev !! "status" with
        | Some status =>
            if negb (eq_str status "hidden") then devices ++ [dev] else devices
        | None => devices
        end
      else devices
  | None => devices
  end.

(** [scan_network_parallel] (3743-3801).  All hosts are submitted to one
    pool; [as_completed] gives the hosts in the order in which their tasks
    finish. *)
Definition scan_network_parallel (w : world)
    (as_completed : list string → list string) (info : interface_info)
    : list device :=
  match network_hosts w (subnet info) with
  | None => []
  | Some host_ips =>
      if pool_starts w 0
      then foldl (collect_fast w) [] (as_completed host_ips)
      else []
  end.

(** ** Progress bar *)

(** Text with characters beyond Latin-1 is a list of code points: the bar
    is drawn with U+2588 (full block) and U+2591 (light shade) between two
    vertical bars. *)
Definition full_block : Z := 9608.
Definition light_shade : Z := 9617.
Definition vertical_bar : Z := 124.

(** [create_progress_bar_cli] (3961-3968), called with integers.  [//] is
    the floor division, and a string repeated a negative number of times is
    empty. *)
Definition create_progress_bar_cli (current total width : Z) : list Z :=
  if (total =? 0)%Z
  then [vertical_bar] ++ replicate (Z.to_nat width) light_shade ++ [vertical_bar]
  else
    let filled := (width * current / total)%Z in
    let bar := replicate (Z.to_nat filled) full_block
               ++ replicate (Z.to_nat (width - filled)) light_shade in
    [vertical_bar] ++ bar ++ [vertical_bar].

(** ** Text layout *)

(** [text.split()]: the maximal runs of characters that are no white
    space, in order.  [cur] holds the characters of the run that is being
    read, the last one first. *)
Fixpoint split_whitespace_go (cur : string) (s : string) : list string :=
  match s with
  | EmptyString => if PyStr.nonempty cur then [String.rev cur] else []
  | String a s' =>
      if PyStr.is_space a
      then (if PyStr.nonempty cur then [String.rev cur] else [])
           ++ split_whitespace_go EmptyString s'
      else split_whitespace_go (String a cur) s'
  end.

Definition split_whitespace (s : string) : list string :=
  split_whitespace_go EmptyString s.

(** The body of the loop of [wrap_text] over the words (197-206): the
    lines that are finished and the line that is being filled. *)
Definition wrap_step (width indent : Z) (st : list string * string) (word : string)
    : list string * string :=
  let '(lines, current_line) := st in
  if (Z.of_nat (String.length current_line) + Z.of_nat (String.length word) + 1
      <=? width)%Z
  then
    if PyStr.nonempty (PyStr.strip current_line)
    then (lines, current_line +:+ " " +:+ word)
    else (lines, PyStr.repeat_char " " (Z.to_nat indent) +:+ word)
  else
    (if PyStr.nonempty (PyStr.strip current_line)
     then lines ++ [current_line] else lines,
     PyStr.repeat_char " " (Z.to_nat indent) +:+ word).

(** [wrap_text] (188-211). *)
Definition wrap_text (text : string) (width indent : Z) : list string :=
  if (Z.of_nat (String.length text) <=? width)%Z then [text]
  else
    let '(lines, current_line) :=
      foldl (wrap_step width indent)
            ([], PyStr.repeat_char " " (Z.to_nat indent))
            (split_whitespace text) in
    if PyStr.nonempty (PyStr.strip current_line)
    then lines ++ [current_line] else lines.

(** ** Reference definitions in the specification's words

    Each of these restates a rule of the specification on the same
    [world]; the properties of Part II compare the code with them. *)

(** *** Vendor lookup *)

(** The lines the vendor lookup gets to read. *)
Definition oui_lines (f : oui_file) : list string :=
  match f with
  | OuiMissing => []
  | OuiLines lines => lines
  | OuiBroken lines => lines
  end.

(** *** Status prober (specification 4.3) *)

(** Some record of the store's list for the interface carries the address. *)
Definition recorded (known_devices : list entry) (ip : string) : bool :=
  existsb (fun e => match subscript e "ip" with
                    | Some v => eq_str v ip
                    | None => false
                    end) known_devices.

Definition port_answers (w : world) (timeout_ms : Z) (ip : string) (port : Z) : bool :=
  bool_decide (connect_ex w timeout_ms ip port = Some 0%Z).

Definition spec_status (w : world) (previously_recorded : bool) (ip : string)
    : string :=
  if ping_host w ip then "online"
  else if existsb (port_answers w 1000 ip) [80; 443; 22; 23; 3389; 5900]%Z
  then "standby"
  else if previously_recorded then "offline"
  else "hidden".

(** *** Identity resolver (specification 4.4) *)

(** a. reverse DNS, accepted when it differs from the address and is longer
    than two characters *)
Definition step_dns (w : world) (ip : string) : option string :=
  match gethostbyaddr w ip with
  | Some name =>
      if bool_decide (name ≠ ip) && (2 <? String.length name) then Some name
      else None
  | None => None
  end.

(** b. NetBIOS status query, on macOS only: the name on the first "Server:"
    line of the output of [smbutil status] that names something, and not
    the address itself *)
Definition server_field (ip line : string) : option string :=
  if PyStr.startswith "Server:" line then
    let name := PyStr.strip (PyStr.slice 7 (String.length line) line) in
    if bool_decide (name ≠ EmptyString ∧ name ≠ ip) then Some name else None
  else None.

Definition step_netbios (w : world) (ip : string) : option string :=
  if bool_decide (platform_system w = "Darwin") then
    r ← subprocess_run w ["smbutil"; "status"; ip] 10;
    if bool_decide (returncode r = 0%Z)
    then head (omap (server_field ip) (PyStr.split "010" (stdout r)))
    else None
  else None.

(** The first success of a chain. *)
Fixpoint first_some (chain : list (option string)) : option string :=
  match chain with
  | [] => None
  | Some name :: _ => Some name
  | None :: rest => first_some rest
  end.

(** c. the Apple device name, on macOS only.  First the mDNS/Bonjour
    device-info query: the first line of the output of [dns-sd] that
    mentions device-info and has, after its first "=", a name longer than
    two characters. *)
Definition device_info_field (line : string) : option string :=
  if PyStr.contains "device-info" line && PyStr.contains "=" line then
    let name := PyStr.strip (nth 1 (PyStr.split "=" line) EmptyString) in
    if 2 <? String.length name then Some name else None
  else None.

Definition mdns_device_info (w : world) (ip : string) : option string :=
  r ← subprocess_run w ["dns-sd"; "-G"; "v4"; ip; "_device-info._tcp"; "local."] 5;
  if bool_decide (returncode r = 0%Z)
  then head (omap device_info_field (PyStr.split "010" (stdout r)))
  else None.

(** Then the fallback heuristic: a reverse-DNS name, accepted as in step a,
    that contains a local, home or lan suffix. *)
Definition apple_reverse_dns (w : world) (ip : string) : option string :=
  name ← step_dns w ip;
  if existsb (fun suffix => PyStr.contains suffix name)
             [".local"; ".home"; ".lan"; ".home.arpa"]
  then Some name else None.

(** Then the MAC address: a host whose address in the neighbour cache
    starts with a prefix of the built-in Apple table is ["Apple-{lastOctet}"]. *)
Definition apple_by_prefix (w : world) (ip : string) : option string :=
  mac ← get_mac_address w ip;
  if bool_decide (mac_prefix_of mac ∈ apple_prefixes)
  then Some ("Apple-" +:+ PyStr.last_octet ip) else None.

Definition step_apple (w : world) (ip : string) : option string :=
  if bool_decide (platform_system w = "Darwin")
  then first_some [mdns_device_info w ip; apple_reverse_dns w ip; apple_by_prefix w ip]
  else None.

(** The first entry of a port table whose port answers. *)
Definition first_answering {A} (w : world) (timeout_ms : Z) (ip : string)
    (table : list (Z * A)) : option A :=
  snd <$> head (filter (fun entry => port_answers w timeout_ms ip entry.1 = true) table).

(** d. open-port fingerprint: ["{service}-{lastOctet}"] *)
Definition step_ports (w : world) (ip : string) : option string :=
  (fun service => service +:+ "-" +:+ PyStr.last_octet ip)
    <$> first_answering w 500 ip
          [ (22, "SSH"); (23, "Telnet"); (80, "HTTP"); (443, "HTTPS");
            (3389, "RDP"); (5900, "VNC"); (8080, "HTTP-Alt"); (8443, "HTTPS-Alt") ]%Z.

(** e. MAC vendor lookup: ["{vendor}-{lastOctet}"] *)
Definition step_vendor (w : world) (ip : string) : option string :=
  mac ← truthy_name (get_mac_address w ip);
  vendor ← truthy_name (get_mac_vendor w mac);
  Some (vendor +:+ "-" +:+ PyStr.last_octet ip).

Definition resolution_chain (w : world) (ip : string) : list (option string) :=
  [step_dns w ip; step_netbios w ip; step_apple w ip; step_ports w ip;
   step_vendor w ip].

(** The chain as the specification lists it: step c is the device-info
    query with its fallback heuristic, and no more. *)
Definition spec_chain (w : world) (ip : string) : list (option string) :=
  [step_dns w ip; step_netbios w ip;
   (if bool_decide (platform_system w = "Darwin")
    then first_some [mdns_device_info w ip; apple_reverse_dns w ip] else None);
   step_ports w ip; step_vendor w ip].

(** The first success of a chain, or the fallback. *)
Fixpoint first_success (chain : list (option string)) (fallback : string) : string :=
  match chain with
  | [] => fallback
  | Some name :: _ => name
  | None :: rest => first_success rest fallback
  end.

(** A stored record has the keys the scanners subscript. *)
Definition has_core_keys (e : entry) : bool :=
  match e with
  | Dict d =>
      bool_decide (is_Some (d !! "ip")) && bool_decide (is_Some (d !! "hostname"))
      && bool_decide (is_Some (d !! "mac"))
  | NotDict => false
  end.

(** The status a record carries is "hidden". *)
Definition is_hidden (e : entry) : bool :=
  match subscript e "status" with
  | Some status => eq_str status "hidden"
  | None => false
  end.

(** What the scanners keep true of their state: a record of the working
    list that says "hidden" was seeded from the store as it is, and nothing
    hidden was handed to the callback. *)
Definition hidden_only_seeded (known_devices : list entry) (st : scan_state) : Prop :=
  (∀ e, e ∈ devices st → is_hidden e = true → e ∈ known_devices) ∧
  Forall (λ d, is_hidden (Dict d) = false) (delivered st).

(** *** Known-device merge (specification 4.7) *)

(** The address a record is merged by: a non-empty string under "ip". *)
Definition address_of (e : entry) : option string :=
  match e with
  | Dict d =>
      match d !! "ip" with
      | Some (VStr ip) => if PyStr.nonempty ip then Some ip else None
      | _ => None
      end
  | NotDict => None
  end.

(** The record, when it belongs to the network of the given key. *)
Definition filed_under (info : interface_info) (network_key : string) (e : entry)
    : option device :=
  match e, address_of e with
  | Dict d, Some ip =>
      if decide (network_key_of info ip = network_key) then Some d else None
  | _, _ => None
  end.

(** [m] is [d] with nothing changed but the three keys the merge writes:
    the network context, the copy of the time stamp, and the status of a
    record of a discovered network that is not pingable. *)
Definition annotated (info : interface_info) (d m : device) : Prop :=
  ∃ ip,
    address_of (Dict d) = Some ip ∧
    let discovered := bool_decide (network_key_of info ip ≠ subnet info) in
    let pingable := truthy (dict_get_or d "pingable" (VBool false)) in
    (∀ k, k ∉ ["status"; "network_context"; "stored_last_seen"] →
          m !! k = d !! k) ∧
    m !! "status" =
      (if discovered && negb pingable then Some (VStr "offline") else d !! "status") ∧
    m !! "network_context" =
      Some (VStr (if discovered
                  then if pingable then "discovered_online" else "discovered_offline"
                  else "primary")) ∧
    m !! "stored_last_seen" =
      (if truthy (dict_get d "last_seen") then d !! "last_seen"
       else d !! "stored_last_seen").

(** ** Invariants of the scanners, the store and the merge *)

(** *** Scan scheduler: what a scan keeps of its working list *)

(** The address of a record of a device list, when it is a string. *)
Definition ip_string (e : entry) : option string :=
  match subscript e "ip" with
  | Some (VStr ip) => Some ip
  | _ => None
  end.

(** The keys a probe writes besides the address. *)
Definition probe_keys : list string :=
  ["hostname"; "mac"; "status"; "pingable"; "last_seen"].

(** Every record of [l] is still in [l'], at its position, and differs
    there in nothing but what a probe writes. *)
Definition kept_in (l l' : list entry) : Prop :=
  ∀ i e, l !! i = Some e →
    ∃ e', l' !! i = Some e' ∧
          (e = NotDict → e' = NotDict) ∧
          ∀ k, k ∉ probe_keys → subscript e' k = subscript e k.
(** The three things one turn of the collecting loop can do to the working
    list: nothing, overwrite the first record of the address with the
    probe's fields, or append the probe's record. *)
Inductive collected (w : world) (known_devices : list entry) (ip : string)
    (l : list entry) : list entry → Prop :=
| collected_nothing : collected w known_devices ip l l
| collected_update i d dev :
    scan_ip w known_devices ip = Some dev →
    is_hidden (Dict dev) = false →
    find_existing l ip = Some (Some i) →
    l !! i = Some (Dict d) →
    collected w known_devices ip l (<[i := Dict (dict_update d dev)]> l)
| collected_append dev :
    scan_ip w known_devices ip = Some dev →
    is_hidden (Dict dev) = false →
    find_existing l ip = Some None →
    collected w known_devices ip l (l ++ [Dict dev]).

(** The working list has a record of the address with what the probe saw. *)
Definition reported (w : world) (ip : string) (l : list entry) : Prop :=
  ∃ i d, l !! i = Some (Dict d) ∧
         d !! "ip" = Some (VStr ip) ∧
         d !! "status" = Some (VStr (check_device_status w ip)) ∧
         d !! "last_seen" = Some (VNum (time_time w ip)).

(** A record of a host that answered its probe: it carries the host's
    address, the status the probe found, which is online or standby, and
    the time of the probe. *)
Definition answered (w : world) (e : entry) : Prop :=
  ∃ d ip,
    e = Dict d ∧
    d !! "ip" = Some (VStr ip) ∧
    is_responsive (check_device_status w ip) = true ∧
    d !! "status" = Some (VStr (check_device_status w ip)) ∧
    d !! "pingable" = Some (VBool (String.eqb (check_device_status w ip) "online")) ∧
    d !! "last_seen" = Some (VNum (time_time w ip)).

(** *** Known-device store: what a stored record holds *)

Definition stored_keys : list string :=
  ["ip"; "hostname"; "mac"; "last_seen"; "status"; "vendor"].

(** A record as [update_known_devices] writes it: the five keys it always
    sets, nothing besides these and the vendor, and a vendor only as a
    string that is neither empty nor "Unknown". *)
Definition stored_shape (e : entry) : Prop :=
  ∃ r, e = Dict r ∧
       (∀ k, k ∈ ["ip"; "hostname"; "mac"; "last_seen"; "status"] → is_Some (r !! k)) ∧
       (∀ k, is_Some (r !! k) → k ∈ stored_keys) ∧
       (∀ v, r !! "vendor" = Some v →
             ∃ vendor, v = VStr vendor ∧ vendor ≠ EmptyString ∧ vendor ≠ "Unknown").

(** *** Known-device merge: the groups *)

(** The copy of a stored record that the merge shows for a device the scan
    did not find. *)
Definition offline_copy (k : device) : device :=
  <["current_scan" := VBool false]> (<["status" := VStr "offline"]> k).

(** The addresses of the records of a group. *)
Definition group_addresses (g : groups) (network_key : string) : list (option value) :=
  (λ m : device, m !! "ip") <$> default [] (g !! network_key).

(** Every record of a group has an address of the network the group is
    for. *)
Definition well_grouped (info : interface_info) (g : groups) : Prop :=
  ∀ key v, v ∈ group_addresses g key →
    ∃ ip, v = Some (VStr ip) ∧ ip ≠ EmptyString ∧ network_key_of info ip = key.

(** No two records of a group have the same address. *)
Definition distinct_in_groups (g : groups) : Prop :=
  ∀ key, NoDup (group_addresses g key).

(** The group of the address has no record of it. *)
Definition absent (info : interface_info) (ip : string) (g : groups) : Prop :=
  Some (VStr ip) ∉ group_addresses g (network_key_of info ip).

(** The group of the address has one record of it, the offline copy of a
    record of the store. *)
Definition shown_offline (info : interface_info) (known_all : list entry)
    (ip : string) (g : groups) : Prop :=
  ∃ k0, Dict k0 ∈ known_all ∧ address_of (Dict k0) = Some ip ∧
        offline_copy k0 ∈ default [] (g !! network_key_of info ip) ∧
        ∀ m, m ∈ default [] (g !! network_key_of info ip) →
             m !! "ip" = Some (VStr ip) → m = offline_copy k0.

(** *** The fast scanner *)

(** d. of the identity resolver with the time-out of the fast scanner *)
Definition step_ports_fast (w : world) (ip : string) : option string :=
  (fun service => service +:+ "-" +:+ PyStr.last_octet ip)
    <$> first_answering w 200 ip
          [ (22, "SSH"); (23, "Telnet"); (80, "HTTP"); (443, "HTTPS");
            (3389, "RDP"); (5900, "VNC"); (8080, "HTTP-Alt"); (8443, "HTTPS-Alt") ]%Z.

(** *** The command-line scanner with the progress bar *)

(** What the loop over the futures appends for one host: the record of the
    probe when the task finishes in time and the host answers. *)
Definition answering_record (w : world) (ip : string) : option entry :=
  if result_times_out w ip then None
  else if is_responsive (check_device_status w ip)
       then Dict <$> scan_single_ip w ip
       else None.

(** *** Text layout *)

(** A word: a non-empty string without white space. *)
Definition no_space (a : ascii) : bool := negb (PyStr.is_space a).

Definition is_word (w : string) : Prop :=
  w ≠ EmptyString ∧ all_chars no_space w = true.

(** A line of wrapped text is as it should be when it fits the width, or
    when it is a single word of the text after the indent. *)
Definition fits_or_single (text : string) (width indent : Z) (line : string) : Prop :=
  (Z.of_nat (String.length line) ≤ width)%Z ∨
  ∃ word, word ∈ split_whitespace text ∧
          line = PyStr.repeat_char " " (Z.to_nat indent) +:+ word.

(** *** From the probe to the store *)

(** The keys of a probe's record that the store keeps. *)
Definition persisted_keys : list string :=
  ["ip"; "hostname"; "mac"; "status"; "last_seen"].

(** The working list has a record with the fields of the probe's record. *)
Definition carried (dev : device) (l : list entry) : Prop :=
  ∃ i d, l !! i = Some (Dict d) ∧
         ∀ key, key ∈ persisted_keys → d !! key = dev !! key.

(** A record has the keys [update_known_devices] subscripts. *)
Definition storable (e : entry) : Prop :=
  ∃ d, e = Dict d ∧
       ∀ key, key ∈ ["status"; "ip"; "hostname"; "mac"] → is_Some (d !! key).

(** *** The live callback *)

(** The record of a probe that is shown: the task finished in time and the
    host is not hidden. *)
Definition shown_probe (w : world) (known_devices : list entry) (ip : string)
    : option device :=
  if result_times_out w ip then None
  else
    match scan_ip w known_devices ip with
    | Some dev => if is_hidden (Dict dev) then None else Some dev
    | None => None
    end.

(** *** The store between scans *)

(** The hostname and the MAC of a record of the address after a scan: each
    is the value the store had, or the non-empty value the probe found. *)
Definition kept_or_found (w : world) (ip : string) (stored d : device) : Prop :=
  (d !! "hostname" = stored !! "hostname" ∨
   d !! "hostname" = Some (VStr (get_device_identifier w ip))) ∧
  (d !! "mac" = stored !! "mac" ∨
   ∃ m, get_mac_address w ip = Some m ∧ m ≠ EmptyString ∧ d !! "mac" = Some (VStr m)).

(** The vendor the store records for a MAC: the name the lookup gives for
    it now, unless that is empty or "Unknown". *)
Definition vendor_of_mac (w : world) (mac : value) : option value :=
  match mac with
  | VStr m =>
      match get_mac_vendor w m with
      | Some vendor =>
          if bool_decide (vendor ≠ EmptyString ∧ vendor ≠ "Unknown")
          then Some (VStr vendor) else None
      | None => None
      end
  | _ => None
  end.

(** ** Worlds to compute in *)

(** A world in which no tool runs, no port answers and no name resolves. *)
Definition silent_world : world :=
  {| platform_system := "Linux";
     subprocess_run := fun _ _ => None;
     connect_ex := fun _ _ _ => None;
     gethostbyaddr := fun _ => None;
     oui_database := OuiMissing;
     time_time := fun _ => 1700000000%Z;
     time_store := 1700000100%Z;
     network_hosts := fun _ => None;
     pool_starts := fun _ => true;
     result_times_out := fun _ => false;
     interrupt_pressed := fun _ => false |}.

(** The silent world with an OUI database of the given lines. *)
Definition oui_world (lines : list string) : world :=
  {| platform_system := platform_system silent_world;
     subprocess_run := subprocess_run silent_world;
     connect_ex := connect_ex silent_world;
     gethostbyaddr := gethostbyaddr silent_world;
     oui_database := OuiLines lines;
     time_time := time_time silent_world;
     time_store := time_store silent_world;
     network_hosts := network_hosts silent_world;
     pool_starts := pool_starts silent_world;
     result_times_out := result_times_out silent_world;
     interrupt_pressed := interrupt_pressed silent_world |}.

Definition sample_oui_lines : list string :=
  [ "# OUI" +:+ String "009" "" +:+ String "010" "";
    "001A2B" +:+ String "009" "Acme Corp" +:+ String "010" "";
    "001A2B" +:+ String "009" "Shadowed" +:+ String "010" "" ].

(** A world of the given hosts in which the given (address, port) pairs
    answer a connect, and nothing else happens. *)
Definition answering_world (hosts : list string) (answering : list (string * Z))
    : world :=
  {| platform_system := platform_system silent_world;
     subprocess_run := subprocess_run silent_world;
     connect_ex := fun _ ip port =>
       if bool_decide ((ip, port) ∈ answering) then Some 0%Z else Some 111%Z;
     gethostbyaddr := gethostbyaddr silent_world;
     oui_database := oui_database silent_world;
     time_time := time_time silent_world;
     time_store := time_store silent_world;
     network_hosts := fun _ => Some hosts;
     pool_starts := pool_starts silent_world;
     result_times_out := result_times_out silent_world;
     interrupt_pressed := interrupt_pressed silent_world |}.

Definition two_hosts : list string := ["10.0.0.1"; "10.0.0.2"].

(** Of two hosts, the first answers on port 80 and the second not at all. *)
Definition one_of_two : world := answering_world two_hosts [("10.0.0.1", 80%Z)].

Definition lab_interface : interface_info :=
  {| interface := "en1"; subnet := "10.0.0.0/30" |}.

(** ** Records to compute with *)

Definition nas_record : device :=
  <["ip" := VStr "192.168.1.5"]>
  (<["hostname" := VStr "nas.local"]>
  (<["mac" := VStr "AA:BB:CC:DD:EE:FF"]>
  (<["vendor" := VStr "Synology"]>
  (<["last_seen" := VNum 1699990000]>
  (<["status" := VStr "online"]> ∅))))).

(** A fresh probe of the same address that found neither name nor MAC. *)
Definition nas_probe : device :=
  <["ip" := VStr "192.168.1.5"]>
  (<["hostname" := VNone]>
  (<["mac" := VNone]>
  (<["status" := VStr "offline"]>
  (<["pingable" := VBool false]>
  (<["last_seen" := VNum 1699990000]> ∅))))).

Definition home_interface : interface_info :=
  {| interface := "en0"; subnet := "192.168.1.0/24" |}.

(** An interface whose own subnet is 192.168.0.0/24, and a record of a
    device of another network that an earlier scan had marked online. *)
Definition office_interface : interface_info :=
  {| interface := "en0"; subnet := "192.168.0.0/24" |}.

Definition campus_record : device :=
  <["ip" := VStr "134.124.230.7"]>
  (<["hostname" := VStr "printer"]>
  (<["mac" := VNone]>
  (<["status" := VStr "online"]>
  (<["pingable" := VBool false]>
  (<["last_seen" := VNum 1699990000]> ∅))))).

(** A world whose [arp] prints one line for every address it is asked for. *)
Definition arp_world (line : string) : world :=
  {| platform_system := platform_system silent_world;
     subprocess_run := fun cmd _ =>
       match cmd with
       | "arp" :: _ => Some {| returncode := 0; stdout := line |}
       | _ => None
       end;
     connect_ex := connect_ex silent_world;
     gethostbyaddr := gethostbyaddr silent_world;
     oui_database := oui_database silent_world;
     time_time := time_time silent_world;
     time_store := time_store silent_world;
     network_hosts := network_hosts silent_world;
     pool_starts := pool_starts silent_world;
     result_times_out := result_times_out silent_world;
     interrupt_pressed := interrupt_pressed silent_world |}.

Definition arp_line : string :=
  "? (10.0.0.7) at 0:3e:e1:b7:57:54 on en0 ifscope [ethernet]".

(** A stored record of a network that none of the fixed keys names. *)
Definition lab_record : device :=
  <["ip" := VStr "10.20.30.40"]>
  (<["hostname" := VStr "bench"]>
  (<["mac" := VNone]>
  (<["last_seen" := VNum 1699990000]>
  (<["status" := VStr "online"]> ∅)))).

(** A world in which every host answers the fast ping and nothing else
    happens. *)
Definition pinging_world (hosts : list string) : world :=
  {| platform_system := platform_system silent_world;
     subprocess_run := fun cmd _ =>
       match cmd with
       | "ping" :: _ => Some {| returncode := 0; stdout := "" |}
       | _ => None
       end;
     connect_ex := connect_ex silent_world;
     gethostbyaddr := gethostbyaddr silent_world;
     oui_database := oui_database silent_world;
     time_time := time_time silent_world;
     time_store := time_store silent_world;
     network_hosts := fun _ => Some hosts;
     pool_starts := pool_starts silent_world;
     result_times_out := result_times_out silent_world;
     interrupt_pressed := interrupt_pressed silent_world |}.

(** A Mac on whose network one host has an Apple network card and an open
    SSH port: [arp] knows the host, nothing resolves its name. *)
Definition apple_host_world : world :=
  {| platform_system := "Darwin";
     subprocess_run := fun cmd _ =>
       match cmd with
       | "arp" :: _ =>
           Some {| returncode := 0;
                   stdout := "? (192.168.1.7) at 0:1b:63:aa:bb:cc on en0 ifscope [ethernet]" |}
       | _ => None
       end;
     connect_ex := fun _ _ port => if (port =? 22)%Z then Some 0%Z else Some 61%Z;
     gethostbyaddr := gethostbyaddr silent_world;
     oui_database := oui_database silent_world;
     time_time := time_time silent_world;
     time_store := time_store silent_world;
     network_hosts := network_hosts silent_world;
     pool_starts := pool_starts silent_world;
     result_times_out := result_times_out silent_world;
     interrupt_pressed := interrupt_pressed silent_world |}.

(* ===================================================================== *)
(** * Part II. Properties *)
(* ===================================================================== *)

(** Membership in a list that is written out. *)
Ltac in_list := repeat first [apply list_elem_of_here | apply list_elem_of_further].

(** ** The padding rule *)

Lemma length_remove_char c s : String.length (PyStr.remove_char c s) ≤ String.length s.
Proof. induction s as [|a s IH]; simpl; [lia|]. destruct (Ascii.eqb a c); simpl; lia. Qed.

Lemma length_string_app s t : String.length (s +:+ t) = String.length s + String.length t.
Proof. induction s as [|a s IH]; simpl; [done|]. by rewrite IH. Qed.

Lemma length_repeat_char c n : String.length (PyStr.repeat_char c n) = n.
Proof. induction n; simpl; congruence. Qed.

Lemma length_substring_0 n s : n ≤ String.length s → String.length (substring 0 n s) = n.
Proof.
  revert s. induction n as [|n IH]; intros [|a s] H; simpl in *; try lia; try done.
  rewrite IH; lia.
Qed.

Lemma spec_twelve_length clean : String.length (spec_twelve clean) = 12.
Proof.
  unfold spec_twelve.
  destruct (Nat.eqb_spec (String.length clean) 12) as [E|E]; [done|].
  destruct (Nat.ltb_spec (String.length clean) 12) as [L|L].
  - rewrite length_string_app, length_repeat_char. lia.
  - apply length_substring_0. lia.
Qed.

Lemma strip_separators_plain s : all_chars plain_char (strip_separators s) = true.
Proof.
  unfold strip_separators. induction s as [|a s IH]; simpl; [done|].
  destruct (Ascii.eqb a ":") eqn:E1; simpl; [done|].
  destruct (Ascii.eqb a "-") eqn:E2; simpl; [done|].
  unfold plain_char. rewrite E1, E2. simpl. done.
Qed.

Lemma all_chars_app p s t :
  all_chars p (s +:+ t) = all_chars p s && all_chars p t.
Proof. induction s as [|a s IH]; simpl; [done|]. by rewrite IH, andb_assoc. Qed.

Lemma all_chars_repeat p c n : p c = true → all_chars p (PyStr.repeat_char c n) = true.
Proof. intros H. induction n; simpl; [done|]. by rewrite H, IHn. Qed.

Lemma all_chars_substring_0 p n s :
  all_chars p s = true → all_chars p (substring 0 n s) = true.
Proof.
  revert s. induction n as [|n IH]; intros [|a s]; simpl; try done.
  intros [-> H]%andb_prop. simpl. by apply IH.
Qed.

Lemma spec_twelve_plain clean :
  all_chars plain_char clean = true → all_chars plain_char (spec_twelve clean) = true.
Proof.
  intros H. unfold spec_twelve.
  destruct (_ =? _); [done|]. destruct (_ <? _).
  - rewrite all_chars_app, H, all_chars_repeat; done.
  - by apply all_chars_substring_0.
Qed.

Ltac twelve_chars s H :=
  do 12 (destruct s as [|? s]; [discriminate H|]); destruct s; [|discriminate H].

Lemma format_with_colons_pairs s :
  String.length s = 12 → format_with_colons s = spec_colon_pairs s.
Proof. intros H. twelve_chars s H. reflexivity. Qed.

Lemma colon_pairs_length s :
  String.length s = 12 → String.length (spec_colon_pairs s) = 17.
Proof. intros H. twelve_chars s H. reflexivity. Qed.

Lemma plain_char_inv a :
  plain_char a = true → Ascii.eqb a ":" = false ∧ Ascii.eqb a "-" = false.
Proof. unfold plain_char. destruct (Ascii.eqb a ":"), (Ascii.eqb a "-"); done. Qed.

Lemma strip_colon_pairs s :
  String.length s = 12 → all_chars plain_char s = true →
  strip_separators (spec_colon_pairs s) = s.
Proof.
  intros H P. twelve_chars s H. simpl in P.
  repeat match type of P with
         | _ && _ = true => apply andb_prop in P; destruct P as [?%plain_char_inv P]
         end.
  destruct_and!.
  unfold strip_separators. simpl.
  repeat (progress (repeat match goal with
                           | H : Ascii.eqb _ _ = false |- _ => rewrite H
                           end; simpl)).
  reflexivity.
Qed.

Lemma pad_mac_address_twelve mac :
  mac ≠ EmptyString →
  pad_mac_address mac = format_with_colons (spec_twelve (strip_separators mac)).
Proof.
  intros Hne. unfold pad_mac_address, spec_twelve, PyStr.slice.
  destruct mac as [|a mac]; [done|]. cbn [PyStr.nonempty negb].
  destruct (_ =? 12); [done|]. destruct (_ <? 12); done.
Qed.

(** C1, as amended.  On a non-empty string the padding rule strips the
    separators and writes twelve characters as colon-separated pairs: the
    stripped text itself when it has twelve characters, the text padded on
    the left with zeros when it has fewer, its first twelve characters when
    it has more.  The result has 17 characters and, stripped again, gives
    the twelve back.  The rule keeps the case of the characters: it is
    [get_mac_address] that upper-cases a match before it pads it, so that
    [0:3e:e1:b7:57:54] is reported as [00:3E:E1:B7:57:54]; a full address is
    unchanged and a thirteenth hex character is cut off. *)
Theorem pad_mac_address_rule :
  (∀ mac : string,
     mac ≠ EmptyString →
     let clean := strip_separators mac in
     let n := String.length clean in
     let out := pad_mac_address mac in
     (n = 12 → out = spec_colon_pairs clean) ∧
     (n < 12 → out = spec_colon_pairs (PyStr.repeat_char "0" (12 - n) +:+ clean)) ∧
     (12 < n → out = spec_colon_pairs (substring 0 12 clean)) ∧
     String.length out = 17 ∧
     strip_separators out = spec_twelve clean) ∧
  pad_mac_address "0:3E:E1:B7:57:54" = "00:3E:E1:B7:57:54" ∧
  normalize_mac_match "0:3e:e1:b7:57:54" = "00:3E:E1:B7:57:54" ∧
  pad_mac_address "AA:BB:CC:DD:EE:FF" = "AA:BB:CC:DD:EE:FF" ∧
  pad_mac_address "AA:BB:CC:DD:EE:FF:1" = "AA:BB:CC:DD:EE:FF" ∧
  pad_mac_address "" = "".
Proof.
  split; [|repeat split; reflexivity].
  intros mac Hne clean n out.
  assert (Hout : out = spec_colon_pairs (spec_twelve clean)).
  { subst out clean. rewrite pad_mac_address_twelve by done.
    apply format_with_colons_pairs, spec_twelve_length. }
  repeat split.
  - intros Hn. rewrite Hout. unfold spec_twelve. fold n.
    apply Nat.eqb_eq in Hn. by rewrite Hn.
  - intros Hn. rewrite Hout. unfold spec_twelve. fold n.
    destruct (Nat.eqb_spec n 12); [lia|].
    destruct (Nat.ltb_spec n 12); [done|lia].
  - intros Hn. rewrite Hout. unfold spec_twelve. fold n.
    destruct (Nat.eqb_spec n 12); [lia|].
    destruct (Nat.ltb_spec n 12); [lia|done].
  - rewrite Hout. apply colon_pairs_length, spec_twelve_length.
  - rewrite Hout. apply strip_colon_pairs; [apply spec_twelve_length|].
    apply spec_twelve_plain, strip_separators_plain.
Qed.

(** The rule at an address with a thirteenth hex character. *)
Lemma pad_mac_address_rule_witness :
  "AA:BB:CC:DD:EE:FF:1" ≠ EmptyString ∧
  pad_mac_address "AA:BB:CC:DD:EE:FF:1" = "AA:BB:CC:DD:EE:FF".
Proof.
  split; [discriminate|].
  pose proof (proj1 pad_mac_address_rule "AA:BB:CC:DD:EE:FF:1") as H.
  destruct H as (_ & _ & H & _); [discriminate|].
  apply H. simpl. lia.
Defined.

(** C1 as the specification words it fails: the padding rule does not
    change the case of the digits it is given. *)
Lemma pad_mac_address_keeps_case :
  pad_mac_address "0:3e:e1:b7:57:54" ≠ "00:3E:E1:B7:57:54".
Proof. discriminate. Qed.


Example pad_short : pad_mac_address "0:3e:e1:b7:57:54" = "00:3e:e1:b7:57:54".
Proof. reflexivity. Qed.

Example pad_full : pad_mac_address "AA:BB:CC:DD:EE:FF" = "AA:BB:CC:DD:EE:FF".
Proof. reflexivity. Qed.

Example pad_long : pad_mac_address "AA:BB:CC:DD:EE:FF:1" = "AA:BB:CC:DD:EE:FF".
Proof. reflexivity. Qed.

Example normalize_short :
  normalize_mac_match "0:3e:e1:b7:57:54" = "00:3E:E1:B7:57:54".
Proof. reflexivity. Qed.

Example split_dots : PyStr.split "." "192.168.0.17" = ["192"; "168"; "0"; "17"].
Proof. reflexivity. Qed.

Example strip_ws : PyStr.strip "  a b	" = "a b".
Proof. reflexivity. Qed.

(** ** Vendor lookup *)

Lemma search_oui_hit db_prefix before line after vendor :
  Forall (λ l, line_vendor db_prefix l = None) before →
  line_vendor db_prefix line = Some vendor →
  search_oui db_prefix (before ++ line :: after) = Some vendor.
Proof.
  intros Hb Hl. induction Hb as [|l before Hl0 _ IH]; simpl.
  - by rewrite Hl.
  - by rewrite Hl0.
Qed.

Lemma search_oui_miss db_prefix lines :
  Forall (λ l, line_vendor db_prefix l = None) lines ↔
  search_oui db_prefix lines = None.
Proof.
  induction lines as [|l lines IH]; simpl.
  - split; [done|constructor].
  - destruct (line_vendor db_prefix l) eqn:E.
    + split; [|done]. intros H. inversion H; congruence.
    + rewrite <- IH. split; [by inversion 1|by constructor].
Qed.

Lemma search_oui_found db_prefix lines vendor :
  search_oui db_prefix lines = Some vendor →
  ∃ before line after,
    lines = before ++ line :: after ∧
    Forall (λ l, line_vendor db_prefix l = None) before ∧
    line_vendor db_prefix line = Some vendor.
Proof.
  induction lines as [|l lines IH]; simpl; [done|].
  destruct (line_vendor db_prefix l) as [v|] eqn:E.
  - intros [= ->]. exists [], l, lines. by repeat split.
  - intros (before & line & after & -> & Hb & Hl)%IH.
    exists (l :: before), line, after. repeat split; [|done]. by constructor.
Qed.

Lemma nonempty_true s : PyStr.nonempty s = true ↔ s ≠ EmptyString.
Proof. destruct s; simpl; split; done. Qed.

Lemma line_vendor_spec db_prefix raw vendor :
  line_vendor db_prefix raw = Some vendor ↔
  PyStr.contains db_prefix (PyStr.strip raw) = true ∧
  (∃ field, PyStr.split "009" (PyStr.strip raw) !! 1 = Some field ∧
            PyStr.strip field = vendor) ∧
  vendor ≠ EmptyString.
Proof.
  unfold line_vendor. generalize (PyStr.strip raw). intros line.
  destruct (PyStr.nonempty line) eqn:Hn; cbn [andb].
  2:{ split; [done|]. intros (_ & (field & Hf & _) & _).
      destruct line; [discriminate Hf|simpl in Hn; discriminate Hn]. }
  destruct (PyStr.contains db_prefix line) eqn:Hc.
  2:{ split; [done|]. by intros (? & _). }
  destruct (Nat.leb_spec 2 (length (PyStr.split "009" line))) as [Hl|Hl].
  2:{ split; [done|]. intros (_ & (field & Hf & _) & _).
      apply lookup_lt_Some in Hf. lia. }
  destruct (lookup_lt_is_Some_2 (PyStr.split "009" line) 1) as [field Hf]; [lia|].
  rewrite (nth_lookup_Some _ _ _ _ Hf).
  destruct (PyStr.nonempty (PyStr.strip field)) eqn:Hv.
  - split.
    + intros [= <-]. repeat split; [eauto|by apply nonempty_true].
    + intros (_ & (field' & Hf' & <-) & _). congruence.
  - split; [done|]. intros (_ & (field' & Hf' & <-) & Hne).
    assert (field' = field) as -> by congruence.
    apply nonempty_true in Hne. congruence.
Qed.

(** C5, as amended.  For a non-empty address with at least three
    colon-separated parts the vendor lookup reads the OUI database first:
    the first line that, stripped, contains the prefix and has a non-empty
    second tab-separated field decides, and that field, stripped, is the
    vendor.  When no line decides, the answer is the entry of the hardcoded
    table for the colon-separated prefix, and when the table has none the
    lookup returns [None], no string. *)
Theorem get_mac_vendor_lookup (w : world) (mac : string) :
  mac ≠ EmptyString →
  3 ≤ length (PyStr.split ":" mac) →
  let mac_prefix := PyStr.upper (mac_prefix_of mac) in
  let db_prefix := PyStr.upper (PyStr.remove_char ":" mac_prefix) in
  let lines := oui_lines (oui_database w) in
  let misses := Forall (λ l, line_vendor db_prefix l = None) in
  (∀ before line after vendor,
     lines = before ++ line :: after →
     misses before →
     line_vendor db_prefix line = Some vendor →
     get_mac_vendor w mac = Some vendor) ∧
  (misses lines →
     get_mac_vendor w mac = dict_lookup mac_prefix common_vendors) ∧
  (misses lines → dict_lookup mac_prefix common_vendors = None →
     get_mac_vendor w mac = None) ∧
  (∀ line vendor,
     line_vendor db_prefix line = Some vendor ↔
     PyStr.contains db_prefix (PyStr.strip line) = true ∧
     (∃ field, PyStr.split "009" (PyStr.strip line) !! 1 = Some field ∧
               PyStr.strip field = vendor) ∧
     vendor ≠ EmptyString).
Proof.
  intros Hne Hlen mac_prefix db_prefix lines misses.
  assert (Hcode : get_mac_vendor w mac =
                  match search_oui db_prefix lines with
                  | Some vendor => Some vendor
                  | None => dict_lookup mac_prefix common_vendors
                  end).
  { unfold get_mac_vendor. apply nonempty_true in Hne. rewrite Hne.
    destruct (Nat.ltb_spec (length (PyStr.split ":" mac)) 3); [lia|].
    cbn [negb orb]. subst lines. by destruct (oui_database w). }
  split; [|split; [|split]].
  - intros before line after vendor Hl Hb Hv.
    rewrite Hcode, Hl, (search_oui_hit _ _ _ _ _ Hb Hv). done.
  - intros Hm%search_oui_miss. by rewrite Hcode, Hm.
  - intros Hm%search_oui_miss Ht. by rewrite Hcode, Hm.
  - intros line vendor. apply line_vendor_spec.
Qed.

(** The lookup in a database whose second line decides. *)
Lemma get_mac_vendor_lookup_witness :
  get_mac_vendor (oui_world sample_oui_lines) "00:1a:2b:aa:bb:cc" = Some "Acme Corp".
Proof.
  refine (proj1 (get_mac_vendor_lookup (oui_world sample_oui_lines)
                   "00:1a:2b:aa:bb:cc" _ _)
            [ "# OUI" +:+ String "009" "" +:+ String "010" "" ]
            ("001A2B" +:+ String "009" "Acme Corp" +:+ String "010" "")
            [ "001A2B" +:+ String "009" "Shadowed" +:+ String "010" "" ]
            "Acme Corp" _ _ _).
  - discriminate.
  - vm_compute. lia.
  - reflexivity.
  - repeat constructor.
  - reflexivity.
Defined.

(** C5 as the specification words it fails: when the database and the
    table both miss, the lookup returns [None], not the string "unknown". *)
Lemma get_mac_vendor_unknown_is_none :
  get_mac_vendor silent_world "AA:BB:CC:DD:EE:FF" = None ∧
  get_mac_vendor silent_world "AA:BB:CC:DD:EE:FF" ≠ Some "unknown".
Proof. split; [reflexivity|discriminate]. Qed.

Example vendor_from_table :
  get_mac_vendor silent_world "52:54:00:12:34:56" = Some "QEMU".
Proof. reflexivity. Qed.

Example vendor_short_prefix :
  get_mac_vendor silent_world "52:54" = None.
Proof. reflexivity. Qed.

(** ** Identity resolver *)

Lemma first_open_port_step {A} w timeout_ms ip port (label : A) table :
  first_open_port w timeout_ms ip ((port, label) :: table) =
  if port_answers w timeout_ms ip port then Some label
  else first_open_port w timeout_ms ip table.
Proof.
  cbn [first_open_port]. unfold port_answers.
  destruct (decide (connect_ex w timeout_ms ip port = Some 0%Z)) as [E|E].
  - by rewrite E, bool_decide_eq_true_2.
  - rewrite bool_decide_eq_false_2 by done.
    by destruct (connect_ex w timeout_ms ip port) as [[| |]|].
Qed.

Lemma first_open_port_answering {A} w timeout_ms ip (table : list (Z * A)) :
  first_open_port w timeout_ms ip table = first_answering w timeout_ms ip table.
Proof.
  unfold first_answering. induction table as [|[port label] table IH]; [done|].
  rewrite first_open_port_step, filter_cons. cbn [fst].
  destruct (port_answers w timeout_ms ip port).
  - by rewrite decide_True.
  - by rewrite decide_False.
Qed.

Lemma first_open_port_some {A} w timeout_ms ip (table : list (Z * A)) label :
  first_open_port w timeout_ms ip table = Some label ↔
  ∃ before port after,
    table = before ++ (port, label) :: after ∧
    connect_ex w timeout_ms ip port = Some 0%Z ∧
    Forall (λ entry, connect_ex w timeout_ms ip entry.1 ≠ Some 0%Z) before.
Proof.
  induction table as [|[port l] table IH]; cbn [first_open_port].
  - split; [done|]. intros (before & ? & ? & H & _). by destruct before.
  - destruct (decide (connect_ex w timeout_ms ip port = Some 0%Z)) as [E|E].
    + rewrite E. split.
      * intros [= ->]. exists [], port, table. by repeat split.
      * intros ([|[p0 l0] before] & p & after & Ht & Hc & Hb); simplify_eq/=; [done|].
        inversion Hb; simplify_eq/=.
    + assert (match connect_ex w timeout_ms ip port with
              | Some 0%Z => Some l
              | _ => first_open_port w timeout_ms ip table
              end = first_open_port w timeout_ms ip table) as ->.
      { by destruct (connect_ex w timeout_ms ip port) as [[| |]|]. }
      rewrite IH. split.
      * intros (before & p & after & -> & Hc & Hb).
        exists ((port, l) :: before), p, after. repeat split; [done|by constructor].
      * intros ([|[p0 l0] before] & p & after & Ht & Hc & Hb); simplify_eq/=.
        inversion Hb; simplify_eq/=. eauto 6.
Qed.

Lemma first_open_port_none {A} w timeout_ms ip (table : list (Z * A)) :
  first_open_port w timeout_ms ip table = None ↔
  Forall (λ entry, connect_ex w timeout_ms ip entry.1 ≠ Some 0%Z) table.
Proof.
  induction table as [|[port l] table IH]; cbn [first_open_port].
  - split; [constructor|done].
  - destruct (decide (connect_ex w timeout_ms ip port = Some 0%Z)) as [E|E].
    + rewrite E. split; [done|]. inversion 1; simplify_eq/=.
    + assert (match connect_ex w timeout_ms ip port with
              | Some 0%Z => Some l
              | _ => first_open_port w timeout_ms ip table
              end = first_open_port w timeout_ms ip table) as ->.
      { by destruct (connect_ex w timeout_ms ip port) as [[| |]|]. }
      rewrite IH. split; [by constructor|by inversion 1].
Qed.

Lemma long_is_nonempty s : 2 < String.length s → PyStr.nonempty s = true.
Proof. destruct s; simpl; [lia|done]. Qed.

Lemma step_dns_code w ip :
  step_dns w ip =
  match gethostbyaddr w ip with
  | Some hostname =>
      if PyStr.nonempty hostname && negb (String.eqb hostname ip)
         && (2 <? String.length hostname)
      then Some hostname else None
  | None => None
  end.
Proof.
  unfold step_dns. destruct (gethostbyaddr w ip) as [name|]; [|done].
  destruct (Nat.ltb_spec 2 (String.length name)) as [L|L].
  - rewrite (long_is_nonempty _ L). cbn [andb].
    destruct (String.eqb_spec name ip) as [->|N].
    + by rewrite bool_decide_eq_false_2 by (intros ?; done).
    + by rewrite bool_decide_eq_true_2.
  - by rewrite !andb_false_r.
Qed.

Lemma eqb_bool_decide (s t : string) : String.eqb s t = bool_decide (s = t).
Proof.
  destruct (String.eqb_spec s t).
  - by rewrite bool_decide_eq_true_2.
  - by rewrite bool_decide_eq_false_2.
Qed.

Lemma prefix_app p s : String.prefix p s = true → ∃ rest, s = p +:+ rest.
Proof.
  revert s. induction p as [|a p IH]; intros s; [by exists s|].
  destruct s as [|b s]; [done|]. cbn [String.prefix].
  destruct (ascii_dec a b) as [->|]; [|done].
  intros [rest ->]%IH. by exists rest.
Qed.

Lemma prefix_of_app p rest : String.prefix p (p +:+ rest) = true.
Proof.
  induction p as [|a p IH]; [by destruct rest|].
  change (String a p +:+ rest) with (String a (p +:+ rest)). cbn [String.prefix].
  by destruct (ascii_dec a a).
Qed.

Lemma substring_all s : substring 0 (String.length s) s = s.
Proof. induction s as [|a s IH]; [done|]. simpl. by rewrite IH. Qed.

(** [line[7:]] of a "Server:" line is what follows the first colon. *)
Lemma server_line field :
  PyStr.slice 7 (String.length ("Server:" +:+ field)) ("Server:" +:+ field) = field ∧
  PyStr.after_first ":" ("Server:" +:+ field) = Some field.
Proof.
  split; [|reflexivity]. unfold PyStr.slice. cbv [append]. cbn [String.length substring].
  replace (S (S (S (S (S (S (S (String.length field))))))) - 7) with (String.length field)
    by lia.
  apply substring_all.
Qed.

Lemma head_omap_Some {A B} (f : A → option B) (l : list A) y :
  head (omap f l) = Some y ↔
  ∃ before x after, l = before ++ x :: after ∧ f x = Some y ∧
                    Forall (λ z, f z = None) before.
Proof.
  induction l as [|a l IH]; cbn [omap list_omap].
  - split; [done|]. intros ([|??] & ? & ? & ? & _); done.
  - destruct (f a) as [b|] eqn:Ha.
    + cbn [head]. split.
      * intros [= ->]. by exists [], a, l.
      * intros ([|a' before] & x & after & Hl & Hx & Hb); injection Hl as -> ->.
        -- congruence.
        -- apply Forall_cons in Hb as [Hb _]. congruence.
    + fold (omap f l). rewrite IH. split.
      * intros (before & x & after & -> & Hx & Hb).
        exists (a :: before), x, after. by repeat split; [|constructor].
      * intros ([|a' before] & x & after & Hl & Hx & Hb); injection Hl as -> ->.
        -- congruence.
        -- apply Forall_cons in Hb as [_ Hb]. eauto 6.
Qed.

Lemma server_field_spec ip line found :
  server_field ip line = Some found ↔
  ∃ field, line = "Server:" +:+ field ∧ found = PyStr.strip field ∧
           found ≠ EmptyString ∧ found ≠ ip.
Proof.
  unfold server_field. split.
  - destruct (PyStr.startswith "Server:" line) eqn:Hp; [|done].
    apply prefix_app in Hp as [field ->].
    rewrite (proj1 (server_line field)).
    destruct (decide (PyStr.strip field ≠ EmptyString ∧ PyStr.strip field ≠ ip)) as [H|H].
    + rewrite bool_decide_eq_true_2 by done. intros [= <-]. exists field. tauto.
    + by rewrite bool_decide_eq_false_2.
  - intros (field & -> & -> & H1 & H2).
    unfold PyStr.startswith. rewrite prefix_of_app, (proj1 (server_line field)).
    by rewrite bool_decide_eq_true_2.
Qed.

Lemma netbios_in_lines_first ip lines :
  netbios_in_lines ip lines = head (omap (server_field ip) lines).
Proof.
  induction lines as [|line lines IH]; [done|].
  cbn [netbios_in_lines omap list_omap]. unfold server_field at 1.
  destruct (PyStr.startswith "Server:" line) eqn:Hp; [|exact IH].
  apply prefix_app in Hp as [field ->].
  rewrite (proj1 (server_line field)), (proj2 (server_line field)).
  destruct (decide (PyStr.strip field ≠ EmptyString ∧ PyStr.strip field ≠ ip)) as [[H1 H2]|H].
  - rewrite bool_decide_eq_true_2 by done.
    apply nonempty_true in H1. rewrite H1.
    destruct (String.eqb_spec (PyStr.strip field) ip); done.
  - rewrite bool_decide_eq_false_2 by done.
    destruct (PyStr.nonempty (PyStr.strip field)) eqn:Hn; [|exact IH].
    destruct (String.eqb_spec (PyStr.strip field) ip) as [E|E]; [exact IH|].
    exfalso. apply H. split; [by apply nonempty_true|done].
Qed.

Lemma Z_eqb_bool_decide (a b : Z) : (a =? b)%Z = bool_decide (a = b).
Proof.
  destruct (Z.eqb_spec a b).
  - by rewrite bool_decide_eq_true_2.
  - by rewrite bool_decide_eq_false_2.
Qed.

Lemma head_omap_nonempty {A} (f : A → option string) l name :
  (∀ x y, f x = Some y → y ≠ EmptyString) →
  head (omap f l) = Some name → name ≠ EmptyString.
Proof. intros Hf (before & x & after & _ & Hx & _)%head_omap_Some. by eapply Hf. Qed.

Lemma truthy_name_id r :
  (∀ name, r = Some name → name ≠ EmptyString) → truthy_name r = r.
Proof.
  destruct r as [name|]; [|done]. intros H. cbn.
  destruct name; [by destruct (H _ eq_refl)|done].
Qed.

Lemma step_netbios_nonempty w ip name : step_netbios w ip = Some name → name ≠ EmptyString.
Proof.
  unfold step_netbios. destruct (bool_decide _); [|done].
  destruct (subprocess_run _ _ _) as [r|]; [|done]. cbn [mbind option_bind].
  destruct (bool_decide _); [|done].
  apply head_omap_nonempty. intros x y (field & _ & _ & H & _)%server_field_spec. done.
Qed.

Lemma get_netbios_name_smbutil_first w ip :
  get_netbios_name_smbutil w ip =
  r ← subprocess_run w ["smbutil"; "status"; ip] 10;
  if bool_decide (returncode r = 0%Z)
  then head (omap (server_field ip) (PyStr.split "010" (stdout r)))
  else None.
Proof.
  unfold get_netbios_name_smbutil.
  destruct (subprocess_run _ _ _) as [r|]; [|done]. cbn [mbind option_bind].
  rewrite Z_eqb_bool_decide. destruct (bool_decide _); [|done].
  apply netbios_in_lines_first.
Qed.

Lemma step_netbios_code w ip :
  (if String.eqb (platform_system w) "Darwin"
   then truthy_name (get_netbios_name_smbutil w ip) else None) = step_netbios w ip.
Proof.
  rewrite eqb_bool_decide. unfold step_netbios.
  rewrite <- get_netbios_name_smbutil_first.
  destruct (bool_decide (platform_system w = "Darwin")); [|done].
  apply truthy_name_id. rewrite get_netbios_name_smbutil_first.
  destruct (subprocess_run _ _ _) as [r|]; [|done]. cbn [mbind option_bind].
  destruct (bool_decide _); [|done]. intros name.
  apply head_omap_nonempty. intros x y (field & _ & _ & H & _)%server_field_spec. done.
Qed.

(** A line with a "=" splits in two parts at least. *)
Lemma prefix_one c a s :
  String.prefix (String c EmptyString) (String a s) = Ascii.eqb a c.
Proof.
  cbn [String.prefix]. destruct (ascii_dec c a) as [->|N].
  - rewrite Ascii.eqb_refl. by destruct s.
  - symmetry. apply Ascii.eqb_neq. congruence.
Qed.

Lemma split_go_length c cur s : 1 ≤ length (PyStr.split_go c cur s).
Proof.
  revert cur. induction s as [|a s IH]; intros cur; cbn [PyStr.split_go]; [simpl; lia|].
  destruct (Ascii.eqb a c); [simpl; lia|apply IH].
Qed.

Lemma contains_split c s :
  PyStr.contains (String c EmptyString) s = true → 2 ≤ length (PyStr.split c s).
Proof.
  unfold PyStr.split. generalize EmptyString at 2 as cur.
  induction s as [|a s IH]; intros cur; [done|].
  cbn [PyStr.contains PyStr.split_go]. rewrite prefix_one.
  destruct (Ascii.eqb a c).
  - intros _. cbn [length]. pose proof (split_go_length c EmptyString s). lia.
  - apply IH.
Qed.

Lemma device_info_in_lines_first lines :
  device_info_in_lines lines = head (omap device_info_field lines).
Proof.
  induction lines as [|line lines IH]; [done|].
  cbn [device_info_in_lines omap list_omap]. unfold device_info_field at 1.
  destruct (PyStr.contains "device-info" line); [|exact IH].
  destruct (PyStr.contains "=" line) eqn:Hc; [|exact IH]. cbn [andb].
  apply contains_split in Hc. apply Nat.leb_le in Hc. rewrite Hc.
  set (name := PyStr.strip _).
  destruct (Nat.ltb_spec 2 (String.length name)) as [L|L].
  - by rewrite (long_is_nonempty _ L).
  - rewrite andb_false_r. exact IH.
Qed.

Lemma device_info_field_long line name :
  device_info_field line = Some name → 2 < String.length name.
Proof.
  unfold device_info_field. destruct (_ && _); [|done].
  destruct (Nat.ltb_spec 2 (String.length (PyStr.strip (nth 1 (PyStr.split "=" line) ""))));
    [|done].
  by intros [= <-].
Qed.

Lemma mdns_device_info_code w ip :
  match subprocess_run w ["dns-sd"; "-G"; "v4"; ip; "_device-info._tcp"; "local."] 5 with
  | Some result =>
      if (returncode result =? 0)%Z && PyStr.nonempty (stdout result)
      then device_info_in_lines (PyStr.split "010" (stdout result))
      else None
  | None => None
  end = mdns_device_info w ip.
Proof.
  unfold mdns_device_info. destruct (subprocess_run _ _ _) as [r|]; [|done].
  cbn [mbind option_bind]. rewrite Z_eqb_bool_decide.
  destruct (bool_decide _); [|done]. cbn [andb].
  destruct (stdout r) eqn:Hs; [done|]. cbn [PyStr.nonempty].
  apply device_info_in_lines_first.
Qed.

Lemma apple_dns_name_once w ip rounds :
  rounds ≠ [] →
  apple_dns_name w ip rounds =
  match gethostbyaddr w ip with
  | Some hostname =>
      if PyStr.nonempty hostname && negb (String.eqb hostname ip)
         && (2 <? String.length hostname)
         && existsb (fun suffix => PyStr.contains suffix hostname) apple_suffixes
      then Some hostname else None
  | None => None
  end.
Proof.
  induction rounds as [|r rounds IH]; [done|]. intros _. cbn [apple_dns_name].
  destruct (gethostbyaddr w ip) as [hostname|].
  - destruct (_ && _); [done|]. destruct rounds; [done|]. by rewrite IH.
  - destruct rounds; [done|]. by rewrite IH.
Qed.

Lemma apple_reverse_dns_code w ip :
  apple_dns_name w ip apple_suffixes = apple_reverse_dns w ip.
Proof.
  rewrite apple_dns_name_once by done. unfold apple_reverse_dns.
  rewrite step_dns_code. destruct (gethostbyaddr w ip) as [hostname|]; [|done].
  destruct (PyStr.nonempty hostname && negb (String.eqb hostname ip)
            && (2 <? String.length hostname)); [|done].
  cbn [mbind option_bind andb]. done.
Qed.

Lemma existsb_eqb_elem_of (x : string) (l : list string) :
  existsb (String.eqb x) l = bool_decide (x ∈ l).
Proof.
  apply Bool.eq_iff_eq_true. rewrite bool_decide_eq_true, existsb_exists. split.
  - intros (y & Hy%list_elem_of_In & ->%String.eqb_eq). done.
  - intros H. exists x. split; [by apply list_elem_of_In|apply String.eqb_refl].
Qed.

Lemma apple_by_prefix_code w ip :
  match get_mac_address w ip with
  | Some mac =>
      if PyStr.nonempty mac
         && existsb (String.eqb (mac_prefix_of mac)) apple_prefixes
      then Some ("Apple-" +:+ PyStr.last_octet ip)
      else None
  | None => None
  end = apple_by_prefix w ip.
Proof.
  unfold apple_by_prefix. destruct (get_mac_address w ip) as [mac|]; [|done].
  cbn [mbind option_bind]. rewrite existsb_eqb_elem_of.
  destruct mac as [|a mac]; [|done]. cbn [PyStr.nonempty andb].
  rewrite <- existsb_eqb_elem_of. by vm_compute.
Qed.

Lemma get_apple_device_name_steps w ip :
  get_apple_device_name w ip =
  first_some [mdns_device_info w ip; apple_reverse_dns w ip; apple_by_prefix w ip].
Proof.
  unfold get_apple_device_name.
  rewrite mdns_device_info_code, apple_reverse_dns_code, apple_by_prefix_code.
  cbn [first_some]. destruct (mdns_device_info w ip); [done|].
  destruct (apple_reverse_dns w ip); [done|]. by destruct (apple_by_prefix w ip).
Qed.

Lemma step_dns_nonempty w ip name : step_dns w ip = Some name → name ≠ EmptyString.
Proof.
  unfold step_dns. destruct (gethostbyaddr w ip) as [n|]; [|done].
  destruct (Nat.ltb_spec 2 (String.length n)); rewrite ?andb_false_r; [|done].
  destruct (bool_decide _); [|done]. intros [= <-]. destruct n; simpl in *; [lia|done].
Qed.

Lemma step_apple_nonempty w ip name : step_apple w ip = Some name → name ≠ EmptyString.
Proof.
  unfold step_apple. destruct (bool_decide _); [|done]. cbn [first_some].
  destruct (mdns_device_info w ip) as [n|] eqn:H1.
  { intros [= <-]. unfold mdns_device_info in H1.
    destruct (subprocess_run _ _ _) as [r|]; [|done]. cbn [mbind option_bind] in H1.
    destruct (bool_decide _); [|done].
    apply head_omap_Some in H1 as (_ & line & _ & _ & Hl%device_info_field_long & _).
    destruct n; simpl in *; [lia|done]. }
  destruct (apple_reverse_dns w ip) as [n|] eqn:H2.
  { intros [= <-]. unfold apple_reverse_dns in H2.
    destruct (step_dns w ip) as [n'|] eqn:Hd; [|done]. cbn [mbind option_bind] in H2.
    destruct (existsb _ _); [|done]. injection H2 as <-. by eapply step_dns_nonempty. }
  unfold apple_by_prefix. destruct (get_mac_address w ip) as [mac|]; [|done].
  cbn [mbind option_bind]. destruct (bool_decide _); [|done]. by intros [= <-].
Qed.

Lemma step_apple_code w ip :
  (if String.eqb (platform_system w) "Darwin"
   then truthy_name (get_apple_device_name w ip) else None) = step_apple w ip.
Proof.
  rewrite eqb_bool_decide. unfold step_apple.
  destruct (bool_decide (platform_system w = "Darwin")) eqn:Hd; [|done].
  rewrite get_apple_device_name_steps. apply truthy_name_id.
  intros name Hn. apply (step_apple_nonempty w ip). unfold step_apple. by rewrite Hd.
Qed.

Lemma get_device_identifier_first_success w ip :
  get_device_identifier w ip =
  first_success (resolution_chain w ip) ("." +:+ PyStr.last_octet ip).
Proof.
  unfold get_device_identifier, resolution_chain.
  rewrite <- step_dns_code, step_netbios_code, step_apple_code. cbn [first_success].
  destruct (step_dns w ip); [done|].
  destruct (step_netbios w ip); [done|].
  destruct (step_apple w ip); [done|].
  unfold step_ports. rewrite <- first_open_port_answering. fold service_ports.
  destruct (first_open_port w 500 ip service_ports); [done|]. cbn [fmap option_fmap option_map].
  unfold step_vendor.
  destruct (truthy_name (get_mac_address w ip)) as [mac|]; [|done]. cbn.
  by destruct (truthy_name (get_mac_vendor w mac)).
Qed.

Lemma first_success_at chain fallback i found :
  chain !! i = Some (Some found) →
  (∀ j, j < i → chain !! j = Some None) →
  first_success chain fallback = found.
Proof.
  revert i. induction chain as [|r chain IH]; intros i Hi Hj; [done|].
  destruct i as [|i]; simpl in *.
  - by simplify_eq.
  - pose proof (Hj 0 ltac:(lia)) as H0. simpl in H0. simplify_eq.
    apply (IH i); [done|]. intros j Hlt. apply (Hj (S j)). lia.
Qed.

Lemma first_success_none chain fallback :
  Forall (λ r, r = None) chain → first_success chain fallback = fallback.
Proof. induction 1 as [|r chain -> _ IH]; done. Qed.

Lemma truthy_name_nonempty r name : truthy_name r = Some name → name ≠ EmptyString.
Proof.
  destruct r as [s|]; [|done]. simpl. destruct s; simpl; [done|].
  by intros [= <-].
Qed.

Lemma app_dash_nonempty s t : s +:+ "-" +:+ t ≠ EmptyString.
Proof. by destruct s. Qed.

Lemma first_success_nonempty chain fallback :
  Forall (λ r, ∀ name, r = Some name → name ≠ EmptyString) chain →
  fallback ≠ EmptyString →
  first_success chain fallback ≠ EmptyString.
Proof.
  intros H Hf. induction H as [|[name|] chain Hr _ IH]; simpl; [done| |done].
  by apply Hr.
Qed.

Lemma resolution_chain_nonempty w ip :
  Forall (λ r, ∀ name, r = Some name → name ≠ EmptyString) (resolution_chain w ip).
Proof.
  unfold resolution_chain. repeat constructor.
  - apply step_dns_nonempty.
  - apply step_netbios_nonempty.
  - apply step_apple_nonempty.
  - intros name. unfold step_ports.
    destruct (first_answering _ _ _ _); [|done]. intros [= <-]. apply app_dash_nonempty.
  - intros name. unfold step_vendor.
    destruct (truthy_name (get_mac_address w ip)) as [mac|]; [|done]. cbn.
    destruct (truthy_name (get_mac_vendor w mac)); [|done]. cbn.
    intros [= <-]. apply app_dash_nonempty.
Qed.

Lemma step_dns_spec w ip found :
  step_dns w ip = Some found ↔
  gethostbyaddr w ip = Some found ∧ found ≠ ip ∧ 2 < String.length found.
Proof.
  unfold step_dns. destruct (gethostbyaddr w ip) as [n|].
  - destruct (Nat.ltb_spec 2 (String.length n)); rewrite ?andb_false_r.
    + destruct (decide (n ≠ ip)).
      * rewrite bool_decide_eq_true_2 by done. cbn. split.
        -- intros [= <-]. done.
        -- intros ([= <-] & _). done.
      * rewrite bool_decide_eq_false_2 by done. cbn. split; [done|].
        intros ([= <-] & ? & _). done.
    + split; [done|]. intros ([= <-] & _ & ?). lia.
  - split; [done|]. by intros (? & _).
Qed.

Lemma step_netbios_spec w ip found :
  step_netbios w ip = Some found ↔
  platform_system w = "Darwin" ∧
  ∃ r before field after,
    subprocess_run w ["smbutil"; "status"; ip] 10 = Some r ∧
    returncode r = 0%Z ∧
    PyStr.split "010" (stdout r) = before ++ ("Server:" +:+ field) :: after ∧
    found = PyStr.strip field ∧ found ≠ EmptyString ∧ found ≠ ip ∧
    Forall (λ line, server_field ip line = None) before.
Proof.
  unfold step_netbios. split.
  - destruct (decide (platform_system w = "Darwin")) as [Hd|Hd];
      [rewrite bool_decide_eq_true_2 by done|by rewrite bool_decide_eq_false_2].
    destruct (subprocess_run _ _ _) as [r|]; [|done]. cbn [mbind option_bind].
    destruct (decide (returncode r = 0%Z)) as [Hr|Hr];
      [rewrite bool_decide_eq_true_2 by done|by rewrite bool_decide_eq_false_2].
    intros (before & line & after & Hl & Hf & Hb)%head_omap_Some.
    apply server_field_spec in Hf as (field & -> & -> & H1 & H2).
    split; [done|]. exists r, before, field, after. done.
  - intros (Hd & r & before & field & after & Hrun & Hr & Hl & -> & H1 & H2 & Hb).
    rewrite bool_decide_eq_true_2, Hrun by done. cbn [mbind option_bind].
    rewrite bool_decide_eq_true_2 by done. apply head_omap_Some.
    exists before, ("Server:" +:+ field), after. split; [done|]. split; [|done].
    apply server_field_spec. by exists field.
Qed.

Lemma mdns_device_info_spec w ip found :
  mdns_device_info w ip = Some found ↔
  ∃ r before line after,
    subprocess_run w ["dns-sd"; "-G"; "v4"; ip; "_device-info._tcp"; "local."] 5
      = Some r ∧
    returncode r = 0%Z ∧
    PyStr.split "010" (stdout r) = before ++ line :: after ∧
    device_info_field line = Some found ∧
    Forall (λ line', device_info_field line' = None) before.
Proof.
  unfold mdns_device_info. split.
  - destruct (subprocess_run _ _ _) as [r|]; [|done]. cbn [mbind option_bind].
    destruct (decide (returncode r = 0%Z)) as [Hr|Hr];
      [rewrite bool_decide_eq_true_2 by done|by rewrite bool_decide_eq_false_2].
    intros (before & line & after & Hl & Hf & Hb)%head_omap_Some.
    exists r, before, line, after. done.
  - intros (r & before & line & after & Hrun & Hr & Hl & Hf & Hb).
    rewrite Hrun. cbn [mbind option_bind].
    rewrite bool_decide_eq_true_2 by done. apply head_omap_Some. eauto 6.
Qed.

Lemma step_apple_spec w ip found :
  step_apple w ip = Some found ↔
  platform_system w = "Darwin" ∧
  (mdns_device_info w ip = Some found ∨
   mdns_device_info w ip = None ∧ apple_reverse_dns w ip = Some found ∨
   mdns_device_info w ip = None ∧ apple_reverse_dns w ip = None ∧
   ∃ mac, get_mac_address w ip = Some mac ∧
          mac_prefix_of mac ∈ apple_prefixes ∧
          found = "Apple-" +:+ PyStr.last_octet ip).
Proof.
  unfold step_apple.
  destruct (decide (platform_system w = "Darwin")) as [Hd|Hd];
    [rewrite bool_decide_eq_true_2 by done
    |rewrite bool_decide_eq_false_2 by done; split; [done|tauto]].
  cbn [first_some].
  destruct (mdns_device_info w ip) as [n1|].
  { split; [intros [= ->]; tauto|].
    intros (_ & [[= ->]|[[? _]|[? _]]]); done. }
  destruct (apple_reverse_dns w ip) as [n2|].
  { split; [intros [= ->]; tauto|].
    intros (_ & [?|[[_ [= ->]]|(_ & ? & _)]]); done. }
  unfold apple_by_prefix. destruct (get_mac_address w ip) as [mac|].
  - cbn [mbind option_bind].
    destruct (decide (mac_prefix_of mac ∈ apple_prefixes)) as [Hin|Hin].
    + rewrite bool_decide_eq_true_2 by done. split.
      * intros [= <-]. split; [done|]. right. right. eauto 6.
      * intros (_ & [?|[[_ ?]|(_ & _ & mac' & _ & _ & ->)]]); done.
    + rewrite bool_decide_eq_false_2 by done. split; [done|].
      intros (_ & [?|[[_ ?]|(_ & _ & mac' & [= <-] & ? & _)]]); done.
  - split; [done|]. intros (_ & [?|[[_ ?]|(_ & _ & mac' & ? & _)]]); done.
Qed.

Lemma step_ports_spec w ip found :
  step_ports w ip = Some found ↔
  ∃ before port service after,
    service_ports = before ++ (port, service) :: after ∧
    connect_ex w 500 ip port = Some 0%Z ∧
    Forall (λ entry, connect_ex w 500 ip entry.1 ≠ Some 0%Z) before ∧
    found = service +:+ "-" +:+ PyStr.last_octet ip.
Proof.
  unfold step_ports. rewrite <- first_open_port_answering.
  fold service_ports. split.
  - destruct (first_open_port w 500 ip service_ports) as [service|] eqn:E; [|done].
    intros [= <-]. apply first_open_port_some in E as (before & port & after & ? & ? & ?).
    exists before, port, service, after. done.
  - intros (before & port & service & after & Ht & Hc & Hb & ->).
    assert (first_open_port w 500 ip service_ports = Some service) as ->; [|done].
    apply first_open_port_some. eauto 6.
Qed.

Lemma truthy_name_Some r name :
  truthy_name r = Some name ↔ r = Some name ∧ name ≠ EmptyString.
Proof.
  destruct r as [s|]; cbn; [|split; [done|by intros [? _]]].
  destruct s as [|a s]; cbn; split.
  - done.
  - by intros [[= <-] ?].
  - by intros [= <-].
  - by intros [[= <-] _].
Qed.

Lemma step_vendor_spec w ip found :
  step_vendor w ip = Some found ↔
  ∃ mac vendor,
    get_mac_address w ip = Some mac ∧ mac ≠ EmptyString ∧
    get_mac_vendor w mac = Some vendor ∧ vendor ≠ EmptyString ∧
    found = vendor +:+ "-" +:+ PyStr.last_octet ip.
Proof.
  unfold step_vendor. split.
  - intros (mac & [Hm Hne]%truthy_name_Some & H)%bind_Some.
    apply bind_Some in H as (vendor & [Hv Hnv]%truthy_name_Some & [= <-]).
    by exists mac, vendor.
  - intros (mac & vendor & Hm & Hne & Hv & Hnv & ->).
    apply bind_Some. exists mac. split; [by apply truthy_name_Some|].
    apply bind_Some. exists vendor. split; [by apply truthy_name_Some|done].
Qed.

(** C7.  The identifier of a host is the first success of the chain
    reverse DNS, NetBIOS, Apple device name, open-port fingerprint, MAC
    vendor, in that order, and the fallback [".{lastOctet}"] when every step
    fails.  A step that raises yields nothing and the next one is tried; the
    resolver is total and its answer is never empty.  Reverse DNS counts
    only when the name differs from the address and is longer than two
    characters.  The NetBIOS step runs on macOS only and reads the first
    "Server:" line of the output of the tool that names something other
    than the address.  The Apple step runs on macOS only: the mDNS/Bonjour
    device-info query, then a reverse-DNS name with a local suffix, and
    then, before any port is tried, the name ["Apple-{lastOctet}"] for a
    host whose MAC address starts with a prefix of the built-in Apple
    table.  The fingerprint is the label of the first port of the table
    that answers. *)
Theorem get_device_identifier_chain (w : world) (ip : string) :
  let chain := resolution_chain w ip in
  let fallback := "." +:+ PyStr.last_octet ip in
  let name := get_device_identifier w ip in
  name = first_success chain fallback ∧
  (∀ i found,
     chain !! i = Some (Some found) →
     (∀ j, j < i → chain !! j = Some None) →
     name = found) ∧
  (Forall (λ r, r = None) chain → name = fallback) ∧
  name ≠ EmptyString ∧
  (∀ found, step_dns w ip = Some found ↔
     gethostbyaddr w ip = Some found ∧ found ≠ ip ∧ 2 < String.length found) ∧
  (gethostbyaddr w ip = None → step_dns w ip = None) ∧
  (∀ found, step_netbios w ip = Some found ↔
     platform_system w = "Darwin" ∧
     ∃ r before field after,
       subprocess_run w ["smbutil"; "status"; ip] 10 = Some r ∧
       returncode r = 0%Z ∧
       PyStr.split "010" (stdout r) = before ++ ("Server:" +:+ field) :: after ∧
       found = PyStr.strip field ∧ found ≠ EmptyString ∧ found ≠ ip ∧
       Forall (λ line, server_field ip line = None) before) ∧
  (∀ found, step_apple w ip = Some found ↔
     platform_system w = "Darwin" ∧
     (mdns_device_info w ip = Some found ∨
      mdns_device_info w ip = None ∧ apple_reverse_dns w ip = Some found ∨
      mdns_device_info w ip = None ∧ apple_reverse_dns w ip = None ∧
      ∃ mac, get_mac_address w ip = Some mac ∧
             mac_prefix_of mac ∈ apple_prefixes ∧
             found = "Apple-" +:+ PyStr.last_octet ip)) ∧
  (∀ found, mdns_device_info w ip = Some found ↔
     ∃ r before line after,
       subprocess_run w ["dns-sd"; "-G"; "v4"; ip; "_device-info._tcp"; "local."] 5
         = Some r ∧
       returncode r = 0%Z ∧
       PyStr.split "010" (stdout r) = before ++ line :: after ∧
       device_info_field line = Some found ∧
       Forall (λ line', device_info_field line' = None) before) ∧
  (∀ found, step_ports w ip = Some found ↔
     ∃ before port service after,
       service_ports = before ++ (port, service) :: after ∧
       connect_ex w 500 ip port = Some 0%Z ∧
       Forall (λ entry, connect_ex w 500 ip entry.1 ≠ Some 0%Z) before ∧
       found = service +:+ "-" +:+ PyStr.last_octet ip) ∧
  (∀ found, step_vendor w ip = Some found ↔
     ∃ mac vendor,
       get_mac_address w ip = Some mac ∧ mac ≠ EmptyString ∧
       get_mac_vendor w mac = Some vendor ∧ vendor ≠ EmptyString ∧
       found = vendor +:+ "-" +:+ PyStr.last_octet ip).
Proof.
  intros chain fallback name.
  assert (Hcode : name = first_success chain fallback)
    by apply get_device_identifier_first_success.
  split; [done|].
  split; [|split; [|split; [|split; [|split; [|split; [|split; [|split; [|split]]]]]]]].
  - intros i found Hi Hj. rewrite Hcode. by apply (first_success_at _ _ i).
  - intros Hn. rewrite Hcode. by apply first_success_none.
  - rewrite Hcode. apply first_success_nonempty; [apply resolution_chain_nonempty|done].
  - apply step_dns_spec.
  - unfold step_dns. by intros ->.
  - apply step_netbios_spec.
  - apply step_apple_spec.
  - apply mdns_device_info_spec.
  - apply step_ports_spec.
  - apply step_vendor_spec.
Qed.

(** On a Mac, a host with an Apple network card and an open SSH port:
    every step of the specification's chain before the fingerprint yields
    nothing, so that chain names the host "SSH-7"; the resolver names it
    "Apple-7". *)
Lemma apple_prefix_precedes_ports :
  first_success (spec_chain apple_host_world "192.168.1.7") ".7" = "SSH-7" ∧
  get_device_identifier apple_host_world "192.168.1.7" = "Apple-7" ∧
  get_device_identifier apple_host_world "192.168.1.7"
  ≠ first_success (spec_chain apple_host_world "192.168.1.7")
      ("." +:+ PyStr.last_octet "192.168.1.7").
Proof. split; [|split]; by vm_compute. Qed.

Example identifier_fallback :
  get_device_identifier silent_world "192.168.1.17" = ".17".
Proof. reflexivity. Qed.

Example identifier_first_port :
  get_device_identifier
    (answering_world [] [("192.168.1.17", 80%Z); ("192.168.1.17", 22%Z)])
    "192.168.1.17" = "SSH-17".
Proof. reflexivity. Qed.

Example identifier_via_vendor :
  step_vendor silent_world "192.168.1.17" = None.
Proof. reflexivity. Qed.

(** ** Status prober *)

Lemma first_open_port_any w timeout_ms ip ports :
  is_Some (first_open_port w timeout_ms ip (map (λ p, (p, tt)) ports)) ↔
  existsb (port_answers w timeout_ms ip) ports = true.
Proof.
  induction ports as [|port ports IH]; cbn [map existsb].
  - split; [by intros [??]|done].
  - rewrite first_open_port_step.
    destruct (port_answers w timeout_ms ip port); cbn [orb]; [|done].
    split; [done|eauto].
Qed.

Lemma check_device_status_spec w ip :
  check_device_status w ip = spec_status w true ip.
Proof.
  unfold check_device_status, spec_status. destruct (ping_host w ip); [done|].
  fold standby_ports.
  destruct (first_open_port w 1000 ip (map (λ p, (p, tt)) standby_ports)) as [u|] eqn:E.
  - assert (existsb (port_answers w 1000 ip) standby_ports = true) as ->; [|done].
    apply first_open_port_any. by rewrite E.
  - assert (existsb (port_answers w 1000 ip) standby_ports = false) as ->; [|done].
    apply not_true_is_false. intros H%first_open_port_any. rewrite E in H.
    by destruct H.
Qed.

Lemma spec_status_responsive w b ip :
  is_responsive (spec_status w b ip) = true →
  spec_status w b ip = spec_status w true ip.
Proof.
  unfold spec_status. destruct (ping_host w ip); [done|].
  destruct (existsb _ _); [done|]. by destruct b.
Qed.

Lemma spec_status_unresponsive w b ip :
  is_responsive (spec_status w true ip) = false →
  spec_status w b ip = if b then "offline" else "hidden".
Proof.
  unfold spec_status. destruct (ping_host w ip); [done|].
  destruct (existsb _ _); [done|]. done.
Qed.

Lemma find_known_recorded known_devices ip r :
  find_known known_devices ip = Some r →
  recorded known_devices ip = bool_decide (is_Some r).
Proof.
  revert r. induction known_devices as [|e known IH]; intros r; cbn [find_known recorded existsb].
  - by intros [= <-].
  - destruct e as [d|]; [|by destruct (subscript NotDict "ip")].
    destruct (subscript (Dict d) "ip") as [v|]; [|done].
    destruct (eq_str v ip); cbn [orb].
    + intros [= <-]. by rewrite bool_decide_eq_true_2.
    + apply IH.
Qed.

Lemma find_known_total known_devices ip :
  forallb has_core_keys known_devices = true →
  ∃ r, find_known known_devices ip = Some r ∧
       ∀ kd, r = Some kd → is_Some (kd !! "hostname") ∧ is_Some (kd !! "mac").
Proof.
  induction known_devices as [|e known IH]; cbn [find_known forallb].
  - intros _. exists None. done.
  - intros [He Hk]%andb_prop. destruct e as [d|]; [|done]. cbn in He.
    apply andb_prop in He as [[Hi%bool_decide_eq_true Hh%bool_decide_eq_true]%andb_prop
                               Hm%bool_decide_eq_true].
    destruct Hi as [v Hv]. cbn [subscript]. rewrite Hv.
    destruct (eq_str v ip).
    + exists (Some d). split; [done|]. by intros kd [= <-].
    + by apply IH.
Qed.

Lemma scan_ip_status w known_devices ip dev :
  scan_ip w known_devices ip = Some dev →
  dev !! "status" = Some (VStr (spec_status w (recorded known_devices ip) ip)).
Proof.
  unfold scan_ip. rewrite check_device_status_spec.
  assert (Hk : match known_devices with
               | [] => Some None
               | _ :: _ => find_known known_devices ip
               end = find_known known_devices ip) by by destruct known_devices.
  rewrite Hk. clear Hk.
  destruct (find_known known_devices ip) as [r|] eqn:Hr; [|done].
  apply find_known_recorded in Hr. cbn [mbind option_bind].
  destruct (is_responsive (spec_status w true ip)) eqn:Hresp.
  - assert (Hs : spec_status w (recorded known_devices ip) ip = spec_status w true ip).
    { unfold spec_status in *. destruct (ping_host w ip); [done|].
      destruct (existsb _ _); [done|]. done. }
    rewrite Hs.
    destruct (truthy_name (Some (get_device_identifier w ip))) as [h|], r as [kd|];
      cbn [mbind option_bind];
      try (destruct (kd !! "hostname"); cbn [mbind option_bind]; [|done]);
      rewrite Hresp;
      try (destruct (truthy_name (get_mac_address w ip)));
      try (destruct (kd !! "mac")); cbn [mbind option_bind]; try done;
      intros [= <-]; by simplify_map_eq.
  - rewrite (spec_status_unresponsive _ _ _ Hresp), Hr.
    destruct known_devices as [|e known], r as [kd|]; cbn [mbind option_bind];
      try (destruct (kd !! "hostname"); cbn [mbind option_bind]; [|done]);
      rewrite ?Hresp; cbn [truthy_name];
      try (destruct (kd !! "mac")); cbn [mbind option_bind]; try done;
      intros [= <-]; rewrite (spec_status_unresponsive w _ ip Hresp);
      rewrite ?bool_decide_eq_true_2 by eauto;
      rewrite ?bool_decide_eq_false_2 by (by intros [??]);
      by simplify_map_eq.
Qed.

Lemma scan_ip_total w known_devices ip :
  forallb has_core_keys known_devices = true →
  is_Some (scan_ip w known_devices ip).
Proof.
  intros (r & Hr & Hkeys)%(find_known_total _ ip).
  unfold scan_ip.
  assert (Hk : match known_devices with
               | [] => Some None
               | _ :: _ => find_known known_devices ip
               end = find_known known_devices ip) by by destruct known_devices.
  rewrite Hk, Hr. clear Hk. cbn [mbind option_bind].
  destruct r as [kd|].
  - destruct (Hkeys kd eq_refl) as [[h Hh] [m Hm]]. rewrite Hh, Hm.
    destruct (is_responsive (check_device_status w ip)).
    + destruct (truthy_name (Some (get_device_identifier w ip)));
        destruct (truthy_name (get_mac_address w ip)); cbn [mbind option_bind]; eauto.
    + destruct known_devices; cbn [truthy_name mbind option_bind]; eauto.
  - destruct (is_responsive (check_device_status w ip)).
    + destruct (truthy_name (Some (get_device_identifier w ip)));
        destruct (truthy_name (get_mac_address w ip)); cbn [mbind option_bind]; eauto.
    + destruct known_devices; cbn [truthy_name mbind option_bind]; eauto.
Qed.

Lemma scan_single_ip_status w ip :
  ∃ dev, scan_single_ip w ip = Some dev ∧
         dev !! "status" = Some (VStr (spec_status w false ip)).
Proof.
  unfold scan_single_ip. rewrite check_device_status_spec.
  destruct (is_responsive (spec_status w true ip)) eqn:Hresp.
  - eexists. split; [done|]. simplify_map_eq. do 2 f_equal.
    symmetry. apply spec_status_responsive.
    unfold spec_status in *. destruct (ping_host w ip); [done|].
    destruct (existsb _ _); done.
  - eexists. split; [done|]. simplify_map_eq.
    by rewrite (spec_status_unresponsive w false ip Hresp).
Qed.

(** C3, as amended.  The batch and live scanners classify a probed host by
    the state machine of the specification: a successful ping gives
    online; otherwise a successful connect to one of the ports 80, 443, 22,
    23, 3389, 5900 (tried in that order, one second each) gives standby;
    otherwise the host is offline when the store's list for the interface
    has a record of the address and hidden when it has none.  On a store
    whose records have the keys ip, hostname and mac the probe always
    yields a record.  The command-line scanner consults no store: there an
    unresponsive host is hidden whether or not it was recorded before. *)
Theorem status_classification (w : world) (known_devices : list entry) (ip : string) :
  (∀ dev, scan_ip w known_devices ip = Some dev →
          dev !! "status" =
          Some (VStr (spec_status w (recorded known_devices ip) ip))) ∧
  (forallb has_core_keys known_devices = true →
   ∃ dev, scan_ip w known_devices ip = Some dev ∧
          dev !! "status" =
          Some (VStr (spec_status w (recorded known_devices ip) ip))) ∧
  (is_Some (first_open_port w 1000 ip (map (λ p, (p, tt)) standby_ports)) ↔
   existsb (port_answers w 1000 ip) [80; 443; 22; 23; 3389; 5900]%Z = true) ∧
  (∃ dev, scan_single_ip w ip = Some dev ∧
          dev !! "status" = Some (VStr (spec_status w false ip))).
Proof.
  split; [|split; [|split]].
  - apply scan_ip_status.
  - intros [dev Hdev]%(scan_ip_total w _ ip). exists dev. split; [done|].
    by apply scan_ip_status.
  - apply first_open_port_any.
  - apply scan_single_ip_status.
Qed.

(** A recorded host that no longer answers is offline for the live and
    batch scanners. *)
Lemma status_classification_witness :
  forallb has_core_keys [Dict nas_record] = true ∧
  ∃ dev, scan_ip silent_world [Dict nas_record] "192.168.1.5" = Some dev ∧
         dev !! "status" = Some (VStr "offline").
Proof.
  split; [reflexivity|].
  exact (proj1 (proj2 (status_classification silent_world [Dict nas_record]
                         "192.168.1.5")) eq_refl).
Defined.

(** C3 as the specification words it fails on the command-line scanner:
    a host with a prior record that does not answer is classified hidden
    there, where the state machine says offline. *)
Lemma scan_single_ip_hides_recorded :
  recorded [Dict nas_record] "192.168.1.5" = true ∧
  spec_status silent_world true "192.168.1.5" = "offline" ∧
  (scan_single_ip silent_world "192.168.1.5" ≫= (.!! "status"))
  = Some (VStr "hidden").
Proof. repeat split; reflexivity. Qed.

Example status_online_first :
  check_device_status one_of_two "10.0.0.1" = "standby".
Proof. reflexivity. Qed.

(** ** Scan scheduler: hidden devices *)

Lemma elem_of_list_insert_inv {A} (l : list A) i x e :
  e ∈ <[i:=x]> l → e = x ∨ e ∈ l.
Proof.
  intros (j & Hj)%list_elem_of_lookup.
  apply list_lookup_insert_Some in Hj as [(-> & -> & _)|(_ & Hj)]; [by left|].
  right. apply list_elem_of_lookup. eauto.
Qed.

Lemma dict_update_status existing dev status :
  dev !! "status" = Some status →
  is_hidden (Dict (dict_update existing dev)) = eq_str status "hidden".
Proof.
  intros H. unfold is_hidden, dict_update. cbn [subscript].
  by rewrite (lookup_union_Some_l _ _ _ _ H).
Qed.

Section HiddenDevices.

Context (live : bool) (w : world) (known_devices : list entry).

Lemma collect_skips_hidden st ip dev :
  (if result_times_out w ip then None else scan_ip w known_devices ip) = Some dev →
  is_hidden (Dict dev) = true →
  collect live w known_devices st ip = st.
Proof.
  intros Hres Hh. unfold collect. rewrite Hres.
  unfold is_hidden in Hh. cbn [subscript] in Hh.
  destruct (dev !! "status") as [status|]; [|done]. by rewrite Hh.
Qed.

Lemma collect_hidden_only_seeded st ip :
  hidden_only_seeded known_devices st →
  hidden_only_seeded known_devices (collect live w known_devices st ip).
Proof.
  intros [Hd Hc]. unfold collect.
  destruct (if result_times_out w ip then None else scan_ip w known_devices ip)
    as [dev|]; [|done].
  destruct (dev !! "status") as [status|] eqn:Hs; [|done].
  destruct (eq_str status "hidden") eqn:Hh; [done|].
  assert (Hdev : is_hidden (Dict dev) = false).
  { unfold is_hidden. cbn [subscript]. by rewrite Hs. }
  destruct (find_existing (devices st) ip) as [found|]; [|done].
  split; cbn [devices delivered].
  - intros e He Hhid. destruct found as [i|].
    + destruct (devices st !! i) as [[existing|]|] eqn:Hi; [|by apply Hd..].
      apply elem_of_list_insert_inv in He as [->|He]; [|by apply Hd].
      rewrite (dict_update_status _ _ _ Hs) in Hhid. congruence.
    + apply elem_of_app in He as [He|He]; [by apply Hd|].
      apply list_elem_of_singleton in He as ->. congruence.
  - destruct live; [|done]. apply Forall_app. split; [done|]. by constructor.
Qed.

Lemma foldl_collect_hidden_only_seeded ips st :
  hidden_only_seeded known_devices st →
  hidden_only_seeded known_devices (foldl (collect live w known_devices) st ips).
Proof.
  revert st. induction ips as [|ip ips IH]; intros st H; [done|].
  cbn [foldl]. by apply IH, collect_hidden_only_seeded.
Qed.

Lemma scan_chunks_hidden_only_seeded idx chunks st :
  hidden_only_seeded known_devices st →
  hidden_only_seeded known_devices (scan_chunks live w known_devices idx chunks st).1.
Proof.
  revert idx st. induction chunks as [|c chunks IH]; intros idx st H; [done|].
  cbn [scan_chunks]. destruct (pool_starts w idx); [|done].
  by apply IH, foldl_collect_hidden_only_seeded.
Qed.

End HiddenDevices.

Lemma scan_run_hidden_only_seeded live w info known_devices :
  hidden_only_seeded known_devices (scan_run live w info known_devices).1.
Proof.
  unfold scan_run. destruct (network_hosts w (subnet info)) as [hosts|].
  - apply scan_chunks_hidden_only_seeded. split; [done|constructor].
  - split; [|constructor]. intros e He. by apply elem_of_nil in He.
Qed.

Lemma scan_result_subseteq run : scan_result run ⊆ devices run.1.
Proof.
  unfold scan_result. destruct run.2; [done|]. intros e He. by apply elem_of_nil in He.
Qed.

Lemma known_record_not_hidden w dev r :
  known_record w dev = Some (Some r) → is_hidden (Dict r) = false.
Proof.
  unfold known_record. destruct (subscript dev "status") as [status|]; [|done].
  cbn [mbind option_bind]. destruct (eq_str status "hidden") eqn:Hh; [done|].
  destruct (subscript dev "ip") as [ip|]; [|done].
  destruct (subscript dev "hostname") as [hostname|]; [|done].
  destruct (subscript dev "mac") as [mac|]; [|done]. cbn [mbind option_bind].
  intros [= <-]. unfold is_hidden. cbn [subscript].
  destruct (truthy mac); [|by simplify_map_eq].
  destruct (truthy_name (get_mac_vendor_of w mac)) as [vendor|]; [|by simplify_map_eq].
  destruct (negb (String.eqb vendor "Unknown")); by simplify_map_eq.
Qed.

Lemma known_records_not_hidden w devs :
  Forall (λ e, is_hidden e = false) (known_records w devs).1.
Proof.
  induction devs as [|dev devs IH]; cbn [known_records]; [constructor|].
  destruct (known_record w dev) as [[r|]|] eqn:Hr; [| done | constructor].
  destruct (known_records w devs) as [records ok]. cbn [fst] in *.
  constructor; [|done]. by apply (known_record_not_hidden w dev).
Qed.

(** C8.  A record the probe classifies hidden leaves the state of a scan
    as it is, so it reaches neither the working list nor the callback.  In
    what the batch and the live scanner return, and in the store's records
    as the scan leaves them in memory, a record that says "hidden" is a
    record of the store that no probe touched; a store without hidden
    records therefore gives a result without them.  The live callback never
    receives a hidden device, and the store as [update_known_devices]
    rewrites it, hence the store after every scan cycle, holds none. *)
Theorem hidden_never_kept (w : world) (info : interface_info)
    (known_devices : list entry) :
  (∀ live st ip dev,
     (if result_times_out w ip then None else scan_ip w known_devices ip) = Some dev →
     is_hidden (Dict dev) = true →
     collect live w known_devices st ip = st) ∧
  (∀ returned,
     returned ∈ [scan_network_for_devices w info known_devices;
                 scan_network_for_devices_live w info known_devices;
                 known_after_scan false w info known_devices;
                 known_after_scan true w info known_devices] →
     (∀ e, e ∈ returned → is_hidden e = true → e ∈ known_devices) ∧
     (Forall (λ e, is_hidden e = false) known_devices →
      Forall (λ e, is_hidden e = false) returned)) ∧
  Forall (λ d, is_hidden (Dict d) = false) (live_callbacks w info known_devices) ∧
  (∀ (known : store) devs,
     Forall (λ e, is_hidden e = false)
       (default [] ((update_known_devices w known (interface info) devs).1
                      !! interface info))) ∧
  (∀ known : store,
     Forall (λ e, is_hidden e = false)
       (default [] (scan_cycle w known info !! interface info))).
Proof.
  assert (Hstore : ∀ (known : store) devs,
     Forall (λ e, is_hidden e = false)
       (default [] ((update_known_devices w known (interface info) devs).1
                      !! interface info))).
  { intros known devs. unfold update_known_devices.
    pose proof (known_records_not_hidden w devs) as H.
    destruct (known_records w devs) as [records ok]. cbn [fst] in *.
    by rewrite lookup_insert_eq. }
  split; [|split; [|split; [|split]]].
  - intros live st ip dev. apply collect_skips_hidden.
  - intros returned Hin.
    assert (Hsub : ∃ live, returned ⊆ devices (scan_run live w info known_devices).1
                         ∨ returned = known_devices).
    { rewrite !elem_of_cons in Hin.
      destruct Hin as [->|[->|[->|[->|Hin]]]]; [| | | |by apply elem_of_nil in Hin].
      - exists false. left. apply scan_result_subseteq.
      - exists true. left. apply scan_result_subseteq.
      - exists false. unfold known_after_scan.
        destruct (network_hosts w (subnet info)); [left; apply subseteq_take|by right].
      - exists true. unfold known_after_scan.
        destruct (network_hosts w (subnet info)); [left; apply subseteq_take|by right]. }
    destruct Hsub as [live Hsub].
    destruct (scan_run_hidden_only_seeded live w info known_devices) as [Hd _].
    assert (Hseed : ∀ e, e ∈ returned → is_hidden e = true → e ∈ known_devices).
    { intros e He. destruct Hsub as [Hsub| ->]; [apply Hd, Hsub, He|done]. }
    split; [done|]. intros Hk. apply Forall_forall. intros e He.
    destruct (is_hidden e) eqn:Hh; [|done].
    rewrite Forall_forall in Hk. rewrite <- (Hk e (Hseed e He Hh)). done.
  - apply (scan_run_hidden_only_seeded true w info known_devices).
  - done.
  - intros known. apply Hstore.
Qed.

(** The scan of two hosts of which one answers: the silent host is hidden
    and is not in the result. *)
Lemma hidden_never_kept_witness :
  Forall (λ e, is_hidden e = false) (scan_network_for_devices one_of_two lab_interface []) ∧
  length (scan_network_for_devices one_of_two lab_interface []) = 1.
Proof.
  split; [|reflexivity].
  apply (proj2 (proj1 (proj2 (hidden_never_kept one_of_two lab_interface []))
                  (scan_network_for_devices one_of_two lab_interface [])
                  ltac:(left))).
  constructor.
Defined.

Example scan_one_of_two :
  scan_network_for_devices one_of_two lab_interface [] =
  [Dict (<["ip" := VStr "10.0.0.1"]>
        (<["hostname" := VStr "HTTP-1"]>
        (<["mac" := VNone]>
        (<["status" := VStr "standby"]>
        (<["pingable" := VBool false]>
        (<["last_seen" := VNum 1700000000]> ∅))))))].
Proof. vm_compute. reflexivity. Qed.

Example scan_ip_silent_host :
  (scan_ip one_of_two [] "10.0.0.2" ≫= (.!! "status")) = Some (VStr "hidden").
Proof. reflexivity. Qed.

(** ** Scan scheduler: failures *)

Lemma scan_chunks_pool_failure live w known_devices idx chunks st k :
  k < length chunks →
  pool_starts w (idx + k) = false →
  (scan_chunks live w known_devices idx chunks st).2 = false.
Proof.
  revert idx st k. induction chunks as [|c chunks IH]; intros idx st k Hk Hp;
    cbn [length scan_chunks] in *; [lia|].
  destruct (pool_starts w idx) eqn:Hi; [|done].
  destruct k as [|k]; [rewrite Nat.add_0_r in Hp; congruence|].
  apply (IH _ _ k); [lia|]. by replace (S idx + k) with (idx + S k) by lia.
Qed.

Lemma progress_chunks_pool_failure w idx chunks devs k :
  k < length chunks →
  pool_starts w (idx + k) = false →
  (∀ j, j ≤ k → interrupt_pressed w (idx + j) = false) →
  (progress_chunks w idx chunks devs).2 = Crashed.
Proof.
  revert idx devs k. induction chunks as [|c chunks IH]; intros idx devs k Hk Hp Hi;
    cbn [length progress_chunks] in *; [lia|].
  pose proof (Hi 0 ltac:(lia)) as H0. rewrite Nat.add_0_r in H0. rewrite H0.
  destruct (pool_starts w idx) eqn:Hs; [|done].
  destruct k as [|k]; [rewrite Nat.add_0_r in Hp; congruence|].
  apply (IH _ _ k); [lia|by replace (S idx + k) with (idx + S k) by lia|].
  intros j Hj. replace (S idx + j) with (idx + S j) by lia. apply Hi. lia.
Qed.

(** C10.  The three chunked scanners are total functions to device lists.
    When the subnet cannot be parsed, and when the worker pool of some
    chunk cannot be started (for the command-line scanner: before any
    interrupt), each of them returns the empty list, whatever records the
    store had seeded and whatever earlier chunks had found; the store
    rewritten from that result holds no record for the interface. *)
Theorem scan_failure_returns_empty (w : world) (info : interface_info)
    (known_devices : list entry) :
  (network_hosts w (subnet info) = None →
   scan_network_for_devices w info known_devices = [] ∧
   scan_network_for_devices_live w info known_devices = [] ∧
   scan_network_for_devices_with_progress w info = []) ∧
  (∀ host_ips k,
     network_hosts w (subnet info) = Some host_ips →
     k < length (chunks_of host_ips) →
     pool_starts w k = false →
     scan_network_for_devices w info known_devices = [] ∧
     scan_network_for_devices_live w info known_devices = [] ∧
     ((∀ j, j ≤ k → interrupt_pressed w j = false) →
      scan_network_for_devices_with_progress w info = [])) ∧
  (∀ known : store,
     known !! interface info = Some known_devices →
     scan_network_for_devices_live w info known_devices = [] →
     scan_cycle w known info !! interface info = Some []).
Proof.
  split; [|split].
  - intros Hn.
    unfold scan_network_for_devices, scan_network_for_devices_live,
      scan_network_for_devices_with_progress, scan_run.
    rewrite Hn. done.
  - intros host_ips k Hn Hk Hp.
    unfold scan_network_for_devices, scan_network_for_devices_live,
      scan_network_for_devices_with_progress, scan_run, scan_result.
    rewrite Hn.
    rewrite !(scan_chunks_pool_failure _ w known_devices 0 _ _ k Hk Hp).
    split; [done|]. split; [done|]. intros Hi.
    pose proof (progress_chunks_pool_failure w 0 (chunks_of host_ips) [] k Hk Hp Hi) as Hc.
    destruct (progress_chunks w 0 (chunks_of host_ips) []) as [devs e].
    cbn [snd] in Hc. by rewrite Hc.
  - intros known Hk Hempty. unfold scan_cycle. rewrite Hk.
    change (default [] (Some known_devices)) with known_devices.
    rewrite Hempty. unfold update_known_devices. cbn [known_records fst].
    apply lookup_insert_eq.
Qed.

(** A scan of a subnet that does not parse, with a record seeded. *)
Lemma scan_failure_returns_empty_witness :
  network_hosts silent_world (subnet home_interface) = None ∧
  scan_network_for_devices silent_world home_interface [Dict nas_record] = [] ∧
  scan_network_for_devices_live silent_world home_interface [Dict nas_record] = [] ∧
  scan_network_for_devices_with_progress silent_world home_interface = [].
Proof.
  split; [reflexivity|].
  exact (proj1 (scan_failure_returns_empty silent_world home_interface
                  [Dict nas_record]) eq_refl).
Defined.

(** ** Known-device merge *)

Lemma keep_stored_other key sd m k :
  k ≠ key → keep_stored key sd m !! k = m !! k.
Proof.
  intros Hk. unfold keep_stored. destruct (_ && _); [|done].
  by rewrite lookup_insert_ne.
Qed.

Lemma dict_get_lookup (d : device) k :
  truthy (dict_get d k) = true → d !! k = Some (dict_get d k).
Proof. unfold dict_get. by destruct (d !! k). Qed.

Lemma keep_stored_same key sd m :
  keep_stored key sd m !! key =
  if negb (truthy (dict_get m key)) && truthy (dict_get sd key)
  then sd !! key else m !! key.
Proof.
  unfold keep_stored.
  destruct (truthy (dict_get m key)); cbn [negb andb]; [done|].
  destruct (truthy (dict_get sd key)) eqn:Hs; [|done].
  by rewrite lookup_insert_eq, (dict_get_lookup _ _ Hs).
Qed.

Lemma merge_stored_other d sd k :
  k ∉ ["hostname"; "mac"; "vendor"; "stored_last_seen"] →
  merge_stored d sd !! k = d !! k.
Proof.
  intros Hk. rewrite !not_elem_of_cons in Hk. destruct Hk as (?&?&?&?&_).
  unfold merge_stored. destruct sd as [sd|]; [|done].
  destruct (bool_decide (sd = ∅)); [done|].
  destruct (truthy (dict_get sd "last_seen"));
    rewrite ?lookup_insert_ne by done; by rewrite !keep_stored_other.
Qed.

Lemma merge_stored_field d sd field :
  field ∈ ["hostname"; "mac"; "vendor"] →
  sd ≠ ∅ →
  merge_stored d (Some sd) !! field =
  if negb (truthy (dict_get d field)) && truthy (dict_get sd field)
  then sd !! field else d !! field.
Proof.
  intros Hf Hne. unfold merge_stored. rewrite bool_decide_eq_false_2 by done.
  assert (Hl : ∀ m : device,
    (if truthy (dict_get sd "last_seen")
     then <["stored_last_seen" := dict_get sd "last_seen"]> m else m) !! field
    = m !! field).
  { intros m. destruct (truthy _); [|done]. apply lookup_insert_ne.
    intros <-. rewrite !elem_of_cons in Hf.
    destruct Hf as [?|[?|[?|Hf]]]; try discriminate. by apply elem_of_nil in Hf. }
  rewrite Hl. rewrite !elem_of_cons in Hf.
  destruct Hf as [->|[->|[->|Hf]]]; [| | |by apply elem_of_nil in Hf].
  - rewrite !keep_stored_other by done. apply keep_stored_same.
  - rewrite keep_stored_other by done. rewrite keep_stored_same.
    unfold dict_get at 1. by rewrite keep_stored_other by done.
  - rewrite keep_stored_same. unfold dict_get at 1.
    by rewrite !keep_stored_other by done.
Qed.

Lemma validate_context_other info key m k :
  k ≠ "status" → k ≠ "network_context" →
  validate_context info key m !! k = m !! k.
Proof.
  intros H1 H2. unfold validate_context.
  destruct (negb _); [destruct (negb _)|]; by rewrite ?lookup_insert_ne by done.
Qed.

Lemma merge_device_emits info known_devices d ip :
  d !! "ip" = Some (VStr ip) → ip ≠ EmptyString →
  merge_device info known_devices (Dict d) =
  Emit (network_key_of info ip)
    (validate_context info (network_key_of info ip)
       (merge_stored d (find_stored known_devices ip))).
Proof.
  intros Hip Hne. unfold merge_device, dict_get. rewrite Hip. cbn [default from_option id].
  apply nonempty_true in Hne. cbn [truthy]. by rewrite Hne.
Qed.

(** *** Records reach the groups *)

Lemma group_append_lookup key m (g : groups) k :
  default [] (group_append key m g !! k) =
  if decide (k = key) then default [] (g !! k) ++ [m] else default [] (g !! k).
Proof.
  unfold group_append. destruct (decide (k = key)) as [->|Hk].
  - by rewrite lookup_insert_eq.
  - by rewrite lookup_insert_ne.
Qed.

Lemma group_append_keeps key m (g : groups) k x :
  x ∈ default [] (g !! k) → x ∈ default [] (group_append key m g !! k).
Proof.
  rewrite group_append_lookup. destruct (decide _); [|done].
  intros H. apply elem_of_app. by left.
Qed.

Lemma group_append_holds key m (g : groups) :
  m ∈ default [] (group_append key m g !! key).
Proof.
  rewrite group_append_lookup, decide_True by done.
  apply elem_of_app. right. by apply list_elem_of_singleton.
Qed.

Lemma merge_devices_keeps info known_devices devs (g g' : groups) k x :
  merge_devices info known_devices devs g = Some g' →
  x ∈ default [] (g !! k) → x ∈ default [] (g' !! k).
Proof.
  revert g. induction devs as [|dev devs IH]; intros g; cbn [merge_devices].
  - by intros [= <-].
  - destruct (merge_device info known_devices dev) as [key m| |]; [| |done].
    + intros Hg Hx. apply (IH _ Hg). by apply group_append_keeps.
    + apply IH.
Qed.

Lemma merge_devices_holds info known_devices devs (g g' : groups) dev key m :
  merge_devices info known_devices devs g = Some g' →
  dev ∈ devs →
  merge_device info known_devices dev = Emit key m →
  m ∈ default [] (g' !! key).
Proof.
  revert g. induction devs as [|dev0 devs IH]; intros g Hg Hin Hm.
  - by apply elem_of_nil in Hin.
  - cbn [merge_devices] in Hg. apply elem_of_cons in Hin as [<-|Hin].
    + rewrite Hm in Hg. apply (merge_devices_keeps _ _ _ _ _ _ _ Hg).
      apply group_append_holds.
    + destruct (merge_device info known_devices dev0) as [key0 m0| |]; [| |done];
        by apply (IH _ Hg).
Qed.

Lemma add_offline_devices_keeps info known_devices (g g' : groups) k x :
  add_offline_devices info known_devices g = Some g' →
  x ∈ default [] (g !! k) → x ∈ default [] (g' !! k).
Proof.
  revert g. induction known_devices as [|kn known IH]; intros g; cbn [add_offline_devices].
  - by intros [= <-].
  - destruct (add_offline info g kn) as [key m| |]; [| |done].
    + intros Hg Hx. apply (IH _ Hg). by apply group_append_keeps.
    + apply IH.
Qed.

Lemma merge_known_devices_holds info devs known_devices g dev key m :
  merge_known_devices info devs known_devices = Some g →
  dev ∈ devs →
  merge_device info known_devices dev = Emit key m →
  m ∈ default [] (g !! key).
Proof.
  unfold merge_known_devices.
  destruct (merge_devices info known_devices devs ∅) as [g1|] eqn:H1; [|done].
  cbn [mbind option_bind]. intros H2 Hin Hm.
  apply (add_offline_devices_keeps _ _ _ _ _ _ H2).
  by apply (merge_devices_holds _ _ _ _ _ _ _ _ H1 Hin Hm).
Qed.

(** *** Network context *)





Example primary_context_kept :
  merge_device home_interface [] (Dict nas_record) =
  Emit "192.168.1.0/24" (<["network_context" := VStr "primary"]> nas_record).
Proof. reflexivity. Qed.

(** *** Merging a list with itself *)

Lemma address_of_inv d ip :
  address_of (Dict d) = Some ip → d !! "ip" = Some (VStr ip) ∧ ip ≠ EmptyString.
Proof.
  unfold address_of. destruct (d !! "ip") as [[| | |s|]|]; try done.
  destruct s; cbn [PyStr.nonempty]; [done|]. by intros [= <-].
Qed.

Lemma address_of_eq_str d ip0 ip :
  address_of (Dict d) = Some ip0 →
  eq_str (dict_get d "ip") ip = bool_decide (ip0 = ip).
Proof.
  intros [Hd _]%address_of_inv. unfold dict_get. rewrite Hd. cbn.
  apply eqb_bool_decide.
Qed.

Lemma keep_stored_self key d : keep_stored key d d = d.
Proof. unfold keep_stored. by destruct (truthy (dict_get d key)). Qed.

Lemma merge_stored_self d :
  d ≠ ∅ →
  merge_stored d (Some d) =
  if truthy (dict_get d "last_seen")
  then <["stored_last_seen" := dict_get d "last_seen"]> d else d.
Proof.
  intros Hne. unfold merge_stored. rewrite bool_decide_eq_false_2 by done.
  by rewrite !keep_stored_self.
Qed.

Lemma find_stored_self l d ip :
  Forall (λ e, is_Some (address_of e)) l →
  NoDup (omap address_of l) →
  Dict d ∈ l →
  address_of (Dict d) = Some ip →
  find_stored l ip = Some d.
Proof.
  induction l as [|e l IH]; intros Hwf Hnd Hin Hip; [by apply elem_of_nil in Hin|].
  apply Forall_cons in Hwf as [[ip0 Hip0] Hwf].
  cbn [omap list_omap] in Hnd. rewrite Hip0 in Hnd. apply NoDup_cons in Hnd as [Hnot Hnd].
  destruct e as [d0|]; [|done]. cbn [find_stored].
  rewrite (address_of_eq_str _ _ ip Hip0).
  apply elem_of_cons in Hin as [Heq|Hin].
  - simplify_eq. by rewrite bool_decide_eq_true_2.
  - destruct (decide (ip0 = ip)) as [->|Hne].
    + exfalso. apply Hnot. apply list_elem_of_omap. eauto.
    + rewrite bool_decide_eq_false_2 by done. by apply IH.
Qed.

Lemma address_nonempty_dict d ip : address_of (Dict d) = Some ip → d ≠ ∅.
Proof. intros [Hd _]%address_of_inv ->. by rewrite lookup_empty in Hd. Qed.

Lemma keep_stored_agree key d m :
  m !! key = d !! key → keep_stored key d m = m.
Proof.
  intros H. unfold keep_stored, dict_get. rewrite H.
  by destruct (truthy (default VNone (d !! key))).
Qed.

Section SelfMerge.

Context (info : interface_info) (l : list entry).
Hypothesis Hwf : Forall (λ e, is_Some (address_of e)) l.
Hypothesis Hnd : NoDup (omap address_of l).

(** The record the merge makes of [d] when the stored record is [d]. *)
Lemma merge_device_self d ip :
  Dict d ∈ l →
  address_of (Dict d) = Some ip →
  ∃ m, merge_device info l (Dict d) = Emit (network_key_of info ip) m ∧
       annotated info d m.
Proof.
  intros Hin Hip.
  destruct (address_of_inv _ _ Hip) as [Hd Hne].
  eexists. split; [by apply merge_device_emits|].
  rewrite (find_stored_self _ _ _ Hwf Hnd Hin Hip).
  rewrite (merge_stored_self _ (address_nonempty_dict _ _ Hip)).
  exists ip. split; [done|]. cbv zeta.
  set (base := if truthy (dict_get d "last_seen")
               then <["stored_last_seen" := dict_get d "last_seen"]> d else d).
  assert (Hbase : ∀ k, k ≠ "stored_last_seen" → base !! k = d !! k).
  { intros k Hk. subst base. destruct (truthy _); [|done]. by rewrite lookup_insert_ne. }
  assert (Hping : dict_get_or base "pingable" (VBool false)
                  = dict_get_or d "pingable" (VBool false)).
  { unfold dict_get_or. by rewrite Hbase. }
  unfold validate_context. rewrite Hping.
  destruct (String.eqb_spec (network_key_of info ip) (subnet info)) as [E|E];
    cbn [negb].
  - rewrite bool_decide_eq_false_2 by (by intros ?). cbn [andb].
    split; [|split; [|split]].
    + intros k Hk. rewrite !not_elem_of_cons in Hk. destruct Hk as (?&?&?&_).
      rewrite lookup_insert_ne by done. by apply Hbase.
    + rewrite lookup_insert_ne by done. by apply Hbase.
    + by rewrite lookup_insert_eq.
    + rewrite lookup_insert_ne by done. subst base.
      destruct (truthy (dict_get d "last_seen")) eqn:Hl; [|done].
      by rewrite lookup_insert_eq, (dict_get_lookup _ _ Hl).
  - rewrite bool_decide_eq_true_2 by done. cbn [andb].
    destruct (truthy (dict_get_or d "pingable" (VBool false))); cbn [negb].
    + split; [|split; [|split]].
      * intros k Hk. rewrite !not_elem_of_cons in Hk. destruct Hk as (?&?&?&_).
        rewrite lookup_insert_ne by done. by apply Hbase.
      * rewrite lookup_insert_ne by done. by apply Hbase.
      * by rewrite lookup_insert_eq.
      * rewrite lookup_insert_ne by done. subst base.
        destruct (truthy (dict_get d "last_seen")) eqn:Hl; [|done].
        by rewrite lookup_insert_eq, (dict_get_lookup _ _ Hl).
    + split; [|split; [|split]].
      * intros k Hk. rewrite !not_elem_of_cons in Hk. destruct Hk as (?&?&?&_).
        rewrite !lookup_insert_ne by done. by apply Hbase.
      * rewrite lookup_insert_ne by done. by rewrite lookup_insert_eq.
      * by rewrite lookup_insert_eq.
      * rewrite !lookup_insert_ne by done. subst base.
        destruct (truthy (dict_get d "last_seen")) eqn:Hl; [|done].
        by rewrite lookup_insert_eq, (dict_get_lookup _ _ Hl).
Qed.

Lemma merge_device_again d m ip :
  Dict d ∈ l →
  address_of (Dict d) = Some ip →
  annotated info d m →
  merge_device info l (Dict m) = Emit (network_key_of info ip) m.
Proof.
  intros Hin Hip (ip' & Hip' & Hm). cbv zeta in Hm.
  assert (ip' = ip) as -> by congruence.
  destruct Hm as (Hother & Hstatus & Hctx & Hseen).
  destruct (address_of_inv _ _ Hip) as [Hd Hne].
  assert (Hk : ∀ k, k ∈ ["ip"; "hostname"; "mac"; "vendor"; "pingable"] → m !! k = d !! k).
  { intros k Hk. apply Hother. rewrite !elem_of_cons in Hk. rewrite !not_elem_of_cons.
    destruct Hk as [->|[->|[->|[->|[->|Hk]]]]]; [..|by apply elem_of_nil in Hk];
      repeat split; try discriminate; apply not_elem_of_nil. }
  assert (Hmip : m !! "ip" = Some (VStr ip)) by (rewrite Hk; [done|in_list]).
  rewrite (merge_device_emits _ _ _ _ Hmip Hne). f_equal.
  rewrite (find_stored_self _ _ _ Hwf Hnd Hin Hip).
  assert (Hms : merge_stored m (Some d) = m).
  { unfold merge_stored.
    rewrite bool_decide_eq_false_2 by (by apply (address_nonempty_dict _ ip)).
    rewrite (keep_stored_agree "hostname") by (apply Hk; in_list).
    rewrite (keep_stored_agree "mac") by (apply Hk; in_list).
    rewrite (keep_stored_agree "vendor") by (apply Hk; in_list).
    destruct (truthy (dict_get d "last_seen")) eqn:Hl; [|done].
    apply insert_id. by rewrite Hseen, (dict_get_lookup _ _ Hl). }
  rewrite Hms. unfold validate_context, dict_get_or.
  rewrite (Hk "pingable") by in_list.
  fold (dict_get_or d "pingable" (VBool false)).
  destruct (String.eqb_spec (network_key_of info ip) (subnet info)) as [E|E];
    cbn [negb].
  - rewrite bool_decide_eq_false_2 in Hctx by (by intros ?). by apply insert_id.
  - rewrite bool_decide_eq_true_2 in Hctx, Hstatus by done. cbn [andb] in Hstatus.
    destruct (truthy (dict_get_or d "pingable" (VBool false))); cbn [negb] in *.
    + by apply insert_id.
    + rewrite (insert_id m "status") by done. by apply insert_id.
Qed.

End SelfMerge.

(** The records the first loop files under a key. *)
Lemma merge_devices_lookup info known_devices devs (g g' : groups) key :
  merge_devices info known_devices devs g = Some g' →
  default [] (g' !! key) =
  default [] (g !! key) ++
  omap (λ dev, match merge_device info known_devices dev with
               | Emit k m => if decide (k = key) then Some m else None
               | _ => None
               end) devs.
Proof.
  revert g. induction devs as [|dev devs IH]; intros g; cbn [merge_devices omap list_omap].
  - intros [= <-]. by rewrite app_nil_r.
  - destruct (merge_device info known_devices dev) as [k m| |]; [| |done].
    + intros Hg. rewrite (IH _ Hg), group_append_lookup.
      destruct (decide (key = k)) as [->|Hne].
      * rewrite decide_True by done. by rewrite <- app_assoc.
      * by rewrite decide_False by done.
    + apply IH.
Qed.

Lemma merge_devices_total info known_devices devs (g : groups) :
  Forall (λ e, is_Some (address_of e)) devs →
  is_Some (merge_devices info known_devices devs g).
Proof.
  intros Hwf. revert g. induction Hwf as [|e devs [ip Hip] _ IH]; intros g;
    cbn [merge_devices]; [done|].
  destruct e as [d|]; [|done].
  destruct (address_of_inv _ _ Hip) as [Hd Hne].
  rewrite (merge_device_emits _ _ _ _ Hd Hne). apply IH.
Qed.

Lemma add_offline_found info (g : groups) k ip x :
  address_of (Dict k) = Some ip →
  x ∈ default [] (g !! network_key_of info ip) →
  x !! "ip" = Some (VStr ip) →
  add_offline info g (Dict k) = Continue.
Proof.
  intros Hip Hx Hxip. destruct (address_of_inv _ _ Hip) as [Hd Hne].
  unfold add_offline, dict_get. rewrite Hd. cbn [default from_option id truthy].
  apply nonempty_true in Hne. rewrite Hne. cbn [negb].
  assert (existsb (λ d : device, bool_decide (d !! "ip" = Some (VStr ip)))
            (default [] (g !! network_key_of info ip)) = true) as ->; [|done].
  apply existsb_exists. exists x. split; [by apply list_elem_of_In|].
  by apply bool_decide_eq_true_2.
Qed.

Lemma add_offline_devices_nothing info known_devices (g : groups) :
  (∀ k, Dict k ∈ known_devices →
     ∃ ip x, address_of (Dict k) = Some ip ∧
             x ∈ default [] (g !! network_key_of info ip) ∧
             x !! "ip" = Some (VStr ip)) →
  Forall (λ e, is_Some (address_of e)) known_devices →
  add_offline_devices info known_devices g = Some g.
Proof.
  intros Hfound Hwf. induction Hwf as [|e known [ip Hip] _ IH];
    cbn [add_offline_devices]; [done|].
  destruct e as [k|]; [|done].
  destruct (Hfound k ltac:(left)) as (ip' & x & Hip' & Hx & Hxip).
  rewrite (add_offline_found _ _ _ _ _ Hip' Hx Hxip).
  apply IH. intros k' Hk'. apply Hfound. by right.
Qed.

(** C6, as amended.  Merging a list of records with distinct non-empty
    addresses with an identical copy of itself succeeds, adds no record and
    loses none: under every network key the merge holds, in order, one
    record for each record of the list that belongs there, equal to it on
    every key but the three the merge writes (the network context, the copy
    of the time stamp, and the status of a record of a discovered network
    that is not pingable).  Merging the result again against the same list
    changes nothing. *)
Theorem merge_with_itself (info : interface_info) (l : list entry) :
  Forall (λ e, is_Some (address_of e)) l →
  NoDup (omap address_of l) →
  ∃ g,
    merge_known_devices info l l = Some g ∧
    (∀ key, Forall2 (annotated info) (omap (filed_under info key) l)
                    (default [] (g !! key))) ∧
    (∀ key m, m ∈ default [] (g !! key) →
              merge_device info l (Dict m) = Emit key m).
Proof.
  intros Hwf Hnd.
  destruct (merge_devices_total info l l ∅ Hwf) as [g Hg].
  assert (Hself : ∀ d ip, Dict d ∈ l → address_of (Dict d) = Some ip →
            ∃ m, merge_device info l (Dict d) = Emit (network_key_of info ip) m ∧
                 annotated info d m ∧
                 merge_device info l (Dict m) = Emit (network_key_of info ip) m).
  { intros d ip Hin Hip.
    destruct (merge_device_self info l Hwf Hnd d ip Hin Hip) as (m & Hm & Ha).
    exists m. split; [done|]. split; [done|].
    by apply (merge_device_again info l Hwf Hnd d m ip). }
  assert (Hlist : ∀ devs key, devs ⊆ l →
            Forall2 (λ d m, annotated info d m ∧
                            merge_device info l (Dict m) = Emit key m)
              (omap (filed_under info key) devs)
              (omap (λ dev, match merge_device info l dev with
                            | Emit k m => if decide (k = key) then Some m else None
                            | _ => None
                            end) devs)).
  { intros devs key. induction devs as [|e devs IH]; intros Hsub; [constructor|].
    assert (He : e ∈ l) by (apply Hsub; left).
    assert (Hdevs : devs ⊆ l) by (intros x Hx; apply Hsub; by right).
    destruct (proj1 (Forall_forall _ _) Hwf e He) as [ip Hip].
    destruct e as [d|]; [|done].
    destruct (Hself d ip He Hip) as (m & Hm & Ha & Hagain).
    cbn [omap list_omap]. unfold filed_under at 1. rewrite Hip, Hm.
    destruct (decide (network_key_of info ip = key)) as [<-|Hne].
    - constructor; [done|]. by apply IH.
    - by apply IH. }
  exists g. unfold merge_known_devices. rewrite Hg. cbn [mbind option_bind].
  assert (Hg0 : ∀ key, default [] (g !! key) =
            omap (λ dev, match merge_device info l dev with
                         | Emit k m => if decide (k = key) then Some m else None
                         | _ => None
                         end) l).
  { intros key. by rewrite (merge_devices_lookup _ _ _ _ _ key Hg), lookup_empty. }
  split; [|split].
  - apply add_offline_devices_nothing; [|done].
    intros k Hk. destruct (proj1 (Forall_forall _ _) Hwf _ Hk) as [ip Hip].
    destruct (Hself k ip Hk Hip) as (m & Hm & (ip' & Hip' & Ha) & _).
    exists ip, m. split; [done|]. split.
    + by apply (merge_devices_holds _ _ _ _ _ _ _ _ Hg Hk Hm).
    + destruct Ha as (Hother & _). rewrite Hother.
      * by apply address_of_inv.
      * rewrite !not_elem_of_cons. repeat split; try discriminate. apply not_elem_of_nil.
  - intros key. rewrite Hg0.
    eapply Forall2_impl; [apply (Hlist l key); done|]. by intros d m [? _].
  - intros key m Hm. rewrite Hg0 in Hm.
    pose proof (Hlist l key ltac:(done)) as HF.
    apply list_elem_of_lookup in Hm as [i Hi].
    destruct (Forall2_lookup_r _ _ _ _ _ HF Hi) as (d & _ & _ & Hagain). done.
Qed.

(** A list with one record of the home network. *)
Lemma merge_with_itself_witness :
  ∃ g,
    merge_known_devices home_interface [Dict nas_record] [Dict nas_record] = Some g ∧
    Forall2 (annotated home_interface) [nas_record]
      (default [] (g !! "192.168.1.0/24")).
Proof.
  destruct (merge_with_itself home_interface [Dict nas_record]) as (g & Hg & Ha & _).
  - repeat constructor. by exists "192.168.1.5".
  - cbn. repeat constructor. apply not_elem_of_nil.
  - exists g. split; [exact Hg|]. exact (Ha "192.168.1.0/24").
Defined.

(** C6 as the specification words it fails: the record the merge makes of
    a record and its identical copy is not that record; it has gained a
    network context and a copy of its time stamp. *)
Lemma merge_with_itself_changes_records :
  (merge_known_devices home_interface [Dict nas_record] [Dict nas_record]
     ≫= (.!! "192.168.1.0/24"))
  = Some [<["network_context" := VStr "primary"]>
            (<["stored_last_seen" := VNum 1699990000]> nas_record)] ∧
  <["network_context" := VStr "primary"]>
    (<["stored_last_seen" := VNum 1699990000]> nas_record) ≠ nas_record.
Proof.
  split; [vm_compute; reflexivity|].
  intros H. apply (f_equal (.!! "network_context")) in H. vm_compute in H. discriminate H.
Qed.

(** ** Scan scheduler: chunks and the worker pool *)

Lemma submits_app cs1 cs2 : submits (cs1 ++ cs2) = submits cs1 ++ submits cs2.
Proof. apply omap_app. Qed.

Lemma split_snoc_close (past p1 p2 : list command) c :
  c ≠ ClosePool →
  past ++ [c] = p1 ++ ClosePool :: p2 →
  ∃ p2', past = p1 ++ ClosePool :: p2'.
Proof.
  intros Hc H. destruct (decide (p2 = [])) as [->|Hne].
  - apply app_inj_tail in H as [_ ?]. done.
  - destruct (exists_last Hne) as (p2' & c' & ->).
    rewrite app_comm_cons, app_assoc in H. apply app_inj_tail in H as [-> _].
    by exists p2'.
Qed.

Section PoolInvariant.

Context (program : list command).

Lemma pool_invariant_initial : pool_invariant program (initial program).
Proof.
  exists []. split; [by exists []; rewrite app_nil_r|]. split; [done|]. split; [|done].
  intros p1 p2 H. by destruct p1.
Qed.

Lemma pool_invariant_step s s' :
  pool_invariant program s → pool_step s s' → pool_invariant program s'.
Proof.
  intros (past & [dropped Hprog] & Hperm & Hclosed & Hpool) Hstep.
  unfold dispatched in *.
  destruct Hstep; cbn [todo pool queued running finished] in *.
  - (* open *)
    exists (past ++ [OpenPool n]). destruct Hpool as [-> ->].
    split; [exists dropped; by rewrite <- app_assoc|].
    split; [by rewrite submits_app, app_nil_r|]. split.
    + intros p1 p2 [p2' ->]%split_snoc_close; [|done]. by apply (Hclosed p1 p2').
    + split; [cbn; lia|]. by exists past, [].
  - (* submit *)
    exists (past ++ [Submit ip]).
    split; [exists dropped; by rewrite <- app_assoc|].
    split.
    { rewrite submits_app. cbn. rewrite <- Hperm. solve_Permutation. }
    split.
    + intros p1 p2 [p2' ->]%split_snoc_close; [|done]. by apply (Hclosed p1 p2').
    + destruct Hpool as [Hlen (p1 & p2 & ->)]. split; [done|].
      exists p1, (p2 ++ [Submit ip]). by rewrite <- app_assoc.
  - (* await *)
    exists (past ++ [AwaitResult ip]).
    split; [exists dropped; by rewrite <- app_assoc|].
    split; [by rewrite submits_app, app_nil_r|]. split.
    + intros p1 p2 [p2' ->]%split_snoc_close; [|done]. by apply (Hclosed p1 p2').
    + destruct p as [n|]; [|done]. destruct Hpool as [Hlen (p1 & p2 & ->)].
      split; [done|]. exists p1, (p2 ++ [AwaitResult ip]). by rewrite <- app_assoc.
  - (* close *)
    exists (past ++ [ClosePool]).
    split; [exists dropped; by rewrite <- app_assoc|].
    split; [by rewrite submits_app, app_nil_r|]. split; [|done].
    intros p1 p2 H. destruct (decide (p2 = [])) as [->|Hne].
    + apply app_inj_tail in H as [<- _]. cbn in Hperm. intros x Hx. cbn.
      by rewrite Hperm.
    + destruct (exists_last Hne) as (p2' & c' & ->).
      rewrite app_comm_cons, app_assoc in H. apply app_inj_tail in H as [-> _].
      by apply (Hclosed p1 p2').
  - (* pause *)
    exists (past ++ [Pause]).
    split; [exists dropped; by rewrite <- app_assoc|].
    split; [by rewrite submits_app, app_nil_r|]. split.
    + intros p1 p2 [p2' ->]%split_snoc_close; [|done]. by apply (Hclosed p1 p2').
    + destruct p as [n|]; [|done]. destruct Hpool as [Hlen (p1 & p2 & ->)].
      split; [done|]. exists p1, (p2 ++ [Pause]). by rewrite <- app_assoc.
  - (* poll *)
    exists (past ++ [Poll]).
    split; [exists dropped; by rewrite <- app_assoc|].
    split; [by rewrite submits_app, app_nil_r|]. split.
    + intros p1 p2 [p2' ->]%split_snoc_close; [|done]. by apply (Hclosed p1 p2').
    + destruct p as [n|]; [|done]. destruct Hpool as [Hlen (p1 & p2 & ->)].
      split; [done|]. exists p1, (p2 ++ [Poll]). by rewrite <- app_assoc.
  - (* interrupt *)
    exists past. split; [by exists (Poll :: rest ++ dropped)|]. done.
  - (* an exception *)
    exists past. split; [by exists (t ++ dropped)|]. done.
  - (* start *)
    exists past. split; [by exists dropped|]. split.
    { rewrite <- Hperm. solve_Permutation. }
    split; [done|]. destruct Hpool as [Hlen Hopen]. split; [|done].
    cbn. rewrite length_app. cbn. lia.
  - (* finish *)
    exists past. split; [by exists dropped|]. split.
    { rewrite <- Hperm. solve_Permutation. }
    split.
    + intros p1 p2 H x Hx. apply elem_of_app. left. by apply (Hclosed p1 p2).
    + destruct p as [n|].
      * destruct Hpool as [Hlen Hopen]. split; [|done].
        cbn. rewrite length_app in *. cbn in *. lia.
      * destruct Hpool as [_ Hr]. by destruct r1.
Qed.

Lemma pool_invariant_reachable s :
  rtc pool_step (initial program) s → pool_invariant program s.
Proof.
  intros H. apply rtc_ind_r with (P := pool_invariant program) in H; [done|..].
  - apply pool_invariant_initial.
  - intros y z _ Hstep Hy. by apply (pool_invariant_step y).
Qed.

End PoolInvariant.

(** *** The chunks *)

Lemma chunk_slice {A} (l : list A) start :
  list_slice start (Nat.min (start + chunk_size) (length l)) l
  = take chunk_size (drop start l).
Proof.
  unfold list_slice, chunk_size.
  destruct (Nat.le_gt_cases (start + 255) (length l)) as [H|H].
  - rewrite Nat.min_l by done. f_equal. lia.
  - rewrite Nat.min_r by lia.
    rewrite !take_ge; [done| |]; rewrite length_drop; lia.
Qed.

Lemma chunks_from {A} (l : list A) count start :
  map (λ chunk_start,
         list_slice chunk_start (Nat.min (chunk_start + chunk_size) (length l)) l)
      (PyStr.range_from count start chunk_size)
  = map (λ i, take chunk_size (drop (start + chunk_size * i) l)) (seq 0 count).
Proof.
  revert start. induction count as [|count IH]; intros start; [done|].
  cbn [PyStr.range_from map seq]. rewrite chunk_slice, IH. f_equal.
  - f_equal. f_equal. lia.
  - rewrite <- seq_shift, map_map. apply map_ext. intros i. do 2 f_equal. lia.
Qed.

Lemma chunks_of_seq (host_ips : list string) :
  chunks_of host_ips =
  map (λ i, take chunk_size (drop (chunk_size * i) host_ips))
      (seq 0 ((length host_ips + 254) / 255)).
Proof.
  unfold chunks_of, PyStr.range. rewrite chunks_from.
  replace (length host_ips - 0 + (chunk_size - 1)) with (length host_ips + 254)
    by (unfold chunk_size; lia).
  done.
Qed.

Lemma chunk_count_bounds n :
  255 * ((n + 254) / 255) < n + 255 ∧ n ≤ 255 * ((n + 254) / 255).
Proof.
  pose proof (Nat.div_mod_eq (n + 254) 255) as H.
  pose proof (Nat.mod_upper_bound (n + 254) 255 ltac:(lia)) as H'. lia.
Qed.

Lemma concat_chunks {A} (l : list A) count :
  concat (map (λ i, take chunk_size (drop (chunk_size * i) l)) (seq 0 count))
  = take (chunk_size * count) l.
Proof.
  induction count as [|count IH]; [by rewrite Nat.mul_0_r|].
  rewrite seq_S, map_app, concat_app, IH. cbn [map concat]. rewrite app_nil_r.
  replace (chunk_size * S count) with (chunk_size * count + chunk_size) by lia.
  rewrite <- (take_drop (chunk_size * count) (take (chunk_size * count + chunk_size) l)).
  f_equal.
  - rewrite take_take. f_equal. lia.
  - rewrite <- take_drop_commute. f_equal.
Qed.

Lemma chunks_of_concat (host_ips : list string) :
  concat (chunks_of host_ips) = host_ips.
Proof.
  rewrite chunks_of_seq, concat_chunks. apply take_ge.
  unfold chunk_size. pose proof (chunk_count_bounds (length host_ips)). lia.
Qed.

Lemma chunks_of_lookup (host_ips : list string) i c :
  chunks_of host_ips !! i = Some c →
  c = take 255 (drop (255 * i) host_ips) ∧ 0 < length c ≤ 255.
Proof.
  rewrite chunks_of_seq, list_lookup_fmap.
  destruct (seq 0 _ !! i) as [j|] eqn:Hj; [|done].
  apply lookup_seq in Hj as [-> Hlt]. cbn. intros [= <-]. unfold chunk_size.
  split; [done|]. rewrite length_take, length_drop.
  pose proof (chunk_count_bounds (length host_ips)). lia.
Qed.

(** *** The requests of the chunk loop *)

Lemma submits_map_submit ips : submits (map Submit ips) = ips.
Proof.
  unfold submits. induction ips as [|ip ips IH]; [done|].
  cbn [map omap list_omap]. by rewrite IH.
Qed.

Lemma submits_map_await ips : submits (map AwaitResult ips) = [].
Proof. unfold submits. induction ips as [|ip ips IH]; [done|]. done. Qed.

Lemma submits_chunk_loop polls chunks :
  submits (chunk_loop polls chunks) = concat chunks.
Proof.
  induction chunks as [|c chunks IH]; [done|]. cbn [chunk_loop concat].
  rewrite submits_app.
  assert (submits (if polls then [Poll] else []) = []) as -> by by destruct polls.
  cbn [app submits omap list_omap]. fold (submits (map Submit c ++ map AwaitResult c ++
    ClosePool :: match chunks with [] => [] | _ :: _ => [Pause] end ++ chunk_loop polls chunks)).
  rewrite !submits_app, submits_map_submit, submits_map_await. cbn [app].
  change (submits (ClosePool :: ?l)) with (submits l).
  rewrite submits_app, IH. by destruct chunks.
Qed.

Lemma chunk_loop_open polls chunks n :
  OpenPool n ∈ chunk_loop polls chunks → n = 20.
Proof.
  induction chunks as [|c chunks IH]; cbn [chunk_loop]; [by intros ?%elem_of_nil|].
  rewrite !elem_of_app, !elem_of_cons, !elem_of_app, !elem_of_cons, !elem_of_app.
  intros [H|[H|[H|[H|[H|[H|H]]]]]]; try done.
  - destruct polls; [apply list_elem_of_singleton in H; done|by apply elem_of_nil in H].
  - by injection H.
  - apply list_elem_of_fmap in H as (? & ? & _). done.
  - apply list_elem_of_fmap in H as (? & ? & _). done.
  - destruct chunks; [by apply elem_of_nil in H|].
    apply list_elem_of_singleton in H. done.
  - by apply IH.
Qed.

Lemma chunk_loop_split polls pre c c' post :
  ∃ X Y,
    chunk_loop polls (pre ++ c :: c' :: post) = X ++ ClosePool :: Y ∧
    submits X = concat (pre ++ [c]) ∧
    submits Y = concat (c' :: post).
Proof.
  induction pre as [|c0 pre (X & Y & HXY & HX & HY)].
  - cbn [app chunk_loop].
    exists ((if polls then [Poll] else []) ++ OpenPool 20 :: map Submit c ++ map AwaitResult c),
      ([Pause] ++ chunk_loop polls (c' :: post)).
    split; [by repeat (rewrite <- ?app_assoc; cbn [app])|]. split.
    + rewrite submits_app.
      assert (submits (if polls then [Poll] else []) = []) as -> by by destruct polls.
      cbn [app]. change (submits (OpenPool 20 :: ?l)) with (submits l).
      rewrite submits_app, submits_map_submit, submits_map_await. cbn. by rewrite !app_nil_r.
    + change (submits ([Pause] ++ ?l)) with (submits l). apply submits_chunk_loop.
  - change ((c0 :: pre) ++ c :: c' :: post) with (c0 :: (pre ++ c :: c' :: post)).
    cbn [chunk_loop]. rewrite HXY.
    exists ((if polls then [Poll] else []) ++ OpenPool 20 :: map Submit c0 ++
            map AwaitResult c0 ++ ClosePool ::
            match pre ++ c :: c' :: post with [] => [] | _ :: _ => [Pause] end ++ X), Y.
    split; [by repeat (rewrite <- ?app_assoc; cbn [app])|]. split; [|done].
    rewrite submits_app.
    assert (submits (if polls then [Poll] else []) = []) as -> by by destruct polls.
    cbn [app]. change (submits (OpenPool 20 :: ?l)) with (submits l).
    rewrite !submits_app, submits_map_submit, submits_map_await. cbn [app].
    change (submits (ClosePool :: ?l)) with (submits l).
    rewrite submits_app, HX.
    assert (submits (match pre ++ c :: c' :: post with [] => [] | _ :: _ => [Pause] end) = [])
      as -> by by destruct (pre ++ c :: c' :: post).
    done.
Qed.

Lemma lookup_consecutive {A} (l : list A) i x y :
  l !! i = Some x → l !! S i = Some y →
  ∃ pre post, l = pre ++ x :: y :: post.
Proof.
  intros Hx Hy. exists (take i l), (drop (S (S i)) l).
  rewrite <- (take_drop_middle l i x Hx) at 1. f_equal. f_equal.
  rewrite <- (take_drop_middle (drop (S i) l) 0 y).
  - cbn. by rewrite drop_drop, Nat.add_1_r.
  - by rewrite lookup_drop, Nat.add_0_r.
Qed.

(** C9.  The host addresses of a subnet are cut into consecutive chunks of
    255 (the last one may be shorter), whose concatenation is the list of
    hosts.  In every state the scanner and its worker pool can reach, at
    most 20 probes, the size the pool is created with, are in flight; and as
    soon as a host of chunk N+1 has been handed to the pool, every host of
    chunk N has finished: a chunk is dispatched only after the [with] block
    of the chunk before it has been left.  An interrupt observed by the
    command-line scanner ends the dispatching. *)
Theorem chunked_dispatch (polls : bool) (host_ips : list string) (s : pool_state) :
  NoDup host_ips →
  rtc pool_step (initial (scan_commands polls host_ips)) s →
  concat (chunks_of host_ips) = host_ips ∧
  (∀ i c, chunks_of host_ips !! i = Some c →
          c = take 255 (drop (255 * i) host_ips) ∧ 0 < length c ≤ 255) ∧
  length (running s) ≤ 20 ∧
  (∀ i c c' ip',
     chunks_of host_ips !! i = Some c →
     chunks_of host_ips !! S i = Some c' →
     ip' ∈ c' →
     ip' ∈ dispatched s →
     ∀ ip, ip ∈ c → ip ∈ finished s).
Proof.
  intros Hnd Hreach.
  apply pool_invariant_reachable in Hreach
    as (past & [dropped Hprog] & Hperm & Hclosed & Hpool).
  split; [apply chunks_of_concat|]. split; [apply chunks_of_lookup|]. split.
  - destruct (pool s) as [n|].
    + destruct Hpool as [Hlen (p1 & p2 & ->)].
      assert (n = 20) as ->; [|done].
      apply (chunk_loop_open polls (chunks_of host_ips)).
      fold (scan_commands polls host_ips). rewrite Hprog.
      rewrite !elem_of_app, elem_of_cons. left. right. by left.
    + destruct Hpool as [_ ->]. cbn. lia.
  - intros i c c' ip' Hc Hc' Hip' Hdisp ip Hip.
    destruct (lookup_consecutive _ _ _ _ Hc Hc') as (pre & post & Hchunks).
    destruct (chunk_loop_split polls pre c c' post) as (X & Y & HXY & HX & HY).
    unfold scan_commands in Hprog. rewrite Hchunks, HXY in Hprog.
    assert (Hsub : NoDup (submits X ++ submits Y)).
    { rewrite HX, HY, <- concat_app, <- app_assoc. cbn [app].
      by rewrite <- Hchunks, chunks_of_concat. }
    apply NoDup_app in Hsub as (_ & Hdisj & _).
    assert (HipY : ip' ∈ submits Y).
    { rewrite HY. cbn [concat]. apply elem_of_app. by left. }
    assert (HipX : ip ∈ submits X).
    { rewrite HX, concat_app. cbn [concat]. apply elem_of_app. right.
      rewrite app_nil_r. done. }
    assert (Hpast : ip' ∈ submits past) by by rewrite <- Hperm.
    apply app_eq_app in Hprog as [z [[HXz Hrest]|[Hpz Hrest]]].
    + (* the requests carried out are a part of those before the close *)
      exfalso. apply (Hdisj ip'); [|done].
      rewrite HXz, submits_app. apply elem_of_app. by left.
    + destruct z as [|cmd z].
      * exfalso. rewrite app_nil_r in Hpz. subst past. by apply (Hdisj ip').
      * cbn [app] in Hrest. injection Hrest as <- _.
        by apply (Hclosed X z).
Qed.

(** The scanner of two hosts with both probes in flight. *)
Lemma two_hosts_in_flight :
  rtc pool_step (initial (scan_commands false two_hosts))
    {| todo := [AwaitResult "10.0.0.1"; AwaitResult "10.0.0.2"; ClosePool];
       pool := Some 20; queued := []; running := ["10.0.0.1"; "10.0.0.2"];
       finished := [] |}.
Proof.
  eapply rtc_l; [apply step_open|].
  eapply rtc_l; [apply step_submit|].
  eapply rtc_l; [apply step_submit|].
  eapply rtc_l; [apply step_start; cbn; lia|].
  eapply rtc_l; [apply step_start; cbn; lia|].
  apply rtc_refl.
Qed.

(** The run goes on to its end: the probes finish in reverse order, and
    only then is the pool closed. *)
Lemma two_hosts_run :
  rtc pool_step (initial (scan_commands false two_hosts))
    {| todo := []; pool := None; queued := []; running := [];
       finished := ["10.0.0.2"; "10.0.0.1"] |}.
Proof.
  eapply rtc_trans; [apply two_hosts_in_flight|].
  eapply rtc_l; [apply step_await|].
  eapply rtc_l; [apply (step_finish "10.0.0.2" _ _ _ ["10.0.0.1"] [])|].
  eapply rtc_l; [apply step_await|].
  eapply rtc_l; [apply (step_finish "10.0.0.1" _ _ _ [] [])|].
  eapply rtc_l; [apply step_close|].
  apply rtc_refl.
Qed.

(** The scanner of two hosts while both probes are in flight. *)
Lemma chunked_dispatch_witness :
  NoDup two_hosts ∧
  chunks_of two_hosts = [two_hosts] ∧
  length ["10.0.0.1"; "10.0.0.2"] ≤ 20.
Proof.
  assert (Hnd : NoDup two_hosts).
  { repeat constructor; rewrite ?elem_of_cons; [|apply not_elem_of_nil].
    intros [H|H]; [discriminate H|by apply elem_of_nil in H]. }
  split; [exact Hnd|]. split; [reflexivity|].
  exact (proj1 (proj2 (proj2 (chunked_dispatch false two_hosts _ Hnd
                                two_hosts_in_flight)))).
Defined.

Example three_chunks :
  map length (chunks_of (replicate 600 "h")) = [255; 255; 90].
Proof. vm_compute. reflexivity. Qed.

Example commands_of_two_hosts :
  scan_commands true two_hosts =
  [Poll; OpenPool 20; Submit "10.0.0.1"; Submit "10.0.0.2";
   AwaitResult "10.0.0.1"; AwaitResult "10.0.0.2"; ClosePool].
Proof. reflexivity. Qed.

(** *** The store between scans

    What the scan and the rewrite of the store do to the hostname and the
    MAC of a recorded device: the probe's record carries a non-empty value
    wherever the stored one did, and the rewritten record copies both from
    it.  (The vendor of a rewritten record is looked up again from its
    MAC.) *)

Lemma get_device_identifier_truthy w ip :
  truthy_name (Some (get_device_identifier w ip)) = Some (get_device_identifier w ip).
Proof.
  pose proof (get_device_identifier_first_success w ip) as H.
  assert (Hne : get_device_identifier w ip ≠ EmptyString).
  { rewrite H. apply first_success_nonempty; [apply resolution_chain_nonempty|done]. }
  cbn. by destruct (get_device_identifier w ip).
Qed.

Lemma scan_ip_keeps_name_and_mac w known_devices ip kd dev :
  find_known known_devices ip = Some (Some kd) →
  scan_ip w known_devices ip = Some dev →
  (truthy (dict_get kd "hostname") = true → truthy (dict_get dev "hostname") = true) ∧
  (truthy (dict_get kd "mac") = true → truthy (dict_get dev "mac") = true).
Proof.
  intros Hk. unfold scan_ip.
  assert (Hk' : match known_devices with
                | [] => Some None
                | _ :: _ => find_known known_devices ip
                end = Some (Some kd)) by by destruct known_devices.
  rewrite Hk'. cbn [mbind option_bind]. clear Hk'.
  assert (Hmac : ∀ m, truthy_name (get_mac_address w ip) = Some m →
                      truthy (VStr m) = true).
  { intros m Hm. apply truthy_name_nonempty in Hm. cbn. by apply nonempty_true. }
  assert (Hname : truthy (VStr (get_device_identifier w ip)) = true).
  { pose proof (get_device_identifier_truthy w ip) as H.
    apply truthy_name_nonempty in H. cbn. by apply nonempty_true. }
  destruct (is_responsive (check_device_status w ip)) eqn:Hresp.
  - rewrite get_device_identifier_truthy. cbn [mbind option_bind]. rewrite Hresp.
    destruct (truthy_name (get_mac_address w ip)) as [m|] eqn:Hm.
    + cbn [mbind option_bind]. intros [= <-]. unfold dict_get.
      split; intros _; simplify_map_eq; [done|by apply Hmac].
    + destruct (kd !! "mac") as [v|] eqn:Hv; [|done]. cbn [mbind option_bind].
      intros [= <-]. unfold dict_get. rewrite Hv.
      split; intros H; simplify_map_eq; done.
  - destruct known_devices as [|e known]; [done|].
    destruct (kd !! "hostname") as [h|] eqn:Hh; [|done]. cbn [mbind option_bind].
    rewrite Hresp. cbn [truthy_name].
    destruct (kd !! "mac") as [v|] eqn:Hv; [|done]. cbn [mbind option_bind].
    intros [= <-]. unfold dict_get. rewrite Hh, Hv.
    split; intros H; simplify_map_eq; done.
Qed.

Lemma known_record_copies w dev r :
  known_record w (Dict dev) = Some (Some r) →
  r !! "hostname" = dev !! "hostname" ∧ r !! "mac" = dev !! "mac" ∧
  r !! "vendor" =
    (if truthy (dict_get dev "mac") then
       match truthy_name (get_mac_vendor_of w (dict_get dev "mac")) with
       | Some vendor =>
           if String.eqb vendor "Unknown" then None else Some (VStr vendor)
       | None => None
       end
     else None).
Proof.
  unfold known_record. cbn [subscript].
  destruct (dev !! "status") as [status|]; [|done]. cbn [mbind option_bind].
  destruct (eq_str status "hidden"); [done|].
  destruct (dev !! "ip") as [ip|]; [|done].
  destruct (dev !! "hostname") as [hostname|] eqn:Hh; [|done].
  destruct (dev !! "mac") as [mac|] eqn:Hm; [|done]. cbn [mbind option_bind].
  unfold dict_get. rewrite Hm. cbn [default from_option id].
  intros [= <-].
  destruct (truthy mac); [|by simplify_map_eq].
  destruct (truthy_name (get_mac_vendor_of w mac)) as [vendor|]; [|by simplify_map_eq].
  destruct (String.eqb vendor "Unknown"); by simplify_map_eq.
Qed.

Example store_drops_foreign_vendor :
  (scan_cycle (answering_world ["192.168.1.5"] []) {["en0" := [Dict nas_record]]}
     home_interface !! "en0")
  = Some [Dict (<["ip" := VStr "192.168.1.5"]>
               (<["hostname" := VStr "nas.local"]>
               (<["mac" := VStr "AA:BB:CC:DD:EE:FF"]>
               (<["last_seen" := VNum 1699990000]>
               (<["status" := VStr "offline"]> ∅)))))].
Proof. vm_compute. reflexivity. Qed.

(** ** MAC addresses in normal form *)

Lemma upper_app s t : PyStr.upper (s +:+ t) = PyStr.upper s +:+ PyStr.upper t.
Proof. induction s as [|a s IH]; simpl; [done|]. by rewrite IH. Qed.

Lemma replace_char_app c d s t :
  PyStr.replace_char c d (s +:+ t) = PyStr.replace_char c d s +:+ PyStr.replace_char c d t.
Proof. induction s as [|a s IH]; simpl; [done|]. by rewrite IH. Qed.

Lemma remove_char_app c s t :
  PyStr.remove_char c (s +:+ t) = PyStr.remove_char c s +:+ PyStr.remove_char c t.
Proof.
  induction s as [|a s IH]; simpl; [done|].
  destruct (Ascii.eqb a c); simpl; by rewrite IH.
Qed.

Lemma mac_digits_app s t : mac_digits (s +:+ t) = mac_digits s +:+ mac_digits t.
Proof.
  unfold mac_digits, strip_separators.
  by rewrite upper_app, replace_char_app, !remove_char_app.
Qed.

Ltac each_char a := destruct a as [[] [] [] [] [] [] [] []]; try discriminate.

Lemma mac_digits_hex a s :
  is_hex a = true →
  mac_digits (String a s) = String (PyStr.upper_char a) (mac_digits s) ∧
  is_upper_hex (PyStr.upper_char a) = true.
Proof. intros H. each_char a; split; reflexivity. Qed.

Lemma mac_digits_sep a s : is_mac_sep a = true → mac_digits (String a s) = mac_digits s.
Proof. intros H. each_char a; reflexivity. Qed.

Lemma match_hex_sep_digits s g rest :
  match_hex_sep s = Some (g, rest) → digits_within 1 2 g ∧ g ≠ EmptyString.
Proof.
  unfold match_hex_sep, digits_within.
  destruct s as [|a [|b s]]; try done.
  destruct (is_hex a) eqn:Ha; [|done]. cbn [andb].
  destruct (is_hex b) eqn:Hb.
  - destruct s as [|c s]; [done|]. destruct (is_mac_sep c) eqn:Hc; [|done].
    intros [= <- <-]. split; [|done].
    destruct (mac_digits_hex a (String b (String c "")) Ha) as [-> Hua].
    destruct (mac_digits_hex b (String c "") Hb) as [-> Hub].
    rewrite (mac_digits_sep c "" Hc). cbn. rewrite Hua, Hub. split; [done|lia].
  - destruct (is_mac_sep b) eqn:Hsb; [|done].
    intros [= <- <-]. split; [|done].
    destruct (mac_digits_hex a (String b "") Ha) as [-> Hua].
    rewrite (mac_digits_sep b "" Hsb). cbn. rewrite Hua. split; [done|lia].
Qed.

Lemma match_hex_last_digits s g :
  match_hex_last s = Some g → digits_within 1 2 g.
Proof.
  unfold match_hex_last, digits_within.
  destruct s as [|a s]; [done|]. destruct (is_hex a) eqn:Ha; [|done].
  assert (H1 : all_chars is_upper_hex (mac_digits (String a "")) = true
               ∧ 1 ≤ String.length (mac_digits (String a "")) ≤ 2).
  { destruct (mac_digits_hex a "" Ha) as [-> Hua]. cbn. rewrite Hua. split; [done|lia]. }
  destruct s as [|b s]; [by intros [= <-]|].
  destruct (is_hex b) eqn:Hb; [|by intros [= <-]].
  intros [= <-].
  destruct (mac_digits_hex a (String b "") Ha) as [-> Hua].
  destruct (mac_digits_hex b "" Hb) as [-> Hub].
  cbn. rewrite Hua, Hub. split; [done|lia].
Qed.

Lemma digits_within_app lo hi lo' hi' g g' :
  digits_within lo hi g → digits_within lo' hi' g' →
  digits_within (lo + lo') (hi + hi') (g +:+ g').
Proof.
  unfold digits_within. intros [H1 L1] [H2 L2].
  rewrite mac_digits_app, all_chars_app, length_string_app, H1, H2.
  split; [done|lia].
Qed.

Lemma match_hex_seps_digits n s gs rest :
  match_hex_seps n s = Some (gs, rest) →
  digits_within n (2 * n) gs ∧ (0 < n → gs ≠ EmptyString).
Proof.
  revert s gs rest. induction n as [|n IH]; intros s gs rest; simpl.
  - intros [= <- <-]. split; [|lia]. split; [done|]. cbn. lia.
  - destruct (match_hex_sep s) as [[g r]|] eqn:Hg; [|done].
    destruct (match_hex_seps n r) as [[gs' r']|] eqn:Hgs; [|done].
    intros [= <- <-].
    destruct (match_hex_sep_digits _ _ _ Hg) as [Hd Hne].
    destruct (IH _ _ _ Hgs) as [Hd' _].
    split.
    + pose proof (digits_within_app _ _ _ _ _ _ Hd Hd') as [H1 H2].
      split; [done|lia].
    + intros _. destruct g; [done|]. discriminate.
Qed.

Lemma match_mac_at_digits s m :
  match_mac_at s = Some m → digits_within 6 12 m ∧ m ≠ EmptyString.
Proof.
  unfold match_mac_at.
  destruct (match_hex_seps 5 s) as [[gs rest]|] eqn:Hgs; [|done].
  destruct (match_hex_last rest) as [g|] eqn:Hg; [|done].
  intros [= <-].
  destruct (match_hex_seps_digits _ _ _ _ Hgs) as [Hd Hne].
  split.
  - apply (digits_within_app 5 10 1 2); [done|]. by eapply match_hex_last_digits.
  - destruct gs; [exfalso; apply Hne; [lia|done]|done].
Qed.

Lemma search_mac_digits s m :
  search_mac s = Some m → digits_within 6 12 m ∧ m ≠ EmptyString.
Proof.
  induction s as [|a s IH]; simpl.
  - done.
  - destruct (match_mac_at (String a s)) as [m'|] eqn:Hm; [|done].
    intros [= <-]. by eapply match_mac_at_digits.
Qed.

Lemma upper_nonempty s : s ≠ EmptyString → PyStr.replace_char "-" ":" (PyStr.upper s) ≠ EmptyString.
Proof. by destruct s. Qed.

(** The twelve digits the padding rule writes for a pattern match. *)
Lemma normalize_mac_match_twelve m :
  m ≠ EmptyString →
  normalize_mac_match m = format_with_colons (spec_twelve (mac_digits m)).
Proof.
  intros Hne. unfold normalize_mac_match.
  by rewrite pad_mac_address_twelve by by apply upper_nonempty.
Qed.

Lemma spec_twelve_upper_hex clean :
  all_chars is_upper_hex clean = true → all_chars is_upper_hex (spec_twelve clean) = true.
Proof.
  intros H. unfold spec_twelve.
  destruct (_ =? _); [done|]. destruct (_ <? _).
  - rewrite all_chars_app, H, all_chars_repeat; done.
  - by apply all_chars_substring_0.
Qed.

Ltac split_andb H :=
  repeat match type of H with
         | _ && _ = true => let H1 := fresh "Hc" in apply andb_prop in H; destruct H as [H1 H]
         end.

Lemma format_with_colons_normal t :
  String.length t = 12 → all_chars is_upper_hex t = true →
  is_normal_mac (format_with_colons t) = true.
Proof.
  intros H P. rewrite format_with_colons_pairs by done.
  twelve_chars t H. cbn in P. split_andb P.
  cbn -[is_upper_hex].
  repeat match goal with H : is_upper_hex _ = true |- _ => rewrite H; clear H end.
  reflexivity.
Qed.

Lemma search_mac_normal s m :
  search_mac s = Some m → is_normal_mac (normalize_mac_match m) = true.
Proof.
  intros [[Hhex _] Hne]%search_mac_digits.
  rewrite normalize_mac_match_twelve by done.
  apply format_with_colons_normal; [apply spec_twelve_length|].
  by apply spec_twelve_upper_hex.
Qed.

Lemma mac_in_lines_matched ip lines mac :
  mac_in_lines ip lines = Some mac →
  ∃ line m, search_mac line = Some m ∧ mac = normalize_mac_match m.
Proof.
  induction lines as [|line rest IH]; simpl; [done|].
  destruct (PyStr.contains ip line); [|done].
  destruct (search_mac line) as [m|] eqn:Hm; [|done].
  intros [= <-]. by exists line, m.
Qed.

(** A MAC address the resolver returns is the normalisation of a match of
    the pattern in some text. *)
Lemma get_mac_address_matched w ip mac :
  get_mac_address w ip = Some mac →
  ∃ text m, search_mac text = Some m ∧ mac = normalize_mac_match m.
Proof.
  unfold get_mac_address.
  set (cmd := if String.eqb _ _ then _ else _).
  destruct (subprocess_run w cmd 2) as [r|].
  - destruct ((returncode r =? 0)%Z && PyStr.nonempty (PyStr.strip (stdout r))).
    + destruct (search_mac (stdout r)) as [m|] eqn:Hm; cbn [option_map].
      * intros [= <-]. by exists (stdout r), m.
      * destruct (subprocess_run w ["arp"; "-a"] 2) as [r2|]; [|done].
        destruct (returncode r2 =? 0)%Z; [|done].
        destruct (PyStr.contains ip (stdout r2)); [|done].
        intros (line & m & ? & ?)%mac_in_lines_matched. by exists line, m.
    + destruct (subprocess_run w ["arp"; "-a"] 2) as [r2|]; [|done].
      destruct (returncode r2 =? 0)%Z; [|done].
      destruct (PyStr.contains ip (stdout r2)); [|done].
      intros (line & m & ? & ?)%mac_in_lines_matched. by exists line, m.
  - destruct (subprocess_run w ["arp"; "-a"] 2) as [r2|]; [|done].
    destruct (returncode r2 =? 0)%Z; [|done].
    destruct (PyStr.contains ip (stdout r2)); [|done].
    intros (line & m & ? & ?)%mac_in_lines_matched. by exists line, m.
Qed.

(** X1.  Every MAC address [get_mac_address] returns is in normal form:
    six pairs of upper-case hex digits with colons between them, whatever
    the separators, the case and the number of digits of the text the
    operating system printed. *)
Theorem resolved_mac_is_normal (w : world) (ip mac : string) :
  get_mac_address w ip = Some mac → is_normal_mac mac = true.
Proof.
  intros (text & m & Hm & ->)%get_mac_address_matched.
  by eapply search_mac_normal.
Qed.

Lemma resolved_mac_is_normal_witness :
  get_mac_address (arp_world arp_line) "10.0.0.7" = Some "00:3E:E1:B7:57:54" ∧
  is_normal_mac "00:3E:E1:B7:57:54" = true.
Proof.
  split; [reflexivity|].
  apply (resolved_mac_is_normal (arp_world arp_line) "10.0.0.7"). reflexivity.
Defined.

Lemma all_chars_impl (p q : ascii → bool) s :
  (∀ a, p a = true → q a = true) → all_chars p s = true → all_chars q s = true.
Proof.
  intros Hpq. induction s as [|a s IH]; simpl; [done|].
  intros [Ha Hs]%andb_prop. by rewrite (Hpq _ Ha), IH.
Qed.

Lemma upper_hex_plain a : is_upper_hex a = true → plain_char a = true.
Proof. intros H. each_char a; reflexivity. Qed.

(** X2.  The padding rule is idempotent: an address it has written is
    left as it is when the rule is applied again. *)
Theorem pad_mac_address_idempotent (mac : string) :
  pad_mac_address (pad_mac_address mac) = pad_mac_address mac.
Proof.
  destruct mac as [|a mac]; [done|]. set (m := String a mac).
  rewrite (pad_mac_address_twelve m) by done.
  set (t := spec_twelve (strip_separators m)).
  assert (Hlen : String.length t = 12) by apply spec_twelve_length.
  assert (Hplain : all_chars plain_char t = true)
    by apply spec_twelve_plain, strip_separators_plain.
  rewrite (format_with_colons_pairs t) by done.
  rewrite pad_mac_address_twelve.
  - rewrite strip_colon_pairs by done.
    unfold spec_twelve at 1. rewrite Hlen. cbn [Nat.eqb].
    by rewrite format_with_colons_pairs.
  - clear -Hlen. twelve_chars t Hlen. done.
Qed.

(** ** Magic packet *)

Lemma upper_hex_digit a :
  is_upper_hex a = true →
  ∃ v, hex_digit a = Some v ∧ (0 ≤ v < 16)%Z ∧ hex_char v = a ∧
       is_ascii_space a = false ∧ PyStr.upper_char a = a.
Proof.
  intros H. each_char a;
    (eexists; split; [reflexivity|]; split; [by vm_compute|];
     split; [reflexivity|]; split; reflexivity).
Qed.

Lemma hex_upper_hex a : is_upper_hex (PyStr.upper_char a) = is_hex a.
Proof. by each_char a. Qed.

Lemma all_chars_upper s :
  all_chars is_upper_hex (PyStr.upper s) = all_chars is_hex s.
Proof. induction s as [|a s IH]; simpl; [done|]. by rewrite hex_upper_hex, IH. Qed.

Lemma length_upper s : String.length (PyStr.upper s) = String.length s.
Proof. induction s as [|a s IH]; simpl; congruence. Qed.

Lemma upper_upper_hex s : all_chars is_upper_hex s = true → PyStr.upper s = s.
Proof.
  induction s as [|a s IH]; simpl; [done|].
  intros [Ha Hs]%andb_prop.
  destruct (upper_hex_digit a Ha) as (_ & _ & _ & _ & _ & ->). by rewrite IH.
Qed.

(** [bytes.fromhex] on an even number of upper-case hex digits: it succeeds,
    and the hex text of the bytes is the text it was given. *)
Lemma fromhex_upper_hex n s :
  String.length s = 2 * n → all_chars is_upper_hex s = true →
  ∃ bytes, fromhex s = Some bytes ∧ length bytes = n ∧
           Forall (λ b, (0 ≤ b < 256)%Z) bytes ∧ hexlify bytes = s.
Proof.
  revert s. induction n as [|n IH]; intros s Hlen Hhex.
  - destruct s; [|done]. exists []. by repeat split.
  - destruct s as [|a [|b s]]; simpl in Hlen; try lia.
    cbn [all_chars] in Hhex. apply andb_prop in Hhex as [Ha Hhex].
    apply andb_prop in Hhex as [Hb Hhex].
    destruct (upper_hex_digit a Ha) as (hi & Hhi & Rhi & Chi & Sa & _).
    destruct (upper_hex_digit b Hb) as (lo & Hlo & Rlo & Clo & _ & _).
    destruct (IH s) as (bytes & Hb' & Hl' & Hr' & Hx'); [lia|done|].
    exists ((16 * hi + lo)%Z :: bytes).
    cbn [fromhex]. rewrite Sa, Hhi, Hlo, Hb'. cbn [mbind option_bind].
    split; [done|]. split; [by rewrite <- Hl'|].
    split; [constructor; [lia|done]|].
    cbn [hexlify].
    replace ((16 * hi + lo) / 16)%Z with hi
      by (apply Z.div_unique with lo; lia).
    replace ((16 * hi + lo) mod 16)%Z with lo
      by (apply Z.mod_unique with hi; lia).
    by rewrite Chi, Clo, Hx'.
Qed.

Lemma length_concat_replicate {A} n (l : list A) :
  length (concat (replicate n l)) = n * length l.
Proof. induction n; simpl; [done|]. rewrite length_app. lia. Qed.

(** The packet of twelve upper-case hex digits. *)
Lemma create_magic_packet_clean mac :
  mac ≠ EmptyString →
  String.length (strip_separators mac) = 12 →
  all_chars is_hex (strip_separators mac) = true →
  ∃ mac_bytes,
    length mac_bytes = 6 ∧ Forall (λ b, (0 ≤ b < 256)%Z) mac_bytes ∧
    hexlify mac_bytes = PyStr.upper (strip_separators mac) ∧
    create_magic_packet (VStr mac)
    = Some (replicate 6 255%Z ++ concat (replicate 16 mac_bytes)).
Proof.
  intros Hne Hlen Hhex.
  destruct (fromhex_upper_hex 6 (PyStr.upper (strip_separators mac)))
    as (bytes & Hb & Hl & Hr & Hx).
  { by rewrite length_upper. }
  { by rewrite all_chars_upper. }
  exists bytes. repeat split; try done.
  unfold create_magic_packet. cbn [truthy].
  destruct mac; [done|]. cbn [PyStr.nonempty].
  rewrite length_upper, Hlen, all_chars_upper, Hhex. cbn [Nat.eqb andb].
  by rewrite Hb.
Qed.

(** X3.  For a MAC address of ASCII characters that, stripped of colons
    and dashes, is twelve hex digits of either case, the magic packet is six
    bytes 0xFF followed by sixteen copies of the six bytes the digits spell,
    102 bytes in all; for every other non-empty string of ASCII characters
    there is no packet. *)
Theorem magic_packet_layout (mac : string) :
  mac ≠ EmptyString →
  all_chars is_ascii_char mac = true →
  let digits := strip_separators mac in
  let well_formed := String.length digits = 12 ∧ all_chars is_hex digits = true in
  (well_formed →
     ∃ mac_bytes packet,
       create_magic_packet (VStr mac) = Some packet ∧
       packet = replicate 6 255%Z ++ concat (replicate 16 mac_bytes) ∧
       length mac_bytes = 6 ∧ length packet = 102 ∧
       Forall (λ b, (0 ≤ b < 256)%Z) packet ∧
       hexlify mac_bytes = PyStr.upper digits) ∧
  (¬ well_formed → create_magic_packet (VStr mac) = None).
Proof.
  intros Hne _ digits well_formed. split.
  - intros [Hlen Hhex].
    destruct (create_magic_packet_clean mac Hne Hlen Hhex)
      as (bytes & Hl & Hr & Hx & Hp).
    exists bytes, (replicate 6 255%Z ++ concat (replicate 16 bytes)).
    repeat split; try done.
    + rewrite length_app, length_replicate, length_concat_replicate. lia.
    + apply Forall_app. split.
      * apply Forall_replicate. lia.
      * apply Forall_concat, Forall_replicate, Hr.
  - intros Hnot. unfold create_magic_packet. cbn [truthy].
    destruct mac; [done|]. cbn [PyStr.nonempty].
    rewrite length_upper, all_chars_upper. fold digits.
    destruct (Nat.eqb_spec (String.length digits) 12) as [E|E]; [|done].
    destruct (all_chars is_hex digits) eqn:Hh; [|done].
    by destruct Hnot.
Qed.

Lemma magic_packet_layout_witness :
  (∃ mac_bytes packet,
     create_magic_packet (VStr "aa-bb-cc-00-11-22") = Some packet ∧
     packet = replicate 6 255%Z ++ concat (replicate 16 mac_bytes) ∧
     length mac_bytes = 6 ∧ length packet = 102 ∧
     Forall (λ b, (0 ≤ b < 256)%Z) packet ∧
     hexlify mac_bytes = "AABBCC001122") ∧
  create_magic_packet (VStr "aa-bb-cc-00-11") = None.
Proof.
  split.
  - destruct (magic_packet_layout "aa-bb-cc-00-11-22") as [H _];
      [discriminate|reflexivity|].
    apply H. by split.
  - destruct (magic_packet_layout "aa-bb-cc-00-11") as [_ H];
      [discriminate|reflexivity|].
    apply H. intros [Hlen _]. discriminate Hlen.
Defined.

(** X4.  Every MAC address the resolver returns makes a magic packet, and
    the packet repeats the six bytes that the address spells. *)
Theorem resolved_mac_wakes (w : world) (ip mac : string) :
  get_mac_address w ip = Some mac →
  ∃ mac_bytes,
    hexlify mac_bytes = strip_separators mac ∧
    create_magic_packet (VStr mac)
    = Some (replicate 6 255%Z ++ concat (replicate 16 mac_bytes)).
Proof.
  intros (text & m & Hm & ->)%get_mac_address_matched.
  destruct (search_mac_digits _ _ Hm) as [[Hhex _] Hne].
  rewrite normalize_mac_match_twelve by done.
  set (t := spec_twelve (mac_digits m)).
  assert (Hlen : String.length t = 12) by apply spec_twelve_length.
  assert (Hup : all_chars is_upper_hex t = true) by by apply spec_twelve_upper_hex.
  assert (Hplain : all_chars plain_char t = true)
    by (eapply all_chars_impl; [apply upper_hex_plain|done]).
  rewrite format_with_colons_pairs by done.
  destruct (create_magic_packet_clean (spec_colon_pairs t))
    as (bytes & _ & _ & Hx & Hp).
  - clear -Hlen. twelve_chars t Hlen. done.
  - by rewrite strip_colon_pairs.
  - rewrite strip_colon_pairs by done.
    eapply all_chars_impl; [|exact Hup].
    intros a Ha. by each_char a.
  - exists bytes. split; [|done].
    rewrite Hx, strip_colon_pairs by done. by apply upper_upper_hex.
Qed.

Lemma resolved_mac_wakes_witness :
  ∃ mac_bytes,
    hexlify mac_bytes = "003EE1B75754" ∧
    create_magic_packet (VStr "00:3E:E1:B7:57:54")
    = Some (replicate 6 255%Z ++ concat (replicate 16 mac_bytes)).
Proof.
  apply (resolved_mac_wakes (arp_world arp_line) "10.0.0.7" "00:3E:E1:B7:57:54").
  reflexivity.
Defined.

(** X5.  A device under whose "mac" there is nothing (the key is missing,
    or it holds [None] or an empty string) is not skipped: it is sent the
    packet of the broadcast address, 102 bytes 0xFF, on ports 7 and 9. *)
Theorem wake_without_mac (dev : device) (ip : value) :
  truthy (dict_get dev "mac") = false →
  dev !! "ip" = Some ip →
  send_magic_packet_to_device dev
  = Some [ {| target := ip; port := 7; payload := replicate 102 255%Z |};
           {| target := ip; port := 9; payload := replicate 102 255%Z |} ].
Proof.
  intros Hmac Hip. unfold send_magic_packet_to_device.
  replace (create_magic_packet (dict_get dev "mac")) with (Some (replicate 102 255%Z))
    by (unfold create_magic_packet; by rewrite Hmac).
  cbn. by rewrite Hip.
Qed.

Lemma wake_without_mac_witness :
  send_magic_packet_to_device nas_probe
  = Some [ {| target := VStr "192.168.1.5"; port := 7; payload := replicate 102 255%Z |};
           {| target := VStr "192.168.1.5"; port := 9; payload := replicate 102 255%Z |} ].
Proof. apply wake_without_mac; reflexivity. Defined.

(** ** Vendor lookup: the case of the address *)

Lemma upper_char_colon a : Ascii.eqb (PyStr.upper_char a) ":" = Ascii.eqb a ":".
Proof. by each_char a. Qed.

Lemma upper_char_idemp a : PyStr.upper_char (PyStr.upper_char a) = PyStr.upper_char a.
Proof. by each_char a. Qed.

Lemma upper_idemp s : PyStr.upper (PyStr.upper s) = PyStr.upper s.
Proof. induction s as [|a s IH]; simpl; [done|]. by rewrite upper_char_idemp, IH. Qed.

Lemma upper_rev_app s t :
  PyStr.upper (String.rev_app s t) = String.rev_app (PyStr.upper s) (PyStr.upper t).
Proof. revert t. induction s as [|a s IH]; intros t; simpl; [done|]. by rewrite IH. Qed.

Lemma upper_rev s : PyStr.upper (String.rev s) = String.rev (PyStr.upper s).
Proof. apply upper_rev_app. Qed.

Lemma split_go_upper cur s :
  PyStr.split_go ":" (PyStr.upper cur) (PyStr.upper s)
  = map PyStr.upper (PyStr.split_go ":" cur s).
Proof.
  revert cur. induction s as [|a s IH]; intros cur; simpl.
  - by rewrite upper_rev.
  - rewrite upper_char_colon. destruct (Ascii.eqb a ":").
    + simpl. by rewrite upper_rev, <- (IH "").
    + apply (IH (String a cur)).
Qed.

Lemma split_upper s :
  PyStr.split ":" (PyStr.upper s) = map PyStr.upper (PyStr.split ":" s).
Proof. apply (split_go_upper ""). Qed.

Lemma upper_join sep parts :
  PyStr.upper (PyStr.join sep parts)
  = PyStr.join (PyStr.upper sep) (map PyStr.upper parts).
Proof.
  unfold PyStr.join. induction parts as [|p parts IH]; simpl; [done|].
  destruct parts as [|q parts]; [done|].
  rewrite !upper_app, IH. done.
Qed.

Lemma nonempty_upper s : PyStr.nonempty (PyStr.upper s) = PyStr.nonempty s.
Proof. by destruct s. Qed.

Lemma get_mac_vendor_upper w mac :
  get_mac_vendor w (PyStr.upper mac) = get_mac_vendor w mac.
Proof.
  unfold get_mac_vendor, mac_prefix_of.
  rewrite nonempty_upper, split_upper, length_map.
  destruct (_ || _); [done|].
  replace (PyStr.upper (PyStr.join ":" (take 3 (map PyStr.upper (PyStr.split ":" mac)))))
    with (PyStr.upper (PyStr.join ":" (take 3 (PyStr.split ":" mac)))); [done|].
  change (map PyStr.upper) with (fmap (M:=list) PyStr.upper).
  rewrite <- fmap_take. change (fmap (M:=list) PyStr.upper) with (map PyStr.upper).
  rewrite !upper_join, map_map. f_equal.
  apply map_ext. intros p. symmetry. apply upper_idemp.
Qed.

(** X6.  The vendor lookup does not depend on the case of the letters of
    the address: two addresses that differ in case only get the same
    answer. *)
Theorem get_mac_vendor_ignores_case (w : world) (mac mac' : string) :
  PyStr.upper mac = PyStr.upper mac' →
  get_mac_vendor w mac = get_mac_vendor w mac'.
Proof.
  intros H. by rewrite <- (get_mac_vendor_upper w mac), H, get_mac_vendor_upper.
Qed.

Lemma get_mac_vendor_ignores_case_witness :
  get_mac_vendor (oui_world sample_oui_lines) "00:1a:2b:3c:4d:5e"
  = get_mac_vendor (oui_world sample_oui_lines) "00:1A:2B:3C:4D:5E".
Proof. apply get_mac_vendor_ignores_case. reflexivity. Defined.

(** ** Scan scheduler: the working list *)

(** The record a probe builds. *)
Lemma scan_ip_shape w known_devices ip dev :
  scan_ip w known_devices ip = Some dev →
  ∃ hostname mac status last_seen,
    dev = <["ip" := VStr ip]>
          (<["hostname" := hostname]>
          (<["mac" := mac]>
          (<["status" := VStr status]>
          (<["pingable" := VBool (String.eqb status "online")]>
          (<["last_seen" := last_seen]> ∅))))) ∧
    (is_responsive (check_device_status w ip) = true →
     status = check_device_status w ip ∧ last_seen = VNum (time_time w ip)).
Proof.
  unfold scan_ip. intros H. cbv zeta in H.
  apply bind_Some in H as (kd & _ & H).
  apply bind_Some in H as ([status hostname] & Hs & H).
  apply bind_Some in H as (mac & _ & H).
  injection H as <-. eexists hostname, mac, status, _. split; [reflexivity|].
  intros Hresp. rewrite Hresp in Hs.
  assert (status = check_device_status w ip) as ->; [|by rewrite Hresp].
  destruct (truthy_name _) as [h|]; [by injection Hs|].
  destruct kd as [kd|]; [|by injection Hs].
  apply bind_Some in Hs as (v & _ & Hs). by injection Hs.
Qed.

Lemma scan_ip_lookup w known_devices ip dev :
  scan_ip w known_devices ip = Some dev →
  dev !! "ip" = Some (VStr ip) ∧
  (∀ k, k ∉ probe_keys → k ≠ "ip" → dev !! k = None) ∧
  (∀ k, k ∈ probe_keys → is_Some (dev !! k)).
Proof.
  intros (hostname & mac & status & last_seen & -> & _)%scan_ip_shape.
  split; [by simplify_map_eq|]. split.
  - intros k Hk Hip. unfold probe_keys in Hk.
    rewrite !lookup_insert_ne; [done|..]; intros <-; try done; apply Hk; in_list.
  - intros k Hk. unfold probe_keys in Hk.
    repeat (apply elem_of_cons in Hk as [->|Hk]; [by simplify_map_eq|]).
    by apply elem_of_nil in Hk.
Qed.

Lemma eq_str_inv v s : eq_str v s = true → v = VStr s.
Proof. destruct v; try done. by intros ->%String.eqb_eq. Qed.

(** What [find_existing] finds. *)
Lemma find_existing_found l ip i :
  find_existing l ip = Some (Some i) →
  ∃ d, l !! i = Some (Dict d) ∧ d !! "ip" = Some (VStr ip) ∧
       ∀ j e, j < i → l !! j = Some e → ip_string e ≠ Some ip.
Proof.
  revert i. induction l as [|e l IH]; intros i; cbn [find_existing]; [done|].
  destruct (subscript e "ip") as [v|] eqn:Hv; [|done].
  destruct (eq_str v ip) eqn:Heq.
  - intros [= <-]. apply eq_str_inv in Heq as ->.
    destruct e as [d|]; [|done]. exists d. split; [done|]. split; [done|].
    intros j e' Hj. lia.
  - destruct (find_existing l ip) as [[i'|]|] eqn:Hf; try done.
    intros [= <-]. destruct (IH i' eq_refl) as (d & Hd & Hip & Hfirst).
    exists d. split; [done|]. split; [done|].
    intros [|j] e' Hj Hl.
    + injection Hl as <-. unfold ip_string. rewrite Hv.
      destruct v; try done. intros [= ->]. cbn in Heq. by rewrite String.eqb_refl in Heq.
    + apply (Hfirst j); [lia|done].
Qed.

Lemma find_existing_missing l ip :
  find_existing l ip = Some None → ip ∉ omap ip_string l.
Proof.
  induction l as [|e l IH]; cbn [find_existing]; [intros _; apply not_elem_of_nil|].
  destruct (subscript e "ip") as [v|] eqn:Hv; [|done].
  destruct (eq_str v ip) eqn:Heq; [done|].
  destruct (find_existing l ip) as [[i'|]|] eqn:Hf; try done.
  intros _. cbn [omap list_omap]. unfold ip_string at 1. rewrite Hv.
  destruct v; try by apply IH.
  apply not_elem_of_cons. split; [|by apply IH].
  intros ->. cbn in Heq. by rewrite String.eqb_refl in Heq.
Qed.

Lemma find_existing_total l ip :
  Forall (λ e, is_Some (subscript e "ip")) l → is_Some (find_existing l ip).
Proof.
  induction 1 as [|e l [v Hv] _ IH]; cbn [find_existing]; [done|].
  rewrite Hv. destruct (eq_str v ip); [done|].
  destruct IH as [r ->]. done.
Qed.

Lemma collect_collected live w known_devices st ip :
  collected w known_devices ip (devices st)
    (devices (collect live w known_devices st ip)).
Proof.
  unfold collect.
  destruct (result_times_out w ip); [constructor|].
  destruct (scan_ip w known_devices ip) as [dev|] eqn:Hdev; [|constructor].
  destruct (dev !! "status") as [status|] eqn:Hs; [|constructor].
  destruct (eq_str status "hidden") eqn:Hh; [constructor|].
  assert (Hhid : is_hidden (Dict dev) = false).
  { unfold is_hidden. cbn [subscript]. by rewrite Hs. }
  destruct (find_existing (devices st) ip) as [[i|]|] eqn:Hf; cbn [devices];
    [|by eapply collected_append|constructor].
  destruct (find_existing_found _ _ _ Hf) as (d & Hd & _).
  rewrite Hd. by eapply collected_update.
Qed.

Lemma kept_in_refl l : kept_in l l.
Proof. intros i e H. by exists e. Qed.

Lemma kept_in_trans l1 l2 l3 : kept_in l1 l2 → kept_in l2 l3 → kept_in l1 l3.
Proof.
  intros H12 H23 i e H.
  destruct (H12 i e H) as (e2 & H2 & Hn2 & Hk2).
  destruct (H23 i e2 H2) as (e3 & H3 & Hn3 & Hk3).
  exists e3. split; [done|]. split; [auto|].
  intros k Hk. by rewrite Hk3, Hk2.
Qed.

Lemma dict_update_keeps w known_devices ip dev d k :
  scan_ip w known_devices ip = Some dev →
  d !! "ip" = Some (VStr ip) →
  k ∉ probe_keys →
  dict_update d dev !! k = d !! k.
Proof.
  intros (Hip & Hnone & _)%scan_ip_lookup Hd Hk. unfold dict_update.
  destruct (decide (k = "ip")) as [->|Hne].
  - by rewrite (lookup_union_Some_l _ _ _ _ Hip).
  - by rewrite lookup_union_r by by apply Hnone.
Qed.

Lemma collected_kept_in w known_devices ip l l' :
  collected w known_devices ip l l' → kept_in l l'.
Proof.
  destruct 1 as [|i d dev Hdev _ Hf Hd|dev _ _ _].
  - apply kept_in_refl.
  - destruct (find_existing_found _ _ _ Hf) as (d' & Hd' & Hip & _).
    assert (d' = d) as -> by congruence.
    intros j e Hj. destruct (decide (j = i)) as [->|Hne].
    + assert (e = Dict d) as -> by congruence.
      exists (Dict (dict_update d dev)). split.
      * apply list_lookup_insert_eq. by eapply lookup_lt_Some.
      * split; [done|]. intros k Hk. cbn [subscript].
        by eapply dict_update_keeps.
    + exists e. by rewrite list_lookup_insert_ne.
  - intros j e Hj. exists e. split; [|done].
    apply lookup_app_l_Some, Hj.
Qed.

Section WorkingList.

Context (live : bool) (w : world) (known_devices : list entry).

(** A property of the working list that every turn of the collecting loop
    keeps holds when the loop over the chunks ends. *)
Lemma scan_chunks_invariant (P : list entry → Prop) idx chunks st :
  (∀ ip l l', collected w known_devices ip l l' → P l → P l') →
  P (devices st) →
  P (devices (scan_chunks live w known_devices idx chunks st).1).
Proof.
  intros Hstep. revert idx st.
  assert (Hfold : ∀ ips st, P (devices st) →
            P (devices (foldl (collect live w known_devices) st ips))).
  { induction ips as [|ip ips IH]; intros st H; [done|].
    cbn [foldl]. apply IH. eapply Hstep; [apply collect_collected|done]. }
  induction chunks as [|c chunks IH]; intros idx st H; [done|].
  cbn [scan_chunks]. destruct (pool_starts w idx); [|done].
  by apply IH, Hfold.
Qed.

End WorkingList.

(** X7.  A scan never drops, moves or replaces a record of the store it
    was seeded with: when the scan ends, each is still at its position in
    the working list, with the same address and the same value under every
    key other than the five a probe writes (hostname, mac, status, pingable,
    last_seen); the vendor, for one, stays. *)
Theorem scan_keeps_seeded_records (live : bool) (w : world) (info : interface_info)
    (known_devices : list entry) (host_ips : list string) :
  network_hosts w (subnet info) = Some host_ips →
  kept_in known_devices (devices (scan_run live w info known_devices).1).
Proof.
  intros Hn. unfold scan_run. rewrite Hn.
  apply (scan_chunks_invariant live w known_devices (kept_in known_devices)).
  - intros ip l l' Hc Hl. eapply kept_in_trans; [done|].
    by eapply collected_kept_in.
  - apply kept_in_refl.
Qed.

Lemma scan_keeps_seeded_records_witness :
  kept_in [Dict nas_record]
    (devices (scan_run true one_of_two lab_interface [Dict nas_record]).1).
Proof.
  apply (scan_keeps_seeded_records true one_of_two lab_interface
           [Dict nas_record] two_hosts).
  reflexivity.
Defined.

Lemma omap_insert_same {A B} (f : A → option B) (l : list A) i x y :
  l !! i = Some x → f y = f x → omap f (<[i:=y]> l) = omap f l.
Proof.
  revert i. induction l as [|a l IH]; intros [|i] Hi Hf; try done; simpl in *.
  - injection Hi as ->. by rewrite Hf.
  - specialize (IH i Hi Hf). unfold omap in IH. by rewrite IH.
Qed.

Lemma ip_string_probe w known_devices ip dev :
  scan_ip w known_devices ip = Some dev → ip_string (Dict dev) = Some ip.
Proof.
  intros (Hip & _)%scan_ip_lookup. unfold ip_string. cbn [subscript]. by rewrite Hip.
Qed.

Lemma ip_string_update w known_devices ip dev d :
  scan_ip w known_devices ip = Some dev →
  ip_string (Dict (dict_update d dev)) = Some ip.
Proof.
  intros (Hip & _)%scan_ip_lookup. unfold ip_string, dict_update. cbn [subscript].
  by rewrite (lookup_union_Some_l _ _ _ _ Hip).
Qed.

Lemma collected_distinct w known_devices ip l l' :
  collected w known_devices ip l l' →
  NoDup (omap ip_string l) → NoDup (omap ip_string l').
Proof.
  destruct 1 as [|i d dev Hdev _ Hf Hd|dev Hdev _ Hf]; [done|..]; intros Hnd.
  - rewrite (omap_insert_same _ _ _ _ _ Hd); [done|].
    rewrite (ip_string_update _ _ _ _ _ Hdev).
    destruct (find_existing_found _ _ _ Hf) as (d' & Hd' & Hip & _).
    assert (d' = d) as -> by congruence.
    unfold ip_string. cbn [subscript]. by rewrite Hip.
  - rewrite omap_app. cbn [omap list_omap].
    rewrite (ip_string_probe _ _ _ _ Hdev).
    apply NoDup_app. split; [done|]. split; [|apply NoDup_singleton].
    intros x Hx ->%list_elem_of_singleton.
    by apply (find_existing_missing _ _ Hf).
Qed.

(** X8.  A scan keeps the addresses of its working list distinct: when no
    two records of the store it is seeded with carry the same address, no
    two records of the list it builds do, however often a host is probed. *)
Theorem scan_keeps_addresses_distinct (live : bool) (w : world)
    (info : interface_info) (known_devices : list entry) :
  NoDup (omap ip_string known_devices) →
  NoDup (omap ip_string (devices (scan_run live w info known_devices).1)).
Proof.
  intros Hnd. unfold scan_run.
  destruct (network_hosts w (subnet info)) as [host_ips|]; [|constructor].
  apply (scan_chunks_invariant live w known_devices
           (λ l, NoDup (omap ip_string l))); [|done].
  intros ip l l'. apply collected_distinct.
Qed.

Lemma scan_keeps_addresses_distinct_witness :
  NoDup (omap ip_string
           (devices (scan_run true
                       (answering_world ["192.168.1.5"; "192.168.1.6"; "192.168.1.5"]
                          [("192.168.1.5", 80%Z); ("192.168.1.6", 22%Z)])
                       home_interface [Dict nas_record]).1)).
Proof.
  apply scan_keeps_addresses_distinct. vm_compute. apply NoDup_singleton.
Defined.

(** ** Scan scheduler: what a scan reports *)

Lemma scan_chunks_all_start live w known_devices idx chunks st :
  (∀ idx, pool_starts w idx = true) →
  scan_chunks live w known_devices idx chunks st
  = (foldl (collect live w known_devices) st (concat chunks), true).
Proof.
  intros Hp. revert idx st. induction chunks as [|c chunks IH]; intros idx st; [done|].
  cbn [scan_chunks concat]. by rewrite Hp, IH, foldl_app.
Qed.

Section Reported.

Context (live : bool) (w : world) (known_devices : list entry) (ip : string).
Hypothesis Hresp : is_responsive (check_device_status w ip) = true.

Lemma probe_reports dev :
  scan_ip w known_devices ip = Some dev →
  dev !! "ip" = Some (VStr ip) ∧
  dev !! "status" = Some (VStr (check_device_status w ip)) ∧
  dev !! "last_seen" = Some (VNum (time_time w ip)) ∧
  is_hidden (Dict dev) = false.
Proof.
  intros (hostname & mac & status & last_seen & -> & Hs)%scan_ip_shape.
  destruct (Hs Hresp) as [-> ->].
  unfold is_hidden. cbn [subscript]. simplify_map_eq.
  repeat split; try done. cbn [eq_str].
  unfold is_responsive in Hresp.
  destruct (String.eqb_spec (check_device_status w ip) "hidden") as [E|E]; [|done].
  by rewrite E in Hresp.
Qed.

Lemma update_reports d dev :
  scan_ip w known_devices ip = Some dev →
  dict_update d dev !! "ip" = Some (VStr ip) ∧
  dict_update d dev !! "status" = Some (VStr (check_device_status w ip)) ∧
  dict_update d dev !! "last_seen" = Some (VNum (time_time w ip)).
Proof.
  intros (Hi & Hs & Hl & _)%probe_reports. unfold dict_update.
  by rewrite (lookup_union_Some_l _ _ _ _ Hi), (lookup_union_Some_l _ _ _ _ Hs),
    (lookup_union_Some_l _ _ _ _ Hl).
Qed.

Lemma collected_reported ip' l l' :
  collected w known_devices ip' l l' → reported w ip l → reported w ip l'.
Proof.
  destruct 1 as [|j d' dev' Hdev' _ Hf Hd'|dev' _ _ _]; [done|..];
    intros (i & d & Hd & Hip & Hst & Hls).
  - destruct (decide (j = i)) as [->|Hne].
    + assert (d' = d) as -> by congruence.
      destruct (find_existing_found _ _ _ Hf) as (d'' & Hd'' & Hip' & _).
      assert (d'' = d) as -> by congruence.
      assert (ip' = ip) as -> by congruence.
      exists i, (dict_update d dev'). split.
      * apply list_lookup_insert_eq. by eapply lookup_lt_Some.
      * by apply update_reports.
    + exists i, d. by rewrite list_lookup_insert_ne.
  - exists i, d. split; [|done]. by apply lookup_app_l_Some.
Qed.

Lemma collected_has_ip ip' l l' :
  collected w known_devices ip' l l' →
  Forall (λ e, is_Some (subscript e "ip")) l →
  Forall (λ e, is_Some (subscript e "ip")) l'.
Proof.
  destruct 1 as [|j d' dev' Hdev' _ Hf Hd'|dev' Hdev' _ _]; [done|..]; intros Hall.
  - apply Forall_insert; [done|]. cbn [subscript]. unfold dict_update.
    apply scan_ip_lookup in Hdev' as (Hi & _).
    by rewrite (lookup_union_Some_l _ _ _ _ Hi).
  - apply Forall_app. split; [done|]. constructor; [|done]. cbn [subscript].
    apply scan_ip_lookup in Hdev' as (Hi & _). by rewrite Hi.
Qed.

Hypothesis Hout : result_times_out w ip = false.
Hypothesis Hkeys : forallb has_core_keys known_devices = true.

Lemma collect_reports st :
  Forall (λ e, is_Some (subscript e "ip")) (devices st) →
  reported w ip (devices (collect live w known_devices st ip)).
Proof.
  intros Hall. unfold collect. rewrite Hout.
  destruct (scan_ip_total w known_devices ip Hkeys) as [dev Hdev]. rewrite Hdev.
  destruct (probe_reports dev Hdev) as (Hi & Hs & Hl & Hh).
  rewrite Hs. unfold is_hidden in Hh. cbn [subscript] in Hh. rewrite Hs in Hh.
  rewrite Hh.
  destruct (find_existing_total (devices st) ip Hall) as [[j|] Hf]; rewrite Hf;
    cbn [devices].
  - destruct (find_existing_found _ _ _ Hf) as (d & Hd & _). rewrite Hd.
    exists j, (dict_update d dev). split.
    + apply list_lookup_insert_eq. by eapply lookup_lt_Some.
    + by apply update_reports.
  - exists (length (devices st)), dev. split; [|done].
    by rewrite lookup_app_r, Nat.sub_diag.
Qed.

Lemma foldl_collect_reports ips st :
  Forall (λ e, is_Some (subscript e "ip")) (devices st) →
  reported w ip (devices st) ∨ ip ∈ ips →
  reported w ip (devices (foldl (collect live w known_devices) st ips)).
Proof.
  revert st. induction ips as [|ip' ips IH]; intros st Hall Hor; cbn [foldl].
  - destruct Hor as [H|H]; [done|]. by apply elem_of_nil in H.
  - apply IH.
    + eapply collected_has_ip; [apply collect_collected|done].
    + destruct Hor as [H|H].
      * left. eapply collected_reported; [apply collect_collected|done].
      * apply elem_of_cons in H as [<-|H]; [|by right].
        left. by apply collect_reports.
Qed.

End Reported.

Lemma has_core_keys_ip known_devices :
  forallb has_core_keys known_devices = true →
  Forall (λ e, is_Some (subscript e "ip")) known_devices.
Proof.
  intros H. apply Forall_forall. intros e He%list_elem_of_In.
  rewrite forallb_forall in H. specialize (H e He).
  destruct e as [d|]; [|done]. cbn in H.
  apply andb_prop in H as [[Hi%bool_decide_eq_true _]%andb_prop _]. done.
Qed.

(** X9.  A host that answers is reported.  When the worker pools start,
    the task of the host finishes in time and the records of the store have
    the keys ip, hostname and mac, then the batch and the live scanner both
    return a record of every host of the network that answers the ping or
    one of the standby ports: it carries the host's address, the status the
    probe found and the time of the probe. *)
Theorem responsive_host_is_reported (w : world) (info : interface_info)
    (known_devices : list entry) (host_ips : list string) (ip : string) :
  network_hosts w (subnet info) = Some host_ips →
  (∀ idx, pool_starts w idx = true) →
  result_times_out w ip = false →
  forallb has_core_keys known_devices = true →
  ip ∈ host_ips →
  is_responsive (check_device_status w ip) = true →
  ∀ returned,
    returned ∈ [scan_network_for_devices w info known_devices;
                scan_network_for_devices_live w info known_devices] →
    ∃ d, Dict d ∈ returned ∧
         d !! "ip" = Some (VStr ip) ∧
         d !! "status" = Some (VStr (check_device_status w ip)) ∧
         d !! "last_seen" = Some (VNum (time_time w ip)).
Proof.
  intros Hn Hp Hout Hkeys Hin Hresp.
  assert (H : ∀ live, ∃ d,
            Dict d ∈ scan_result (scan_run live w info known_devices) ∧
            d !! "ip" = Some (VStr ip) ∧
            d !! "status" = Some (VStr (check_device_status w ip)) ∧
            d !! "last_seen" = Some (VNum (time_time w ip))).
  { intros live. unfold scan_run. rewrite Hn, scan_chunks_all_start by done.
    unfold scan_result. cbn [fst snd]. rewrite chunks_of_concat.
    destruct (foldl_collect_reports live w known_devices ip Hresp Hout Hkeys
                host_ips {| devices := known_devices; delivered := [] |})
      as (i & d & Hd & Hrest).
    - by apply has_core_keys_ip.
    - by right.
    - exists d. split; [|done]. by eapply list_elem_of_lookup_2. }
  intros returned Hr.
  apply elem_of_cons in Hr as [->|Hr]; [apply (H false)|].
  apply list_elem_of_singleton in Hr as ->. apply (H true).
Qed.

Lemma responsive_host_is_reported_witness :
  ∃ d, Dict d ∈ scan_network_for_devices_live one_of_two lab_interface [] ∧
       d !! "ip" = Some (VStr "10.0.0.1") ∧
       d !! "status" = Some (VStr "standby") ∧
       d !! "last_seen" = Some (VNum 1700000000).
Proof.
  apply (responsive_host_is_reported one_of_two lab_interface [] two_hosts "10.0.0.1");
    try reflexivity.
  - apply list_elem_of_here.
  - apply list_elem_of_further, list_elem_of_here.
Defined.

(** ** Scan scheduler: what a scan adds *)

Lemma probe_answered w known_devices ip dev :
  scan_ip w known_devices ip = Some dev →
  is_responsive (check_device_status w ip) = true →
  answered w (Dict dev) ∧ ∀ d, answered w (Dict (dict_update d dev)).
Proof.
  intros (hostname & mac & status & last_seen & -> & Hs)%scan_ip_shape Hresp.
  destruct (Hs Hresp) as [-> ->].
  split; [|intros d]; eexists _, ip; (split; [reflexivity|]);
    unfold dict_update; rewrite ?lookup_union_l' by (by simplify_map_eq);
    by simplify_map_eq.
Qed.

(** A probe of an address the store has no record of either finds the host
    responsive or is hidden. *)
Lemma unrecorded_probe w known_devices ip dev :
  scan_ip w known_devices ip = Some dev →
  is_hidden (Dict dev) = false →
  recorded known_devices ip = false →
  is_responsive (check_device_status w ip) = true.
Proof.
  intros Hs%scan_ip_status Hh Hr. rewrite Hr in Hs.
  unfold is_hidden in Hh. cbn [subscript] in Hh. rewrite Hs in Hh. cbn [eq_str] in Hh.
  rewrite check_device_status_spec.
  unfold spec_status in *. destruct (ping_host w ip); [done|].
  destruct (existsb _ _); [done|]. done.
Qed.

Lemma recorded_kept known_devices l ip :
  kept_in known_devices l →
  recorded known_devices ip = true →
  ∃ m e, m < length known_devices ∧ l !! m = Some e ∧ ip_string e = Some ip.
Proof.
  intros Hkept (e & He & Hip)%existsb_exists.
  apply list_elem_of_In, list_elem_of_lookup in He as [m Hm].
  destruct (Hkept m e Hm) as (e' & He' & _ & Hk).
  exists m, e'. split; [by eapply lookup_lt_Some|]. split; [done|].
  unfold ip_string. rewrite (Hk "ip").
  - destruct (subscript e "ip") as [v|]; [|done].
    by apply eq_str_inv in Hip as ->.
  - unfold probe_keys. intros H.
    repeat (apply elem_of_cons in H as [H|H]; [done|]). by apply elem_of_nil in H.
Qed.

Lemma collected_added w known_devices ip l l' :
  collected w known_devices ip l l' →
  kept_in known_devices l →
  (∀ i e, length known_devices ≤ i → l !! i = Some e → answered w e) →
  ∀ i e, length known_devices ≤ i → l' !! i = Some e → answered w e.
Proof.
  destruct 1 as [|j d dev Hdev Hhid Hf Hd|dev Hdev Hhid Hf]; [done|..];
    intros Hkept Hadded i e Hi He.
  - destruct (decide (i = j)) as [->|Hne]; [|rewrite list_lookup_insert_ne in He by done; eauto].
    rewrite list_lookup_insert_eq in He by by eapply lookup_lt_Some.
    injection He as <-.
    apply (probe_answered w known_devices ip dev Hdev).
    apply (unrecorded_probe w known_devices ip dev Hdev Hhid).
    apply not_true_is_false. intros (m & e' & Hm & He' & Hip)%(recorded_kept _ l); [|done].
    destruct (find_existing_found _ _ _ Hf) as (_ & _ & _ & Hfirst).
    apply (Hfirst m e'); [lia|done|done].
  - apply lookup_app_Some in He as [He|[Hlen He]]; [eauto|].
    destruct (i - length l) as [|k] eqn:Hk; [|done].
    injection He as <-.
    apply (probe_answered w known_devices ip dev Hdev).
    apply (unrecorded_probe w known_devices ip dev Hdev Hhid).
    apply not_true_is_false. intros (m & e' & Hm & He' & Hip)%(recorded_kept _ l); [|done].
    apply (find_existing_missing _ _ Hf).
    apply list_elem_of_omap. exists e'. split; [|done]. by eapply list_elem_of_lookup_2.
Qed.

Lemma scan_run_added live w info known_devices i e :
  length known_devices ≤ i →
  devices (scan_run live w info known_devices).1 !! i = Some e →
  answered w e.
Proof.
  unfold scan_run.
  destruct (network_hosts w (subnet info)) as [host_ips|]; [|done].
  revert i e.
  apply (scan_chunks_invariant live w known_devices
           (λ l, kept_in known_devices l ∧
                 ∀ i e, length known_devices ≤ i → l !! i = Some e → answered w e)).
  - intros ip l l' Hc [Hkept Hadded]. split.
    + eapply kept_in_trans; [done|]. by eapply collected_kept_in.
    + by eapply collected_added.
  - split; [apply kept_in_refl|]. intros i e Hi He. cbn [devices] in He.
    apply lookup_lt_Some in He. lia.
Qed.

(** X10.  A scan adds only hosts that answered.  In what the batch and
    the live scanner return, every record after those of the store is of a
    host that answered the ping or a standby port: its status is online or
    standby, as the probe found it, it is pingable exactly when online, and
    its time stamp is the time of the probe.  An offline record can only be
    one the store already had. *)
Theorem scan_adds_only_answering_hosts (w : world) (info : interface_info)
    (known_devices : list entry) :
  Forall (answered w)
    (drop (length known_devices) (scan_network_for_devices w info known_devices)) ∧
  Forall (answered w)
    (drop (length known_devices) (scan_network_for_devices_live w info known_devices)).
Proof.
  assert (H : ∀ live, Forall (answered w)
            (drop (length known_devices)
               (scan_result (scan_run live w info known_devices)))).
  { intros live. unfold scan_result.
    destruct (scan_run live w info known_devices).2 eqn:Hok;
      [|by rewrite drop_nil].
    apply Forall_lookup_2. intros i e He. rewrite lookup_drop in He.
    eapply (scan_run_added live); [|done]. lia. }
  split; [apply (H false)|apply (H true)].
Qed.

(** ** Known-device store: rewriting *)

(** The record the store keeps of a device, written out. *)
Lemma known_record_shape w dev r :
  known_record w dev = Some (Some r) →
  ∃ ip hostname mac last_seen status,
    eq_str status "hidden" = false ∧
    let base : device :=
      <["ip" := ip]> (<["hostname" := hostname]> (<["mac" := mac]>
      (<["last_seen" := last_seen]> (<["status" := status]> ∅)))) in
    r = (if truthy mac then
           match truthy_name (get_mac_vendor_of w mac) with
           | Some vendor =>
               if negb (String.eqb vendor "Unknown")
               then <["vendor" := VStr vendor]> base else base
           | None => base
           end
         else base).
Proof.
  unfold known_record. intros H.
  apply bind_Some in H as (status & _ & H).
  destruct (eq_str status "hidden") eqn:Hh; [done|].
  apply bind_Some in H as (ip & _ & H).
  apply bind_Some in H as (hostname & _ & H).
  apply bind_Some in H as (mac & _ & H).
  injection H as <-. by eexists ip, hostname, mac, _, status.
Qed.

Lemma truthy_name_inv r name :
  truthy_name r = Some name → r = Some name ∧ name ≠ EmptyString.
Proof.
  destruct r as [n|]; [|done]. cbn. destruct n; [done|]. by intros [= <-].
Qed.

(** A stored record is stored again as it is. *)
Lemma known_record_again w dev r :
  known_record w dev = Some (Some r) → known_record w (Dict r) = Some (Some r).
Proof.
  intros (ip & hostname & mac & last_seen & status & Hh & ->)%known_record_shape.
  cbv zeta.
  assert (Hbase : ∀ r' : device,
            r' !! "status" = Some status → r' !! "ip" = Some ip →
            r' !! "hostname" = Some hostname → r' !! "mac" = Some mac →
            r' !! "last_seen" = Some last_seen →
            known_record w (Dict r') =
            Some (Some
              (let base : device :=
                 <["ip" := ip]> (<["hostname" := hostname]> (<["mac" := mac]>
                 (<["last_seen" := last_seen]> (<["status" := status]> ∅)))) in
               if truthy mac then
                 match truthy_name (get_mac_vendor_of w mac) with
                 | Some vendor =>
                     if negb (String.eqb vendor "Unknown")
                     then <["vendor" := VStr vendor]> base else base
                 | None => base
                 end
               else base))).
  { intros r' Hs Hi Hn Hm Hl. unfold known_record, dict_get_or. cbn [subscript].
    rewrite Hs. cbn [mbind option_bind]. rewrite Hh, Hi, Hn, Hm, Hl.
    cbn [mbind option_bind default from_option id]. done. }
  destruct (truthy mac) eqn:Ht.
  - destruct (truthy_name (get_mac_vendor_of w mac)) as [vendor|] eqn:Hv.
    + destruct (negb (String.eqb vendor "Unknown")) eqn:Hu.
      * rewrite (Hbase _) by by simplify_map_eq. done.
      * rewrite (Hbase _) by by simplify_map_eq. done.
    + rewrite (Hbase _) by by simplify_map_eq. done.
  - rewrite (Hbase _) by by simplify_map_eq. done.
Qed.

Lemma known_records_again w devs :
  known_records w (known_records w devs).1 = ((known_records w devs).1, true).
Proof.
  induction devs as [|dev devs IH]; cbn [known_records]; [done|].
  destruct (known_record w dev) as [[r|]|] eqn:Hr; [|done|done].
  destruct (known_records w devs) as [records ok]. cbn [fst] in *.
  cbn [known_records]. by rewrite (known_record_again _ _ _ Hr), IH.
Qed.

(** X11.  Rewriting the store from its own records changes nothing.  When
    [update_known_devices] is given the list it has just written for an
    interface, it runs to its end and leaves the store exactly as it was:
    every stored record is stored again as it is, the recomputed vendor
    included. *)
Theorem update_known_devices_idempotent (w : world) (known : store)
    (interface_name : string) (devs : list entry) :
  let written := (update_known_devices w known interface_name devs).1 in
  update_known_devices w written interface_name
    (default [] (written !! interface_name))
  = (written, true).
Proof.
  cbv zeta. unfold update_known_devices.
  pose proof (known_records_again w devs) as H.
  destruct (known_records w devs) as [records ok]. cbn [fst] in *.
  rewrite lookup_insert_eq. cbn [default from_option id]. rewrite H.
  by rewrite insert_insert_eq.
Qed.

Lemma known_record_stored_shape w dev r :
  known_record w dev = Some (Some r) → stored_shape (Dict r).
Proof.
  intros (ip & hostname & mac & last_seen & status & Hh & ->)%known_record_shape.
  cbv zeta.
  set (base := <["ip" := ip]> _).
  assert (Hfive : ∀ k, k ∈ ["ip"; "hostname"; "mac"; "last_seen"; "status"] →
                       is_Some (base !! k)).
  { intros k Hk. subst base.
    repeat (apply elem_of_cons in Hk as [->|Hk]; [by simplify_map_eq|]).
    by apply elem_of_nil in Hk. }
  assert (Honly : ∀ k, is_Some (base !! k) → k ∈ stored_keys).
  { intros k [v Hk]. subst base. unfold stored_keys.
    repeat (apply lookup_insert_Some in Hk as [[<- _]|[_ Hk]]; [in_list|]).
    by rewrite lookup_empty in Hk. }
  assert (Hnov : base !! "vendor" = None) by (subst base; by simplify_map_eq).
  assert (Hplain : stored_shape (Dict base)).
  { exists base. split; [done|]. split; [done|]. split; [done|].
    intros v Hv. congruence. }
  destruct (truthy mac); [|done].
  destruct (truthy_name (get_mac_vendor_of w mac)) as [vendor|] eqn:Hv; [|done].
  destruct (String.eqb_spec vendor "Unknown") as [E|E]; [done|]. cbn [negb].
  apply truthy_name_inv in Hv as [_ Hne].
  exists (<["vendor" := VStr vendor]> base). split; [done|].
  split; [|split].
  - intros k Hk. destruct (decide (k = "vendor")) as [->|Hkv].
    + by rewrite lookup_insert_eq.
    + rewrite lookup_insert_ne by done. by apply Hfive.
  - intros k Hk. destruct (decide (k = "vendor")) as [->|Hkv].
    + unfold stored_keys. in_list.
    + rewrite lookup_insert_ne in Hk by done. by apply Honly.
  - intros v. rewrite lookup_insert_eq. intros [= <-]. by exists vendor.
Qed.

Lemma known_records_stored_shape w devs :
  Forall stored_shape (known_records w devs).1.
Proof.
  induction devs as [|dev devs IH]; cbn [known_records]; [constructor|].
  destruct (known_record w dev) as [[r|]|] eqn:Hr; [| done | constructor].
  destruct (known_records w devs) as [records ok]. cbn [fst] in *.
  constructor; [|done]. by eapply known_record_stored_shape.
Qed.

Lemma stored_shape_core_keys l :
  Forall stored_shape l → forallb has_core_keys l = true.
Proof.
  induction 1 as [|e l (r & -> & Hfive & _) _ IH]; [done|].
  cbn [forallb has_core_keys]. rewrite IH, andb_true_r.
  rewrite !bool_decide_eq_true_2; [done|apply Hfive..]; in_list.
Qed.

(** X12.  The store the engine writes is one its scanners can read.  Every
    record [update_known_devices] stores has the keys ip, hostname, mac,
    last_seen and status, no key besides these and vendor (so that neither
    pingable nor the network context is persisted), and a vendor only as a
    non-empty string other than "Unknown".  A probe that is given these
    records therefore never fails on them, whatever the address. *)
Theorem stored_records_are_well_formed (w : world) (known : store)
    (interface_name : string) (devs : list entry) :
  let records :=
    default [] ((update_known_devices w known interface_name devs).1
                  !! interface_name) in
  Forall stored_shape records ∧
  ∀ w' ip, is_Some (scan_ip w' records ip).
Proof.
  cbv zeta. unfold update_known_devices.
  pose proof (known_records_stored_shape w devs) as H.
  destruct (known_records w devs) as [records ok]. cbn [fst] in *.
  rewrite lookup_insert_eq. cbn [default from_option id].
  split; [done|]. intros w' ip. by apply scan_ip_total, stored_shape_core_keys.
Qed.

(** ** Known-device merge: the groups *)

Lemma validate_context_ip info key m : validate_context info key m !! "ip" = m !! "ip".
Proof.
  unfold validate_context.
  destruct (negb (String.eqb key (subnet info))); [|by simplify_map_eq].
  destruct (negb (truthy _)); by simplify_map_eq.
Qed.

Lemma merge_stored_ip d sd : merge_stored d sd !! "ip" = d !! "ip".
Proof.
  apply merge_stored_other. rewrite !not_elem_of_cons.
  repeat split; try discriminate. apply not_elem_of_nil.
Qed.

(** What a turn of the first loop emits. *)
Lemma merge_device_emit_inv info known_devices dev key m :
  merge_device info known_devices dev = Emit key m →
  ∃ ip, address_of dev = Some ip ∧ key = network_key_of info ip ∧
        m !! "ip" = Some (VStr ip).
Proof.
  unfold merge_device, address_of, dict_get. destruct dev as [d|]; [|done].
  destruct (d !! "ip") as [v|] eqn:Hv; cbn [default from_option id]; [|done].
  destruct (truthy v) eqn:Ht; [|done]. cbn [negb].
  destruct v as [| | |ip|]; try done. cbn [truthy] in Ht. rewrite Ht.
  intros [= <- <-]. exists ip. split; [done|]. split; [done|].
  by rewrite validate_context_ip, merge_stored_ip.
Qed.

(** What a turn of the second loop emits, and when it emits nothing. *)
Lemma add_offline_emit_inv info g known key m :
  add_offline info g known = Emit key m →
  ∃ k ip, known = Dict k ∧ address_of known = Some ip ∧
          key = network_key_of info ip ∧ m = offline_copy k ∧
          Some (VStr ip) ∉ group_addresses g key.
Proof.
  unfold add_offline, address_of, dict_get. destruct known as [k|]; [|done].
  destruct (k !! "ip") as [v|] eqn:Hv; cbn [default from_option id]; [|done].
  destruct (truthy v) eqn:Ht; [|done]. cbn [negb].
  destruct v as [| | |ip|]; try done. cbn [truthy] in Ht. rewrite Ht.
  destruct (existsb _ _) eqn:Hex; [done|]. cbn [negb].
  intros [= <- <-]. exists k, ip. repeat split; try done.
  unfold group_addresses. intros (x & Hx & Hin)%list_elem_of_fmap.
  apply not_true_iff_false in Hex. apply Hex, existsb_exists.
  exists x. split; [by apply list_elem_of_In|]. by apply bool_decide_eq_true_2.
Qed.

Lemma add_offline_continue_inv info g k ip :
  add_offline info g (Dict k) = Continue →
  address_of (Dict k) = Some ip →
  Some (VStr ip) ∈ group_addresses g (network_key_of info ip).
Proof.
  intros Hc Ha. destruct (address_of_inv _ _ Ha) as [Hd Hne].
  unfold add_offline, dict_get in Hc. rewrite Hd in Hc.
  cbn [default from_option id truthy] in Hc.
  apply nonempty_true in Hne. rewrite Hne in Hc. cbn [negb] in Hc.
  destruct (existsb _ _) eqn:Hex; [|done].
  apply existsb_exists in Hex as (x & Hx%list_elem_of_In & Hip%bool_decide_eq_true).
  unfold group_addresses. apply list_elem_of_fmap. by exists x.
Qed.

Lemma offline_copy_ip k : offline_copy k !! "ip" = k !! "ip".
Proof. unfold offline_copy. by simplify_map_eq. Qed.

Lemma group_addresses_append key m (g : groups) k :
  group_addresses (group_append key m g) k =
  if decide (k = key) then group_addresses g k ++ [m !! "ip"] else group_addresses g k.
Proof.
  unfold group_addresses. rewrite group_append_lookup.
  destruct (decide _); [|done]. by rewrite fmap_app.
Qed.

Section Groups.

Context (info : interface_info).

Lemma well_grouped_append ip (m : device) (g : groups) :
  m !! "ip" = Some (VStr ip) → ip ≠ EmptyString →
  well_grouped info g → well_grouped info (group_append (network_key_of info ip) m g).
Proof.
  intros Hm Hne Hg key v. rewrite group_addresses_append.
  destruct (decide _) as [->|]; [|apply Hg].
  intros [Hv|Hv%list_elem_of_singleton]%elem_of_app; [by apply Hg|].
  exists ip. by rewrite Hv, Hm.
Qed.

Lemma address_of_nonempty e ip : address_of e = Some ip → ip ≠ EmptyString.
Proof. destruct e as [d|]; [|done]. by intros [_ ?]%address_of_inv. Qed.

Lemma merge_devices_well_grouped known_devices devs (g g' : groups) :
  merge_devices info known_devices devs g = Some g' →
  well_grouped info g → well_grouped info g'.
Proof.
  revert g. induction devs as [|dev devs IH]; intros g; cbn [merge_devices].
  - by intros [= <-].
  - destruct (merge_device info known_devices dev) as [key m| |] eqn:Hm; [| |done].
    + apply merge_device_emit_inv in Hm as (ip & Ha & -> & Hip).
      intros Hg' Hg. apply (IH _ Hg').
      apply well_grouped_append; [done| |done]. by eapply address_of_nonempty.
    + apply IH.
Qed.

Lemma add_offline_devices_well_grouped known_devices (g g' : groups) :
  add_offline_devices info known_devices g = Some g' →
  well_grouped info g → well_grouped info g'.
Proof.
  revert g. induction known_devices as [|kn known IH]; intros g;
    cbn [add_offline_devices].
  - by intros [= <-].
  - destruct (add_offline info g kn) as [key m| |] eqn:Hm; [| |done].
    + apply add_offline_emit_inv in Hm as (k & ip & -> & Ha & -> & -> & _).
      intros Hg' Hg. apply (IH _ Hg').
      apply well_grouped_append; [|by eapply address_of_nonempty|done].
      rewrite offline_copy_ip. by apply address_of_inv.
    + apply IH.
Qed.

Lemma distinct_append key (m : device) (g : groups) :
  m !! "ip" ∉ group_addresses g key →
  distinct_in_groups g → distinct_in_groups (group_append key m g).
Proof.
  intros Hm Hg k. rewrite group_addresses_append.
  destruct (decide _) as [->|]; [|apply Hg].
  apply NoDup_app. split; [apply Hg|]. split; [|apply NoDup_singleton].
  by intros x Hx ->%list_elem_of_singleton.
Qed.

Lemma merge_devices_distinct known_devices devs (g g' : groups) :
  merge_devices info known_devices devs g = Some g' →
  NoDup (omap address_of devs) →
  (∀ key ip, Some (VStr ip) ∈ group_addresses g key → ip ∉ omap address_of devs) →
  distinct_in_groups g → distinct_in_groups g'.
Proof.
  revert g. induction devs as [|dev devs IH]; intros g; cbn [merge_devices].
  - by intros [= <-].
  - destruct (merge_device info known_devices dev) as [key m| |] eqn:Hm; [| |done].
    + apply merge_device_emit_inv in Hm as (ip & Ha & -> & Hip).
      cbn [omap list_omap]. rewrite Ha.
      intros Hg' [Hnew Hnd]%NoDup_cons Hseen Hg. apply (IH _ Hg' Hnd).
      * intros key ip'. rewrite group_addresses_append.
        destruct (decide _) as [->|].
        -- intros [Hin|Hin%list_elem_of_singleton]%elem_of_app.
           ++ intros Hin'. apply (Hseen _ _ Hin). by right.
           ++ rewrite Hip in Hin. by injection Hin as ->.
        -- intros Hin Hin'. apply (Hseen _ _ Hin). by right.
      * apply distinct_append; [|done]. rewrite Hip.
        intros Hin. apply (Hseen _ _ Hin). by left.
    + intros Hg' Hnd Hseen. apply (IH _ Hg').
      * cbn [omap list_omap] in Hnd. destruct (address_of dev); [|done].
        by apply NoDup_cons in Hnd as [_ ?].
      * intros key ip Hin Hin'. apply (Hseen _ _ Hin).
        cbn [omap list_omap]. destruct (address_of dev); [by right|done].
Qed.

Lemma add_offline_devices_distinct known_devices (g g' : groups) :
  add_offline_devices info known_devices g = Some g' →
  distinct_in_groups g → distinct_in_groups g'.
Proof.
  revert g. induction known_devices as [|kn known IH]; intros g;
    cbn [add_offline_devices].
  - by intros [= <-].
  - destruct (add_offline info g kn) as [key m| |] eqn:Hm; [| |done].
    + apply add_offline_emit_inv in Hm as (k & ip & -> & Ha & -> & -> & Hnew).
      intros Hg' Hg. apply (IH _ Hg').
      apply distinct_append; [|done].
      rewrite offline_copy_ip. by destruct (address_of_inv _ _ Ha) as [-> _].
    + apply IH.
Qed.

End Groups.

Lemma well_grouped_empty info : well_grouped info ∅.
Proof.
  intros key v. unfold group_addresses. rewrite lookup_empty.
  by intros ?%elem_of_nil.
Qed.

(** X13.  The merge files every record under the network of its address:
    a record of a group has a non-empty string for an address, and the
    group's key is the network key of that address (one of the three fixed
    networks, or else the subnet of the interface). *)
Theorem merged_records_are_filed_by_address (info : interface_info)
    (devs known_devices : list entry) (g : groups) (key : string) (m : device) :
  merge_known_devices info devs known_devices = Some g →
  m ∈ default [] (g !! key) →
  ∃ ip, m !! "ip" = Some (VStr ip) ∧ ip ≠ EmptyString ∧
        network_key_of info ip = key.
Proof.
  unfold merge_known_devices.
  destruct (merge_devices info known_devices devs ∅) as [g1|] eqn:H1; [|done].
  cbn [mbind option_bind]. intros H2 Hm.
  assert (Hg : well_grouped info g).
  { eapply add_offline_devices_well_grouped; [done|].
    eapply merge_devices_well_grouped; [done|]. apply well_grouped_empty. }
  destruct (Hg key (m !! "ip")) as (ip & Hip & Hne & Hk).
  - unfold group_addresses. apply list_elem_of_fmap. by exists m.
  - by exists ip.
Qed.

Lemma merged_records_are_filed_by_address_witness :
  ∃ ip, campus_record !! "ip" = Some (VStr ip) ∧ ip ≠ EmptyString ∧
        network_key_of office_interface ip = "134.124.230.0/24".
Proof.
  apply (merged_records_are_filed_by_address office_interface []
           [Dict campus_record]
           {["134.124.230.0/24" := [offline_copy campus_record]]}
           "134.124.230.0/24" (offline_copy campus_record)).
  - reflexivity.
  - rewrite lookup_singleton_eq. apply list_elem_of_here.
Defined.

(** X14.  The merge shows no address twice.  When the scanned devices
    have distinct addresses, no group of the merge holds two records with
    the same address, however many records of the store carry it. *)
Theorem merged_addresses_are_distinct (info : interface_info)
    (devs known_devices : list entry) (g : groups) :
  NoDup (omap address_of devs) →
  merge_known_devices info devs known_devices = Some g →
  ∀ key, NoDup (group_addresses g key).
Proof.
  intros Hnd. unfold merge_known_devices.
  destruct (merge_devices info known_devices devs ∅) as [g1|] eqn:H1; [|done].
  cbn [mbind option_bind]. intros H2.
  eapply add_offline_devices_distinct; [done|].
  eapply merge_devices_distinct; [done|done| |].
  - intros key ip. unfold group_addresses. rewrite lookup_empty.
    by intros ?%elem_of_nil.
  - intros key. unfold group_addresses. rewrite lookup_empty. constructor.
Qed.

Lemma merged_addresses_are_distinct_witness :
  ∃ g, merge_known_devices home_interface [Dict nas_probe]
         [Dict nas_record; Dict nas_record] = Some g ∧
       NoDup (group_addresses g "192.168.1.0/24").
Proof.
  eexists. split; [reflexivity|].
  eapply (merged_addresses_are_distinct home_interface [Dict nas_probe]
            [Dict nas_record; Dict nas_record]).
  - cbn. apply NoDup_singleton.
  - reflexivity.
Defined.

(** ** Known-device merge: devices the scan did not find *)

Section Absent.

Context (info : interface_info) (known_all : list entry) (ip : string).

Lemma merge_devices_absent known_devices devs (g g' : groups) :
  merge_devices info known_devices devs g = Some g' →
  (∀ e, e ∈ devs → address_of e ≠ Some ip) →
  absent info ip g → absent info ip g'.
Proof.
  revert g. induction devs as [|dev devs IH]; intros g; cbn [merge_devices].
  - by intros [= <-].
  - intros Hg' Hdevs Hg.
    assert (Hrest : ∀ e, e ∈ devs → address_of e ≠ Some ip)
      by (intros e He; apply Hdevs; by right).
    destruct (merge_device info known_devices dev) as [key' m| |] eqn:Hm; [| |done].
    + apply merge_device_emit_inv in Hm as (ip' & Ha & -> & Hip).
      apply (IH _ Hg' Hrest). unfold absent. rewrite group_addresses_append.
      destruct (decide _) as [Hk|]; [|done].
      intros [Hin|Hin%list_elem_of_singleton]%elem_of_app; [done|].
      rewrite Hip in Hin. injection Hin as ->.
      by apply (Hdevs dev); [left|].
    + by apply (IH _ Hg' Hrest).
Qed.

Lemma shown_offline_append key' (m' : device) (g : groups) :
  m' !! "ip" ≠ Some (VStr ip) →
  shown_offline info known_all ip g → shown_offline info known_all ip (group_append key' m' g).
Proof.
  intros Hm' (k0 & Hk0 & Ha & Hin & Huniq). exists k0.
  split; [done|]. split; [done|]. split; [by apply group_append_keeps|].
  intros m. rewrite group_append_lookup. destruct (decide _); [|apply Huniq].
  intros [Hm|Hm%list_elem_of_singleton]%elem_of_app; [by apply Huniq|].
  by subst m.
Qed.

Lemma shown_offline_not_absent g : shown_offline info known_all ip g → ¬ absent info ip g.
Proof.
  intros (k0 & _ & Ha & Hin & _) Habs. apply Habs.
  unfold group_addresses. apply list_elem_of_fmap. exists (offline_copy k0).
  split; [|done]. rewrite offline_copy_ip. by destruct (address_of_inv _ _ Ha) as [-> _].
Qed.

Lemma add_offline_devices_shown l (g g' : groups) :
  add_offline_devices info l g = Some g' →
  l ⊆ known_all →
  absent info ip g ∨ shown_offline info known_all ip g →
  (absent info ip g' ∨ shown_offline info known_all ip g') ∧
  (shown_offline info known_all ip g → shown_offline info known_all ip g') ∧
  ((∃ k, Dict k ∈ l ∧ address_of (Dict k) = Some ip) → shown_offline info known_all ip g').
Proof.
  revert g. induction l as [|kn l IH]; intros g; cbn [add_offline_devices].
  - intros [= <-] _ Hg. split; [done|]. split; [done|].
    by intros (k & ?%elem_of_nil & _).
  - intros Hg' Hsub Hg.
    assert (Hl : l ⊆ known_all) by (intros x Hx; apply Hsub; by right).
    assert (Hkn : kn ∈ known_all) by (apply Hsub; by left).
    destruct (add_offline info g kn) as [key' m'| |] eqn:Hm; [| |done].
    + apply add_offline_emit_inv in Hm as (k' & ip' & -> & Ha & -> & -> & Hnew).
      destruct (decide (ip' = ip)) as [->|Hne].
      * assert (Habs : absent info ip g).
        { destruct Hg as [Habs|Hs]; [done|].
          by destruct (shown_offline_not_absent g Hs). }
        assert (Hs : shown_offline info known_all ip (group_append (network_key_of info ip)
                                      (offline_copy k') g)).
        { exists k'. split; [done|]. split; [done|].
          split; [apply group_append_holds|].
          intros m. rewrite group_append_lookup, decide_True by done.
          intros [Hin|Hin%list_elem_of_singleton]%elem_of_app; [|done].
          intros Hip. destruct Habs. unfold group_addresses.
          apply list_elem_of_fmap. by exists m. }
        destruct (IH _ Hg' Hl (or_intror Hs)) as (Hor & Hkeep & Hex).
        split; [by right; apply Hkeep|]. split; [|by intros _; apply Hkeep].
        intros Hs'. by destruct (shown_offline_not_absent g Hs').
      * assert (Hip' : offline_copy k' !! "ip" ≠ Some (VStr ip)).
        { rewrite offline_copy_ip. destruct (address_of_inv _ _ Ha) as [-> _].
          congruence. }
        assert (Hor : absent info ip (group_append (network_key_of info ip') (offline_copy k') g)
                      ∨ shown_offline info known_all ip (group_append (network_key_of info ip')
                                         (offline_copy k') g)).
        { destruct Hg as [Habs|Hs]; [left|right; by apply shown_offline_append].
          unfold absent. rewrite group_addresses_append.
          destruct (decide _); [|done].
          intros [Hin|Hin%list_elem_of_singleton]%elem_of_app; [done|].
          by rewrite <- Hin in Hip'. }
        destruct (IH _ Hg' Hl Hor) as (Hor' & Hkeep & Hex). split; [done|].
        split; [by intros Hs; apply Hkeep, shown_offline_append|].
        intros (k & [Hk|Hk]%elem_of_cons & Hka); [|apply Hex; by exists k].
        injection Hk as ->. congruence.
    + destruct (IH _ Hg' Hl Hg) as (Hor' & Hkeep & Hex). split; [done|].
      split; [done|].
      intros (k & [Hk|Hk]%elem_of_cons & Hka); [|apply Hex; by exists k].
      subst kn. pose proof (add_offline_continue_inv _ _ _ _ Hm Hka) as Hin.
      destruct Hg as [Habs|Hs]; [done|]. by apply Hkeep.
Qed.

End Absent.

(** X15.  A device of the store that the scan did not find is shown
    offline.  When no scanned device has the address of a stored record,
    the group of that address holds exactly one record of the address: the
    copy of a stored record of it with the status set to offline and the
    flag current_scan set to false, every other stored field as it was. *)
Theorem absent_device_is_shown_offline (info : interface_info)
    (devs known_devices : list entry) (g : groups) (k : device) (ip : string) :
  merge_known_devices info devs known_devices = Some g →
  Dict k ∈ known_devices →
  address_of (Dict k) = Some ip →
  (∀ e, e ∈ devs → address_of e ≠ Some ip) →
  ∃ k0, Dict k0 ∈ known_devices ∧ address_of (Dict k0) = Some ip ∧
        offline_copy k0 ∈ default [] (g !! network_key_of info ip) ∧
        ∀ m, m ∈ default [] (g !! network_key_of info ip) →
             m !! "ip" = Some (VStr ip) → m = offline_copy k0.
Proof.
  unfold merge_known_devices.
  destruct (merge_devices info known_devices devs ∅) as [g1|] eqn:H1; [|done].
  cbn [mbind option_bind]. intros H2 Hk Ha Hdevs.
  assert (Habs : absent info ip g1).
  { eapply merge_devices_absent; [done|done|].
    unfold absent, group_addresses. rewrite lookup_empty. apply not_elem_of_nil. }
  destruct (add_offline_devices_shown info known_devices ip known_devices g1 g H2)
    as (_ & _ & Hex); [done|by left|].
  apply Hex. by exists k.
Qed.

Lemma absent_device_is_shown_offline_witness :
  ∃ g k0,
    merge_known_devices home_interface [] [Dict nas_record] = Some g ∧
    address_of (Dict k0) = Some "192.168.1.5" ∧
    offline_copy k0 ∈ default [] (g !! "192.168.1.0/24").
Proof.
  destruct (absent_device_is_shown_offline home_interface [] [Dict nas_record]
              ({["192.168.1.0/24" := [offline_copy nas_record]]} : groups)
              nas_record "192.168.1.5")
    as (k0 & _ & Ha & Hin & _).
  - reflexivity.
  - apply list_elem_of_here.
  - reflexivity.
  - by intros e ?%elem_of_nil.
  - exists ({["192.168.1.0/24" := [offline_copy nas_record]]} : groups), k0.
    split; [reflexivity|]. split; [exact Ha|exact Hin].
Defined.

(** ** Devices of interfaces that are no longer active *)

(** The three fixed networks the code tests first are instances of the
    rule of its last branch. *)
Lemma historical_key_rule device_ip :
  historical_key device_ip =
  (let network_parts := PyStr.split "." device_ip in
   if 3 <=? length network_parts
   then Some (PyStr.join "." (take 3 network_parts) +:+ ".0/24")
   else None).
Proof.
  unfold historical_key, PyStr.startswith.
  destruct (String.prefix "192.168.0." device_ip) eqn:H1;
    [by apply prefix_app in H1 as [rest ->]|].
  destruct (String.prefix "134.124.230." device_ip) eqn:H2;
    [by apply prefix_app in H2 as [rest ->]|].
  destruct (String.prefix "134.124.231." device_ip) eqn:H3;
    [by apply prefix_app in H3 as [rest ->]|].
  done.
Qed.

(** X16.  For a stored device of an interface that is no longer active
    the network key is always the /24 network of the first three parts of
    its address: the three fixed networks the code tests first are
    instances of this rule.  An address has a key exactly when it has at
    least three dot-separated parts. *)
Theorem historical_key_is_slash_24 (device_ip : string) :
  let network_parts := PyStr.split "." device_ip in
  (∀ key, historical_key device_ip = Some key ↔
          3 ≤ length network_parts ∧
          key = PyStr.join "." (take 3 network_parts) +:+ ".0/24") ∧
  (historical_key device_ip = None ↔ length network_parts < 3).
Proof.
  cbv zeta. rewrite historical_key_rule. cbv zeta.
  destruct (Nat.leb_spec 3 (length (PyStr.split "." device_ip))) as [H|H].
  - split.
    + intros key. split; [by intros [= <-]|by intros [_ ->]].
    + split; [done|lia].
  - split.
    + intros key. split; [done|]. intros [? _]. lia.
    + done.
Qed.

Lemma historical_devices_keeps known_devices (g g' : groups) k x :
  historical_devices known_devices g = Some g' →
  x ∈ default [] (g !! k) → x ∈ default [] (g' !! k).
Proof.
  revert g. induction known_devices as [|dev devs IH]; intros g;
    cbn [historical_devices].
  - by intros [= <-].
  - destruct (historical_device dev) as [key m| |]; [| |done].
    + intros Hg Hx. apply (IH _ Hg). by apply group_append_keeps.
    + apply IH.
Qed.

Lemma historical_device_emit_inv dev key m :
  historical_device dev = Emit key m →
  ∃ d ip, dev = Dict d ∧ address_of dev = Some ip ∧
          historical_key ip = Some key ∧ m = historical_copy d.
Proof.
  unfold historical_device, address_of, dict_get. destruct dev as [d|]; [|done].
  destruct (d !! "ip") as [v|]; cbn [default from_option id]; [|done].
  destruct (truthy v) eqn:Ht; [|done]. cbn [negb].
  destruct v as [| | |ip|]; try done. cbn [truthy] in Ht. rewrite Ht.
  destruct (historical_key ip) as [k|] eqn:Hk; [|done].
  intros [= <- <-]. by exists d, ip.
Qed.

Lemma historical_devices_holds known_devices (g g' : groups) dev key m :
  historical_devices known_devices g = Some g' →
  dev ∈ known_devices →
  historical_device dev = Emit key m →
  m ∈ default [] (g' !! key).
Proof.
  revert g. induction known_devices as [|dev0 devs IH]; intros g Hg Hin Hm.
  - by apply elem_of_nil in Hin.
  - cbn [historical_devices] in Hg. apply elem_of_cons in Hin as [<-|Hin].
    + rewrite Hm in Hg. apply (historical_devices_keeps _ _ _ _ _ Hg).
      apply group_append_holds.
    + destruct (historical_device dev0) as [key0 m0| |]; [| |done];
        by apply (IH _ Hg).
Qed.

Lemma historical_devices_from known_devices (g g' : groups) key m :
  historical_devices known_devices g = Some g' →
  m ∈ default [] (g' !! key) →
  m ∈ default [] (g !! key) ∨
  ∃ dev, dev ∈ known_devices ∧ historical_device dev = Emit key m.
Proof.
  revert g. induction known_devices as [|dev devs IH]; intros g;
    cbn [historical_devices].
  - intros [= <-]. by left.
  - destruct (historical_device dev) as [k' m'| |] eqn:He; [| |done].
    + intros Hg Hm. destruct (IH _ Hg Hm) as [Hin|(e & He' & Hem)].
      * rewrite group_append_lookup in Hin.
        destruct (decide _) as [->|]; [|by left].
        apply elem_of_app in Hin as [?|Hin%list_elem_of_singleton]; [by left|].
        subst m. right. exists dev. split; [by left|done].
      * right. exists e. split; [by right|done].
    + intros Hg Hm. destruct (IH _ Hg Hm) as [Hin|(e & He' & Hem)]; [by left|].
      right. exists e. split; [by right|done].
Qed.

(** X17.  The stored devices of an interface that is no longer active
    are all shown, offline and marked historical.  Every stored record with
    a non-empty string address of at least three dot-separated parts
    appears under the /24 network of its address as a copy with the status
    offline, current_scan false and historical true, and every other field
    as stored; and the groups hold nothing but such copies. *)
Theorem historical_devices_are_shown (known_devices : list entry) (g : groups) :
  historical_devices known_devices ∅ = Some g →
  (∀ d ip,
     Dict d ∈ known_devices →
     address_of (Dict d) = Some ip →
     3 ≤ length (PyStr.split "." ip) →
     historical_copy d
       ∈ default [] (g !! (PyStr.join "." (take 3 (PyStr.split "." ip)) +:+ ".0/24"))) ∧
  (∀ key m,
     m ∈ default [] (g !! key) →
     ∃ d ip, Dict d ∈ known_devices ∧ address_of (Dict d) = Some ip ∧
             m = historical_copy d ∧
             key = PyStr.join "." (take 3 (PyStr.split "." ip)) +:+ ".0/24").
Proof.
  intros Hg. split.
  - intros d ip Hin Ha Hparts.
    eapply historical_devices_holds; [done|done|].
    destruct (address_of_inv _ _ Ha) as [Hd Hne].
    unfold historical_device, dict_get. rewrite Hd.
    cbn [default from_option id truthy].
    apply nonempty_true in Hne. rewrite Hne. cbn [negb].
    rewrite historical_key_rule. cbv zeta.
    by destruct (Nat.leb_spec 3 (length (PyStr.split "." ip))); [|lia].
  - intros key m Hm.
    destruct (historical_devices_from _ _ _ _ _ Hg Hm) as [Hin|(dev & Hin & He)].
    { rewrite lookup_empty in Hin. by apply elem_of_nil in Hin. }
    apply historical_device_emit_inv in He as (d & ip & -> & Ha & Hk & ->).
    exists d, ip. repeat split; try done.
    rewrite historical_key_rule in Hk. cbv zeta in Hk.
    destruct (3 <=? _); [|done]. by injection Hk.
Qed.

Lemma historical_devices_are_shown_witness :
  historical_copy lab_record
    ∈ default [] (({["10.20.30.0/24" := [historical_copy lab_record]]} : groups)
                    !! "10.20.30.0/24").
Proof.
  destruct (historical_devices_are_shown [Dict lab_record]
              ({["10.20.30.0/24" := [historical_copy lab_record]]} : groups))
    as [H _]; [reflexivity|].
  apply (H lab_record "10.20.30.40"); [apply list_elem_of_here|reflexivity|].
  vm_compute. lia.
Defined.

(** ** The fast scanner *)

Lemma check_standby_ports_fast_spec w ip :
  check_standby_ports_fast w ip = false ↔
  Forall (λ port, connect_ex w 200 ip port ≠ Some 0%Z) standby_ports_fast.
Proof.
  unfold check_standby_ports_fast.
  destruct (first_open_port w 200 ip _) as [u|] eqn:E.
  - split; [done|]. intros H. exfalso.
    assert (Hnone : first_open_port w 200 ip (map (λ p, (p, tt)) standby_ports_fast) = None).
    { apply first_open_port_none. rewrite List.Forall_forall in H.
      apply List.Forall_forall. intros [port []] Hp%in_map_iff.
      destruct Hp as (p & [= <-] & Hp). by apply H. }
    congruence.
  - split; [|done]. intros _.
    apply first_open_port_none in E.
    rewrite List.Forall_forall in E. apply List.Forall_forall. intros port Hp.
    apply (E (port, tt)). by apply (in_map (λ p, (p, tt))).
Qed.

Lemma scan_single_ip_fast_record w ip dev :
  scan_single_ip_fast w ip = Some dev →
  dev !! "ip" = Some (VStr ip) ∧
  dev !! "status" =
    Some (VStr (if ping_host_fast w ip then "online" else "standby")) ∧
  dev !! "last_seen" = Some (VNum (time_time w ip)) ∧
  ∃ name, dev !! "hostname" = Some (VStr name) ∧ name ≠ EmptyString.
Proof.
  unfold scan_single_ip_fast. destruct (ping_host_fast w ip).
  - intros [= <-]. simplify_map_eq. repeat split; try done.
    eexists. split; [done|].
    destruct (truthy_name (get_device_identifier_fast w ip)) as [h|] eqn:Hh;
      cbn [default from_option id]; [by eapply truthy_name_nonempty|done].
  - destruct (check_standby_ports_fast w ip); [|done].
    intros [= <-]. simplify_map_eq. repeat split; try done. by eexists.
Qed.

(** X18.  The fast probe of the command line returns a record exactly for
    a host that answers: [None] when neither the ping nor a connect to
    port 80, 443 or 22 (200 ms each) succeeds, and otherwise a record of the
    address that is online after a ping and standby after a connect, with a
    non-empty name and the time of the probe.  It never yields an offline
    or a hidden record. *)
Theorem scan_single_ip_fast_answers (w : world) (ip : string) :
  (scan_single_ip_fast w ip = None ↔
   ping_host_fast w ip = false ∧
   Forall (λ port, connect_ex w 200 ip port ≠ Some 0%Z) [80; 443; 22]%Z) ∧
  (∀ dev, scan_single_ip_fast w ip = Some dev →
     dev !! "ip" = Some (VStr ip) ∧
     dev !! "status" =
       Some (VStr (if ping_host_fast w ip then "online" else "standby")) ∧
     dev !! "last_seen" = Some (VNum (time_time w ip)) ∧
     ∃ name, dev !! "hostname" = Some (VStr name) ∧ name ≠ EmptyString).
Proof.
  split; [|apply scan_single_ip_fast_record].
  unfold scan_single_ip_fast. destruct (ping_host_fast w ip).
  - split; [done|by intros [? _]].
  - destruct (check_standby_ports_fast w ip) eqn:Hc.
    + split; [done|]. intros [_ H%check_standby_ports_fast_spec]. congruence.
    + split; [|done]. intros _. split; [done|].
      by apply check_standby_ports_fast_spec.
Qed.

Lemma scan_single_ip_fast_kept w ip dev devices :
  scan_single_ip_fast w ip = Some dev → collect_fast w devices ip = devices ++ [dev].
Proof.
  intros H. unfold collect_fast. rewrite H.
  destruct (scan_single_ip_fast_record w ip dev H) as (Hi & Hs & _).
  rewrite bool_decide_eq_false_2 by (intros ->; by rewrite lookup_empty in Hi).
  rewrite Hs. cbn. by destruct (ping_host_fast w ip).
Qed.

Lemma foldl_collect_fast w ips devices :
  foldl (collect_fast w) devices ips = devices ++ omap (scan_single_ip_fast w) ips.
Proof.
  revert devices. induction ips as [|ip ips IH]; intros devices;
    cbn [foldl omap list_omap]; [by rewrite app_nil_r|].
  rewrite IH. destruct (scan_single_ip_fast w ip) as [dev|] eqn:Hd.
  - rewrite (scan_single_ip_fast_kept _ _ _ _ Hd). by rewrite <- app_assoc.
  - unfold collect_fast. by rewrite Hd.
Qed.

(** X19.  The parallel scanner of the command line reports exactly the
    hosts that answer the fast probe.  When the network parses and the pool
    starts, what it returns is, up to the order in which the tasks finish,
    the list of the records the fast probe gives for the hosts of the
    network: one for every host that answers, none for any other. *)
Theorem scan_network_parallel_reports (w : world)
    (as_completed : list string → list string) (info : interface_info)
    (host_ips : list string) :
  network_hosts w (subnet info) = Some host_ips →
  pool_starts w 0 = true →
  as_completed host_ips ≡ₚ host_ips →
  scan_network_parallel w as_completed info
  ≡ₚ omap (scan_single_ip_fast w) host_ips.
Proof.
  intros Hn Hp Hperm. unfold scan_network_parallel. rewrite Hn, Hp.
  rewrite foldl_collect_fast. cbn [app]. by rewrite Hperm.
Qed.

Lemma scan_network_parallel_reports_witness :
  scan_network_parallel (pinging_world two_hosts) reverse lab_interface
  ≡ₚ omap (scan_single_ip_fast (pinging_world two_hosts)) two_hosts.
Proof.
  apply (scan_network_parallel_reports (pinging_world two_hosts) reverse
           lab_interface two_hosts); [reflexivity|reflexivity|].
  apply reverse_Permutation.
Defined.

Lemma step_ports_fast_code w ip :
  step_ports_fast w ip =
  match first_open_port w 200 ip service_ports with
  | Some service => Some (service +:+ "-" +:+ PyStr.last_octet ip)
  | None => None
  end.
Proof.
  unfold step_ports_fast. rewrite <- first_open_port_answering. fold service_ports.
  by destruct (first_open_port w 200 ip service_ports).
Qed.

Lemma first_answering_ext {A} w t1 t2 ip (table : list (Z * A)) :
  (∀ port, connect_ex w t1 ip port = connect_ex w t2 ip port) →
  first_answering w t1 ip table = first_answering w t2 ip table.
Proof.
  intros H. rewrite <- !first_open_port_answering.
  induction table as [|[port label] table IH]; [done|].
  cbn [first_open_port]. by rewrite H, IH.
Qed.

(** X20.  The fast identity resolver runs the first four steps of the
    resolution chain and then gives up: its answer is the first success of
    reverse DNS, the NetBIOS query, the Apple device-name step (the
    device-info query, a reverse-DNS name with a local suffix, and
    ["Apple-{lastOctet}"] for a MAC address with a prefix of the Apple table)
    and the open-port fingerprint, here with 200 ms for a port, and [None]
    when all four fail, where the full resolver goes on to the OUI vendor
    lookup and the last octet.  Whenever one of the first three steps
    succeeds, it returns the name the full resolver returns; and so it does
    whenever it returns a name at all, if the ports answer within 200 ms as
    they do within 500 ms. *)
Theorem get_device_identifier_fast_chain (w : world) (ip : string) :
  get_device_identifier_fast w ip
  = first_some [step_dns w ip; step_netbios w ip; step_apple w ip;
                step_ports_fast w ip] ∧
  (∀ name,
     first_some [step_dns w ip; step_netbios w ip; step_apple w ip] = Some name →
     get_device_identifier_fast w ip = Some name ∧
     get_device_identifier w ip = name) ∧
  (∀ name,
     (∀ port, connect_ex w 200 ip port = connect_ex w 500 ip port) →
     get_device_identifier_fast w ip = Some name →
     get_device_identifier w ip = name).
Proof.
  assert (Hfast : get_device_identifier_fast w ip
                  = first_some [step_dns w ip; step_netbios w ip; step_apple w ip;
                                step_ports_fast w ip]).
  { unfold get_device_identifier_fast.
    rewrite <- step_dns_code, <- step_ports_fast_code, step_netbios_code, step_apple_code.
    cbn [first_some]. destruct (step_dns w ip); [done|].
    destruct (step_netbios w ip); [done|].
    destruct (step_apple w ip); [done|].
    by destruct (step_ports_fast w ip). }
  split; [done|]. split.
  - intros name Hname.
    rewrite Hfast, get_device_identifier_first_success. unfold resolution_chain.
    cbn [first_some first_success] in *.
    destruct (step_dns w ip); [by injection Hname as ->|].
    destruct (step_netbios w ip); [by injection Hname as ->|].
    destruct (step_apple w ip); [by injection Hname as ->|done].
  - intros name Hports. rewrite Hfast, get_device_identifier_first_success.
    unfold resolution_chain. cbn [first_some first_success].
    assert (step_ports_fast w ip = step_ports w ip) as ->.
    { unfold step_ports_fast, step_ports. by rewrite (first_answering_ext w 200 500). }
    destruct (step_dns w ip); [by intros [= ->]|].
    destruct (step_netbios w ip); [by intros [= ->]|].
    destruct (step_apple w ip); [by intros [= ->]|].
    destruct (step_ports w ip); [by intros [= ->]|done].
Qed.

Lemma get_device_identifier_fast_chain_witness :
  get_device_identifier_fast apple_host_world "192.168.1.7" = Some "Apple-7" ∧
  get_device_identifier apple_host_world "192.168.1.7" = "Apple-7".
Proof.
  apply (proj1 (proj2 (get_device_identifier_fast_chain apple_host_world "192.168.1.7"))).
  by vm_compute.
Defined.

Lemma scan_single_ip_fast_answers_witness :
  ∃ dev, scan_single_ip_fast (pinging_world two_hosts) "10.0.0.2" = Some dev ∧
         dev !! "status" = Some (VStr "online").
Proof.
  eexists. split; [reflexivity|].
  apply (proj2 (scan_single_ip_fast_answers (pinging_world two_hosts) "10.0.0.2")).
  reflexivity.
Defined.

(** *** The fast MAC lookup *)

Lemma match_hex2_sep_inv s g rest :
  match_hex2_sep s = Some (g, rest) →
  ∃ a b c, is_hex a = true ∧ is_hex b = true ∧ is_mac_sep c = true ∧
           g = String a (String b (String c EmptyString)).
Proof.
  unfold match_hex2_sep. destruct s as [|a [|b [|c s]]]; try done.
  destruct (is_hex a) eqn:Ha; [|done]. destruct (is_hex b) eqn:Hb; [|done].
  destruct (is_mac_sep c) eqn:Hc; [|done]. intros [= <- <-]. by exists a, b, c.
Qed.

Lemma match_hex2_inv s g :
  match_hex2 s = Some g →
  ∃ a b, is_hex a = true ∧ is_hex b = true ∧ g = String a (String b EmptyString).
Proof.
  unfold match_hex2. destruct s as [|a [|b s]]; try done.
  destruct (is_hex a) eqn:Ha; [|done]. destruct (is_hex b) eqn:Hb; [|done].
  intros [= <-]. by exists a, b.
Qed.

Lemma hex_replace a :
  is_hex a = true →
  (if Ascii.eqb (PyStr.upper_char a) "-" then ":"%char else PyStr.upper_char a)
  = PyStr.upper_char a.
Proof. intros H. by each_char a. Qed.

Lemma sep_replace c :
  is_mac_sep c = true →
  (if Ascii.eqb (PyStr.upper_char c) "-" then ":"%char else PyStr.upper_char c)
  = ":"%char.
Proof. intros H. by each_char c. Qed.

(** A match of the fast pattern has twelve digits: the padding rule adds
    and cuts nothing, and the normalisation only changes case and
    separators. *)
Lemma match_mac_fast_at_normalize s m :
  match_mac_fast_at s = Some m →
  String.length m = 17 ∧
  normalize_mac_match m = PyStr.replace_char "-" ":" (PyStr.upper m).
Proof.
  unfold match_mac_fast_at. cbn [match_hex2_seps].
  destruct (match_hex2_sep s) as [[g1 r1]|] eqn:E1; [|done].
  destruct (match_hex2_sep r1) as [[g2 r2]|] eqn:E2; [|done].
  destruct (match_hex2_sep r2) as [[g3 r3]|] eqn:E3; [|done].
  destruct (match_hex2_sep r3) as [[g4 r4]|] eqn:E4; [|done].
  destruct (match_hex2_sep r4) as [[g5 r5]|] eqn:E5; [|done].
  destruct (match_hex2 r5) as [g6|] eqn:E6; [|done].
  intros [= <-].
  apply match_hex2_sep_inv in E1 as (a1 & b1 & c1 & Ha1 & Hb1 & Hc1 & ->).
  apply match_hex2_sep_inv in E2 as (a2 & b2 & c2 & Ha2 & Hb2 & Hc2 & ->).
  apply match_hex2_sep_inv in E3 as (a3 & b3 & c3 & Ha3 & Hb3 & Hc3 & ->).
  apply match_hex2_sep_inv in E4 as (a4 & b4 & c4 & Ha4 & Hb4 & Hc4 & ->).
  apply match_hex2_sep_inv in E5 as (a5 & b5 & c5 & Ha5 & Hb5 & Hc5 & ->).
  apply match_hex2_inv in E6 as (a6 & b6 & Ha6 & Hb6 & ->).
  split; [done|].
  rewrite normalize_mac_match_twelve by done. cbv [append].
  repeat match goal with
         | H : is_hex ?a = true |- context [mac_digits (String ?a ?t)] =>
             rewrite (proj1 (mac_digits_hex a t H))
         | H : is_mac_sep ?a = true |- context [mac_digits (String ?a ?t)] =>
             rewrite (mac_digits_sep a t H)
         end.
  change (mac_digits "") with EmptyString.
  rewrite format_with_colons_pairs by (unfold spec_twelve; done).
  cbn [spec_twelve String.length Nat.eqb spec_colon_pairs PyStr.upper PyStr.replace_char].
  repeat match goal with
         | H : is_hex ?a = true |- _ => rewrite (hex_replace a H); clear H
         | H : is_mac_sep ?a = true |- _ => rewrite (sep_replace a H); clear H
         end.
  reflexivity.
Qed.

Lemma search_mac_fast_normalize s m :
  search_mac_fast s = Some m →
  String.length m = 17 ∧
  normalize_mac_match m = PyStr.replace_char "-" ":" (PyStr.upper m).
Proof.
  induction s as [|a s IH]; simpl; [done|].
  destruct (match_mac_fast_at (String a s)) as [m'|] eqn:Hm; [|done].
  intros [= <-]. by eapply match_mac_fast_at_normalize.
Qed.

(** Whatever the fast pattern matches at a position, the pattern of the
    full lookup matches there too, with the same text. *)
Lemma match_mac_fast_at_general s m :
  match_mac_fast_at s = Some m → match_mac_at s = Some m.
Proof.
  unfold match_mac_fast_at, match_mac_at.
  assert (Hsep : ∀ s g rest, match_hex2_sep s = Some (g, rest) →
                             match_hex_sep s = Some (g, rest)).
  { intros s0 g rest. unfold match_hex2_sep, match_hex_sep.
    destruct s0 as [|a [|b [|c s0]]]; try done.
    destruct (is_hex a), (is_hex b), (is_mac_sep c); done. }
  assert (Hseps : ∀ n s gs rest, match_hex2_seps n s = Some (gs, rest) →
                                 match_hex_seps n s = Some (gs, rest)).
  { induction n as [|n IH]; intros s0 gs rest; cbn [match_hex2_seps match_hex_seps];
      [done|].
    destruct (match_hex2_sep s0) as [[g r]|] eqn:E; [|done].
    rewrite (Hsep _ _ _ E).
    destruct (match_hex2_seps n r) as [[gs' r']|] eqn:E'; [|done].
    by rewrite (IH _ _ _ E'). }
  destruct (match_hex2_seps 5 s) as [[gs rest]|] eqn:E; [|done].
  rewrite (Hseps _ _ _ _ E).
  unfold match_hex2, match_hex_last. destruct rest as [|a [|b rest]]; try done.
  destruct (is_hex a); [|done]. by destruct (is_hex b).
Qed.

Lemma string_app_assoc s t u : (s +:+ t) +:+ u = s +:+ (t +:+ u).
Proof.
  induction s as [|a s IH]; [done|].
  change (String a ((s +:+ t) +:+ u) = String a (s +:+ (t +:+ u))). by rewrite IH.
Qed.

Lemma match_hex2_sep_split s g rest :
  match_hex2_sep s = Some (g, rest) → s = g +:+ rest.
Proof.
  unfold match_hex2_sep. destruct s as [|a [|b [|c s]]]; try done.
  destruct (_ && _); [|done]. by intros [= <- <-].
Qed.

Lemma match_hex2_seps_split n s gs rest :
  match_hex2_seps n s = Some (gs, rest) → s = gs +:+ rest.
Proof.
  revert s gs rest. induction n as [|n IH]; intros s gs rest; cbn [match_hex2_seps].
  - by intros [= <- <-].
  - destruct (match_hex2_sep s) as [[g r]|] eqn:E; [|done].
    destruct (match_hex2_seps n r) as [[gs' r']|] eqn:E'; [|done].
    intros [= <- <-]. apply match_hex2_sep_split in E as ->. apply IH in E' as ->.
    by rewrite string_app_assoc.
Qed.

Lemma match_mac_fast_at_split s m :
  match_mac_fast_at s = Some m → ∃ post, s = m +:+ post.
Proof.
  unfold match_mac_fast_at.
  destruct (match_hex2_seps 5 s) as [[gs rest]|] eqn:E; [|done].
  apply match_hex2_seps_split in E as ->.
  unfold match_hex2. destruct rest as [|a [|b rest]]; try done.
  destruct (_ && _); [|done]. intros [= <-]. exists rest.
  by rewrite string_app_assoc.
Qed.

(** The match of the fast pattern is a piece of the text that is searched. *)
Lemma search_mac_fast_split s m :
  search_mac_fast s = Some m → ∃ pre post, s = pre +:+ m +:+ post.
Proof.
  induction s as [|a s IH].
  - cbn. done.
  - cbn [search_mac_fast].
    destruct (match_mac_fast_at (String a s)) as [m'|] eqn:Hat.
    + intros [= <-]. apply match_mac_fast_at_split in Hat as [post ->].
      by exists EmptyString, post.
    + intros (pre & post & ->)%IH. by exists (String a pre), post.
Qed.

Lemma search_mac_fast_general s m :
  search_mac_fast s = Some m → ∃ t, search_mac t = Some m.
Proof.
  induction s as [|a s IH]; [done|]. cbn [search_mac_fast].
  destruct (match_mac_fast_at (String a s)) as [m'|] eqn:Hat; [|exact IH].
  intros [= <-]. exists (String a s). cbn [search_mac].
  by rewrite (match_mac_fast_at_general _ _ Hat).
Qed.

(** X21.  The fast MAC lookup never pads.  Its pattern asks for two hex
    digits in each of the six groups, so the address it returns is a piece
    of seventeen characters of the output of [arp], as it stands there but
    for the case of the letters and colons for dashes: the padding rule it
    applies changes nothing.  The address is in normal form. *)
Theorem get_mac_address_fast_never_pads (w : world) (ip mac : string) :
  get_mac_address_fast w ip = Some mac →
  ∃ r pre m post,
    subprocess_run w
      (if String.eqb (PyStr.lower (platform_system w)) "windows"
       then ["arp"; "-a"; ip] else ["arp"; "-n"; ip]) 1 = Some r ∧
    returncode r = 0%Z ∧
    stdout r = pre +:+ m +:+ post ∧
    String.length m = 17 ∧
    mac = PyStr.replace_char "-" ":" (PyStr.upper m) ∧
    pad_mac_address mac = mac ∧
    is_normal_mac mac = true.
Proof.
  unfold get_mac_address_fast. set (cmd := if String.eqb _ _ then _ else _).
  destruct (subprocess_run w cmd 1) as [r|] eqn:Hrun; [|done].
  destruct (Z.eqb_spec (returncode r) 0) as [Hr|Hr]; [|done].
  destruct (search_mac_fast (stdout r)) as [m|] eqn:Hm; [|done].
  cbn [option_map]. intros [= <-].
  destruct (search_mac_fast_normalize _ _ Hm) as [Hlen Hnorm].
  destruct (search_mac_fast_split _ _ Hm) as (pre & post & Hout).
  exists r, pre, m, post. repeat split; try done.
  - transitivity (pad_mac_address (PyStr.replace_char "-" ":" (PyStr.upper m)));
      [by rewrite Hnorm|reflexivity].
  - destruct (search_mac_fast_general _ _ Hm) as [t Ht]. by eapply search_mac_normal.
Qed.

Lemma get_mac_address_fast_never_pads_witness :
  ∃ r pre m post,
    subprocess_run (arp_world "? (10.0.0.7) at aa-bb-cc-00-11-22 on en0")
      ["arp"; "-n"; "10.0.0.7"] 1 = Some r ∧
    returncode r = 0%Z ∧
    stdout r = pre +:+ m +:+ post ∧
    String.length m = 17 ∧
    "AA:BB:CC:00:11:22" = PyStr.replace_char "-" ":" (PyStr.upper m) ∧
    pad_mac_address "AA:BB:CC:00:11:22" = "AA:BB:CC:00:11:22" ∧
    is_normal_mac "AA:BB:CC:00:11:22" = true.
Proof.
  apply (get_mac_address_fast_never_pads
           (arp_world "? (10.0.0.7) at aa-bb-cc-00-11-22 on en0") "10.0.0.7").
  reflexivity.
Defined.

(** The lookup that pads does return an address that stands nowhere in
    the output of [arp]. *)
Example get_mac_address_pads :
  get_mac_address (arp_world arp_line) "10.0.0.7" = Some "00:3E:E1:B7:57:54" ∧
  get_mac_address_fast (arp_world arp_line) "10.0.0.7" = None.
Proof. split; reflexivity. Qed.

(** ** The command-line scanner with the progress bar *)

Lemma collect_single_answering w devices ip :
  collect_single w devices ip
  = devices ++ from_option (λ e, [e]) [] (answering_record w ip).
Proof.
  unfold collect_single, answering_record.
  destruct (result_times_out w ip); [by rewrite app_nil_r|].
  unfold scan_single_ip.
  destruct (is_responsive (check_device_status w ip)) eqn:Hresp.
  - rewrite bool_decide_eq_false_2.
    2:{ intros H. apply (f_equal (.!! "ip")) in H. by simplify_map_eq. }
    cbn [negb]. simplify_map_eq. cbn [eq_str fmap option_fmap option_map from_option].
    unfold is_responsive in Hresp.
    destruct (String.eqb_spec (check_device_status w ip) "hidden") as [E|E]; [|done].
    by rewrite E in Hresp.
  - rewrite bool_decide_eq_false_2.
    2:{ intros H. apply (f_equal (.!! "ip")) in H. by simplify_map_eq. }
    cbn [negb]. simplify_map_eq. cbn. by rewrite app_nil_r.
Qed.

Lemma foldl_collect_single w ips devices :
  foldl (collect_single w) devices ips = devices ++ omap (answering_record w) ips.
Proof.
  revert devices. induction ips as [|ip ips IH]; intros devices;
    cbn [foldl omap list_omap]; [by rewrite app_nil_r|].
  rewrite IH, collect_single_answering.
  destruct (answering_record w ip); cbn [from_option];
    by rewrite <- ?app_assoc, ?app_nil_r.
Qed.

Lemma progress_chunks_run w idx chunks devices k :
  k ≤ length chunks →
  (∀ j, j < k → interrupt_pressed w (idx + j) = false ∧ pool_starts w (idx + j) = true) →
  progress_chunks w idx chunks devices
  = progress_chunks w (idx + k) (drop k chunks)
      (devices ++ omap (answering_record w) (concat (take k chunks))).
Proof.
  revert idx chunks devices. induction k as [|k IH]; intros idx chunks devices Hk Hok.
  - by rewrite Nat.add_0_r, drop_0, app_nil_r.
  - destruct chunks as [|c chunks]; [cbn in Hk; lia|].
    cbn [progress_chunks take drop concat].
    destruct (Hok 0 ltac:(lia)) as [Hi Hp]. rewrite Nat.add_0_r in Hi, Hp.
    rewrite Hi, Hp, foldl_collect_single, (IH (S idx)).
    + rewrite omap_app, app_assoc. f_equal. lia.
    + cbn in Hk. lia.
    + intros j Hj. replace (S idx + j) with (idx + S j) by lia. apply Hok. lia.
Qed.

Lemma take_chunks (host_ips : list string) k :
  k ≤ length (chunks_of host_ips) →
  concat (take k (chunks_of host_ips)) = take (255 * k) host_ips.
Proof.
  rewrite chunks_of_seq, length_map, length_seq. intros Hk.
  change (map ?f ?l) with (f <$> l). rewrite <- fmap_take, take_seq, Nat.min_l by done.
  apply (concat_chunks host_ips k).
Qed.

(** X22.  The scanner with the progress bar returns, in the order of the
    addresses, the records of the hosts that answered in time.  When no
    interrupt is pressed and every pool starts, these are the answering
    hosts of the whole network (which must have a host: on an empty network
    the closing progress bar divides by zero and the result is empty).
    When the interrupt key is pressed before a chunk, the scan is not
    discarded: it returns the answering hosts of the chunks before it. *)
Theorem progress_scan_reports_in_order (w : world) (info : interface_info)
    (host_ips : list string) :
  network_hosts w (subnet info) = Some host_ips →
  ((∀ j, interrupt_pressed w j = false ∧ pool_starts w j = true) →
   host_ips ≠ [] →
   scan_network_for_devices_with_progress w info
   = omap (answering_record w) host_ips) ∧
  (∀ k,
     k < length (chunks_of host_ips) →
     interrupt_pressed w k = true →
     (∀ j, j < k → interrupt_pressed w j = false ∧ pool_starts w j = true) →
     scan_network_for_devices_with_progress w info
     = omap (answering_record w) (take (255 * k) host_ips)).
Proof.
  intros Hn. unfold scan_network_for_devices_with_progress. rewrite Hn. split.
  - intros Hok Hne.
    rewrite (progress_chunks_run w 0 _ [] (length (chunks_of host_ips)))
      by (done || (intros j _; apply Hok)).
    rewrite drop_all, take_chunks by done.
    rewrite take_ge.
    2:{ rewrite chunks_of_seq, length_map, length_seq.
        exact (proj2 (chunk_count_bounds (length host_ips))). }
    cbn [progress_chunks app].
    destruct host_ips; [done|]. done.
  - intros k Hk Hi Hok.
    rewrite (progress_chunks_run w 0 _ [] k) by (lia || done).
    rewrite take_chunks by lia. cbn [app].
    destruct (drop k (chunks_of host_ips)) as [|c rest] eqn:Hd.
    { apply (f_equal length) in Hd. rewrite length_drop in Hd.
      change (length (@nil (list string))) with 0 in Hd. lia. }
    cbn [progress_chunks Nat.add]. by rewrite Hi.
Qed.

Lemma progress_scan_reports_in_order_witness :
  scan_network_for_devices_with_progress one_of_two lab_interface
  = omap (answering_record one_of_two) two_hosts.
Proof.
  apply (proj1 (progress_scan_reports_in_order one_of_two lab_interface
                  two_hosts eq_refl)).
  - intros j. split; reflexivity.
  - discriminate.
Defined.

(** ** Progress bar *)

(** X23.  The progress bar of the command line has a fixed length.  For
    a width that is not negative and a count between zero and the total,
    the bar has exactly [width] cells between its two delimiters, of which
    the first [width * current // total] are full; it is full when the
    count has reached a total that is not zero, and empty at zero. *)
Theorem progress_bar_has_fixed_width (current total width : Z) :
  (0 ≤ width)%Z →
  (0 ≤ current ≤ total)%Z →
  let bar := create_progress_bar_cli current total width in
  length bar = Z.to_nat width + 2 ∧
  (∃ filled, (0 ≤ filled ≤ width)%Z ∧
     (total ≠ 0 → filled = width * current / total)%Z ∧
     bar = [vertical_bar] ++ replicate (Z.to_nat filled) full_block
           ++ replicate (Z.to_nat (width - filled)) light_shade ++ [vertical_bar]) ∧
  (total ≠ 0%Z → current = total →
   bar = [vertical_bar] ++ replicate (Z.to_nat width) full_block ++ [vertical_bar]) ∧
  (current = 0%Z →
   bar = [vertical_bar] ++ replicate (Z.to_nat width) light_shade ++ [vertical_bar]).
Proof.
  intros Hw Hc. cbv zeta. unfold create_progress_bar_cli.
  destruct (Z.eqb_spec total 0) as [->|Ht].
  - split; [|split; [|split]].
    + rewrite !length_app, length_replicate. cbn. lia.
    + exists 0%Z. split; [lia|]. split; [done|].
      by rewrite Z.sub_0_r.
    + done.
    + done.
  - assert (Hf : (0 ≤ width * current / total ≤ width)%Z).
    { split.
      - apply Z.div_pos; nia.
      - apply Z.div_le_upper_bound; nia. }
    split; [|split; [|split]].
    + rewrite !length_app, !length_replicate. cbn. lia.
    + exists (width * current / total)%Z. split; [done|]. split; [done|].
      by rewrite <- !app_assoc.
    + intros _ ->. rewrite Z.div_mul by done.
      rewrite Z.sub_diag. cbn [Z.to_nat replicate]. by rewrite app_nil_r.
    + intros ->. rewrite Z.mul_0_r, Z.div_0_l by done.
      rewrite Z.sub_0_r. done.
Qed.

Lemma progress_bar_has_fixed_width_witness :
  length (create_progress_bar_cli 127 254 40) = 42.
Proof.
  apply (progress_bar_has_fixed_width 127 254 40); lia.
Defined.

(** ** Text layout *)

Lemma string_app_nil_r s : s +:+ "" = s.
Proof. induction s as [|a s IH]; [done|]. change (String a (s +:+ "") = String a s). by rewrite IH. Qed.

Lemma rev_app_app s t : String.rev_app s t = String.rev s +:+ t.
Proof.
  unfold String.rev. revert t. induction s as [|a s IH]; intros t; [done|].
  cbn [String.rev_app]. rewrite (IH (String a t)), (IH (String a "")).
  by rewrite string_app_assoc.
Qed.

Lemma rev_rev_app w cur : String.rev (String.rev_app w cur) = String.rev_app cur w.
Proof.
  revert cur. induction w as [|a w IH]; intros cur; [done|].
  cbn [String.rev_app]. by rewrite IH.
Qed.

Lemma nonempty_rev_app s t :
  PyStr.nonempty (String.rev_app s t) = PyStr.nonempty s || PyStr.nonempty t.
Proof.
  revert t. induction s as [|a s IH]; intros t; [done|].
  cbn [String.rev_app]. rewrite IH. cbn. by rewrite orb_true_r.
Qed.

Lemma all_chars_rev_app p s t :
  all_chars p (String.rev_app s t) = all_chars p s && all_chars p t.
Proof.
  revert t. induction s as [|a s IH]; intros t; [done|].
  cbn [String.rev_app all_chars]. rewrite IH. cbn [all_chars].
  by destruct (p a), (all_chars p s), (all_chars p t).
Qed.

Lemma all_chars_rev p s : all_chars p (String.rev s) = all_chars p s.
Proof. unfold String.rev. by rewrite all_chars_rev_app, andb_true_r. Qed.

Lemma split_whitespace_go_free cur w s :
  all_chars no_space w = true →
  split_whitespace_go cur (w +:+ s) = split_whitespace_go (String.rev_app w cur) s.
Proof.
  revert cur. induction w as [|a w IH]; intros cur; [done|].
  cbn [all_chars]. intros [Ha Hw]%andb_prop.
  change (String a w +:+ s) with (String a (w +:+ s)).
  cbn [split_whitespace_go String.rev_app].
  apply negb_true_iff in Ha. rewrite Ha. by apply IH.
Qed.

Lemma split_whitespace_word w : is_word w → split_whitespace w = [w].
Proof.
  intros [Hne Hfree]. unfold split_whitespace.
  rewrite <- (string_app_nil_r w) at 1. rewrite split_whitespace_go_free by done.
  cbn [split_whitespace_go]. rewrite nonempty_rev_app, rev_rev_app.
  destruct w; [done|]. done.
Qed.

Lemma split_whitespace_indent n w :
  is_word w → split_whitespace (PyStr.repeat_char " " n +:+ w) = [w].
Proof.
  intros Hw. induction n as [|n IH]; [by apply split_whitespace_word|].
  exact IH.
Qed.

Lemma split_whitespace_go_snoc cur s w :
  is_word w →
  split_whitespace_go cur (s +:+ String " " w) = split_whitespace_go cur s ++ [w].
Proof.
  intros Hw. revert cur. induction s as [|a s IH]; intros cur.
  - change ("" +:+ String " " w) with (String " " w).
    cbn [split_whitespace_go]. change (PyStr.is_space " ") with true. cbn iota.
    by rewrite (split_whitespace_word w Hw : split_whitespace_go "" w = [w]).
  - change (String a s +:+ String " " w) with (String a (s +:+ String " " w)).
    cbn [split_whitespace_go]. destruct (PyStr.is_space a).
    + by rewrite IH, app_assoc.
    + apply IH.
Qed.

Lemma split_whitespace_go_words cur s :
  all_chars no_space cur = true →
  Forall is_word (split_whitespace_go cur s).
Proof.
  assert (Hflush : ∀ cur, all_chars no_space cur = true →
            Forall is_word (if PyStr.nonempty cur then [String.rev cur] else [])).
  { intros c Hc. destruct c as [|a c]; [constructor|]. cbn [PyStr.nonempty].
    constructor; [|constructor]. split.
    - unfold String.rev. intros H. apply (f_equal PyStr.nonempty) in H.
      by rewrite nonempty_rev_app in H.
    - by rewrite all_chars_rev. }
  revert cur. induction s as [|a s IH]; intros cur Hcur; cbn [split_whitespace_go].
  - by apply Hflush.
  - destruct (PyStr.is_space a) eqn:Ha.
    + apply Forall_app. split; [by apply Hflush|by apply IH].
    + apply IH. cbn [all_chars]. unfold no_space at 1. by rewrite Ha, Hcur.
Qed.

Lemma split_whitespace_words s : Forall is_word (split_whitespace s).
Proof. by apply split_whitespace_go_words. Qed.

(** A blank string has no words. *)
Lemma lstrip_spaces s : PyStr.lstrip s = EmptyString → all_chars PyStr.is_space s = true.
Proof.
  induction s as [|a s IH]; [done|]. cbn [PyStr.lstrip all_chars].
  destruct (PyStr.is_space a); [|done]. exact IH.
Qed.

Lemma lstrip_head s a t : PyStr.lstrip s = String a t → PyStr.is_space a = false.
Proof.
  induction s as [|b s IH]; [done|]. cbn [PyStr.lstrip].
  destruct (PyStr.is_space b) eqn:Hb; [exact IH|]. by intros [= <- _].
Qed.

Lemma blank_spaces s :
  PyStr.nonempty (PyStr.strip s) = false → all_chars PyStr.is_space s = true.
Proof.
  unfold PyStr.strip, String.rev. rewrite nonempty_rev_app, orb_false_r.
  intros H. assert (Hl : PyStr.lstrip (String.rev_app (PyStr.lstrip s) "") = EmptyString)
    by (by destruct (PyStr.lstrip _)).
  apply lstrip_spaces in Hl. rewrite all_chars_rev_app, andb_true_r in Hl.
  destruct (PyStr.lstrip s) as [|a t] eqn:Hs; [by apply lstrip_spaces|].
  apply lstrip_head in Hs. cbn [all_chars] in Hl. by rewrite Hs in Hl.
Qed.

Lemma spaces_no_words s :
  all_chars PyStr.is_space s = true → split_whitespace s = [].
Proof.
  unfold split_whitespace. induction s as [|a s IH]; [done|].
  cbn [all_chars split_whitespace_go]. intros [-> Hs]%andb_prop. by apply IH.
Qed.

Lemma blank_no_words s :
  PyStr.nonempty (PyStr.strip s) = false → split_whitespace s = [].
Proof. intros H. by apply spaces_no_words, blank_spaces. Qed.

Lemma strip_indent n : PyStr.strip (PyStr.repeat_char " " n) = EmptyString.
Proof.
  unfold PyStr.strip.
  assert (PyStr.lstrip (PyStr.repeat_char " " n) = EmptyString) as ->; [|done].
  induction n as [|n IH]; [done|exact IH].
Qed.

Section Wrap.

Context (text : string) (width indent : Z).

Lemma wrap_step_fits st word :
  word ∈ split_whitespace text →
  Forall (fits_or_single text width indent) st.1 →
  (PyStr.nonempty (PyStr.strip st.2) = true → fits_or_single text width indent st.2) →
  let st' := wrap_step width indent st word in
  Forall (fits_or_single text width indent) st'.1 ∧
  fits_or_single text width indent st'.2.
Proof.
  destruct st as [lines current_line]. cbn [fst snd]. intros Hw Hlines Hcur.
  unfold wrap_step.
  assert (Hsingle : fits_or_single text width indent
                      (PyStr.repeat_char " " (Z.to_nat indent) +:+ word))
    by (right; by exists word).
  destruct (Z.leb_spec (Z.of_nat (String.length current_line)
                        + Z.of_nat (String.length word) + 1) width) as [Hfit|Hfit].
  - destruct (PyStr.nonempty (PyStr.strip current_line)); cbn [fst snd];
      (split; [done|]); [|done].
    left. rewrite !length_string_app. cbn [String.length]. lia.
  - destruct (PyStr.nonempty (PyStr.strip current_line)); cbn [fst snd];
      (split; [|done]); [|done].
    apply Forall_app. split; [done|]. constructor; [by apply Hcur|constructor].
Qed.

Lemma wrap_step_words st word done_words :
  is_word word →
  concat (split_whitespace <$> st.1) ++ split_whitespace st.2 = done_words →
  let st' := wrap_step width indent st word in
  concat (split_whitespace <$> st'.1) ++ split_whitespace st'.2
  = done_words ++ [word].
Proof.
  destruct st as [lines current_line]. cbn [fst snd]. intros Hw <-.
  unfold wrap_step.
  pose proof (split_whitespace_indent (Z.to_nat indent) word Hw) as Hind.
  destruct (Z.leb_spec (Z.of_nat (String.length current_line)
                        + Z.of_nat (String.length word) + 1) width) as [Hfit|Hfit];
    destruct (PyStr.nonempty (PyStr.strip current_line)) eqn:Hb; cbn [fst snd].
  - rewrite <- app_assoc. f_equal.
    change (" " +:+ word) with (String " " word).
    by apply split_whitespace_go_snoc.
  - by rewrite Hind, (blank_no_words _ Hb), app_nil_r.
  - rewrite Hind, fmap_app, concat_app. cbn [fmap list_fmap concat].
    by rewrite app_nil_r.
  - by rewrite Hind, (blank_no_words _ Hb), app_nil_r.
Qed.

End Wrap.

(** X24.  No line of wrapped text is longer than the width, unless it is
    a single word (after the indent) that is itself too long to fit. *)
Theorem wrap_text_lines_fit (text : string) (width indent : Z) (line : string) :
  line ∈ wrap_text text width indent →
  fits_or_single text width indent line.
Proof.
  unfold wrap_text.
  destruct (Z.leb_spec (Z.of_nat (String.length text)) width) as [Hfit|Hfit].
  { intros ->%list_elem_of_singleton. by left. }
  assert (Hfold : ∀ ws st,
            (∀ w, w ∈ ws → w ∈ split_whitespace text) →
            Forall (fits_or_single text width indent) st.1 →
            (PyStr.nonempty (PyStr.strip st.2) = true →
             fits_or_single text width indent st.2) →
            let st' := foldl (wrap_step width indent) st ws in
            Forall (fits_or_single text width indent) st'.1 ∧
            (PyStr.nonempty (PyStr.strip st'.2) = true →
             fits_or_single text width indent st'.2)).
  { induction ws as [|w ws IH]; intros st Hsub Hl Hc; [done|].
    cbn [foldl].
    destruct (wrap_step_fits text width indent st w) as [Hl' Hc'];
      [apply Hsub; by left|done|done|].
    apply IH; [intros w' Hw'; apply Hsub; by right|done|done]. }
  specialize (Hfold (split_whitespace text)
                ([], PyStr.repeat_char " " (Z.to_nat indent))
                ltac:(done) ltac:(constructor)).
  cbn [fst snd] in Hfold.
  destruct (foldl _ _ _) as [lines current_line]. cbn [fst snd] in Hfold.
  destruct Hfold as [Hl Hc].
  { by rewrite strip_indent. }
  destruct (PyStr.nonempty (PyStr.strip current_line)) eqn:Hb.
  - intros [Hin|Hin%list_elem_of_singleton]%elem_of_app; [|subst line; by apply Hc].
    by apply (proj1 (Forall_forall _ _) Hl).
  - intros Hin. by apply (proj1 (Forall_forall _ _) Hl).
Qed.

(** X25.  Wrapping loses no word and adds none: the words of the lines
    of the wrapped text, read in order, are the words of the text. *)
Theorem wrap_text_keeps_words (text : string) (width indent : Z) :
  concat (split_whitespace <$> wrap_text text width indent) = split_whitespace text.
Proof.
  unfold wrap_text.
  destruct (Z.leb_spec (Z.of_nat (String.length text)) width) as [Hfit|Hfit].
  { cbn. by rewrite app_nil_r. }
  assert (Hfold : ∀ ws st done_words,
            Forall is_word ws →
            concat (split_whitespace <$> st.1) ++ split_whitespace st.2 = done_words →
            let st' := foldl (wrap_step width indent) st ws in
            concat (split_whitespace <$> st'.1) ++ split_whitespace st'.2
            = done_words ++ ws).
  { induction ws as [|w ws IH]; intros st done_words Hws Hst; cbn [foldl].
    - by rewrite app_nil_r.
    - apply Forall_cons in Hws as [Hw Hws].
      rewrite (IH _ (done_words ++ [w])); [by rewrite <- app_assoc|done|].
      by apply wrap_step_words. }
  specialize (Hfold (split_whitespace text)
                ([], PyStr.repeat_char " " (Z.to_nat indent)) []
                (split_whitespace_words text)).
  cbn [fst snd] in Hfold.
  destruct (foldl _ _ _) as [lines current_line]. cbn [fst snd app] in Hfold.
  rewrite <- Hfold.
  2:{ cbn. apply spaces_no_words. by apply all_chars_repeat. }
  destruct (PyStr.nonempty (PyStr.strip current_line)) eqn:Hb.
  - rewrite fmap_app, concat_app. cbn. by rewrite app_nil_r.
  - by rewrite (blank_no_words _ Hb), app_nil_r.
Qed.

Lemma wrap_text_lines_fit_witness :
  fits_or_single "scan the whole network" 10 2 "  scan the".
Proof.
  apply (wrap_text_lines_fit "scan the whole network" 10 2).
  vm_compute. apply list_elem_of_here.
Defined.

Example wrap_text_lines :
  wrap_text "scan the whole network" 10 2 = ["  scan the"; "  whole"; "  network"].
Proof. reflexivity. Qed.

Example wrap_text_long_word :
  wrap_text "a internationalisation b" 8 0 = ["a"; "internationalisation"; "b"].
Proof. reflexivity. Qed.

(** ** From the probe to the store *)

Lemma probe_has_persisted_keys w known_devices ip dev key :
  scan_ip w known_devices ip = Some dev →
  key ∈ persisted_keys → is_Some (dev !! key).
Proof.
  intros (Hip & _ & Hall)%scan_ip_lookup Hk. unfold persisted_keys in Hk.
  apply elem_of_cons in Hk as [->|Hk]; [by rewrite Hip|].
  apply Hall. unfold probe_keys.
  repeat (apply elem_of_cons in Hk as [->|Hk]; [in_list|]).
  by apply elem_of_nil in Hk.
Qed.

Lemma dict_update_probe w known_devices ip dev d key :
  scan_ip w known_devices ip = Some dev →
  key ∈ persisted_keys → dict_update d dev !! key = dev !! key.
Proof.
  intros Hdev Hk.
  destruct (probe_has_persisted_keys _ _ _ _ _ Hdev Hk) as [v Hv].
  unfold dict_update. by rewrite (lookup_union_Some_l _ _ _ _ Hv).
Qed.

Section Persisted.

Context (live : bool) (w : world) (known_devices : list entry) (ip : string)
  (dev : device).
Hypothesis Hdev : scan_ip w known_devices ip = Some dev.

Lemma collected_carried ip' l l' :
  collected w known_devices ip' l l' → carried dev l → carried dev l'.
Proof.
  destruct 1 as [|j d' dev' Hdev' _ Hf Hd'|dev' _ _ _]; [done|..];
    intros (i & d & Hd & Hkeys).
  - destruct (decide (j = i)) as [->|Hne].
    + assert (d' = d) as -> by congruence.
      destruct (find_existing_found _ _ _ Hf) as (d'' & Hd'' & Hip' & _).
      assert (d'' = d) as -> by congruence.
      assert (ip' = ip) as ->.
      { destruct (scan_ip_lookup _ _ _ _ Hdev) as (Hip & _).
        rewrite (Hkeys "ip"), Hip in Hip' by (unfold persisted_keys; in_list).
        by injection Hip'. }
      assert (dev' = dev) as -> by congruence.
      exists i, (dict_update d dev). split.
      * apply list_lookup_insert_eq. by eapply lookup_lt_Some.
      * intros key Hk. by eapply dict_update_probe.
    + exists i, d. by rewrite list_lookup_insert_ne.
  - exists i, d. split; [|done]. by apply lookup_app_l_Some.
Qed.

Hypothesis Hshown : is_hidden (Dict dev) = false.
Hypothesis Hout : result_times_out w ip = false.

Lemma collect_carries st :
  Forall (λ e, is_Some (subscript e "ip")) (devices st) →
  carried dev (devices (collect live w known_devices st ip)).
Proof.
  intros Hall. unfold collect. rewrite Hout, Hdev.
  unfold is_hidden in Hshown. cbn [subscript] in Hshown.
  destruct (probe_has_persisted_keys _ _ _ _ "status" Hdev) as [status Hs];
    [unfold persisted_keys; in_list|].
  rewrite Hs in Hshown |- *. rewrite Hshown.
  destruct (find_existing_total (devices st) ip Hall) as [[j|] Hf]; rewrite Hf;
    cbn [devices].
  - destruct (find_existing_found _ _ _ Hf) as (d & Hd & _). rewrite Hd.
    exists j, (dict_update d dev). split.
    + apply list_lookup_insert_eq. by eapply lookup_lt_Some.
    + intros key Hk. by eapply dict_update_probe.
  - exists (length (devices st)), dev. split; [|done].
    by rewrite lookup_app_r, Nat.sub_diag.
Qed.

Lemma foldl_collect_carries ips st :
  Forall (λ e, is_Some (subscript e "ip")) (devices st) →
  carried dev (devices st) ∨ ip ∈ ips →
  carried dev (devices (foldl (collect live w known_devices) st ips)).
Proof.
  revert st. induction ips as [|ip' ips IH]; intros st Hall Hor; cbn [foldl].
  - destruct Hor as [H|H]; [done|]. by apply elem_of_nil in H.
  - apply IH.
    + eapply collected_has_ip; [apply collect_collected|done].
    + destruct Hor as [H|H].
      * left. eapply collected_carried; [apply collect_collected|done].
      * apply elem_of_cons in H as [<-|H]; [|by right].
        left. by apply collect_carries.
Qed.

End Persisted.

Lemma collected_storable w known_devices ip l l' :
  collected w known_devices ip l l' → Forall storable l → Forall storable l'.
Proof.
  assert (Hprobe : ∀ dev d, scan_ip w known_devices ip = Some dev →
                            storable (Dict (dict_update d dev)) ∧ storable (Dict dev)).
  { intros dev d Hdev. split; eexists; (split; [done|]); intros key Hk.
    - rewrite (dict_update_probe _ _ _ _ _ _ Hdev).
      + eapply probe_has_persisted_keys; [done|].
        unfold persisted_keys.
        repeat (apply elem_of_cons in Hk as [->|Hk]; [in_list|]).
        by apply elem_of_nil in Hk.
      + unfold persisted_keys.
        repeat (apply elem_of_cons in Hk as [->|Hk]; [in_list|]).
        by apply elem_of_nil in Hk.
    - eapply probe_has_persisted_keys; [done|].
      unfold persisted_keys.
      repeat (apply elem_of_cons in Hk as [->|Hk]; [in_list|]).
      by apply elem_of_nil in Hk. }
  destruct 1 as [|j d dev Hdev _ _ _|dev Hdev _ _]; [done|..]; intros Hall.
  - apply Forall_insert; [done|]. by apply (Hprobe dev d).
  - apply Forall_app. split; [done|]. constructor; [|done]. by apply (Hprobe dev ∅).
Qed.

Lemma stored_shape_storable e : stored_shape e → storable e.
Proof.
  intros (r & -> & Hfive & _). exists r. split; [done|].
  intros key Hk. apply Hfive.
  repeat (apply elem_of_cons in Hk as [->|Hk]; [in_list|]).
  by apply elem_of_nil in Hk.
Qed.

Lemma storable_has_ip l :
  Forall storable l → Forall (λ e, is_Some (subscript e "ip")) l.
Proof.
  intros H. eapply Forall_impl; [exact H|].
  intros e (d & -> & Hk). apply Hk. in_list.
Qed.

Lemma foldl_collect_storable live w known_devices ips st :
  Forall storable (devices st) →
  Forall storable (devices (foldl (collect live w known_devices) st ips)).
Proof.
  revert st. induction ips as [|ip ips IH]; intros st H; [done|].
  cbn [foldl]. apply IH. eapply collected_storable; [apply collect_collected|done].
Qed.

(** A list of storable records is stored to its end, and each record that
    is not hidden is stored with its five fields. *)
Lemma known_records_storable w l :
  Forall storable l →
  (known_records w l).2 = true ∧
  ∀ d, Dict d ∈ l → is_hidden (Dict d) = false →
    ∃ r, Dict r ∈ (known_records w l).1 ∧
         ∀ key, key ∈ persisted_keys → is_Some (d !! key) → r !! key = d !! key.
Proof.
  induction 1 as [|e l (d0 & -> & Hkeys) _ [IHok IH]]; cbn [known_records].
  { split; [done|]. by intros d ?%elem_of_nil. }
  destruct (Hkeys "status") as [status Hs]; [in_list|].
  destruct (Hkeys "ip") as [ip Hi]; [in_list|].
  destruct (Hkeys "hostname") as [hostname Hh]; [in_list|].
  destruct (Hkeys "mac") as [mac Hm]; [in_list|].
  assert (Hrec : known_record w (Dict d0) =
            if eq_str status "hidden" then Some None
            else Some (Some
              (let base : device :=
                 <["ip" := ip]> (<["hostname" := hostname]> (<["mac" := mac]>
                 (<["last_seen" := dict_get_or d0 "last_seen" (VNum (time_store w))]>
                 (<["status" := status]> ∅)))) in
               if truthy mac then
                 match truthy_name (get_mac_vendor_of w mac) with
                 | Some vendor =>
                     if negb (String.eqb vendor "Unknown")
                     then <["vendor" := VStr vendor]> base else base
                 | None => base
                 end
               else base))).
  { unfold known_record. cbn [subscript]. rewrite Hs. cbn [mbind option_bind].
    destruct (eq_str status "hidden"); [done|]. by rewrite Hi, Hh, Hm. }
  rewrite Hrec. destruct (eq_str status "hidden") eqn:Hhid.
  - split; [done|]. intros d [Hd|Hd]%elem_of_cons Hshown; [|by apply IH].
    injection Hd as ->. unfold is_hidden in Hshown. cbn [subscript] in Hshown.
    rewrite Hs in Hshown. congruence.
  - destruct (known_records w l) as [records ok]. cbn [fst snd] in *.
    split; [done|]. intros d [Hd|Hd]%elem_of_cons Hshown.
    + injection Hd as ->. eexists. split; [by left|].
      intros key Hk [v Hv]. cbv zeta.
      set (base := <["ip" := ip]> _).
      assert (Hbase : base !! key = d0 !! key).
      { subst base. unfold persisted_keys in Hk. unfold dict_get_or.
        repeat (apply elem_of_cons in Hk as [->|Hk];
                [simplify_map_eq; by rewrite ?Hv|]).
        by apply elem_of_nil in Hk. }
      assert (Hkv : key ≠ "vendor").
      { intros ->. unfold persisted_keys in Hk.
        repeat (apply elem_of_cons in Hk as [Hk|Hk]; [done|]).
        by apply elem_of_nil in Hk. }
      destruct (truthy mac); [|done].
      destruct (truthy_name (get_mac_vendor_of w mac)); [|done].
      destruct (negb _); [|done]. by rewrite lookup_insert_ne.
    + destruct (IH d Hd Hshown) as (r & Hr & Hrk). exists r. split; [by right|done].
Qed.

(** The store after a scan cycle has the fields of every probe that
    finished and was not hidden. *)
Lemma probe_is_persisted w (known : store) info host_ips ip dev :
  network_hosts w (subnet info) = Some host_ips →
  (∀ idx, pool_starts w idx = true) →
  result_times_out w ip = false →
  Forall stored_shape (default [] (known !! interface info)) →
  ip ∈ host_ips →
  scan_ip w (default [] (known !! interface info)) ip = Some dev →
  is_hidden (Dict dev) = false →
  ∃ r, Dict r ∈ default [] (scan_cycle w known info !! interface info) ∧
       ∀ key, key ∈ persisted_keys → r !! key = dev !! key.
Proof.
  intros Hn Hp Hout Hshape Hin Hdev Hshown.
  set (known_devices := default [] (known !! interface info)) in *.
  assert (Hstor : Forall storable known_devices)
    by (eapply Forall_impl; [done|apply stored_shape_storable]).
  unfold scan_cycle. fold known_devices.
  unfold scan_network_for_devices_live, scan_run, scan_result.
  rewrite Hn, scan_chunks_all_start by done. cbn [fst snd].
  rewrite chunks_of_concat.
  set (st := foldl _ _ _).
  assert (Hcar : carried dev (devices st)).
  { apply (foldl_collect_carries true w known_devices ip dev Hdev Hshown Hout);
      [by apply storable_has_ip|by right]. }
  assert (Hst : Forall storable (devices st))
    by by apply foldl_collect_storable.
  destruct Hcar as (i & d & Hd & Hkeys).
  destruct (known_records_storable w (devices st) Hst) as [Hok Hall].
  destruct (Hall d) as (r & Hr & Hrk).
  { by eapply list_elem_of_lookup_2. }
  { unfold is_hidden in *. cbn [subscript] in *.
    by rewrite (Hkeys "status") by (unfold persisted_keys; in_list). }
  exists r. split.
  - unfold update_known_devices.
    destruct (known_records w (devices st)) as [records ok]. cbn [fst snd] in *.
    by rewrite lookup_insert_eq.
  - intros key Hk. rewrite Hrk; [by apply Hkeys|done|].
    rewrite Hkeys by done. by eapply probe_has_persisted_keys.
Qed.

(** X26.  A host that answers is persisted.  When the records of the
    store are as [update_known_devices] writes them, the worker pools start
    and the task of the host finishes in time, a scan cycle leaves in the
    store a record of every host of the network that answers: it carries
    the host's address, the status the probe found and the time of the
    probe. *)
Theorem responsive_host_is_persisted (w : world) (known : store)
    (info : interface_info) (host_ips : list string) (ip : string) :
  network_hosts w (subnet info) = Some host_ips →
  (∀ idx, pool_starts w idx = true) →
  result_times_out w ip = false →
  Forall stored_shape (default [] (known !! interface info)) →
  ip ∈ host_ips →
  is_responsive (check_device_status w ip) = true →
  ∃ r, Dict r ∈ default [] (scan_cycle w known info !! interface info) ∧
       r !! "ip" = Some (VStr ip) ∧
       r !! "status" = Some (VStr (check_device_status w ip)) ∧
       r !! "last_seen" = Some (VNum (time_time w ip)).
Proof.
  intros Hn Hp Hout Hshape Hin Hresp.
  destruct (scan_ip_total w (default [] (known !! interface info)) ip) as [dev Hdev];
    [by apply stored_shape_core_keys|].
  destruct (probe_reports w _ ip Hresp dev Hdev) as (Hi & Hs & Hl & Hh).
  destruct (probe_is_persisted w known info host_ips ip dev) as (r & Hr & Hk);
    try done.
  exists r. split; [done|].
  rewrite !Hk by (unfold persisted_keys; in_list). done.
Qed.

Lemma nas_record_stored_shape : stored_shape (Dict nas_record).
Proof.
  exists nas_record. split; [done|]. split; [|split].
  - intros k Hk.
    repeat (apply elem_of_cons in Hk as [->|Hk]; [by eexists|]).
    by apply elem_of_nil in Hk.
  - intros k [v Hk]. unfold nas_record in Hk. unfold stored_keys.
    repeat (apply lookup_insert_Some in Hk as [[<- _]|[_ Hk]]; [in_list|]).
    by rewrite lookup_empty in Hk.
  - intros v [= <-]. by exists "Synology".
Qed.

Lemma responsive_host_is_persisted_witness :
  ∃ r, Dict r ∈ default []
         (scan_cycle (answering_world ["192.168.1.5"] [("192.168.1.5", 80%Z)])
            {["en0" := [Dict nas_record]]} home_interface !! "en0") ∧
       r !! "ip" = Some (VStr "192.168.1.5") ∧
       r !! "status" = Some (VStr "standby") ∧
       r !! "last_seen" = Some (VNum 1700000000).
Proof.
  apply (responsive_host_is_persisted
           (answering_world ["192.168.1.5"] [("192.168.1.5", 80%Z)])
           {["en0" := [Dict nas_record]]} home_interface ["192.168.1.5"]
           "192.168.1.5"); try reflexivity.
  - repeat constructor. apply nas_record_stored_shape.
  - apply list_elem_of_here.
Defined.

(** The record the probe builds for a recorded host that does not answer. *)
Lemma scan_ip_silent w known_devices ip kd dev :
  find_known known_devices ip = Some (Some kd) →
  is_responsive (check_device_status w ip) = false →
  scan_ip w known_devices ip = Some dev →
  dev !! "status" = Some (VStr "offline") ∧
  dev !! "hostname" = kd !! "hostname" ∧
  dev !! "mac" = kd !! "mac" ∧
  dev !! "last_seen" = Some (dict_get_or kd "last_seen" (VNum 0)).
Proof.
  intros Hk Hresp. unfold scan_ip.
  assert (Hk' : match known_devices with
                | [] => Some None
                | _ :: _ => find_known known_devices ip
                end = Some (Some kd)) by by destruct known_devices.
  rewrite Hk'. cbn [mbind option_bind]. clear Hk'. rewrite Hresp.
  assert (Hoff : check_device_status w ip = "offline").
  { rewrite check_device_status_spec in Hresp |- *.
    by rewrite (spec_status_unresponsive w true ip Hresp). }
  destruct known_devices as [|e known]; [done|].
  destruct (kd !! "hostname") as [h|] eqn:Hh; [|done]. cbn [mbind option_bind].
  rewrite Hresp. cbn [truthy_name].
  destruct (kd !! "mac") as [v|] eqn:Hv; [|done]. cbn [mbind option_bind].
  intros [= <-]. rewrite Hoff. by simplify_map_eq.
Qed.

(** The record a probe finds for its address is the first record of the
    list that carries it. *)
Lemma find_known_first before k after ip :
  Forall (λ e, is_Some (subscript e "ip")) before →
  Forall (λ e, ip_string e ≠ Some ip) before →
  k !! "ip" = Some (VStr ip) →
  find_known (before ++ Dict k :: after) ip = Some (Some k).
Proof.
  intros Hkeys Hnot Hip. induction before as [|e before IH]; cbn [app find_known].
  - cbn [subscript]. rewrite Hip. cbn. by rewrite String.eqb_refl.
  - apply Forall_cons in Hkeys as [[v Hv] Hkeys]. apply Forall_cons in Hnot as [Hne Hnot].
    destruct e as [d|]; [|done]. rewrite Hv.
    destruct (eq_str v ip) eqn:E; [|by apply IH].
    apply eq_str_inv in E as ->. destruct Hne. unfold ip_string. by rewrite Hv.
Qed.

(** A turn of the collecting loop for another address, or for a task that
    did not finish in time, leaves the record of the address as it is. *)
Lemma collect_leaves live w known_devices st ip' i k ip :
  devices st !! i = Some (Dict k) →
  k !! "ip" = Some (VStr ip) →
  ip' ≠ ip ∨ result_times_out w ip' = true →
  devices (collect live w known_devices st ip') !! i = Some (Dict k).
Proof.
  intros Hi Hip [Hne|Hout]; [|unfold collect; by rewrite Hout].
  pose proof (collect_collected live w known_devices st ip') as Hc.
  destruct Hc as [|j d dev Hdev _ Hf Hd|dev _ _ _]; [done|..].
  - destruct (decide (j = i)) as [->|Hji]; [|by rewrite list_lookup_insert_ne].
    destruct (find_existing_found _ _ _ Hf) as (d' & Hd' & Hip' & _).
    congruence.
  - by apply lookup_app_l_Some.
Qed.

Lemma foldl_collect_leaves live w known_devices ips st i k ip :
  devices st !! i = Some (Dict k) →
  k !! "ip" = Some (VStr ip) →
  ip ∉ ips ∨ result_times_out w ip = true →
  devices (foldl (collect live w known_devices) st ips) !! i = Some (Dict k).
Proof.
  revert st. induction ips as [|ip' ips IH]; intros st Hi Hip Hor; [done|].
  cbn [foldl]. apply IH; [|done|].
  - apply collect_leaves with ip; [done..|].
    destruct Hor as [Hnot|Hout].
    + left. intros ->. apply Hnot. by left.
    + destruct (decide (ip' = ip)) as [->|Hne]; [by right|by left].
  - destruct Hor as [Hnot|Hout]; [|by right].
    left. intros Hin. apply Hnot. by right.
Qed.

(** X27.  A stored device that has gone silent stays in the store whenever
    the scan runs to its end.  When the network parses, every worker pool
    starts and the records of the store are as [update_known_devices] writes
    them, a scan cycle keeps a record of every address of the store whose
    (first) record is not hidden and whose host answers neither the ping nor
    a standby port: it has the name, the MAC and the time stamp of the
    store's record.  Its status is "offline" when the host was probed and
    the task finished in time; when the task did not finish within its three
    seconds, or the address is not among the hosts of the network, the
    record keeps the status the store had. *)
Theorem silent_device_stays_in_store (w : world) (known : store)
    (info : interface_info) (host_ips : list string) (ip : string) (k : device)
    (before after : list entry) :
  network_hosts w (subnet info) = Some host_ips →
  (∀ idx, pool_starts w idx = true) →
  Forall stored_shape (default [] (known !! interface info)) →
  default [] (known !! interface info) = before ++ Dict k :: after →
  Forall (λ e, ip_string e ≠ Some ip) before →
  k !! "ip" = Some (VStr ip) →
  is_hidden (Dict k) = false →
  is_responsive (check_device_status w ip) = false →
  ∃ r, Dict r ∈ default [] (scan_cycle w known info !! interface info) ∧
       r !! "ip" = Some (VStr ip) ∧
       r !! "hostname" = k !! "hostname" ∧
       r !! "mac" = k !! "mac" ∧
       r !! "last_seen" = k !! "last_seen" ∧
       r !! "status" =
         if bool_decide (ip ∈ host_ips) && negb (result_times_out w ip)
         then Some (VStr "offline") else k !! "status".
Proof.
  intros Hn Hp Hshape Hlist Hfirst Hip Hshown Hresp.
  set (known_devices := default [] (known !! interface info)) in *.
  assert (Hk_in : Dict k ∈ known_devices).
  { rewrite Hlist. apply elem_of_app. right. by left. }
  destruct (proj1 (Forall_forall _ _) Hshape _ Hk_in) as (r0 & [= <-] & Hfive & _).
  assert (Hfind : find_known known_devices ip = Some (Some k)).
  { rewrite Hlist. apply find_known_first; [|done..].
    rewrite Hlist in Hshape. apply Forall_app in Hshape as [Hb _].
    eapply Forall_impl; [exact Hb|]. intros e (r & -> & Hkeys & _). apply Hkeys. in_list. }
  destruct (bool_decide (ip ∈ host_ips) && negb (result_times_out w ip)) eqn:Hcase.
  - apply andb_prop in Hcase as [Hin%bool_decide_eq_true Hout%negb_true_iff].
    destruct (scan_ip_total w known_devices ip) as [dev Hdev];
      [by apply stored_shape_core_keys|].
    destruct (scan_ip_silent w known_devices ip k dev Hfind Hresp Hdev)
      as (Hs & Hh & Hm & Hl).
    destruct (probe_is_persisted w known info host_ips ip dev) as (r & Hr & Hk);
      try done.
    { unfold is_hidden. cbn [subscript]. by rewrite Hs. }
    exists r. split; [done|].
    rewrite !Hk by (unfold persisted_keys; in_list).
    destruct (scan_ip_lookup _ _ _ _ Hdev) as (Hi & _).
    repeat split; try done.
    rewrite Hl. unfold dict_get_or.
    destruct (Hfive "last_seen") as [t Ht]; [in_list|]. by rewrite Ht.
  - assert (Hor : ip ∉ host_ips ∨ result_times_out w ip = true).
    { apply andb_false_iff in Hcase as [Hc|Hc].
      - left. by apply bool_decide_eq_false in Hc.
      - right. by apply negb_false_iff in Hc. }
    assert (Hstor : Forall storable known_devices)
      by (eapply Forall_impl; [done|apply stored_shape_storable]).
    unfold scan_cycle. fold known_devices.
    unfold scan_network_for_devices_live, scan_run, scan_result.
    rewrite Hn, scan_chunks_all_start by done. cbn [fst snd].
    rewrite chunks_of_concat.
    set (st := foldl _ _ _).
    assert (Hat : devices st !! length before = Some (Dict k)).
    { apply foldl_collect_leaves with ip; [|done..]. cbn [devices].
      rewrite Hlist. by rewrite lookup_app_r, Nat.sub_diag. }
    assert (Hst : Forall storable (devices st))
      by by apply foldl_collect_storable.
    destruct (known_records_storable w (devices st) Hst) as [Hok Hall].
    destruct (Hall k) as (r & Hr & Hrk); [by eapply list_elem_of_lookup_2|done|].
    exists r. split.
    + unfold update_known_devices.
      destruct (known_records w (devices st)) as [records ok]. cbn [fst snd] in *.
      by rewrite lookup_insert_eq.
    + assert (Hkey : ∀ key, key ∈ persisted_keys → r !! key = k !! key).
      { intros key Hkey. apply Hrk; [done|]. apply Hfive. unfold persisted_keys in Hkey.
        repeat (apply elem_of_cons in Hkey as [->|Hkey]; [in_list|]).
        by apply elem_of_nil in Hkey. }
      rewrite !Hkey by (unfold persisted_keys; in_list). done.
Qed.

Lemma silent_device_stays_in_store_witness :
  ∃ r, Dict r ∈ default []
         (scan_cycle (answering_world ["192.168.1.5"] [])
            {["en0" := [Dict nas_record]]} home_interface !! "en0") ∧
       r !! "ip" = Some (VStr "192.168.1.5") ∧
       r !! "hostname" = nas_record !! "hostname" ∧
       r !! "mac" = nas_record !! "mac" ∧
       r !! "last_seen" = nas_record !! "last_seen" ∧
       r !! "status" = Some (VStr "offline").
Proof.
  apply (silent_device_stays_in_store (answering_world ["192.168.1.5"] [])
           {["en0" := [Dict nas_record]]} home_interface ["192.168.1.5"]
           "192.168.1.5" nas_record [] []); try reflexivity.
  - repeat constructor. apply nas_record_stored_shape.
  - constructor.
Defined.

(** ** The store between scans: hard-earned data *)

Lemma ip_string_dict d ip : ip_string (Dict d) = Some ip ↔ d !! "ip" = Some (VStr ip).
Proof.
  unfold ip_string. cbn [subscript]. destruct (d !! "ip") as [[]|]; split; congruence.
Qed.

(** Records of a list with distinct addresses that carry the same address
    are the same record. *)
Lemma unique_address l a b ip :
  NoDup (omap ip_string l) →
  Dict a ∈ l → Dict b ∈ l →
  a !! "ip" = Some (VStr ip) → b !! "ip" = Some (VStr ip) →
  a = b.
Proof.
  intros Hnd Ha Hb Hia Hib. induction l as [|e l IH]; [by apply elem_of_nil in Ha|].
  assert (Htail : ∀ d, Dict d ∈ l → d !! "ip" = Some (VStr ip) → ip ∈ omap ip_string l).
  { intros d Hd Hi. apply list_elem_of_omap. exists (Dict d). by rewrite ip_string_dict. }
  cbn [omap list_omap] in Hnd. fold (omap ip_string l) in Hnd.
  apply elem_of_cons in Ha as [Ha|Ha], Hb as [Hb|Hb].
  - congruence.
  - subst e. rewrite (proj2 (ip_string_dict a ip) Hia) in Hnd.
    apply NoDup_cons in Hnd as [Hnot _]. destruct Hnot. by eapply Htail.
  - subst e. rewrite (proj2 (ip_string_dict b ip) Hib) in Hnd.
    apply NoDup_cons in Hnd as [Hnot _]. destruct Hnot. by eapply Htail.
  - apply IH; try done. destruct (ip_string e); [by apply NoDup_cons in Hnd as [_ ?]|done].
Qed.

Lemma eq_str_dict_get d ip :
  eq_str (dict_get d "ip") ip = true ↔ d !! "ip" = Some (VStr ip).
Proof.
  unfold dict_get. destruct (d !! "ip") as [v|]; cbn; [|split; done]. split.
  - by intros ->%eq_str_inv.
  - intros [= ->]. cbn. apply String.eqb_refl.
Qed.

(** The record the merge finds for an address is the record of the store
    with that address. *)
Lemma find_stored_unique l stored ip :
  NoDup (omap ip_string l) →
  Dict stored ∈ l → stored !! "ip" = Some (VStr ip) →
  find_stored l ip = Some stored.
Proof.
  intros Hnd Hin Hip.
  assert (Hall : ∀ d, Dict d ∈ l → d !! "ip" = Some (VStr ip) → d = stored).
  { intros d Hd Hi. by eapply unique_address. }
  clear Hnd. induction l as [|e l IH]; [by apply elem_of_nil in Hin|].
  destruct e as [d|]; cbn [find_stored].
  - destruct (eq_str (dict_get d "ip") ip) eqn:E.
    + apply eq_str_dict_get in E. f_equal. apply Hall; [by left|done].
    + apply elem_of_cons in Hin as [Hin|Hin].
      * injection Hin as <-. apply eq_str_dict_get in Hip. congruence.
      * apply IH; [done|]. intros d' Hd'. apply Hall. by right.
  - apply elem_of_cons in Hin as [Hin|Hin]; [done|].
    apply IH; [done|]. intros d' Hd'. apply Hall. by right.
Qed.

(** So is the record a probe finds for its address. *)
Lemma find_known_unique l stored ip r :
  NoDup (omap ip_string l) →
  Dict stored ∈ l → stored !! "ip" = Some (VStr ip) →
  find_known l ip = Some r → r = Some stored.
Proof.
  intros Hnd Hin Hip.
  assert (Hall : ∀ d, Dict d ∈ l → d !! "ip" = Some (VStr ip) → d = stored).
  { intros d Hd Hi. by eapply unique_address. }
  clear Hnd. induction l as [|e l IH]; [by apply elem_of_nil in Hin|].
  cbn [find_known]. destruct e as [d|]; [|done]. cbn [subscript].
  destruct (d !! "ip") as [v|] eqn:Hv; [|done].
  destruct (eq_str v ip) eqn:E.
  - apply eq_str_inv in E as ->. intros [= <-]. f_equal. apply Hall; [by left|done].
  - apply elem_of_cons in Hin as [Hin|Hin].
    + injection Hin as <-. rewrite Hip in Hv. injection Hv as <-.
      cbn in E. by rewrite String.eqb_refl in E.
    + apply IH; [done|]. intros d' Hd'. apply Hall. by right.
Qed.

(** What a probe of a recorded address carries under "hostname" and "mac". *)
Lemma scan_ip_of_stored w known_devices stored ip dev :
  NoDup (omap ip_string known_devices) →
  Dict stored ∈ known_devices → stored !! "ip" = Some (VStr ip) →
  scan_ip w known_devices ip = Some dev →
  kept_or_found w ip stored dev.
Proof.
  intros Hnd Hin Hip. unfold scan_ip.
  assert (Hk : match known_devices with
               | [] => Some None
               | _ :: _ => find_known known_devices ip
               end = find_known known_devices ip).
  { destruct known_devices; [by apply elem_of_nil in Hin|done]. }
  rewrite Hk. clear Hk.
  destruct (find_known known_devices ip) as [r|] eqn:Hf; [|done].
  apply (find_known_unique _ _ _ _ Hnd Hin Hip) in Hf as ->.
  cbn [mbind option_bind].
  destruct (is_responsive (check_device_status w ip)) eqn:Hresp.
  - rewrite get_device_identifier_truthy. cbn [mbind option_bind]. rewrite Hresp.
    destruct (truthy_name (get_mac_address w ip)) as [m|] eqn:Hm.
    + cbn [mbind option_bind]. intros [= <-]. split.
      * right. by simplify_map_eq.
      * right. exists m. split; [|split; [by eapply truthy_name_nonempty|by simplify_map_eq]].
        destruct (get_mac_address w ip) as [m'|]; [|done]. cbn in Hm.
        destruct (PyStr.nonempty m'); congruence.
    + destruct (stored !! "mac") as [v|] eqn:Hv; [|done]. cbn [mbind option_bind].
      intros [= <-]. split.
      * right. by simplify_map_eq.
      * left. by simplify_map_eq.
  - destruct known_devices as [|e known]; [by apply elem_of_nil in Hin|].
    destruct (stored !! "hostname") as [h|] eqn:Hh; [|done]. cbn [mbind option_bind].
    rewrite Hresp. cbn [truthy_name].
    destruct (stored !! "mac") as [v|] eqn:Hv; [|done]. cbn [mbind option_bind].
    intros [= <-]. split; left; by simplify_map_eq.
Qed.

Lemma collected_kept_or_found w known_devices stored ip ip' l l' :
  NoDup (omap ip_string known_devices) →
  Dict stored ∈ known_devices → stored !! "ip" = Some (VStr ip) →
  collected w known_devices ip' l l' →
  (∀ d, Dict d ∈ l → d !! "ip" = Some (VStr ip) → kept_or_found w ip stored d) →
  (∀ d, Dict d ∈ l' → d !! "ip" = Some (VStr ip) → kept_or_found w ip stored d).
Proof.
  intros Hnd Hin Hip Hc Hl.
  assert (Hprobe : ∀ dev d0 d,
    scan_ip w known_devices ip' = Some dev →
    d = dict_update d0 dev ∨ d = dev →
    d !! "ip" = Some (VStr ip) → kept_or_found w ip stored d).
  { intros dev d0 d Hdev Hd Hi.
    assert (ip' = ip) as ->.
    { destruct Hd as [->| ->].
      - pose proof (ip_string_update _ _ _ _ d0 Hdev) as H.
        apply ip_string_dict in H. congruence.
      - destruct (scan_ip_lookup _ _ _ _ Hdev) as (H & _). congruence. }
    destruct (scan_ip_of_stored _ _ _ _ _ Hnd Hin Hip Hdev) as [Hh Hm].
    destruct Hd as [->| ->]; [|done].
    unfold kept_or_found.
    rewrite !(dict_update_probe _ _ _ _ d0 _ Hdev) by (unfold persisted_keys; in_list).
    done. }
  destruct Hc as [|i d0 dev Hdev _ Hf Hd0|dev Hdev _ _]; [done|..]; intros d Hd Hi.
  - apply list_elem_of_lookup in Hd as [j Hj].
    destruct (decide (j = i)) as [->|Hne].
    + rewrite list_lookup_insert_eq in Hj by by eapply lookup_lt_Some.
      injection Hj as <-. eapply Hprobe; [done|by left|done].
    + rewrite list_lookup_insert_ne in Hj by done.
      apply Hl; [by eapply list_elem_of_lookup_2|done].
  - apply elem_of_app in Hd as [Hd|Hd]; [by apply Hl|].
    apply list_elem_of_singleton in Hd. injection Hd as ->.
    eapply (Hprobe dev ∅); [done|by right|done].
Qed.

(** A record the rewrite of the store writes comes from a record of the
    list it is given. *)
Lemma known_records_from w l r :
  Dict r ∈ (known_records w l).1 →
  ∃ dev, Dict dev ∈ l ∧ known_record w (Dict dev) = Some (Some r).
Proof.
  induction l as [|e l IH]; cbn [known_records]; [by intros ?%elem_of_nil|].
  destruct (known_record w e) as [[r0|]|] eqn:Hr.
  - destruct (known_records w l) as [records ok]. cbn [fst] in *.
    intros [Hd|Hd]%elem_of_cons.
    + injection Hd as <-. destruct e as [dev|]; [|done].
      exists dev. split; [by left|done].
    + destruct (IH Hd) as (dev & Hin & Hdev). exists dev. split; [by right|done].
  - intros Hd. destruct (IH Hd) as (dev & Hin & Hdev). exists dev. split; [by right|done].
  - by intros ?%elem_of_nil.
Qed.

Lemma vendor_of_mac_code w mac :
  (if truthy mac then
     match truthy_name (get_mac_vendor_of w mac) with
     | Some vendor =>
         if String.eqb vendor "Unknown" then None else Some (VStr vendor)
     | None => None
     end
   else None) = vendor_of_mac w mac.
Proof.
  destruct mac as [|b|n|m|b]; cbn [truthy get_mac_vendor_of vendor_of_mac truthy_name].
  - done.
  - by destruct b.
  - by destruct (negb _).
  - destruct m as [|a m]; [done|]. cbn [PyStr.nonempty].
    destruct (get_mac_vendor w (String a m)) as [vendor|]; [|done].
    destruct vendor as [|c vendor]; cbn [truthy_name PyStr.nonempty].
    + by rewrite bool_decide_eq_false_2 by (intros [? _]; done).
    + destruct (String.eqb_spec (String c vendor) "Unknown") as [E|E].
      * by rewrite bool_decide_eq_false_2 by (intros [_ ?]; done).
      * by rewrite bool_decide_eq_true_2.
  - by destruct b.
Qed.

Lemma known_record_fields w dev r :
  known_record w (Dict dev) = Some (Some r) →
  r !! "ip" = dev !! "ip" ∧
  r !! "hostname" = dev !! "hostname" ∧ r !! "mac" = dev !! "mac" ∧
  r !! "vendor" = vendor_of_mac w (dict_get r "mac").
Proof.
  intros H. destruct (known_record_copies _ _ _ H) as (Hh & Hm & Hv).
  assert (Hi : r !! "ip" = dev !! "ip").
  { revert H. unfold known_record. cbn [subscript].
    destruct (dev !! "status") as [status|]; [|done]. cbn [mbind option_bind].
    destruct (eq_str status "hidden"); [done|].
    destruct (dev !! "ip") as [ip|]; [|done].
    destruct (dev !! "hostname") as [hostname|]; [|done].
    destruct (dev !! "mac") as [mac|]; [|done]. cbn [mbind option_bind].
    intros [= <-].
    destruct (truthy mac); [|by simplify_map_eq].
    destruct (truthy_name (get_mac_vendor_of w mac)) as [vendor|]; [|by simplify_map_eq].
    destruct (negb _); by simplify_map_eq. }
  repeat split; try done.
  rewrite Hv, vendor_of_mac_code. unfold dict_get. by rewrite Hm.
Qed.

Lemma kept_or_found_truthy w ip stored d :
  kept_or_found w ip stored d →
  (truthy (dict_get stored "hostname") = true → truthy (dict_get d "hostname") = true) ∧
  (truthy (dict_get stored "mac") = true → truthy (dict_get d "mac") = true).
Proof.
  intros [Hh Hm]. unfold dict_get. split.
  - destruct Hh as [->| ->]; [done|]. intros _. cbn.
    pose proof (get_device_identifier_truthy w ip) as H.
    apply truthy_name_nonempty in H. by apply nonempty_true.
  - destruct Hm as [->|(m & _ & Hne & ->)]; [done|]. intros _. cbn.
    by apply nonempty_true.
Qed.

(** The records of the store after a scan cycle. *)
Lemma scan_cycle_records w (known : store) info stored ip r :
  NoDup (omap ip_string (default [] (known !! interface info))) →
  Dict stored ∈ default [] (known !! interface info) →
  stored !! "ip" = Some (VStr ip) →
  Dict r ∈ default [] (scan_cycle w known info !! interface info) →
  r !! "ip" = Some (VStr ip) →
  kept_or_found w ip stored r ∧ r !! "vendor" = vendor_of_mac w (dict_get r "mac").
Proof.
  intros Hnd Hin Hip. set (known_devices := default [] (known !! interface info)) in *.
  unfold scan_cycle. fold known_devices. unfold update_known_devices.
  set (devs := scan_network_for_devices_live w info known_devices).
  destruct (known_records w devs) as [records ok] eqn:Hrec. cbn [fst].
  rewrite lookup_insert_eq. cbn [default from_option id].
  intros Hr Hri.
  assert (Hr' : Dict r ∈ (known_records w devs).1) by by rewrite Hrec.
  apply known_records_from in Hr' as (dev & Hdev & Hk).
  destruct (known_record_fields _ _ _ Hk) as (Hi & Hh & Hm & Hv).
  split; [|done].
  assert (Hinv : ∀ d, Dict d ∈ devs → d !! "ip" = Some (VStr ip) →
                      kept_or_found w ip stored d).
  { subst devs. unfold scan_network_for_devices_live, scan_result, scan_run.
    destruct (network_hosts w (subnet info)) as [host_ips|];
      [|intros d ?%elem_of_nil; done].
    destruct (scan_chunks true w known_devices 0 (chunks_of host_ips) _).2 eqn:Hok;
      [|intros d ?%elem_of_nil; done].
    apply (scan_chunks_invariant true w known_devices
             (λ l, ∀ d, Dict d ∈ l → d !! "ip" = Some (VStr ip) →
                        kept_or_found w ip stored d)).
    - intros ip' l l' Hc Hl. by eapply collected_kept_or_found.
    - cbn [devices]. intros d Hd Hdi.
      assert (d = stored) as -> by by eapply unique_address.
      split; by left. }
  destruct (Hinv dev Hdev) as [Hkh Hkm]; [congruence|].
  unfold kept_or_found. by rewrite Hh, Hm.
Qed.

(** C2.  Hard-earned data.  The store's record of an address is the record
    of the store's list for the interface that carries it, addresses being
    distinct.  In the merge of the view, when that record's hostname, MAC or
    vendor is non-empty while the scanned device's is empty or missing, the
    merged record carries the stored value, and it is this merged record
    that the merge files under the device's network.  In the store, the
    record a scan cycle writes for the address carries, under hostname and
    under MAC, the value the store had or the non-empty one the probe found:
    never an empty value where the store had a non-empty one.  The vendor is
    not carried over: it is the one the lookup gives for the MAC of the
    record that is written. *)
Theorem hard_earned_data_kept (w : world) (info : interface_info) (known : store)
    (stored : device) (ip : string) :
  let known_devices := default [] (known !! interface info) in
  NoDup (omap ip_string known_devices) →
  Dict stored ∈ known_devices →
  stored !! "ip" = Some (VStr ip) →
  (∀ devs d field,
     ip ≠ EmptyString →
     d !! "ip" = Some (VStr ip) →
     field ∈ ["hostname"; "mac"; "vendor"] →
     truthy (dict_get stored field) = true →
     truthy (dict_get d field) = false →
     ∃ merged,
       merge_device info known_devices (Dict d) = Emit (network_key_of info ip) merged ∧
       merged !! field = stored !! field ∧
       truthy (dict_get merged field) = true ∧
       (∀ g, Dict d ∈ devs →
             merge_known_devices info devs known_devices = Some g →
             merged ∈ default [] (g !! network_key_of info ip))) ∧
  (∀ r, Dict r ∈ default [] (scan_cycle w known info !! interface info) →
        r !! "ip" = Some (VStr ip) →
        (r !! "hostname" = stored !! "hostname" ∨
         r !! "hostname" = Some (VStr (get_device_identifier w ip))) ∧
        (r !! "mac" = stored !! "mac" ∨
         ∃ m, get_mac_address w ip = Some m ∧ m ≠ EmptyString ∧
              r !! "mac" = Some (VStr m)) ∧
        (truthy (dict_get stored "hostname") = true →
         truthy (dict_get r "hostname") = true) ∧
        (truthy (dict_get stored "mac") = true →
         truthy (dict_get r "mac") = true) ∧
        r !! "vendor" = vendor_of_mac w (dict_get r "mac")).
Proof.
  intros known_devices Hnd Hin Hip. split.
  - intros devs d field Hne Hd Hf Hs Hprobe.
    pose proof (find_stored_unique _ _ _ Hnd Hin Hip) as Hst.
    eexists. split; [by apply merge_device_emits|].
    assert (Hfield : field ≠ "status" ∧ field ≠ "network_context").
    { rewrite !elem_of_cons in Hf.
      destruct Hf as [->|[->|[->|Hf]]]; [done..|by apply elem_of_nil in Hf]. }
    assert (Hnz : stored ≠ ∅).
    { intros ->. by rewrite lookup_empty in Hip. }
    assert (Hm : validate_context info (network_key_of info ip)
                   (merge_stored d (find_stored known_devices ip)) !! field
                 = stored !! field).
    { rewrite validate_context_other by tauto.
      rewrite Hst, merge_stored_field by done. by rewrite Hprobe, Hs. }
    split; [done|]. split.
    + unfold dict_get at 1. rewrite Hm. apply Hs.
    + intros g Hdin Hg.
      apply (merge_known_devices_holds _ _ _ _ _ _ _ Hg Hdin).
      by apply merge_device_emits.
  - intros r Hr Hri.
    destruct (scan_cycle_records w known info stored ip r Hnd Hin Hip Hr Hri)
      as [Hk Hv].
    destruct (kept_or_found_truthy _ _ _ _ Hk) as [Hth Htm].
    destruct Hk as [Hh Hm]. done.
Qed.

(** The stored record of the NAS: against a probe that found nothing in
    the merge, and over a scan cycle in which the NAS does not answer. *)
Lemma hard_earned_data_kept_witness :
  (∃ merged,
     merge_device home_interface [Dict nas_record] (Dict nas_probe) =
       Emit "192.168.1.0/24" merged ∧
     merged !! "hostname" = Some (VStr "nas.local") ∧
     merged !! "mac" = Some (VStr "AA:BB:CC:DD:EE:FF") ∧
     merged !! "vendor" = Some (VStr "Synology")) ∧
  (∃ r, Dict r ∈ default []
          (scan_cycle (answering_world ["192.168.1.5"] [])
             {["en0" := [Dict nas_record]]} home_interface !! "en0") ∧
        r !! "ip" = Some (VStr "192.168.1.5") ∧
        truthy (dict_get r "hostname") = true ∧
        truthy (dict_get r "mac") = true ∧
        r !! "vendor" = None).
Proof.
  destruct (hard_earned_data_kept (answering_world ["192.168.1.5"] []) home_interface
              {["en0" := [Dict nas_record]]} nas_record "192.168.1.5")
    as [Hview Hstore].
  - vm_compute. apply NoDup_singleton.
  - apply list_elem_of_here.
  - reflexivity.
  - split.
    + pose proof (λ field Hfield Hstored Hprobe,
        Hview [Dict nas_probe] nas_probe field
          ltac:(discriminate) eq_refl Hfield Hstored Hprobe) as Hkept.
      destruct (Hkept "hostname" ltac:(in_list) eq_refl eq_refl) as (m & Hm & Hh & _).
      destruct (Hkept "mac" ltac:(in_list) eq_refl eq_refl) as (m2 & Hm2 & Hmac & _).
      destruct (Hkept "vendor" ltac:(in_list) eq_refl eq_refl) as (m3 & Hm3 & Hv & _).
      rewrite Hm in Hm2, Hm3. injection Hm2 as <-. injection Hm3 as <-.
      exists m. split; [exact Hm|]. split; [exact Hh|]. split; [exact Hmac|exact Hv].
    + change (interface home_interface) with "en0" in Hstore.
      rewrite store_drops_foreign_vendor in Hstore |- *.
      eexists. split; [apply list_elem_of_here|]. split; [reflexivity|].
      edestruct Hstore as (_ & _ & Hh & Hm & Hv);
        [apply list_elem_of_here|reflexivity|].
      split; [by apply Hh|]. split; [by apply Hm|]. rewrite Hv. reflexivity.
Defined.

(** The vendor of the NAS was not found by the lookup: one scan cycle in
    which the NAS does not answer, and the store has lost it. *)
Lemma persisted_vendor_is_lost :
  ¬ ∀ (w : world) (info : interface_info) (known : store) (stored : device)
      (ip : string),
      NoDup (omap ip_string (default [] (known !! interface info))) →
      Dict stored ∈ default [] (known !! interface info) →
      stored !! "ip" = Some (VStr ip) →
      truthy (dict_get stored "vendor") = true →
      ∀ r, Dict r ∈ default [] (scan_cycle w known info !! interface info) →
           r !! "ip" = Some (VStr ip) →
           r !! "vendor" = stored !! "vendor".
Proof.
  intros H.
  specialize (H (answering_world ["192.168.1.5"] []) home_interface
                {["en0" := [Dict nas_record]]} nas_record "192.168.1.5").
  change (interface home_interface) with "en0" in H.
  rewrite store_drops_foreign_vendor in H.
  specialize (H ltac:(vm_compute; apply NoDup_singleton) ltac:(apply list_elem_of_here)
                eq_refl eq_refl _ ltac:(apply list_elem_of_here) eq_refl).
  discriminate H.
Qed.

(** ** The live callback *)

Lemma collect_delivered w known_devices st ip :
  Forall (λ e, is_Some (subscript e "ip")) (devices st) →
  delivered (collect true w known_devices st ip)
  = delivered st ++ from_option (λ dev, [dev]) [] (shown_probe w known_devices ip).
Proof.
  intros Hall. unfold collect, shown_probe.
  destruct (result_times_out w ip); [by rewrite app_nil_r|].
  destruct (scan_ip w known_devices ip) as [dev|] eqn:Hdev; [|by rewrite app_nil_r].
  destruct (scan_ip_lookup _ _ _ _ Hdev) as (_ & _ & Hkeys).
  destruct (Hkeys "status") as [status Hs]; [unfold probe_keys; in_list|].
  unfold is_hidden. cbn [subscript]. rewrite Hs.
  destruct (eq_str status "hidden"); [by rewrite app_nil_r|].
  by destruct (find_existing_total (devices st) ip Hall) as [found ->].
Qed.

Lemma foldl_collect_delivered w known_devices ips st :
  Forall (λ e, is_Some (subscript e "ip")) (devices st) →
  delivered (foldl (collect true w known_devices) st ips)
  = delivered st ++ omap (shown_probe w known_devices) ips.
Proof.
  revert st. induction ips as [|ip ips IH]; intros st Hall;
    cbn [foldl omap list_omap]; [by rewrite app_nil_r|].
  rewrite IH by (eapply collected_has_ip; [apply collect_collected|done]).
  rewrite collect_delivered by done.
  destruct (shown_probe w known_devices ip); cbn [from_option];
    by rewrite <- ?app_assoc, ?app_nil_r.
Qed.

(** X28.  The live callback is handed every probe that is shown, once
    and in the order of the addresses.  When the worker pools start and
    every record of the store has an address, the devices the live scanner
    delivers are exactly the records of the probes that finished in time and
    were not hidden, one for each host of the network in turn. *)
Theorem live_callback_gets_every_shown_probe (w : world) (info : interface_info)
    (known_devices : list entry) (host_ips : list string) :
  network_hosts w (subnet info) = Some host_ips →
  (∀ idx, pool_starts w idx = true) →
  Forall (λ e, is_Some (subscript e "ip")) known_devices →
  live_callbacks w info known_devices
  = omap (shown_probe w known_devices) host_ips.
Proof.
  intros Hn Hp Hall. unfold live_callbacks, scan_run.
  rewrite Hn, scan_chunks_all_start by done. cbn [fst].
  by rewrite chunks_of_concat, foldl_collect_delivered.
Qed.

Lemma live_callback_gets_every_shown_probe_witness :
  live_callbacks one_of_two lab_interface []
  = omap (shown_probe one_of_two []) two_hosts.
Proof.
  apply (live_callback_gets_every_shown_probe one_of_two lab_interface [] two_hosts);
    [reflexivity|reflexivity|constructor].
Defined.

(** ** The scanners on an empty store *)

Lemma get_mac_address_nonempty w ip mac :
  get_mac_address w ip = Some mac → mac ≠ EmptyString.
Proof.
  intros (text & m & Hm & ->)%get_mac_address_matched.
  apply search_mac_normal in Hm. by destruct (normalize_mac_match m).
Qed.

(** Without a store the probe of the engine is the probe of the command
    line. *)
Lemma scan_ip_empty_store w ip : scan_ip w [] ip = scan_single_ip w ip.
Proof.
  unfold scan_ip, scan_single_ip. cbn [mbind option_bind].
  destruct (is_responsive (check_device_status w ip)) eqn:Hresp.
  - rewrite get_device_identifier_truthy. cbn [mbind option_bind default from_option id].
    rewrite Hresp.
    destruct (get_mac_address w ip) as [mac|] eqn:Hmac; [|done].
    apply get_mac_address_nonempty in Hmac. cbn [truthy_name from_option].
    by destruct mac.
  - reflexivity.
Qed.

Lemma collect_empty_store live w st ip :
  Forall (λ e, is_Some (subscript e "ip")) (devices st) →
  ip ∉ omap ip_string (devices st) →
  devices (collect live w [] st ip) = collect_single w (devices st) ip.
Proof.
  intros Hall Hnew. unfold collect, collect_single.
  destruct (result_times_out w ip); [done|].
  rewrite scan_ip_empty_store.
  destruct (scan_single_ip w ip) as [dev|] eqn:Hdev; [|done].
  assert (Hne : dev ≠ ∅).
  { rewrite <- scan_ip_empty_store in Hdev.
    destruct (scan_ip_lookup _ _ _ _ Hdev) as (Hip & _).
    intros ->. by rewrite lookup_empty in Hip. }
  rewrite bool_decide_eq_false_2 by done. cbn [negb].
  destruct (dev !! "status") as [status|]; [|done].
  destruct (eq_str status "hidden"); [done|].
  destruct (find_existing_total (devices st) ip Hall) as [[i|] Hf]; rewrite Hf;
    [|done].
  destruct (find_existing_found _ _ _ Hf) as (d & Hd & Hip & _).
  destruct Hnew. apply list_elem_of_omap. exists (Dict d).
  split; [by eapply list_elem_of_lookup_2|].
  unfold ip_string. cbn [subscript]. by rewrite Hip.
Qed.

Lemma collect_single_addresses w l ip :
  ∀ x, x ∈ omap ip_string (collect_single w l ip) → x ∈ omap ip_string l ∨ x = ip.
Proof.
  intros x. rewrite collect_single_answering.
  unfold answering_record. destruct (result_times_out w ip); [rewrite app_nil_r; by left|].
  destruct (is_responsive _); [|rewrite app_nil_r; by left].
  destruct (scan_single_ip w ip) as [dev|] eqn:Hdev; [|rewrite app_nil_r; by left].
  cbn [fmap option_fmap option_map from_option]. rewrite omap_app.
  intros [?|Hx]%elem_of_app; [by left|]. right.
  rewrite <- scan_ip_empty_store in Hdev.
  cbn [omap list_omap] in Hx. rewrite (ip_string_probe _ _ _ _ Hdev) in Hx.
  by apply list_elem_of_singleton in Hx.
Qed.

Lemma foldl_collect_empty_store live w ips st :
  NoDup ips →
  Forall (λ e, is_Some (subscript e "ip")) (devices st) →
  (∀ ip, ip ∈ ips → ip ∉ omap ip_string (devices st)) →
  devices (foldl (collect live w []) st ips)
  = foldl (collect_single w) (devices st) ips.
Proof.
  revert st. induction ips as [|ip ips IH]; intros st Hnd Hall Hnew; [done|].
  apply NoDup_cons in Hnd as [Hip Hnd]. cbn [foldl].
  rewrite IH; [|done| |].
  - by rewrite collect_empty_store by (done || (apply Hnew; by left)).
  - eapply collected_has_ip; [apply collect_collected|done].
  - intros ip' Hin. rewrite collect_empty_store by (done || (apply Hnew; by left)).
    intros [Hold| ->]%collect_single_addresses; [|done].
    by apply (Hnew ip'); [right|].
Qed.

(** X29.  On an empty store the scanners of the engine and the scanner
    of the command line agree.  For a network whose host addresses are
    distinct and not none, when no interrupt is pressed and every pool
    starts, the batch scanner and the live scanner, given no stored
    records, return the list that the scanner with the progress bar
    returns. *)
Theorem scanners_agree_on_empty_store (w : world) (info : interface_info)
    (host_ips : list string) :
  network_hosts w (subnet info) = Some host_ips →
  NoDup host_ips →
  host_ips ≠ [] →
  (∀ j, interrupt_pressed w j = false ∧ pool_starts w j = true) →
  scan_network_for_devices w info [] = scan_network_for_devices_with_progress w info ∧
  scan_network_for_devices_live w info []
  = scan_network_for_devices_with_progress w info.
Proof.
  intros Hn Hnd Hne Hok.
  assert (Hprog : scan_network_for_devices_with_progress w info
                  = foldl (collect_single w) [] host_ips).
  { unfold scan_network_for_devices_with_progress. rewrite Hn.
    rewrite (progress_chunks_run w 0 _ [] (length (chunks_of host_ips)))
      by (done || (intros j _; apply Hok)).
    rewrite drop_all, take_ge, chunks_of_concat by done.
    cbn [progress_chunks app]. rewrite foldl_collect_single.
    by destruct host_ips. }
  assert (Hrun : ∀ live, scan_result (scan_run live w info [])
                         = foldl (collect_single w) [] host_ips).
  { intros live. unfold scan_run.
    rewrite Hn, scan_chunks_all_start by (intros idx; apply Hok).
    unfold scan_result. cbn [fst snd]. rewrite chunks_of_concat.
    apply (foldl_collect_empty_store live w host_ips
             {| devices := []; delivered := [] |}); [done|constructor|].
    intros ip _. apply not_elem_of_nil. }
  rewrite Hprog. split; [apply (Hrun false)|apply (Hrun true)].
Qed.

Lemma scanners_agree_on_empty_store_witness :
  scan_network_for_devices one_of_two lab_interface []
  = scan_network_for_devices_with_progress one_of_two lab_interface ∧
  scan_network_for_devices_live one_of_two lab_interface []
  = scan_network_for_devices_with_progress one_of_two lab_interface.
Proof.
  apply (scanners_agree_on_empty_store one_of_two lab_interface two_hosts).
  - reflexivity.
  - repeat constructor; [|apply not_elem_of_nil].
    intros H%list_elem_of_singleton. discriminate H.
  - discriminate.
  - intros j. split; reflexivity.
Defined.
